(* ===== verification/_CoqProject ===== *)
-Q . S2P
Prelude.v
Proto.v
ReadStates.v
EventStore.v
EventApi.v
SessionStore.v
Cache.v
Storage.v
PushServer.v
Standalone.v
Hub.v
Cluster.v
Delivery.v
Flow.v
Logs.v
Roster.v
Keepalive.v
GoLib.v
Json.v
JsonFacts.v
Goroutines.v
Shutdown.v
Main.v
Profile.v
Wire.v
Poison.v
Assembly.v
