(* ===== verification/Prelude.v ===== *)
(** * Minipush: a verification library

    Minipush pushes events to the browsers of users.  Business servers write
    events to a Kafka topic; the leader consumes them, stores them in MySQL,
    numbers them per user, and announces the new number ("head") of each user;
    the hubs hold the websocket connections, deliver heads and serve requests
    for events.  A leader limits how many sessions a user may have.  A
    standalone server is both in one process.

    ** Files

    - [Prelude.v] (this file): machine integers, errors and panics, Go map
      iteration, [sort.Slice], pointers, shared lemmas and tactics.
    - [Proto.v]: the messages of [proto/api.pb.go].
    - [ReadStates.v]: [store/util.go]; read states packed into base64 blocks, and
      the day arithmetic of the clean-up.
    - [EventStore.v]: [store/event.go] over the tables of [docs/mysql.sql].  The
      state is [conn]: the tables and the number of calls made, with which the
      server's answers ([MySQL]: failing statements, lost commit answers, cut-off
      row iterations) are looked up.  One definition per SQL statement and per
      method.  The abstract specification is [apply_event]; a [Save] refines it.
    - [EventApi.v]: [ws/eventapi.go] and the interface [store.IEventStore], a
      class with [EventStore.v] as an instance.
    - [SessionStore.v]: [cluster/sessionstore.go], over a heap of sessions that
      the callers share.
    - [Cache.v]: [cache] of [cluster/eventstore.go], with the [float64] arithmetic
      of its ageing; as whole calls, and as steps that interleave.
    - [Storage.v]: the rest of [cluster/eventstore.go] and [cluster/util.go].  The
      consume loop is a state machine ([consume_pc]); with the send and delete
      loops it forms [storage_step].  What it needs of a store is the class
      [NumberedStore], discharged for [EventStore.v].
    - [PushServer.v]: [cluster/server.go]; [Route] is cut at the points where it
      waits ([Route_open], [Route_msg], [Route_error]); [server_step] interleaves
      all goroutines.
    - [Standalone.v]: [cluster/standalone.go].
    - [Hub.v]: [ws/hub.go], [ws/hstore.go], [ws/handler.go]; handlers with bounded
      channels that can be full or closed, [hub_step] for all goroutines.
    - [Cluster.v]: [cluster/cluster.go] and [cluster/client.go]; configuration,
      request routing and the channel of a node.
    - [Delivery.v]: [Storage.v] and [Hub.v] composed into one system ([sys_step]),
      from the topic to the browser; the whole [Handler.sendLoop].
    - [Flow.v]: the steps of that system in which nothing fails ([flow_step]).
    - [Logs.v]: the abstract specification of the event store, one log per user
      ([log_apply], [read_log]); [log_of] reads the logs off the tables.
    - [Roster.v]: [Hub.v] and [PushServer.v] composed ([roster_step]): the reports
      of a hub and the leader's store of its sessions.
    - [Keepalive.v]: pings, pongs and the read deadline of [ws/handler.go] in time
      ([ka_step]).
    - [GoLib.v]: the parts of [strconv] and [net] that the start-up uses.
    - [Json.v], [JsonFacts.v]: [encoding/json] on the structures that the program
      encodes and decodes, with the tags of [proto/api.pb.go].
    - [Goroutines.v]: programs of channel, lock, wait-group and context
      operations, their interleavings, and a checker for them.
    - [Shutdown.v]: the goroutines of a follower, a leader and a standalone server
      as such programs, from start to stop.
    - [Main.v]: [main.go] and [auth/mock.go]; flags, pid file, start-up, cookie.
    - [Profile.v]: [profile.go] and the signal loop of [main.go].
    - [Wire.v]: the path of a message with the concrete JSON codec, and the demo
      producer [dev/demo/main.go].
    - [Poison.v]: an event that can never be saved ([savable]) on its way from a
      browser to the consumer.
    - [Assembly.v]: [NewCluster], [NewStandalone], [newClient] applied to the
      configuration that [Main.v] computes; the head of [Run]; from an HTTP request
      to a session.

    ** What the theorems show

    - Storing: [Save] is atomic and exactly-once under failures and lost
      commits, numbers are consecutive per user and never reused, and saving
      succeeds when the server answers (C1 to C6); what the queries return (C18,
      C20, C22, [SetRead_correct], [DeleteOutdatedEvents_correct]); all methods
      together refine one append-only log per user (C27).
    - Consuming: heads are pushed in increasing order and none is lost, nothing is
      committed before it is saved, a message delivered again does not crash the
      consumer (C7 to C10); the steps of the cache, taken together, are its whole
      calls ([check_steps_refine]).
    - Hub: it does not panic, reports a session offline at most once, delivers
      heads to exactly the sessions of the user, answers each request once and
      hides storage errors (C11 to C13, C17); the sender of a closed session ends
      (C39); the read deadline cuts off exactly the browsers that do not answer
      (C23); a request opens the session it should ([request_opens_session]).
    - The whole path: the heads a browser is told are strictly increasing and
      never ahead of the store, in every run of the composed system (C24), and
      the events behind them can be read (C38); a head on its way can always be
      brought to the sessions of its user, unless a sender was lost (C21); a
      message that a browser sends is the message that the consumer decodes
      (C30); a request decoded from any bytes is well typed (C40).
    - Leader and standalone: the quota is enforced on the oldest sessions when a
      session comes online and at each tick, the session maps stay consistent,
      and the two servers agree (C14 to C16, C25, [Run_online_correct]); the leader
      knows the sessions of a hub up to lost reports and its own sweeps (C36).
    - Node and process: a node with one role keeps its messages in order (C34),
      accepted flags are safe (C35) and give components that fit together
      ([started_process_consistent]).
    - Stopping: from every reachable state a follower can stop, with one exception
      (C26); a standalone server can when it is idle and can hang when it is not
      (C31); a leader cannot get through its clean-up (C29).
    - Behaviour of the code that its authors will not want, each as a theorem
      about the same definitions: a message that stops the consumer (C19), a lost
      head in the cache (C28), a write error that blocks the hub (C32), the
      shared channel of a combined node (C33), a leader that a forwarded message
      crashes (C37); and, next to the components,
      [kicked_session_survives_next_tick], [kicked_never_reported],
      [reconnect_race], [failed_reread_panics] and
      [EventApi_GetEvents_limit_not_enforced].

    ** Conventions and bounds

    An [int32] or [int64] is a [Z] with the wrap-around written out where the
    source computes.  [result] is a Go error return, [go] a computation that can
    panic; a hub operation that blocks on a full channel is [Ret None].  The
    iteration order of a Go map is a [GoRange], arbitrary per call site.  Loops
    over data are structural; [for] loops that run forever are step relations,
    so no fuel is needed there.  [GoLib.parseIPv6_loop] has fuel 8: every round
    writes two of the sixteen bytes.  [Json.parse] has two units of fuel per byte
    and two more; [JsonFacts.parse_enough_fuel] shows that more fuel never changes
    the result.  The sets of states in [Shutdown.v] are computed with a bound of
    60000 states and then checked to be closed, so the bound assumes nothing; the
    channels there have the capacities of the source.  Kafka, MySQL, gRPC and
    the time-zone database are parameters (classes [IKafkaWriter], [MySQL],
    [GrpcStreams], and [midnight]); so is JSON where only the interface matters
    (classes [Json] and [ClientJson], which [Wire.v] instantiates with [Json.v]).

    ** Not modelled

    Listening and dialling beyond their outcome, TLS, the HTTP upgrade,
    frames, timers and deadlines other than those of [Keepalive.v], logs and
    metrics; the protobuf codec and other generated code; mocks; the interface
    of the chat store, which has no implementation. [jsonpb], which writes the
    answers to the browser, is a library under none of the sources; answers
    are followed up to the structure that is handed to it. In [Shutdown.v] a
    node has one role; a follower has no sessions, and a standalone server at
    most one whose connection breaks. *)

From stdpp Require Import base option list numbers gmap strings sorting.
From Stdlib Require Import ZArith Lia.

(** * Machine integers

    Go's [int32] and [int64] are kept as [Z]; every arithmetic operation of
    the source that can leave the range is followed by an explicit wrap. *)

Declare Scope go_scope.
Delimit Scope go_scope with go.

Definition wrap32 (z : Z) : Z := ((z + 2 ^ 31) mod 2 ^ 32 - 2 ^ 31)%Z.
Definition wrap64 (z : Z) : Z := ((z + 2 ^ 63) mod 2 ^ 64 - 2 ^ 63)%Z.

Definition MaxInt32 : Z := 2147483647%Z.
Definition in_int32 (z : Z) : Prop := (- 2 ^ 31 ≤ z < 2 ^ 31)%Z.
Definition in_int64 (z : Z) : Prop := (- 2 ^ 63 ≤ z < 2 ^ 63)%Z.

(** * Errors and panics

    A Go function that returns [(T, error)] becomes a function into
    [result E T]; a function that can panic becomes a function into [go T]. *)

Inductive result (E A : Type) : Type :=
| Ok (a : A)
| Err (e : E).
Arguments Ok {E A} a.
Arguments Err {E A} e.

(** The value of a successful call, for examples that evaluate one. *)
Definition ok_or {E A} (d : A) (r : result E A) : A :=
  match r with Ok a => a | Err _ => d end.

Inductive go (A : Type) : Type :=
| Ret (a : A)
| Panic (why : string).
Arguments Ret {A} a.
Arguments Panic {A} why.

Definition go_bind {A B} (c : go A) (k : A → go B) : go B :=
  match c with
  | Ret a => k a
  | Panic w => Panic w
  end.

Notation "'let!' x := c 'in' k" := (go_bind c (λ x, k))
  (at level 10, x name, c at level 200, k at level 200) : go_scope.
Open Scope go_scope.

(** [xs[start:end]] of a Go slice whose capacity is its length. *)
Definition go_subslice {A} (l : list A) (start stop : nat) : go (list A) :=
  if bool_decide (start ≤ stop ∧ stop ≤ length l)
  then Ret (take (stop - start) (drop start l))
  else Panic "slice bounds out of range".

(** * Iteration over Go maps

    The order in which [for k, v := range m] visits a map is unspecified, and
    two loops over the same map may use different orders.  A [GoRange] fixes
    one order for every call site [i]; every theorem of the development is
    proved for all of them. *)

Class GoRange := {
  range : nat → ∀ {K V : Type} `{Countable K}, gmap K V → list (K * V);
  range_perm : ∀ i (K V : Type) `{Countable K} (m : gmap K V),
    range i m ≡ₚ map_to_list m
}.

(** The order used by the concrete examples. *)
Definition canonical_range : GoRange := {|
  range := λ _ K V _ _ m, map_to_list m;
  range_perm := λ _ K V _ _ m, reflexivity _
|}.

(** The opposite order: examples evaluate under both. *)
Definition reversed_range : GoRange := {|
  range := λ _ K V _ _ m, reverse (map_to_list m);
  range_perm := λ _ K V _ _ m, reverse_Permutation _
|}.

(** * sort.Slice

    [sort.Slice(xs, func(i, j int) bool { return key(xs[i]) < key(xs[j]) })].
    The library sort is not stable; the slices sorted by the program are filled
    from map iterations, so a stable sort of an arbitrarily ordered slice
    already produces every order the library may give to equal keys. *)
Definition key_le {A} (key : A → Z) (a b : A) : Prop := (key a ≤ key b)%Z.

#[export] Instance key_le_dec {A} (key : A → Z) a b : Decision (key_le key a b).
Proof. unfold key_le. apply _. Defined.

Definition sort_by {A} (key : A → Z) (l : list A) : list A :=
  merge_sort (key_le key) l.

(** * Pointers

    A Go pointer is a location; the objects it may reach live in a heap that
    the operations thread explicitly, so that two holders of one pointer see
    each other's writes. *)
Abbreviation loc := positive (only parsing).

(** * Generic lemmas *)

Create HintDb minipush.
Create Rewrite HintDb minipush_rw.

#[export] Instance key_le_total {A} (key : A → Z) : Total (key_le key).
Proof. intros a b. unfold key_le. lia. Qed.

#[export] Instance key_le_trans {A} (key : A → Z) : Transitive (key_le key).
Proof. intros a b c. unfold key_le. lia. Qed.

Lemma wrap32_id z : in_int32 z → wrap32 z = z.
Proof. unfold in_int32, wrap32. intros ?. rewrite Z.mod_small; lia. Qed.

Lemma wrap64_id z : in_int64 z → wrap64 z = z.
Proof. unfold in_int64, wrap64. intros ?. rewrite Z.mod_small; lia. Qed.

Lemma wrap32_range z : in_int32 (wrap32 z).
Proof.
  unfold in_int32, wrap32.
  pose proof (Z.mod_pos_bound (z + 2 ^ 31) (2 ^ 32)). lia.
Qed.

Lemma sort_by_perm {A} (key : A → Z) (l : list A) : sort_by key l ≡ₚ l.
Proof. apply merge_sort_Permutation. Qed.

Lemma sort_by_sorted {A} (key : A → Z) (l : list A) :
  StronglySorted (key_le key) (sort_by key l).
Proof. apply StronglySorted_merge_sort; apply _. Qed.

Lemma sort_by_length {A} (key : A → Z) (l : list A) :
  length (sort_by key l) = length l.
Proof. by rewrite sort_by_perm. Qed.

Lemma sort_by_elem {A} (key : A → Z) (l : list A) x :
  x ∈ sort_by key l ↔ x ∈ l.
Proof. by rewrite sort_by_perm. Qed.

(** The first [n] elements of the sorted slice are the [n] smallest. *)
Lemma sort_by_take_le {A} (key : A → Z) (l : list A) n x y :
  x ∈ take n (sort_by key l) → y ∈ drop n (sort_by key l) → (key x ≤ key y)%Z.
Proof.
  intros Hx Hy. pose proof (sort_by_sorted key l) as Hs.
  rewrite <-(take_drop n (sort_by key l)) in Hs.
  by apply (StronglySorted_app_1_elem_of _ _ _ x y Hs).
Qed.

Lemma range_elem `{GoRange} i {K V} `{Countable K} (m : gmap K V) k v :
  (k, v) ∈ range i m ↔ m !! k = Some v.
Proof. rewrite range_perm. apply elem_of_map_to_list. Qed.

Lemma range_NoDup_fst `{GoRange} i {K V} `{Countable K} (m : gmap K V) :
  NoDup (range i m).*1.
Proof. rewrite range_perm. apply NoDup_fst_map_to_list. Qed.

Lemma range_singleton `{GoRange} i {K V} `{Countable K} (k : K) (v : V) :
  range i ({[k := v]} : gmap K V) = [(k, v)].
Proof. apply Permutation_singleton_r. by rewrite range_perm, map_to_list_singleton. Qed.

Lemma list_filter_nil {A} (P : A → Prop) `{∀ x, Decision (P x)} (l : list A) :
  (∀ x, x ∈ l → ¬ P x) → filter P l = [].
Proof.
  intros Hn. destruct (filter P l) as [|x k] eqn:E; [done|].
  assert (Hx : x ∈ filter P l) by (rewrite E; by left).
  apply list_elem_of_filter in Hx as [Hp Hx]. by destruct (Hn x Hx).
Qed.

Lemma list_filter_all {A} (P : A → Prop) `{∀ x, Decision (P x)} (l : list A) :
  (∀ x, x ∈ l → P x) → filter P l = l.
Proof.
  induction l as [|x l IH]; intros Hall; [done|]. rewrite filter_cons, decide_True by (apply Hall; by left).
  f_equal. apply IH. intros. apply Hall. by right.
Qed.

Lemma omap_sublist {A B} (f : A → option B) (l1 l2 : list A) :
  l1 `sublist_of` l2 → omap f l1 `sublist_of` omap f l2.
Proof.
  induction 1 as [|x l1 l2 _ IH|x l1 l2 _ IH]; simpl; [done|..]; destruct (f x); [by apply sublist_skip|done|by apply sublist_cons|done].
Qed.

Lemma Forall_sublist {A} (P : A → Prop) (l1 l2 : list A) :
  l1 `sublist_of` l2 → Forall P l2 → Forall P l1.
Proof. intros Hs. rewrite !Forall_forall. eauto using elem_of_sublist. Qed.

Lemma StronglySorted_sublist {A} (R : relation A) (l1 l2 : list A) :
  l1 `sublist_of` l2 → StronglySorted R l2 → StronglySorted R l1.
Proof.
  induction 1 as [|x l1 l2 Hs IH|x l1 l2 Hs IH]; [done|..]; intros Hl; inversion_clear Hl; [|by apply IH].
  constructor; [by apply IH|by eapply Forall_sublist].
Qed.

Lemma StronglySorted_reverse {A} (R : relation A) (l : list A) :
  StronglySorted R l → StronglySorted (flip R) (reverse l).
Proof.
  induction 1 as [|x l _ IH Hx]; [constructor|]. rewrite reverse_cons. apply StronglySorted_app. split_and!.
  - intros y z Hy Hz. apply list_elem_of_singleton in Hz as ->. rewrite elem_of_reverse in Hy.
    unfold flip. rewrite Forall_forall in Hx. by apply Hx.
  - done.
  - repeat constructor.
Qed.

(** A list that is strictly sorted is determined by its elements. *)
Lemma StronglySorted_ext {A} (R : relation A) (l1 l2 : list A) :
  (∀ x y, R x y → ¬ R y x) → StronglySorted R l1 → StronglySorted R l2 →
  (∀ x, x ∈ l1 ↔ x ∈ l2) → l1 = l2.
Proof.
  intros Has Hs1. revert l2. induction Hs1 as [|x l1 Hs1 IH Hx]; intros l2 Hs2 Heq.
  { destruct l2 as [|y l2]; [done|]. exfalso. apply (not_elem_of_nil y), Heq. by left. }
  destruct Hs2 as [|y l2 Hs2 Hy]; [exfalso; apply (not_elem_of_nil x), Heq; by left|].
  rewrite Forall_forall in Hx, Hy.
  assert (x = y) as <-.
  { assert (Hxy : x ∈ y :: l2) by (apply Heq; by left). apply elem_of_cons in Hxy as [|Hxy]; [done|].
    assert (Hyx : y ∈ x :: l1) by (apply Heq; by left). apply elem_of_cons in Hyx as [|Hyx]; [done|].
    destruct (Has x y (Hx y Hyx)). by apply Hy. }
  f_equal. apply IH; [done|]. intros z. specialize (Heq z). rewrite !elem_of_cons in Heq.
  assert (Hirr : ∀ w, ¬ R w w) by (intros w Hw; by apply (Has w w)).
  split; intros Hz.
  - destruct (proj1 Heq (or_intror Hz)) as [->|]; [|done]. destruct (Hirr x). by apply Hx.
  - destruct (proj2 Heq (or_intror Hz)) as [->|]; [|done]. destruct (Hirr x). by apply Hy.
Qed.

Lemma seqZ_ascending (m n : Z) : StronglySorted Z.lt (seqZ m n).
Proof.
  unfold seqZ. generalize 0%nat (Z.to_nat n). intros i k. revert i. induction k as [|k IH]; intros i; simpl; constructor; [apply IH|].
  apply Forall_fmap, Forall_forall. intros j Hj%elem_of_seq. simpl. lia.
Qed.

Lemma StronglySorted_weaken {A} (R R' : relation A) (l : list A) :
  (∀ x y, R x y → R' x y) → StronglySorted R l → StronglySorted R' l.
Proof. intros HR. induction 1 as [|x l _ IH Hx]; constructor; [done|]. eapply Forall_impl; [exact Hx|]. intros y. apply HR. Qed.

(** A key that is sorted, and a partial map that keeps the key. *)
Lemma StronglySorted_key {A B} (R : relation B) (key : A → B) (l : list A) :
  StronglySorted R (key <$> l) → StronglySorted (λ a b, R (key a) (key b)) l.
Proof.
  induction l as [|x l IH]; simpl; [constructor|]. intros Hs. inversion_clear Hs as [|?? Hl Hx].
  constructor; [by apply IH|exact (proj1 (Forall_fmap _ _ _) Hx)].
Qed.

Lemma StronglySorted_omap {A B} (R : relation B) (key : A → B) (f : B → option A) (l : list B) :
  (∀ x y, f x = Some y → key y = x) → StronglySorted R l →
  StronglySorted (λ a b, R (key a) (key b)) (omap f l).
Proof.
  intros Hf. induction 1 as [|x l Hl IH Hx]; simpl; [constructor|]. destruct (f x) as [y|] eqn:Hy; [|done].
  constructor; [done|]. apply Forall_forall. intros z (x' & Hin & Hz)%list_elem_of_omap.
  rewrite (Hf _ _ Hy), (Hf _ _ Hz). rewrite Forall_forall in Hx. by apply Hx.
Qed.

#[export] Hint Resolve wrap32_range : minipush.
#[export] Hint Rewrite @sort_by_length : minipush_rw.

(** Case analysis on the [match] and [if] of a definition that has been
    unfolded, with the resulting equations simplified. *)
Ltac go_cases :=
  repeat (case_match || case_decide || case_bool_decide); simplify_eq/=.

(** [lia] on goals with [/] and [mod] by constants. *)
Ltac zlia := Z.to_euclidean_division_equations; lia.
