(* ===== verification/Proto.v ===== *)
(** The protocol messages of [proto/api.pb.go], as the Go structs have them.

    A pointer field is an [option]; a [map] field is a [gmap]; [int32] and
    [int64] are [Z].  The messages that carry [*pb.Session] pointers are
    parameterised by the representation of the pointer: [loc] inside one
    process, where hub and leader share the object, and [pb_Session] on the
    gRPC wire, where the receiver gets its own copy. *)

From Stdlib Require Import Ascii.
From stdpp Require Import base option list numbers gmap strings.
From S2P Require Import Prelude.

(** * Data structures of the event calls *)

Record pb_Event := {
  Event_Uid : Z;
  Event_Seq : Z;
  Event_CreateTime : Z;
  Event_Payload : string;
  Event_ReadState : bool
}.

Record pb_WsConf := {
  EventTtlDays : Z;
  GetEventsLimit : Z;
  EnableClientMsg : bool;
  MaxMsgSize : Z
}.

Record pb_GetEventsReq := { FromSeq : Z; ToSeq : Z }.

Record pb_GetEventsResp := { Events : list pb_Event }.

Record pb_StatsReq := { CountUnread : bool }.

Record pb_StatsResp := {
  StatsResp_Conf : option pb_WsConf;
  StatsResp_HeadSeq : Z;
  StatsResp_UnreadCount : Z
}.

Record pb_GetReadStatesReq := { GetReadStatesReq_HeadSeq : Z }.

Record pb_GetReadStatesResp_Block := {
  Block_Seq : Z;
  Block_Len : Z;
  Block_Base64 : list ascii
}.

Record pb_GetReadStatesResp := { Blocks : list pb_GetReadStatesResp_Block }.

Record pb_SetReadReq := { SetReadReq_Seq : Z }.

Record pb_SetReadResp := { SetReadResp_Seq : Z; Changed : bool }.

Record pb_E2EMsg := {
  E2EMsg_Type : string;
  E2EMsg_From : Z;
  E2EMsg_To : list Z;
  E2EMsg_Props : gmap string string;
  E2EMsg_Body : string
}.

(** Message of a websocket client. *)
Record pb_ClientMsg := {
  ClientMsg_Stats : option pb_StatsReq;
  ClientMsg_GetEvents : option pb_GetEventsReq;
  ClientMsg_SetRead : option pb_SetReadReq;
  ClientMsg_GetReadStates : option pb_GetReadStatesReq;
  ClientMsg_Im : option pb_E2EMsg
}.

Record pb_Error := {
  Error_Code : Z;
  Error_Params : list string;
  Error_Req : option pb_ClientMsg
}.

(** Message to a websocket client. *)
Record pb_ServerMsg := {
  ServerMsg_Error : option pb_Error;
  ServerMsg_HeadSeq : Z;
  ServerMsg_Kickoff : bool;
  ServerMsg_Stats : option pb_StatsResp;
  ServerMsg_GetEvents : option pb_GetEventsResp;
  ServerMsg_GetReadStates : option pb_GetReadStatesResp;
  ServerMsg_SetRead : option pb_SetReadResp
}.

(** * Data structures of the cluster *)

Record pb_Session := {
  HubId : string;
  Uid : Z;
  Sid : string;
  Ip : string;
  CreateTime : Z;
  KickoffTime : Z
}.

(** The assignments [sess.HubId = h] and [sess.KickoffTime = t]. *)
Definition set_HubId (h : string) (s : pb_Session) : pb_Session := {|
  HubId := h; Uid := Uid s; Sid := Sid s; Ip := Ip s;
  CreateTime := CreateTime s; KickoffTime := KickoffTime s |}.

Definition set_KickoffTime (t : Z) (s : pb_Session) : pb_Session := {|
  HubId := HubId s; Uid := Uid s; Sid := Sid s; Ip := Ip s;
  CreateTime := CreateTime s; KickoffTime := t |}.

(** [P] is the representation of a [*pb.Session]. *)
Record pb_FollowerMsg (P : Type) := {
  SessionOnline : option P;
  SessionOffline : string;
  SyncSessions : list P;
  FollowerMsg_ServerShutdown : bool;
  FollowerMsg_E2EMsg : option pb_E2EMsg
}.
Arguments SessionOnline {P} _.
Arguments SessionOffline {P} _.
Arguments SyncSessions {P} _.
Arguments FollowerMsg_ServerShutdown {P} _.
Arguments FollowerMsg_E2EMsg {P} _.

Record pb_LeaderMsg := {
  LeaderMsg_HeadSeq : gmap Z Z;
  LeaderMsg_Kickoff : list string;
  LeaderMsg_ServerShutdown : bool
}.

(** The Go composite literals that set one field and leave the others zero. *)
Definition ServerMsg_zero : pb_ServerMsg := {|
  ServerMsg_Error := None; ServerMsg_HeadSeq := 0; ServerMsg_Kickoff := false;
  ServerMsg_Stats := None; ServerMsg_GetEvents := None;
  ServerMsg_GetReadStates := None; ServerMsg_SetRead := None |}.

Definition ClientMsg_zero : pb_ClientMsg := {|
  ClientMsg_Stats := None; ClientMsg_GetEvents := None; ClientMsg_SetRead := None;
  ClientMsg_GetReadStates := None; ClientMsg_Im := None |}.

Definition FollowerMsg_zero {P} : pb_FollowerMsg P := {|
  SessionOnline := None; SessionOffline := ""; SyncSessions := [];
  FollowerMsg_ServerShutdown := false; FollowerMsg_E2EMsg := None |}.

Definition LeaderMsg_zero : pb_LeaderMsg := {|
  LeaderMsg_HeadSeq := ∅; LeaderMsg_Kickoff := [];
  LeaderMsg_ServerShutdown := false |}.

Definition Session_zero : pb_Session := {|
  HubId := ""; Uid := 0; Sid := ""; Ip := ""; CreateTime := 0; KickoffTime := 0 |}.

#[export] Instance pb_Session_inhabited : Inhabited pb_Session := populate Session_zero.

#[export] Instance pb_Session_eq_dec : EqDecision pb_Session.
Proof. solve_decision. Defined.
#[export] Instance pb_Event_eq_dec : EqDecision pb_Event.
Proof. solve_decision. Defined.
#[export] Instance pb_LeaderMsg_eq_dec : EqDecision pb_LeaderMsg.
Proof. solve_decision. Defined.
