(* ===== verification/ReadStates.v ===== *)
(** [store/util.go]: the compressed read-state bitmap and the TTL cut-off day.

    [boolSliceToBytes] packs a slice of booleans into bytes, most significant
    bit first; [MakeGetReadStatesResp] splits a slice of sequence numbers into
    blocks and encodes the read states of each block with Go's standard base64
    encoding; [GetDayBefore] computes the instant before which events are
    outdated. *)

From Stdlib Require Import Ascii.
From stdpp Require Import base option list numbers gmap strings sorting.
From Stdlib Require Import ZArith Lia.
From S2P Require Import Prelude Proto.

#[local] Arguments Nat.modulo : simpl never.
#[local] Arguments Nat.div : simpl never.
#[local] Arguments Nat.sub : simpl never.

(** * boolSliceToBytes *)

(** The body of [for i, v := range slice]; [byteSlice] is the array being filled. *)
Fixpoint boolSliceToBytes_loop (i : nat) (slice : list bool) (byteSlice : list Z)
    : list Z :=
  match slice with
  | [] => byteSlice
  | v :: rest =>
      let x := i / 8 in
      let y := i mod 8 in
      boolSliceToBytes_loop (S i) rest
        (if v then alter (λ b, Z.lor b (Z.shiftl 1 (Z.of_nat (7 - y)))) x byteSlice
         else byteSlice)
  end.

Definition boolSliceToBytes (slice : list bool) : list Z :=
  let numBytes := length slice / 8 in
  let numBytes := if bool_decide (0 < length slice mod 8) then S numBytes else numBytes in
  boolSliceToBytes_loop 0 slice (replicate numBytes 0%Z).

(** * base64.StdEncoding *)

Definition base64_alphabet : string :=
  "ABCDEFGHIJKLMNOPQRSTUVWXYZabcdefghijklmnopqrstuvwxyz0123456789+/".

(** [enc.encode[v]] for a six-bit value. *)
Definition base64_char (v : Z) : ascii :=
  default "="%char (String.get (Z.to_nat v) base64_alphabet).

(** The six bits of [val] that start at bit [n]. *)
Definition sextet (val n : Z) : Z := Z.land (Z.shiftr val n) 63.

Fixpoint base64_EncodeToString (src : list Z) : list ascii :=
  match src with
  | [] => []
  | [b0] =>
      let val := Z.shiftl b0 16 in
      [base64_char (sextet val 18); base64_char (sextet val 12); "="%char; "="%char]
  | [b0; b1] =>
      let val := Z.lor (Z.shiftl b0 16) (Z.shiftl b1 8) in
      [base64_char (sextet val 18); base64_char (sextet val 12);
       base64_char (sextet val 6); "="%char]
  | b0 :: b1 :: b2 :: rest =>
      let val := Z.lor (Z.lor (Z.shiftl b0 16) (Z.shiftl b1 8)) b2 in
      base64_char (sextet val 18) :: base64_char (sextet val 12) ::
      base64_char (sextet val 6) :: base64_char (sextet val 0) ::
      base64_EncodeToString rest
  end.

(** * MakeGetReadStatesResp *)

(** The first loop: the indices at which a new block starts. *)
Fixpoint block_starts (i : nat) (lastSeq : Z) (seqSlice : list Z) : list nat :=
  match seqSlice with
  | [] => []
  | seq :: rest =>
      if bool_decide (wrap32 (lastSeq + 1) < seq)%Z
      then i :: block_starts (S i) seq rest
      else block_starts (S i) seq rest
  end.

(** The second loop, over the remaining elements of [blockAt]. *)
Fixpoint make_blocks (seqSlice : list Z) (readStates : list bool) (blockAt : list nat)
    : go (list pb_GetReadStatesResp_Block) :=
  match blockAt with
  | [] => Ret []
  | start :: rest =>
      let stop := match rest with
                  | next :: _ => next
                  | [] => length readStates
                  end in
      let! boolSlice := go_subslice readStates start stop in
      let byteSlice := boolSliceToBytes boolSlice in
      let encoded := base64_EncodeToString byteSlice in
      match seqSlice !! start with
      | None => Panic "index out of range"
      | Some s =>
          let! blocks := make_blocks seqSlice readStates rest in
          Ret ({| Block_Seq := s;
                  Block_Len := wrap32 (Z.of_nat (length boolSlice));
                  Block_Base64 := encoded |} :: blocks)
      end
  end.

(** The source's error result is always [nil]. *)
Definition MakeGetReadStatesResp (seqSlice : list Z) (readStates : list bool)
    : go pb_GetReadStatesResp :=
  if bool_decide (length seqSlice = 0 ∨ length readStates = 0)
  then Ret {| Blocks := [] |}
  else
    let blockAt := block_starts 0 (-1) seqSlice in
    let! blocks := make_blocks seqSlice readStates blockAt in
    Ret {| Blocks := blocks |}.

(** * GetDayBefore *)

Definition nanosecond_per_hour : Z := 3600000000000%Z.

(** [days += 1; offset := time.Duration(days*24) * time.Hour]: the product
    [days*24] is computed in [int32], the multiplication by the hour in
    [int64]. *)
Definition ttl_offset (days : Z) : Z :=
  let days := wrap32 (days + 1) in
  wrap64 (wrap32 (days * 24) * nanosecond_per_hour).

(** [midnight t] is [time.Date(d.Year(), d.Month(), d.Day(), 0, 0, 0, 0,
    time.Local)] for the instant [t], which depends on the time-zone database
    of the machine.  Instants are nanoseconds since the epoch. *)
Definition GetDayBefore (midnight : Z → Z) (now : Z) (days : Z) : Z :=
  midnight (now + wrap64 (- ttl_offset days))%Z.

(** * Reference decoders

    What a client does with a block: [base64ToByteArray], [byteArrayToBoolArray]
    and the loop over the block.  These definitions are the specification the
    encoder is checked against. *)

Definition byte_to_bools (b : Z) : list bool :=
  (λ k, Z.testbit b (Z.of_nat (7 - k))) <$> seq 0 8.

Definition bytes_to_bools (bytes : list Z) : list bool := bytes ≫= byte_to_bools.

Fixpoint string_index (c : ascii) (s : string) : option Z :=
  match s with
  | EmptyString => None
  | String a s' => if decide (a = c) then Some 0%Z else Z.succ <$> string_index c s'
  end.

Definition base64_val (c : ascii) : option Z := string_index c base64_alphabet.

Fixpoint base64_Decode (src : list ascii) : option (list Z) :=
  match src with
  | [] => Some []
  | c0 :: c1 :: c2 :: c3 :: rest =>
      v0 ← base64_val c0;
      v1 ← base64_val c1;
      let b0 := Z.lor (Z.shiftl v0 2) (Z.shiftr v1 4) in
      if decide (c2 = "="%char) then
        (if decide (c3 = "="%char ∧ rest = []) then Some [b0] else None)
      else
        v2 ← base64_val c2;
        let b1 := Z.land (Z.lor (Z.shiftl v1 4) (Z.shiftr v2 2)) 255 in
        if decide (c3 = "="%char) then
          (if decide (rest = []) then Some [b0; b1] else None)
        else
          v3 ← base64_val c3;
          let b2 := Z.land (Z.lor (Z.shiftl v2 6) v3) 255 in
          tl ← base64_Decode rest;
          Some (b0 :: b1 :: b2 :: tl)
  | _ => None
  end.

Definition block_bools (b : pb_GetReadStatesResp_Block) : option (list bool) :=
  bytes ← base64_Decode (Block_Base64 b);
  Some (take (Z.to_nat (Block_Len b)) (bytes_to_bools bytes)).

(** The [(seq, read state)] pairs of a block whose sequence numbers grow by
    [step] from [Block_Seq]: [step = 1] for ascending blocks, [step = -1] for
    the descending blocks of [proto/api.proto]. *)
Definition block_decode (step : Z) (b : pb_GetReadStatesResp_Block) : option (list (Z * bool)) :=
  bools ← block_bools b;
  Some (imap (λ i v, (Block_Seq b + step * Z.of_nat i, v)%Z) bools).

Definition resp_decode (step : Z) (r : pb_GetReadStatesResp) : option (list (Z * bool)) :=
  mjoin <$> mapM (block_decode step) (Blocks r).

(** * Bit packing *)

(** Bit [j] of the packed array, in the order of the boolean slice. *)
Definition bit_at (bytes : list Z) (j : nat) : bool :=
  match bytes !! (j / 8) with
  | Some b => Z.testbit b (Z.of_nat (7 - j mod 8))
  | None => false
  end.

Definition is_byte (b : Z) : Prop := (0 ≤ b < 256)%Z.

Lemma boolSliceToBytes_loop_length i slice bytes :
  length (boolSliceToBytes_loop i slice bytes) = length bytes.
Proof.
  revert i bytes. induction slice as [|v rest IH]; intros i bytes; simpl; [done|].
  rewrite IH. destruct v; [apply length_alter | done].
Qed.

Lemma is_byte_set_bit b k :
  (k ≤ 7) → is_byte b → is_byte (Z.lor b (Z.shiftl 1 (Z.of_nat k))).
Proof.
  unfold is_byte. intros Hk [Hb0 Hb].
  assert (Hs : (0 ≤ Z.shiftl 1 (Z.of_nat k) < 2 ^ 8)%Z).
  { rewrite Z.shiftl_mul_pow2 by lia. split; [lia|].
    rewrite Z.mul_1_l. apply Z.pow_lt_mono_r; lia. }
  split; [apply Z.lor_nonneg; lia|].
  change 256%Z with (2 ^ 8)%Z in *.
  destruct (decide (Z.lor b (Z.shiftl 1 (Z.of_nat k)) = 0)%Z) as [->|Hne]; [lia|].
  apply Z.log2_lt_pow2; [pose proof (Z.lor_nonneg b (Z.shiftl 1 (Z.of_nat k))); lia|].
  rewrite Z.log2_lor by lia. apply Z.max_lub_lt.
  - destruct (decide (b = 0)%Z) as [->|]; [done|]. apply Z.log2_lt_pow2; lia.
  - apply Z.log2_lt_pow2; [rewrite Z.shiftl_mul_pow2 by lia|]; lia.
Qed.

Lemma boolSliceToBytes_loop_bytes i slice bytes :
  Forall is_byte bytes → Forall is_byte (boolSliceToBytes_loop i slice bytes).
Proof.
  revert i bytes. induction slice as [|v rest IH]; intros i bytes Hb; simpl; [done|].
  apply IH. destruct v; [|done].
  apply Forall_alter; [done|]. intros b _ Hib. apply is_byte_set_bit; [lia|done].
Qed.

(** Setting the bit of index [i] changes that bit and no other. *)
Lemma bit_at_set i bytes j :
  i < 8 * length bytes →
  bit_at (alter (λ b, Z.lor b (Z.shiftl 1 (Z.of_nat (7 - i mod 8)))) (i / 8) bytes) j
  = bit_at bytes j || bool_decide (j = i).
Proof.
  intros Hi. unfold bit_at.
  destruct (decide (j / 8 = i / 8)) as [Hd|Hd].
  - rewrite Hd, list_lookup_alter_eq.
    destruct (lookup_lt_is_Some_2 bytes (i / 8)) as [b Hb].
    { apply Nat.Div0.div_lt_upper_bound. lia. }
    rewrite Hb. simpl. rewrite Z.lor_spec. f_equal.
    pose proof (Nat.mod_upper_bound i 8). pose proof (Nat.mod_upper_bound j 8).
    pose proof (Nat.div_mod_eq i 8). pose proof (Nat.div_mod_eq j 8).
    rewrite Z.shiftl_spec by lia.
    destruct (decide (j = i)) as [->|Hne].
    + rewrite Z.sub_diag. by rewrite bool_decide_eq_true_2.
    + rewrite bool_decide_eq_false_2 by done.
      change 1%Z with (2 ^ 0)%Z. apply Z.pow2_bits_false. lia.
  - rewrite list_lookup_alter_ne by done.
    rewrite bool_decide_eq_false_2 by congruence. by rewrite orb_false_r.
Qed.

Lemma boolSliceToBytes_loop_bit i slice bytes j :
  i + length slice ≤ 8 * length bytes →
  bit_at (boolSliceToBytes_loop i slice bytes) j
  = bit_at bytes j || (bool_decide (i ≤ j) && default false (slice !! (j - i))).
Proof.
  revert i bytes. induction slice as [|v rest IH]; intros i bytes Hlen; cbn [boolSliceToBytes_loop length] in *.
  { by rewrite lookup_nil, andb_false_r, orb_false_r. }
  rewrite IH by (destruct v; rewrite ?length_alter; lia).
  assert (Hbit : bit_at (if v then alter (λ b, Z.lor b (Z.shiftl 1 (Z.of_nat (7 - i mod 8)))) (i / 8) bytes
                         else bytes) j = bit_at bytes j || (v && bool_decide (j = i))).
  { destruct v; [by apply bit_at_set; lia | by rewrite orb_false_r]. }
  rewrite Hbit, <-orb_assoc. f_equal.
  destruct (decide (j = i)) as [->|Hne].
  - rewrite Nat.sub_diag, (bool_decide_eq_true_2 (i = i)), (bool_decide_eq_true_2 (i ≤ i)),
      (bool_decide_eq_false_2 (S i ≤ i)) by lia. simpl. by rewrite andb_true_r, orb_false_r.
  - rewrite (bool_decide_eq_false_2 (j = i)) by done. rewrite andb_false_r. simpl.
    destruct (decide (i < j)).
    + rewrite !bool_decide_eq_true_2 by lia. by replace (j - i) with (S (j - S i)) by lia.
    + by rewrite !bool_decide_eq_false_2 by lia.
Qed.

Lemma boolSliceToBytes_num_bytes slice :
  length (boolSliceToBytes slice) = (length slice + 7) / 8.
Proof.
  unfold boolSliceToBytes. rewrite boolSliceToBytes_loop_length, length_replicate.
  pose proof (Nat.div_mod_eq (length slice) 8). pose proof (Nat.mod_upper_bound (length slice) 8).
  pose proof (Nat.div_mod_eq (length slice + 7) 8). pose proof (Nat.mod_upper_bound (length slice + 7) 8).
  case_bool_decide; lia.
Qed.

Lemma boolSliceToBytes_bit slice j :
  bit_at (boolSliceToBytes slice) j = default false (slice !! j).
Proof.
  pose proof (boolSliceToBytes_num_bytes slice) as Hn.
  unfold boolSliceToBytes in *. rewrite boolSliceToBytes_loop_length in Hn.
  rewrite boolSliceToBytes_loop_bit.
  - rewrite (bool_decide_eq_true_2 (0 ≤ j)), Nat.sub_0_r by lia.
    unfold bit_at at 1. destruct (replicate _ _ !! _) as [b|] eqn:E; [|done].
    apply lookup_replicate in E as [-> _]. by rewrite Z.testbit_0_l.
  - rewrite Hn. pose proof (Nat.div_mod_eq (length slice + 7) 8).
    pose proof (Nat.mod_upper_bound (length slice + 7) 8). lia.
Qed.

Lemma boolSliceToBytes_is_byte slice : Forall is_byte (boolSliceToBytes slice).
Proof.
  apply boolSliceToBytes_loop_bytes, Forall_replicate. unfold is_byte. lia.
Qed.

Lemma length_bytes_to_bools bytes : length (bytes_to_bools bytes) = 8 * length bytes.
Proof.
  induction bytes as [|b bs IH]; [done|].
  change (bytes_to_bools (b :: bs)) with (byte_to_bools b ++ bytes_to_bools bs).
  rewrite length_app, IH. cbn [length]. change (length (byte_to_bools b)) with 8. lia.
Qed.

Lemma lookup_bytes_to_bools bytes j :
  j < 8 * length bytes → bytes_to_bools bytes !! j = Some (bit_at bytes j).
Proof.
  revert j. induction bytes as [|b bs IH]; intros j Hj; simpl in Hj; [lia|].
  change (bytes_to_bools (b :: bs)) with (byte_to_bools b ++ bytes_to_bools bs).
  assert (Hl : length (byte_to_bools b) = 8) by done.
  destruct (decide (j < 8)).
  - rewrite lookup_app_l by lia. unfold byte_to_bools.
    rewrite list_lookup_fmap, lookup_seq_lt by done.
    unfold bit_at. rewrite Nat.div_small, Nat.mod_small by done. done.
  - rewrite lookup_app_r, Hl, IH by lia. f_equal. unfold bit_at.
    assert (Hd : j / 8 = S ((j - 8) / 8)).
    { replace j with ((j - 8) + 1 * 8) at 1 by lia. rewrite Nat.div_add by lia. lia. }
    assert (Hm : j mod 8 = (j - 8) mod 8).
    { replace j with ((j - 8) + 1 * 8) at 1 by lia. by rewrite Nat.Div0.mod_add. }
    by rewrite Hd, Hm.
Qed.

Lemma bools_roundtrip slice :
  take (length slice) (bytes_to_bools (boolSliceToBytes slice)) = slice.
Proof.
  pose proof (boolSliceToBytes_num_bytes slice) as Hn.
  pose proof (Nat.div_mod_eq (length slice + 7) 8).
  pose proof (Nat.mod_upper_bound (length slice + 7) 8).
  apply list_eq. intros j. destruct (decide (j < length slice)).
  - rewrite lookup_take_lt by done. rewrite lookup_bytes_to_bools by lia.
    rewrite boolSliceToBytes_bit.
    by destruct (lookup_lt_is_Some_2 slice j) as [v ->].
  - rewrite lookup_take_ge by lia. symmetry. apply lookup_ge_None. lia.
Qed.

(** * base64 *)

Lemma base64_char_val v :
  (0 ≤ v < 64)%Z → base64_val (base64_char v) = Some v ∧ base64_char v ≠ "="%char.
Proof.
  intros Hv.
  assert (Hall : forallb (λ v, bool_decide (base64_val (base64_char v) = Some v) &&
                              bool_decide (base64_char v ≠ "="%char)) (seqZ 0 64) = true)
    by (vm_compute; reflexivity).
  rewrite forallb_forall in Hall. specialize (Hall v).
  rewrite <-list_elem_of_In, elem_of_seqZ in Hall.
  specialize (Hall ltac:(lia)). apply andb_true_iff in Hall as [H1 H2].
  by apply bool_decide_eq_true in H1, H2.
Qed.

Lemma lor_shiftl_add a b n :
  (0 ≤ n)%Z → (0 ≤ b < 2 ^ n)%Z → Z.lor (Z.shiftl a n) b = (a * 2 ^ n + b)%Z.
Proof.
  intros Hn Hb. rewrite <-Z.shiftl_mul_pow2 by done.
  assert (Hd : Z.land (Z.shiftl a n) b = 0%Z).
  { apply Z.bits_inj'. intros i Hi. rewrite Z.land_spec, Z.bits_0.
    destruct (decide (i < n)%Z).
    - by rewrite Z.shiftl_spec_low.
    - rewrite <-(Z.mod_small b (2 ^ n)) by done.
      rewrite Z.mod_pow2_bits_high by lia. apply andb_false_r. }
  rewrite Z.add_nocarry_lxor by done. by rewrite Z.lxor_lor.
Qed.

Lemma sextet_div val n : (0 ≤ n)%Z → sextet val n = ((val / 2 ^ n) mod 64)%Z.
Proof.
  intros Hn. unfold sextet. rewrite Z.shiftr_div_pow2 by done.
  by rewrite <-(Z.land_ones _ 6).
Qed.

Lemma sextet_range val n : (0 ≤ n)%Z → (0 ≤ sextet val n < 64)%Z.
Proof. intros Hn. rewrite sextet_div by done. apply Z.mod_pos_bound. lia. Qed.

(** The bytes the decoder rebuilds from four, three or two sextets. *)
Lemma sextets_byte0 val :
  (0 ≤ val < 2 ^ 24)%Z →
  Z.lor (Z.shiftl (sextet val 18) 2) (Z.shiftr (sextet val 12) 4) = (val / 2 ^ 16)%Z.
Proof.
  intros Hv. rewrite (Z.shiftr_div_pow2 _ 4) by lia.
  rewrite lor_shiftl_add by (pose proof (sextet_range val 12 ltac:(lia)); zlia).
  rewrite !sextet_div by lia. zlia.
Qed.

Lemma land_255 v : Z.land v 255 = (v mod 256)%Z.
Proof. by rewrite <-(Z.land_ones _ 8). Qed.

Lemma sextets_byte1 val :
  (0 ≤ val < 2 ^ 24)%Z →
  Z.land (Z.lor (Z.shiftl (sextet val 12) 4) (Z.shiftr (sextet val 6) 2)) 255
  = ((val / 2 ^ 8) mod 256)%Z.
Proof.
  intros Hv. rewrite land_255, (Z.shiftr_div_pow2 _ 2) by lia.
  rewrite lor_shiftl_add by (pose proof (sextet_range val 6 ltac:(lia)); zlia).
  rewrite !sextet_div by lia. zlia.
Qed.

Lemma sextets_byte2 val :
  (0 ≤ val < 2 ^ 24)%Z →
  Z.land (Z.lor (Z.shiftl (sextet val 6) 6) (sextet val 0)) 255 = (val mod 256)%Z.
Proof.
  intros Hv. rewrite land_255.
  rewrite lor_shiftl_add by (pose proof (sextet_range val 0 ltac:(lia)); zlia).
  rewrite !sextet_div by lia. zlia.
Qed.

(** [rewrite] the table lookups of the characters the encoder emits. *)
Ltac base64_step val :=
  repeat match goal with
  | |- context [base64_val (base64_char (sextet val ?n))] =>
      rewrite (proj1 (base64_char_val (sextet val n) (sextet_range val n ltac:(lia)))); cbn [mbind option_bind]
  | |- context [decide (base64_char (sextet val ?n) = "="%char)] =>
      rewrite (decide_False (P := base64_char (sextet val n) = "="%char))
        by (apply (base64_char_val (sextet val n) (sextet_range val n ltac:(lia))))
  | |- context [decide ("="%char = "="%char)] => rewrite (decide_True (P := "="%char = "="%char)) by done
  end.

Lemma base64_Decode_Encode src :
  Forall is_byte src → base64_Decode (base64_EncodeToString src) = Some src.
Proof.
  revert src. fix IH 1. intros [|b0 [|b1 [|b2 rest]]] Hb.
  - done.
  - inversion_clear Hb as [|?? H0 _]. unfold is_byte in H0.
    cbn [base64_EncodeToString]. set (val := Z.shiftl b0 16).
    assert (Hval : val = (b0 * 65536)%Z) by (apply Z.shiftl_mul_pow2; lia).
    cbn [base64_Decode]. base64_step val. rewrite decide_True by done.
    rewrite sextets_byte0 by lia. f_equal. f_equal. zlia.
  - inversion_clear Hb as [|?? H0 Hb']. inversion_clear Hb' as [|?? H1 _].
    unfold is_byte in *. cbn [base64_EncodeToString].
    set (val := Z.lor (Z.shiftl b0 16) (Z.shiftl b1 8)).
    assert (Hval : val = (b0 * 65536 + b1 * 256)%Z).
    { unfold val. rewrite (Z.shiftl_mul_pow2 b1) by lia. rewrite lor_shiftl_add by lia. lia. }
    cbn [base64_Decode]. base64_step val. rewrite decide_True by done.
    rewrite sextets_byte0, sextets_byte1 by lia. f_equal. f_equal; [zlia|]. f_equal. zlia.
  - inversion_clear Hb as [|?? H0 Hb']. inversion_clear Hb' as [|?? H1 Hb''].
    inversion_clear Hb'' as [|?? H2 Hrest].
    unfold is_byte in *. cbn [base64_EncodeToString].
    set (val := Z.lor (Z.lor (Z.shiftl b0 16) (Z.shiftl b1 8)) b2).
    assert (Hval : val = (b0 * 65536 + b1 * 256 + b2)%Z).
    { unfold val. rewrite <-Z.lor_assoc, (lor_shiftl_add b1), lor_shiftl_add by lia. lia. }
    cbn [base64_Decode]. base64_step val.
    rewrite (IH rest Hrest). cbn [mbind option_bind].
    rewrite sextets_byte0, sextets_byte1, sextets_byte2 by lia.
    f_equal. f_equal; [zlia|]. f_equal; [zlia|]. f_equal. zlia.
Qed.

Lemma block_bools_make s l :
  (Z.of_nat (length l) < 2 ^ 31)%Z →
  block_bools {| Block_Seq := s; Block_Len := wrap32 (Z.of_nat (length l));
                 Block_Base64 := base64_EncodeToString (boolSliceToBytes l) |} = Some l.
Proof.
  intros Hl. unfold block_bools. cbn [Block_Base64 Block_Len].
  rewrite base64_Decode_Encode by apply boolSliceToBytes_is_byte.
  cbn [mbind option_bind].
  rewrite wrap32_id by (unfold in_int32; lia).
  by rewrite Nat2Z.id, bools_roundtrip.
Qed.

(** * Blocks *)

Lemma imap_run step s (bs : list bool) :
  imap (λ i v, (s + step * Z.of_nat i, v)%Z) bs
  = zip ((λ i, (s + step * Z.of_nat i)%Z) <$> seq 0 (length bs)) bs.
Proof.
  apply list_eq. intros i. rewrite list_lookup_imap, lookup_zip_with.
  destruct (bs !! i) as [v|] eqn:E; simpl.
  - rewrite list_lookup_fmap, lookup_seq_lt by (by eapply lookup_lt_Some). done.
  - by destruct ((_ <$> _) !! i).
Qed.

Definition run (step s : Z) (n : nat) : list Z :=
  (λ i, (s + step * Z.of_nat i)%Z) <$> seq 0 n.

Lemma run_snoc step s n : run step s (S n) = run step s n ++ [(s + step * Z.of_nat n)%Z].
Proof. unfold run. by rewrite seq_S, fmap_app. Qed.

Lemma block_decode_make step s l :
  (Z.of_nat (length l) < 2 ^ 31)%Z →
  block_decode step {| Block_Seq := s; Block_Len := wrap32 (Z.of_nat (length l));
                       Block_Base64 := base64_EncodeToString (boolSliceToBytes l) |}
  = Some (zip (run step s (length l)) l).
Proof.
  intros Hl. unfold block_decode. rewrite block_bools_make by done.
  cbn [mbind option_bind Block_Seq]. by rewrite imap_run.
Qed.

Lemma go_subslice_ok {A} (l : list A) start stop :
  start ≤ stop ≤ length l → go_subslice l start stop = Ret (take (stop - start) (drop start l)).
Proof. intros ?. unfold go_subslice. by rewrite bool_decide_eq_true_2. Qed.

(** One turn of the second loop, when its indices are in range. *)
Lemma make_blocks_cons seqs states start rest s blocks :
  let stop := match rest with next :: _ => next | [] => length states end in
  start ≤ stop ≤ length states →
  seqs !! start = Some s →
  make_blocks seqs states rest = Ret blocks →
  let l := take (stop - start) (drop start states) in
  make_blocks seqs states (start :: rest)
  = Ret ({| Block_Seq := s; Block_Len := wrap32 (Z.of_nat (length l));
            Block_Base64 := base64_EncodeToString (boolSliceToBytes l) |} :: blocks).
Proof.
  intros stop Hr Hs Hb l. cbn [make_blocks]. fold stop.
  rewrite go_subslice_ok by done. cbn [go_bind]. by rewrite Hs, Hb.
Qed.

(** What the two loops build when the open block starts at [k] and covers the
    consecutive numbers read so far, up to index [i]. *)
Lemma make_blocks_asc seqs states k i s last rest :
  length states = length seqs →
  (Z.of_nat (length states) < 2 ^ 31)%Z →
  drop i seqs = rest → k < i ≤ length seqs →
  seqs !! k = Some s →
  take (i - k) (drop k seqs) = run 1 s (i - k) →
  last = (s + Z.of_nat (i - k) - 1)%Z →
  StronglySorted Z.lt (last :: rest) →
  Forall (λ x, 0 < x < MaxInt32)%Z (last :: rest) →
  ∃ blocks, make_blocks seqs states (k :: block_starts i last rest) = Ret blocks ∧
    mjoin <$> mapM (block_decode 1) blocks = Some (zip (drop k seqs) (drop k states)).
Proof.
  intros Hlen Hn. revert k i s last.
  induction rest as [|x rest IH]; intros k i s last Hdrop Hki Hk Hrun Hlast Hsort Hpos.
  - assert (Hi : i = length seqs).
    { apply (f_equal length) in Hdrop. rewrite length_drop in Hdrop. simpl in Hdrop. lia. }
    eexists. split.
    { apply (make_blocks_cons _ _ _ [] s); [lia|done|done]. }
    cbn [mapM mbind option_bind]. rewrite block_decode_make.
    2:{ rewrite length_take, length_drop. lia. }
    cbn. rewrite app_nil_r. f_equal.
    rewrite length_take, length_drop, (take_ge (drop k states)) by (rewrite length_drop; lia).
    replace ((length states - k) `min` (length states - k)) with (i - k) by lia.
    rewrite <-Hrun. f_equal. apply take_ge. rewrite length_drop. lia.
  - pose proof (StronglySorted_inv Hsort) as [Hsort' Hlt].
    pose proof (Forall_inv Hlt) as Hx. pose proof (Forall_inv Hpos) as Hl.
    pose proof (Forall_inv_tail Hpos) as Hpos'.
    assert (Hxi : seqs !! i = Some x).
    { rewrite <-(Nat.add_0_r i), <-lookup_drop, Hdrop. done. }
    assert (Hi : i < length seqs) by (by eapply lookup_lt_Some).
    assert (Hdrop' : drop (S i) seqs = rest).
    { by rewrite <-Nat.add_1_r, <-drop_drop, Hdrop. }
    cbn [block_starts]. unfold MaxInt32 in *.
    rewrite wrap32_id by (unfold in_int32; lia).
    case_bool_decide as Hgap.
    + destruct (IH i (S i) x x) as (blocks & Hb & Hd); try done; try lia.
      { replace (S i - i) with 1 by lia. rewrite (drop_S _ _ _ Hxi). simpl.
        unfold run. simpl. f_equal. lia. }
      eexists. split.
      { eapply (make_blocks_cons _ _ _ _ s); [|done|exact Hb]. simpl. lia. }
      cbn [mapM mbind option_bind].
      rewrite block_decode_make by (rewrite length_take, length_drop; lia).
      destruct (mapM (block_decode 1) blocks) as [ps|]; [|done].
      simpl in Hd |- *. simplify_eq. f_equal.
      rewrite length_take, length_drop.
      replace ((i - k) `min` (length states - k)) with (i - k) by lia.
      rewrite <-Hrun.
      rewrite <-(take_drop (i - k) (drop k seqs)) at 2.
      rewrite <-(take_drop (i - k) (drop k states)) at 2.
      rewrite zip_with_app by (rewrite !length_take, !length_drop; lia).
      rewrite !drop_drop. replace (k + (i - k)) with i by lia. congruence.
    + assert (x = last + 1)%Z as -> by lia.
      apply (IH k (S i) s); try done; try lia.
      replace (S i - k) with (S (i - k)) by lia.
      rewrite run_snoc, <-Hrun.
      rewrite (take_S_r _ _ (last + 1)%Z); [f_equal; f_equal; lia|].
      rewrite lookup_drop. by replace (k + (i - k)) with i by lia.
Qed.

(** The first element of a list of positive numbers opens the first block. *)
Lemma block_starts_first s rest :
  (0 < s)%Z → block_starts 0 (-1) (s :: rest) = 0 :: block_starts 1 s rest.
Proof. intros Hs. cbn [block_starts]. by rewrite bool_decide_eq_true_2 by (change (wrap32 (-1 + 1)) with 0%Z; done). Qed.

(** A descending list opens no further block. *)
Lemma block_starts_desc i last rest :
  (0 < last < MaxInt32)%Z →
  StronglySorted Z.gt (last :: rest) → Forall (λ x, 0 < x)%Z rest →
  block_starts i last rest = [].
Proof.
  revert i last. induction rest as [|x rest IH]; intros i last Hl Hsort Hpos; [done|].
  apply StronglySorted_inv in Hsort as [Hsort Hall].
  pose proof (Forall_inv Hall). pose proof (Forall_inv Hpos).
  cbn [block_starts]. unfold MaxInt32 in *.
  rewrite wrap32_id by (unfold in_int32; lia).
  rewrite bool_decide_eq_false_2 by lia.
  apply IH; [lia|done|by eapply Forall_inv_tail].
Qed.

Lemma MakeGetReadStatesResp_nonempty s rest states :
  length states = length (s :: rest) →
  MakeGetReadStatesResp (s :: rest) states
  = let! blocks := make_blocks (s :: rest) states (block_starts 0 (-1) (s :: rest)) in
    Ret {| Blocks := blocks |}.
Proof.
  intros Hlen. unfold MakeGetReadStatesResp.
  rewrite bool_decide_eq_false_2; [done|]. rewrite Hlen. simpl. lia.
Qed.

Lemma MakeGetReadStatesResp_desc s rest states :
  StronglySorted Z.gt (s :: rest) → Forall (λ x, 0 < x)%Z (s :: rest) →
  (s < MaxInt32)%Z →
  length states = length (s :: rest) →
  (Z.of_nat (length states) < 2 ^ 31)%Z →
  MakeGetReadStatesResp (s :: rest) states = Ret {| Blocks := [
    {| Block_Seq := s; Block_Len := Z.of_nat (length states);
       Block_Base64 := base64_EncodeToString (boolSliceToBytes states) |} ] |}.
Proof.
  intros Hsort Hpos Hs Hlen Hn. pose proof (Forall_inv Hpos).
  rewrite MakeGetReadStatesResp_nonempty by done.
  rewrite block_starts_first, (block_starts_desc 1 s) by (done || by eapply Forall_inv_tail).
  erewrite (make_blocks_cons _ _ _ [] s); [|lia|done|done].
  cbn [go_bind]. rewrite Nat.sub_0_r, drop_0, firstn_all.
  by rewrite wrap32_id by (unfold in_int32; lia).
Qed.

Lemma resp_decode_single step s states :
  (Z.of_nat (length states) < 2 ^ 31)%Z →
  resp_decode step {| Blocks := [
    {| Block_Seq := s; Block_Len := Z.of_nat (length states);
       Block_Base64 := base64_EncodeToString (boolSliceToBytes states) |} ] |}
  = Some (zip (run step s (length states)) states).
Proof.
  intros Hn. unfold resp_decode. cbn [Blocks mapM mbind option_bind].
  pose proof (block_decode_make step s states Hn) as Hd.
  rewrite wrap32_id in Hd by (unfold in_int32; lia).
  rewrite Hd. simpl. by rewrite app_nil_r.
Qed.

(** The indices found by the first loop are increasing and in range. *)
Lemma block_starts_range i last l :
  Forall (λ k, i ≤ k < i + length l) (block_starts i last l) ∧
  StronglySorted lt (block_starts i last l).
Proof.
  revert i last. induction l as [|x l IH]; intros i last; simpl; [split; constructor|].
  destruct (IH (S i) x) as [Hr Hs].
  assert (Hr' : Forall (λ k, i < k < i + S (length l)) (block_starts (S i) x l)).
  { eapply Forall_impl; [exact Hr|]. simpl. lia. }
  case_bool_decide.
  - split; constructor; [lia| |done|]; (eapply Forall_impl; [exact Hr'|]; simpl; lia).
  - split; [|done]. eapply Forall_impl; [exact Hr'|]. simpl. lia.
Qed.

Lemma make_blocks_total seqs states starts :
  length states = length seqs →
  Forall (λ k, k < length seqs) starts → StronglySorted lt starts →
  ∃ blocks, make_blocks seqs states starts = Ret blocks.
Proof.
  intros Hlen. induction starts as [|k starts IH]; intros Hr Hs; [by eexists|].
  apply Forall_cons in Hr as [Hk Hr]. apply StronglySorted_inv in Hs as [Hs Hlt].
  destruct (IH Hr Hs) as [blocks Hb].
  destruct (lookup_lt_is_Some_2 seqs k Hk) as [s Hsk].
  eexists. apply (make_blocks_cons _ _ _ _ s blocks); [|done..].
  destruct starts as [|n starts]; [lia|].
  apply Forall_inv in Hlt, Hr. lia.
Qed.

(** Equal lengths are all the encoder needs in order not to panic. *)
Lemma MakeGetReadStatesResp_total seqs states :
  length states = length seqs → ∃ resp, MakeGetReadStatesResp seqs states = Ret resp.
Proof.
  intros Hlen. unfold MakeGetReadStatesResp. case_bool_decide; [by eexists|].
  destruct (block_starts_range 0 (-1) seqs) as [Hr Hs].
  destruct (make_blocks_total seqs states (block_starts 0 (-1) seqs)) as [blocks ->]; [done| |done|by eexists].
  eapply Forall_impl; [exact Hr|]. simpl. lia.
Qed.

(** A strictly descending list of positive numbers is no longer than its head. *)
Lemma desc_length s rest :
  StronglySorted Z.gt (s :: rest) → Forall (λ x, 0 < x)%Z (s :: rest) →
  (Z.of_nat (length (s :: rest)) ≤ s)%Z.
Proof.
  revert s. induction rest as [|x rest IH]; intros s Hs Hp; simpl.
  { apply Forall_inv in Hp. lia. }
  apply StronglySorted_inv in Hs as [Hs Hlt]. apply Forall_inv in Hlt.
  apply Forall_inv_tail in Hp. specialize (IH x Hs Hp). simpl in IH. lia.
Qed.

Lemma MakeGetReadStatesResp_desc_decode s rest readStates :
  StronglySorted Z.gt (s :: rest) → Forall (λ x, 0 < x)%Z (s :: rest) →
  (s < MaxInt32)%Z →
  length readStates = length (s :: rest) →
  (Z.of_nat (length readStates) < 2 ^ 31)%Z →
  ∃ block, MakeGetReadStatesResp (s :: rest) readStates = Ret {| Blocks := [block] |} ∧
    Block_Seq block = s ∧ Block_Len block = Z.of_nat (length readStates) ∧
    (resp_decode (-1) {| Blocks := [block] |} = Some (zip (s :: rest) readStates) ↔
     s :: rest = run (-1) s (length (s :: rest))).
Proof.
  intros Hsort Hpos Hs Hlen Hn. eexists.
  rewrite MakeGetReadStatesResp_desc by done. split_and!; [done..|].
  rewrite resp_decode_single by done. rewrite Hlen. split.
  - intros Heq. apply (inj Some), (f_equal (fmap fst)) in Heq.
    by rewrite !fst_zip in Heq by (unfold run; rewrite ?length_fmap, ?length_seq; lia).
  - intros <-. done.
Qed.

(** * Properties *)

(** Packing loses nothing. The bytes produced by [boolSliceToBytes] are
    [ceil(n/8)] octets, bit [7 - i mod 8] of byte [i / 8] is element [i] of the
    slice, every padding bit is zero, and unpacking the first [n] bits gives
    the slice back. *)
Theorem boolSliceToBytes_correct slice :
  length (boolSliceToBytes slice) = (length slice + 7) / 8 ∧
  Forall is_byte (boolSliceToBytes slice) ∧
  (∀ j, bit_at (boolSliceToBytes slice) j = default false (slice !! j)) ∧
  take (length slice) (bytes_to_bools (boolSliceToBytes slice)) = slice.
Proof.
  eauto using boolSliceToBytes_num_bytes, boolSliceToBytes_is_byte,
    boolSliceToBytes_bit, bools_roundtrip.
Qed.

(** C22: on ascending sequence numbers the response is lossless: decoding its
    blocks upwards from each block's first number gives exactly the pairs of
    sequence number and read state that were encoded. *)
Theorem MakeGetReadStatesResp_asc_roundtrip seqSlice readStates :
  StronglySorted Z.lt seqSlice →
  Forall (λ x, 0 < x < MaxInt32)%Z seqSlice →
  length readStates = length seqSlice →
  (Z.of_nat (length readStates) < 2 ^ 31)%Z →
  ∃ resp, MakeGetReadStatesResp seqSlice readStates = Ret resp ∧
    resp_decode 1 resp = Some (zip seqSlice readStates).
Proof.
  intros Hsort Hpos Hlen Hn. destruct seqSlice as [|s rest].
  { exists {| Blocks := [] |}. by apply nil_length_inv in Hlen as ->. }
  pose proof (Forall_inv Hpos) as Hs. simpl in Hs.
  destruct (make_blocks_asc (s :: rest) readStates 0 1 s s rest) as (blocks & Hb & Hd);
    try done; simpl; try lia.
  { unfold run. simpl. f_equal. lia. }
  exists {| Blocks := blocks |}. split; [|done].
  rewrite MakeGetReadStatesResp_nonempty, block_starts_first by (done || lia).
  by rewrite Hb.
Qed.

(** On descending sequence numbers, the order in which [GetReadStates]
    reads them, there is always one single block, and decoding it downwards as
    the clients do is faithful exactly when the numbers have no gap. *)
Theorem MakeGetReadStatesResp_desc_faithful_iff s rest readStates :
  StronglySorted Z.gt (s :: rest) → Forall (λ x, 0 < x)%Z (s :: rest) →
  (s < MaxInt32)%Z →
  length readStates = length (s :: rest) →
  (Z.of_nat (length readStates) < 2 ^ 31)%Z →
  ∃ block, MakeGetReadStatesResp (s :: rest) readStates = Ret {| Blocks := [block] |} ∧
    Block_Seq block = s ∧ Block_Len block = Z.of_nat (length readStates) ∧
    (resp_decode (-1) {| Blocks := [block] |} = Some (zip (s :: rest) readStates) ↔
     s :: rest = run (-1) s (length (s :: rest))).
Proof. exact (MakeGetReadStatesResp_desc_decode s rest readStates). Qed.

Lemma MakeGetReadStatesResp_asc_roundtrip_witness :
  ∃ resp, MakeGetReadStatesResp [1; 2; 4; 5; 7]%Z [false; true; true; true; false] = Ret resp ∧
    resp_decode 1 resp = Some [(1, false); (2, true); (4, true); (5, true); (7, false)]%Z.
Proof.
  apply (MakeGetReadStatesResp_asc_roundtrip [1; 2; 4; 5; 7]%Z [false; true; true; true; false]);
    [repeat constructor; lia | repeat constructor; lia | reflexivity | simpl; lia].
Defined.

(** With a gap, event 5 of the user is reported to the client as event 6. *)
Lemma MakeGetReadStatesResp_desc_faithful_iff_witness :
  ∃ block, MakeGetReadStatesResp [7; 5]%Z [false; true] = Ret {| Blocks := [block] |} ∧
    Block_Seq block = 7%Z ∧ Block_Len block = 2%Z ∧
    (resp_decode (-1) {| Blocks := [block] |} = Some [(7, false); (5, true)]%Z ↔
     [7; 5]%Z = [7; 6]%Z).
Proof.
  apply (MakeGetReadStatesResp_desc_faithful_iff 7 [5%Z] [false; true]);
    [repeat constructor; lia | repeat constructor; lia | reflexivity | reflexivity | simpl; lia].
Defined.

Example test_NewReadAck :
  MakeGetReadStatesResp [1; 2; 4; 5; 7]%Z [false; true; true; true; false]
  = Ret {| Blocks := [
      {| Block_Seq := 1; Block_Len := 2; Block_Base64 := String.list_ascii_of_string "QA==" |};
      {| Block_Seq := 4; Block_Len := 2; Block_Base64 := String.list_ascii_of_string "wA==" |};
      {| Block_Seq := 7; Block_Len := 1; Block_Base64 := String.list_ascii_of_string "AA==" |} ] |}.
Proof. vm_compute. reflexivity. Qed.

Example test_BoolSliceToBytes :
  boolSliceToBytes [false; true; true; true; false; false; true; true; true]
  = [115; 128]%Z.
Proof. vm_compute. reflexivity. Qed.

(** * The TTL cut-off *)

Lemma ttl_offset_exact days :
  (0 ≤ days ≤ 106750)%Z → ttl_offset days = ((days + 1) * 24 * nanosecond_per_hour)%Z.
Proof.
  intros Hd. unfold ttl_offset, nanosecond_per_hour.
  rewrite (wrap32_id (days + 1)) by (unfold in_int32; lia).
  rewrite wrap32_id by (unfold in_int32; lia).
  by rewrite wrap64_id by (unfold in_int64; lia).
Qed.

Section CutOff.
(** The local calendar: the midnight that starts the day of an instant is at
    most one (possibly 25-hour) day earlier. *)
Context (midnight : Z → Z).
Hypothesis midnight_le : ∀ t, (midnight t ≤ t)%Z.
Hypothesis midnight_day : ∀ t, (t < midnight t + 25 * nanosecond_per_hour)%Z.

(** For every TTL up to 106750 days (about 292 years, all that [int64]
    nanoseconds allow) the cut-off lies between [days + 1] days and [days + 2]
    days and an hour before now, so it never reaches into the last [days] days;
    one day more and the product overflows, which puts the cut-off into the
    future. *)
Theorem GetDayBefore_bounds now days :
  ((0 ≤ days ≤ 106750)%Z →
   (now - ((days + 1) * 24 + 25) * nanosecond_per_hour < GetDayBefore midnight now days
    ≤ now - (days + 1) * 24 * nanosecond_per_hour)%Z) ∧
  (now < now + wrap64 (- ttl_offset 106751))%Z.
Proof using midnight_le midnight_day.
  split.
  - intros Hd. unfold GetDayBefore. rewrite ttl_offset_exact by done.
    unfold nanosecond_per_hour in *.
    rewrite wrap64_id by (unfold in_int64; lia).
    set (t := (now + - _)%Z). specialize (midnight_le t). specialize (midnight_day t). lia.
  - change (wrap64 (- ttl_offset 106751)) with 9223371273709551616%Z. lia.
Qed.
End CutOff.

Definition utc_midnight (t : Z) : Z :=
  (t - t mod (24 * nanosecond_per_hour))%Z.

Lemma GetDayBefore_bounds_witness :
  GetDayBefore utc_midnight 1700000000000000000 30 = 1697241600000000000%Z ∧
  (GetDayBefore utc_midnight 1700000000000000000 30
   ≤ 1700000000000000000 - (30 + 1) * 24 * nanosecond_per_hour)%Z.
Proof.
  split; [reflexivity|].
  apply (GetDayBefore_bounds utc_midnight); unfold utc_midnight, nanosecond_per_hour;
    [intros t; pose proof (Z.mod_pos_bound t (24 * 3600000000000)); lia
    |intros t; pose proof (Z.mod_pos_bound t (24 * 3600000000000)); lia
    |lia].
Defined.
