(* ===== verification/EventStore.v ===== *)
(** [store/event.go]: the MySQL event store.

    The three tables of [docs/mysql.sql] are finite maps keyed by their primary
    keys; every SQL statement of the file is a function on the tables that
    follows its text (selection, ordering, duplicate keys, column ranges,
    foreign key with cascade).  A method of [eventStore] is a function on a
    connection: it runs its statements in order, inside [withTx], and returns
    a value or an error.

    The server and its driver are not part of the repository.  What they may do
    is the parameter [MySQL]: fail any call with any error, lose the answer to a
    commit, end a row iteration early, round a [DATETIME(3)], and compare a
    [DATETIME] column with an integer argument.  The theorems hold for every
    such server; statements of concurrent transactions do not interleave (the
    program asks for serialisable isolation where it writes). *)

From Stdlib Require Import Ascii ZArith Lia.
From stdpp Require Import base option list numbers gmap strings sorting.
From S2P Require Import Prelude Proto ReadStates.

(** * The tables of docs/mysql.sql *)

Record event_row := {
  er_create_time : Z;
  er_payload : string
}.

Record user_event_row := {
  ue_create_time : Z;
  ue_read_state : Z;
  ue_topic_offset : Z
}.

Record db := {
  events : gmap Z event_row;                  (* PRIMARY KEY topic_offset *)
  user_events : gmap (Z * Z) user_event_row;  (* PRIMARY KEY (uid, seq) *)
  user_seq : gmap Z Z                         (* PRIMARY KEY uid *)
}.

(** [store.Event], the event consumed from Kafka. *)
Record store_Event := {
  Offset : Z;
  Event_CreateTime_ns : Z;
  To : list Z;
  Payload : string
}.

Inductive sql_error :=
| MySQLError (number : Z)
| ErrNoRows
| ErrScan
| ErrCanceled
| ErrOther (code : nat).

#[export] Instance sql_error_eq_dec : EqDecision sql_error.
Proof. solve_decision. Defined.

Definition ER_DUP_ENTRY : Z := 1062%Z.
Definition ER_WARN_DATA_OUT_OF_RANGE : Z := 1264%Z.
Definition ER_NO_REFERENCED_ROW : Z := 1452%Z.

(** * The server *)

Class MySQL := {
  (** the error with which the [i]-th call fails instead of being executed *)
  fault : nat → option sql_error;
  (** the error of the commit sent as [i]-th call, and whether the server
      applied the transaction nevertheless *)
  commit_fault : nat → option (sql_error * bool);
  (** the number of rows after which the iteration of the [i]-th call stops *)
  rows_cut : nat → option nat;
  (** the instant stored by a [DATETIME(3)] column *)
  datetime3 : Z → Z;
  (** [create_time <= ?] and [create_time >= ?] with an integer argument *)
  datetime_le : Z → Z → bool;
  datetime_ge : Z → Z → bool;
  (** [sql.ErrNoRows] means an empty result, never a failed call *)
  fault_not_norows : ∀ i, fault i ≠ Some ErrNoRows
}.

Record conn := { tables : db; calls : nat }.

Definition tx (A : Type) : Type := conn → result sql_error A * conn.

Definition next_call (c : conn) : conn := {| tables := tables c; calls := S (calls c) |}.

Definition tx_ret {A} (a : A) : tx A := λ c, (Ok a, c).
Definition tx_err {A} (e : sql_error) : tx A := λ c, (Err e, c).
Definition tx_bind {A B} (m : tx A) (k : A → tx B) : tx B := λ c,
  match m c with
  | (Ok a, c') => k a c'
  | (Err e, c') => (Err e, c')
  end.
(** [if err := m; err != nil { handler }] *)
Definition tx_catch {A} (m : tx A) (h : sql_error → tx A) : tx A := λ c,
  match m c with
  | (Ok a, c') => (Ok a, c')
  | (Err e, c') => h e c'
  end.

Notation "'let?' x := m 'in' k" := (tx_bind m (λ x, k))
  (at level 10, x name, m at level 200, k at level 200) : go_scope.

(** One round trip to the server: it fails, or [body] acts on the tables. *)
Definition sql_call `{MySQL} {A} (body : db → result sql_error A * db) : tx A := λ c,
  match fault (calls c) with
  | Some e => (Err e, next_call c)
  | None => let '(r, d) := body (tables c) in (r, {| tables := d; calls := S (calls c) |})
  end.

Definition in_uint32 (z : Z) : Prop := (0 ≤ z < 2 ^ 32)%Z.
#[export] Instance in_uint32_dec z : Decision (in_uint32 z).
Proof. unfold in_uint32. apply _. Defined.
#[export] Instance in_int32_dec z : Decision (in_int32 z).
Proof. unfold in_int32. apply _. Defined.

(** [row.Scan(&x)] into an [int32] variable. *)
Definition scan_int32 (z : Z) : tx Z :=
  if bool_decide (in_int32 z) then tx_ret z else tx_err ErrScan.

(** * The statements *)

Section Statements.
Context `{MySQL}.

Definition insertEventSQL (offset create_time : Z) (payload : string) (d : db)
    : result sql_error unit * db :=
  if bool_decide (offset < 0)%Z then (Err (MySQLError ER_WARN_DATA_OUT_OF_RANGE), d)
  else match events d !! offset with
  | Some _ => (Err (MySQLError ER_DUP_ENTRY), d)
  | None =>
      (Ok tt, {| events := <[offset := {| er_create_time := datetime3 create_time;
                                          er_payload := payload |}]> (events d);
                 user_events := user_events d; user_seq := user_seq d |})
  end.

Definition getEventSQL (offset : Z) (d : db) : result sql_error event_row * db :=
  (match events d !! offset with Some r => Ok r | None => Err ErrNoRows end, d).

(** Both [getSeqSQL] and [lockSeqSQL]: a row of [user_seq], or [ErrNoRows]. *)
Definition getSeqSQL (uid : Z) (d : db) : result sql_error Z * db :=
  (match user_seq d !! uid with Some s => Ok s | None => Err ErrNoRows end, d).

Definition set_user_seq (uid s : Z) (d : db) : db :=
  {| events := events d; user_events := user_events d;
     user_seq := <[uid := s]> (user_seq d) |}.

Definition insertSeqSQL (uid : Z) (d : db) : result sql_error unit * db :=
  if bool_decide (in_uint32 uid) then
    match user_seq d !! uid with
    | Some _ => (Err (MySQLError ER_DUP_ENTRY), d)
    | None => (Ok tt, set_user_seq uid 1 d)
    end
  else (Err (MySQLError ER_WARN_DATA_OUT_OF_RANGE), d).

Definition incSeqSQL (uid seq : Z) (d : db) : result sql_error unit * db :=
  match user_seq d !! uid with
  | Some s =>
      if bool_decide (s = seq) then
        if bool_decide (in_uint32 (s + 1)) then (Ok tt, set_user_seq uid (s + 1) d)
        else (Err (MySQLError ER_WARN_DATA_OUT_OF_RANGE), d)
      else (Ok tt, d)
  | None => (Ok tt, d)
  end.

Definition set_user_events (m : gmap (Z * Z) user_event_row) (d : db) : db :=
  {| events := events d; user_events := m; user_seq := user_seq d |}.

Definition insertUserEventSQL (uid seq create_time offset : Z) (d : db)
    : result sql_error unit * db :=
  if bool_decide (in_uint32 uid ∧ in_uint32 seq) then
    match user_events d !! (uid, seq), events d !! offset with
    | Some _, _ => (Err (MySQLError ER_DUP_ENTRY), d)
    | None, None => (Err (MySQLError ER_NO_REFERENCED_ROW), d)
    | None, Some _ =>
        (Ok tt, set_user_events
           (<[(uid, seq) := {| ue_create_time := datetime3 create_time;
                               ue_read_state := 0; ue_topic_offset := offset |}]>
              (user_events d)) d)
    end
  else (Err (MySQLError ER_WARN_DATA_OUT_OF_RANGE), d).

(** Rows of [user_events] that satisfy [p], by descending [seq]. *)
Definition user_rows (uid : Z) (p : Z → user_event_row → bool) (d : db)
    : list (Z * user_event_row) :=
  sort_by (λ r, - fst r)%Z
    (omap (λ kv : Z * Z * user_event_row,
             let '((u, s), r) := kv in
             if bool_decide (u = uid) && p s r then Some (s, r) else None)
          (map_to_list (user_events d))).

Definition countUnreadSQL (uid cutoff : Z) (d : db) : result sql_error Z * db :=
  (Ok (Z.of_nat (length (user_rows uid (λ _ r,
     datetime_ge (ue_create_time r) cutoff && bool_decide (ue_read_state r = 0)%Z) d))), d).

Definition getReadStatesSQL (uid head cutoff : Z) (d : db) : list (Z * Z) :=
  (λ sr : Z * user_event_row, (fst sr, ue_read_state (snd sr))) <$>
  user_rows uid (λ s r, bool_decide (s ≤ head)%Z && datetime_ge (ue_create_time r) cutoff) d.

(** The inner join of [getEventsSQL]: seq, create_time, read_state, payload. *)
Definition getEventsSQL (uid from to : Z) (d : db) : list (Z * Z * Z * string) :=
  omap (λ sr : Z * user_event_row,
          let '(s, r) := sr in
          (λ e, (s, ue_create_time r, ue_read_state r, er_payload e))
            <$> events d !! ue_topic_offset r)
    (user_rows uid (λ s _, bool_decide (from ≤ s)%Z && bool_decide (s ≤ to)%Z) d).

Definition setReadSQL (uid seq : Z) (d : db) : result sql_error Z * db :=
  match user_events d !! (uid, seq) with
  | Some r =>
      if bool_decide (ue_read_state r = 0)%Z then
        (Ok 1%Z, set_user_events
           (<[(uid, seq) := {| ue_create_time := ue_create_time r; ue_read_state := 1;
                               ue_topic_offset := ue_topic_offset r |}]> (user_events d)) d)
      else (Ok 0%Z, d)
  | None => (Ok 0%Z, d)
  end.

(** [DELETE ... WHERE create_time <= ?], cascading to [user_events]. *)
Definition cleanEventsSQL (cutoff : Z) (d : db) : result sql_error Z * db :=
  let keep := filter (λ kr : Z * event_row, ¬ datetime_le (er_create_time (snd kr)) cutoff) (events d) in
  (Ok (Z.of_nat (size (events d)) - Z.of_nat (size keep))%Z,
   {| events := keep;
      user_events := filter (λ kr : Z * Z * user_event_row,
                       is_Some (keep !! ue_topic_offset (snd kr))) (user_events d);
      user_seq := user_seq d |}).
End Statements.

(** * The methods of eventStore *)

Section Methods.
Context `{MySQL}.

(** The transaction options only select the isolation level.  A failed
    [Rollback] is logged; the server drops the transaction with the
    connection. *)
Definition withTx {A} (exec : tx A) : tx A := λ c,
  match fault (calls c) with                                     (* BeginTx *)
  | Some e => (Err e, next_call c)
  | None =>
      match exec (next_call c) with
      | (Err e, c') =>                                           (* Rollback *)
          (Err e, {| tables := tables c; calls := S (calls c') |})
      | (Ok a, c') =>                                            (* Commit *)
          match commit_fault (calls c') with
          | None => (Ok a, next_call c')
          | Some (e, true) => (Err e, next_call c')
          | Some (e, false) => (Err e, {| tables := tables c; calls := S (calls c') |})
          end
      end
  end.

Definition getSeq (uid : Z) : tx Z :=
  tx_catch (let? s := sql_call (getSeqSQL uid) in scan_int32 s)
    (λ err, if decide (err = ErrNoRows) then tx_ret 0%Z else tx_err err).

Definition countUnread (cutoff uid : Z) : tx Z :=
  let? n := sql_call (countUnreadSQL uid cutoff) in scan_int32 n.

(** [cutoff] is [GetDayBefore(days).Unix()]. *)
Definition unix (t : Z) : Z := (t / 1000000000)%Z.

Definition Stats (midnight : Z → Z) (now uid days : Z) (req : pb_StatsReq) : tx pb_StatsResp :=
  withTx
    (let? seq := getSeq uid in
     if CountUnread req then
       let? count := countUnread (unix (GetDayBefore midnight now days)) uid in
       tx_ret {| StatsResp_Conf := None; StatsResp_HeadSeq := seq;
                 StatsResp_UnreadCount := count |}
     else
       tx_ret {| StatsResp_Conf := None; StatsResp_HeadSeq := seq;
                 StatsResp_UnreadCount := 0 |}).

(** [tx.QueryContext] and the rows that [rows.Next] then yields. *)
Definition query_rows {R} (rows : db → list R) : tx (list R) := λ c,
  match fault (calls c) with
  | Some e => (Err e, next_call c)
  | None =>
      let rs := rows (tables c) in
      (Ok (match rows_cut (calls c) with Some n => take n rs | None => rs end), next_call c)
  end.

(** [rows.Scan] of a SMALLINT into a [bool] variable. *)
Definition scan_bool (z : Z) : tx bool :=
  if bool_decide (z = 0)%Z then tx_ret false
  else if bool_decide (z = 1)%Z then tx_ret true
  else tx_err ErrScan.

Fixpoint GetEvents_loop (uid : Z) (rows : list (Z * Z * Z * string)) (acc : list pb_Event)
    : tx (list pb_Event) :=
  match rows with
  | [] => tx_ret acc
  | (s, t, rs, payload) :: rest =>
      let? seq := scan_int32 s in
      let? readState := scan_bool rs in
      GetEvents_loop uid rest (acc ++ [{|
        Event_Uid := uid; Event_Seq := seq; Event_CreateTime := unix t;
        Event_Payload := payload; Event_ReadState := readState |}])
  end.

Definition GetEvents (uid : Z) (req : pb_GetEventsReq) : tx pb_GetEventsResp :=
  let? evs := withTx
    (let? rows := query_rows (getEventsSQL uid (FromSeq req) (ToSeq req)) in
     GetEvents_loop uid rows []) in
  tx_ret {| Events := evs |}.

Fixpoint GetReadStates_loop (rows : list (Z * Z)) (seqSlice : list Z) (readStates : list bool)
    : tx (list Z * list bool) :=
  match rows with
  | [] => tx_ret (seqSlice, readStates)
  | (s, rs) :: rest =>
      let? seq := scan_int32 s in
      if bool_decide (0 ≤ rs < 256)%Z then                       (* var readState byte *)
        GetReadStates_loop rest (seqSlice ++ [seq]) (readStates ++ [bool_decide (0 < rs)%Z])
      else tx_err ErrScan
  end.

Definition GetReadStates (midnight : Z → Z) (now uid days : Z) (req : pb_GetReadStatesReq) (c : conn)
    : go (result sql_error pb_GetReadStatesResp * conn) :=
  let cutoff := unix (GetDayBefore midnight now days) in
  match withTx
    (let? rows := query_rows (getReadStatesSQL uid (GetReadStatesReq_HeadSeq req) cutoff) in
     GetReadStates_loop rows [] []) c with
  | (Err e, c') => Ret (Err e, c')
  | (Ok (seqSlice, readStates), c') =>
      let! resp := MakeGetReadStatesResp seqSlice readStates in
      Ret (Ok resp, c')
  end.

Definition SetRead (uid seq : Z) : tx pb_SetReadResp :=
  let? changed := withTx
    (let? n := sql_call (setReadSQL uid seq) in
     tx_ret (bool_decide (n = 1)%Z)) in
  tx_ret {| SetReadResp_Seq := seq; Changed := changed |}.

Definition IsDupKeyError (err : sql_error) : bool :=
  match err with
  | MySQLError number => bool_decide (number = ER_DUP_ENTRY)
  | _ => false
  end.

Definition incSeq (uid : Z) : tx Z :=
  let? seq :=
    tx_catch (let? s := sql_call (getSeqSQL uid) in scan_int32 s)
      (λ err, if decide (err = ErrNoRows) then tx_ret 0%Z else tx_err err) in
  let? seq :=
    if bool_decide (seq = 0)%Z then
      tx_catch (let? _ := sql_call (insertSeqSQL uid) in tx_ret seq)
        (λ err, if IsDupKeyError err
                then let? s := sql_call (getSeqSQL uid) in scan_int32 s
                else tx_err err)
    else tx_ret seq in
  let? _ := sql_call (incSeqSQL uid seq) in
  tx_ret (wrap32 (seq + 1)).

(** [createTime.UnixNano()/1e6 == e.CreateTime.UnixNano()/1e6 && payload == e.Payload] *)
Definition same_event (e : store_Event) (r : event_row) : bool :=
  bool_decide (Z.quot (er_create_time r) 1000000 = Z.quot (Event_CreateTime_ns e) 1000000) &&
  bool_decide (er_payload r = Payload e).

Fixpoint Save_loop (e : store_Event) (to : list Z) (seqMap : gmap Z Z) : tx (gmap Z Z) :=
  match to with
  | [] => tx_ret seqMap
  | uid :: rest =>
      let? seq := incSeq uid in
      let? _ := sql_call (insertUserEventSQL uid seq (Event_CreateTime_ns e) (Offset e)) in
      Save_loop e rest (<[uid := seq]> seqMap)
  end.

(** The handler of a failed insertion into [events]. *)
Definition Save_duplicate (e : store_Event) (err : sql_error) : tx (gmap Z Z) :=
  if IsDupKeyError err then
    let? row := tx_catch (let? r := sql_call (getEventSQL (Offset e)) in tx_ret (Some r))
                  (λ _, tx_ret None) in
    match row with
    | Some r => if same_event e r then tx_ret ∅ else tx_err err
    | None => tx_err err
    end
  else tx_err err.

Definition Save (e : store_Event) : tx (gmap Z Z) :=
  withTx (λ c,
    match sql_call (insertEventSQL (Offset e) (Event_CreateTime_ns e) (Payload e)) c with
    | (Err err, c1) => Save_duplicate e err c1
    | (Ok _, c1) =>
        (let? _ := sql_call (λ d, (Ok tt, d)) in                 (* PrepareContext *)
         Save_loop e (To e) ∅) c1
    end).

Definition DeleteOutdatedEvents (midnight : Z → Z) (now ttlDays : Z) : tx Z :=
  withTx
    (let? n := sql_call (cleanEventsSQL (unix (GetDayBefore midnight now ttlDays))) in
     tx_ret (wrap32 n)).
End Methods.

(** * Specification *)

(** What one saved event adds: the event row, and for every recipient the next
    sequence number and an unread row with it. *)
Section Specification.
Context `{MySQL}.

Definition head_seq (d : db) (uid : Z) : Z := default 0%Z (user_seq d !! uid).

Definition deliver (e : store_Event) (d : db) (uid : Z) : db :=
  {| events := events d;
     user_events := <[(uid, head_seq d uid + 1)%Z :=
       {| ue_create_time := datetime3 (Event_CreateTime_ns e); ue_read_state := 0;
          ue_topic_offset := Offset e |}]> (user_events d);
     user_seq := <[uid := (head_seq d uid + 1)%Z]> (user_seq d) |}.

Definition add_event_row (e : store_Event) (d : db) : db :=
  {| events := <[Offset e := {| er_create_time := datetime3 (Event_CreateTime_ns e);
                                er_payload := Payload e |}]> (events d);
     user_events := user_events d; user_seq := user_seq d |}.

Definition apply_event (e : store_Event) (d : db) : db :=
  foldl (deliver e) (add_event_row e d) (To e).

(** The sequence numbers reported for an event: the new head of each recipient. *)
Definition new_heads (to : list Z) (d : db) : gmap Z Z :=
  foldr (λ uid m, <[uid := head_seq d uid]> m) ∅ to.

(** The invariant of the tables. *)
Record db_ok (d : db) : Prop := {
  ok_seq : ∀ uid s, user_seq d !! uid = Some s → in_uint32 uid ∧ (1 ≤ s ≤ MaxInt32)%Z;
  ok_rows : ∀ uid q r, user_events d !! (uid, q) = Some r →
    (1 ≤ q ≤ head_seq d uid)%Z ∧
    (ue_read_state r = 0 ∨ ue_read_state r = 1)%Z;
  ok_fk : ∀ k r, user_events d !! k = Some r → is_Some (events d !! ue_topic_offset r)
}.
End Specification.

Definition db_empty : db := {| events := ∅; user_events := ∅; user_seq := ∅ |}.

(** * Reasoning about calls *)

Section Calls.
Context `{MySQL}.

Lemma tx_bind_Ok {A B} (m : tx A) (k : A → tx B) c b c' :
  tx_bind m k c = (Ok b, c') → ∃ a c1, m c = (Ok a, c1) ∧ k a c1 = (Ok b, c').
Proof. unfold tx_bind. destruct (m c) as [[a|e] c1]; naive_solver. Qed.

Lemma tx_catch_Ok {A} (m : tx A) (h : sql_error → tx A) c a c' :
  tx_catch m h c = (Ok a, c') →
  m c = (Ok a, c') ∨ ∃ e c1, m c = (Err e, c1) ∧ h e c1 = (Ok a, c').
Proof. unfold tx_catch. destruct (m c) as [[?|e] c1]; naive_solver. Qed.

Lemma sql_call_Ok {A} (body : db → result sql_error A * db) c a c' :
  sql_call body c = (Ok a, c') → body (tables c) = (Ok a, tables c').
Proof.
  unfold sql_call. destruct (fault (calls c)); [done|].
  destruct (body (tables c)) as [r d]. naive_solver.
Qed.

(** A failed call leaves the tables as the statement leaves them on error. *)
Lemma sql_call_Err {A} (body : db → result sql_error A * db) c e c' :
  (∀ d e d', body d = (Err e, d') → d' = d) →
  sql_call body c = (Err e, c') → tables c' = tables c.
Proof.
  intros Hb. unfold sql_call. destruct (fault (calls c)); [naive_solver|].
  destruct (body (tables c)) as [r d] eqn:E. intros [= -> <-]. simpl. by eapply Hb.
Qed.

Lemma scan_int32_Ok z c a c' :
  scan_int32 z c = (Ok a, c') → a = z ∧ c' = c ∧ in_int32 z.
Proof. unfold scan_int32, tx_ret, tx_err. case_bool_decide; naive_solver. Qed.

Lemma getSeqSQL_tables uid d r d' : getSeqSQL uid d = (r, d') → d' = d.
Proof. unfold getSeqSQL. naive_solver. Qed.

(** Reading the sequence leaves the tables alone and returns the stored value. *)
Lemma read_seq_Ok uid c s c' :
  (let? s := sql_call (getSeqSQL uid) in scan_int32 s) c = (Ok s, c') →
  user_seq (tables c) !! uid = Some s ∧ tables c' = tables c ∧ in_int32 s.
Proof.
  intros (s0 & c1 & H1 & H2)%tx_bind_Ok.
  apply scan_int32_Ok in H2 as (-> & -> & Hs).
  apply sql_call_Ok in H1. unfold getSeqSQL in H1.
  destruct (user_seq (tables c) !! uid); naive_solver.
Qed.

Lemma read_seq_Err uid c e c' :
  (let? s := sql_call (getSeqSQL uid) in scan_int32 s) c = (Err e, c') → tables c' = tables c.
Proof.
  unfold tx_bind. destruct (sql_call (getSeqSQL uid) c) as [[s|e'] c1] eqn:E.
  - apply sql_call_Ok, getSeqSQL_tables in E.
    unfold scan_int32, tx_ret, tx_err. case_bool_decide; naive_solver.
  - intros [= -> ->]. eapply sql_call_Err; [|done].
    intros d e0 d' Hd. by eapply getSeqSQL_tables.
Qed.

Lemma insertSeqSQL_Ok uid d d' :
  insertSeqSQL uid d = (Ok tt, d') →
  in_uint32 uid ∧ user_seq d !! uid = None ∧ d' = set_user_seq uid 1 d.
Proof.
  unfold insertSeqSQL. case_bool_decide; [|done].
  destruct (user_seq d !! uid); naive_solver.
Qed.

Lemma insertSeqSQL_Err uid d e d' : insertSeqSQL uid d = (Err e, d') → d' = d.
Proof. unfold insertSeqSQL. go_cases; naive_solver. Qed.

Lemma incSeqSQL_hit uid s d d' :
  user_seq d !! uid = Some s → incSeqSQL uid s d = (Ok tt, d') →
  in_uint32 (s + 1) ∧ d' = set_user_seq uid (s + 1) d.
Proof. unfold incSeqSQL. intros ->. rewrite bool_decide_eq_true_2 by done. go_cases; naive_solver. Qed.

Lemma incSeqSQL_miss uid s s' d d' :
  user_seq d !! uid = Some s → s ≠ s' → incSeqSQL uid s' d = (Ok tt, d') → d' = d.
Proof. unfold incSeqSQL. intros -> ?. rewrite bool_decide_eq_false_2 by done. naive_solver. Qed.

(** The value with which [incSeq] reaches its last statement: [0] after a fresh
    insertion, the stored value otherwise. *)
Lemma incSeq_Ok uid c q c' :
  db_ok (tables c) → incSeq uid c = (Ok q, c') →
  in_uint32 uid ∧ q = wrap32 (head_seq (tables c) uid + 1) ∧
  tables c' = set_user_seq uid (head_seq (tables c) uid + 1) (tables c).
Proof.
  intros Hok Hinc. apply tx_bind_Ok in Hinc as (s1 & c1 & H1 & Hinc).
  apply tx_bind_Ok in Hinc as (s2 & c2 & H2 & Hinc).
  apply tx_bind_Ok in Hinc as ([] & c3 & H3 & [= <- <-]).
  apply sql_call_Ok in H3. unfold head_seq.
  assert (Ht1 : tables c1 = tables c ∧ (s1 = 0 ∨ user_seq (tables c) !! uid = Some s1)%Z).
  { apply tx_catch_Ok in H1 as [H1|(e & c0 & H1 & He)].
    - apply read_seq_Ok in H1. naive_solver.
    - apply read_seq_Err in H1. case_decide; [|done]. unfold tx_ret in He. naive_solver. }
  destruct Ht1 as [Ht1 Hs1].
  assert (Hpres : ∀ s, user_seq (tables c) !! uid = Some s → s2 = s → tables c2 = tables c →
    in_uint32 uid ∧ wrap32 (s2 + 1) = wrap32 (default 0%Z (user_seq (tables c) !! uid) + 1) ∧
    tables c3 = set_user_seq uid (default 0%Z (user_seq (tables c) !! uid) + 1) (tables c)).
  { intros s Hs -> Ht2. rewrite Hs. simpl. rewrite Ht2 in H3.
    apply incSeqSQL_hit in H3 as [_ ->]; [|done].
    split; [by apply (ok_seq _ Hok uid s)|done]. }
  case_bool_decide as Hz.
  - subst s1. apply tx_catch_Ok in H2 as [H2|(e & c0 & H2 & He)].
    + apply tx_bind_Ok in H2 as ([] & c0 & H2 & [= <- <-]).
      apply sql_call_Ok, insertSeqSQL_Ok in H2 as (Hu & Hn & Ht2). rewrite Ht1 in *.
      rewrite Hn. simpl. rewrite Ht2 in H3.
      apply (incSeqSQL_miss _ 1) in H3 as ->; [done| |done].
      unfold set_user_seq. simpl. by rewrite lookup_insert_eq.
    + assert (Ht0 : tables c0 = tables c).
      { rewrite <-Ht1. revert H2. unfold tx_bind.
        destruct (sql_call (insertSeqSQL uid) c1) as [[?|?] ?] eqn:E; [done|].
        intros [= -> ->]. eapply sql_call_Err; [|done]. apply insertSeqSQL_Err. }
      destruct (IsDupKeyError e); [|done].
      apply read_seq_Ok in He as (He & Ht2 & _). rewrite Ht0 in *. by apply (Hpres s2).
  - destruct Hs1 as [->|Hs1]; [done|]. injection H2 as <- <-. by apply (Hpres s1).
Qed.
End Calls.

(** * The specification of Save *)

Section SaveSpec.
Context `{MySQL}.
Implicit Types (e : store_Event) (d : db).

Lemma head_seq_deliver e d uid u :
  head_seq (deliver e d uid) u = if decide (u = uid) then (head_seq d uid + 1)%Z else head_seq d u.
Proof.
  unfold head_seq at 1, deliver. simpl. case_decide as Hu; subst.
  - by rewrite lookup_insert_eq.
  - by rewrite lookup_insert_ne.
Qed.

Lemma head_seq_bounds d uid : db_ok d → (0 ≤ head_seq d uid ≤ MaxInt32)%Z.
Proof.
  intros Hok. unfold head_seq. destruct (user_seq d !! uid) as [s|] eqn:E; simpl.
  - destruct (ok_seq _ Hok _ _ E). lia.
  - unfold MaxInt32. lia.
Qed.

Lemma deliver_db_ok e d uid :
  db_ok d → in_uint32 uid → (head_seq d uid + 1 ≤ MaxInt32)%Z →
  is_Some (events d !! Offset e) → db_ok (deliver e d uid).
Proof.
  intros Hok Hu Hmax Hev. pose proof (head_seq_bounds d uid Hok) as Hb. split.
  - intros u s. unfold deliver. simpl. rewrite lookup_insert. case_decide.
    + intros [= <-]. subst. split; [done|lia].
    + apply (ok_seq _ Hok).
  - intros u q r Hr. rewrite head_seq_deliver.
    unfold deliver in Hr. simpl in Hr. rewrite lookup_insert in Hr. case_decide as Hk.
    + simplify_eq. simpl. rewrite decide_True by done. lia.
    + destruct (ok_rows _ Hok _ _ _ Hr) as (Hq & Hrs). split; [|done]. case_decide; subst; lia.
  - intros k r Hr. unfold deliver in *. simpl in *. rewrite lookup_insert in Hr. case_decide.
    + by simplify_eq.
    + by apply (ok_fk _ Hok k).
Qed.

Lemma add_event_row_db_ok e d : db_ok d → db_ok (add_event_row e d).
Proof.
  intros Hok. split; [apply (ok_seq _ Hok)|apply (ok_rows _ Hok)|].
  intros k r Hr. simpl. destruct (ok_fk _ Hok k r Hr) as [er Her].
  rewrite lookup_insert. case_decide; [eauto|]. by rewrite Her.
Qed.

(** The row that [incSeq] makes room for is free. *)
Lemma next_row_free d uid : db_ok d → user_events d !! (uid, head_seq d uid + 1)%Z = None.
Proof.
  intros Hok. destruct (user_events d !! _) as [r|] eqn:E; [|done].
  destruct (ok_rows _ Hok _ _ _ E). lia.
Qed.

(** One turn of the loop over [e.To]. *)
Lemma Save_turn_Ok e uid c q c1 c2 :
  db_ok (tables c) → is_Some (events (tables c) !! Offset e) →
  incSeq uid c = (Ok q, c1) →
  sql_call (insertUserEventSQL uid q (Event_CreateTime_ns e) (Offset e)) c1 = (Ok tt, c2) →
  tables c2 = deliver e (tables c) uid ∧ db_ok (tables c2) ∧ q = head_seq (tables c2) uid.
Proof.
  intros Hok Hev Hinc Hins. pose proof (head_seq_bounds _ uid Hok) as Hb.
  apply incSeq_Ok in Hinc as (Hu & Hq & Ht); [|done].
  apply sql_call_Ok in Hins. unfold insertUserEventSQL in Hins.
  case_bool_decide as Hr; [|done]. destruct Hr as [_ Hrq].
  assert (Hmax : (head_seq (tables c) uid + 1 ≤ MaxInt32)%Z).
  { unfold MaxInt32, in_uint32 in *. subst q.
    destruct (decide (head_seq (tables c) uid = 2147483647)%Z) as [Heq|]; [|lia].
    rewrite Heq in Hrq. change (wrap32 (2147483647 + 1)) with (-2147483648)%Z in Hrq. lia. }
  rewrite wrap32_id in Hq by (unfold in_int32, MaxInt32 in *; lia). subst q.
  rewrite Ht in Hins. simpl in Hins.
  rewrite next_row_free in Hins by done.
  destruct (events (tables c) !! Offset e) as [er|] eqn:Her; [|by destruct Hev].
  injection Hins as Hins.
  assert (Hd : tables c2 = deliver e (tables c) uid) by (rewrite <-Hins; done).
  rewrite Hd. split_and!; [done| |].
  - apply deliver_db_ok; [done..|]. by rewrite Her.
  - rewrite head_seq_deliver. by rewrite decide_True.
Qed.

Lemma head_seq_foldl_deliver e d to u :
  u ∉ to → head_seq (foldl (deliver e) d to) u = head_seq d u.
Proof.
  revert d. induction to as [|x to IH]; intros d Hu; [done|].
  apply not_elem_of_cons in Hu as [Hne Hu]. simpl. rewrite IH by done.
  rewrite head_seq_deliver. by rewrite decide_False.
Qed.

Lemma events_foldl_deliver e d to : events (foldl (deliver e) d to) = events d.
Proof. revert d. induction to as [|x to IH]; intros d; simpl; [done|]. by rewrite IH. Qed.

Lemma Save_loop_Ok e to m c m' c' :
  db_ok (tables c) → is_Some (events (tables c) !! Offset e) →
  Save_loop e to m c = (Ok m', c') →
  tables c' = foldl (deliver e) (tables c) to ∧ db_ok (tables c') ∧
  ∀ u, m' !! u = if decide (u ∈ to) then Some (head_seq (tables c') u) else m !! u.
Proof.
  revert m c. induction to as [|uid to IH]; intros m c Hok Hev Hrun; simpl in Hrun.
  { injection Hrun as <- <-. split_and!; [done..|]. intros u. by rewrite decide_False by set_solver. }
  apply tx_bind_Ok in Hrun as (q & c1 & Hinc & Hrun).
  apply tx_bind_Ok in Hrun as ([] & c2 & Hins & Hrun).
  destruct (Save_turn_Ok e uid c q c1 c2) as (Ht & Hok2 & Hq); [done..|].
  destruct (IH (<[uid := q]> m) c2) as (Ht' & Hok' & Hm); [done| |done|].
  { rewrite Ht. done. }
  simpl. rewrite <-Ht. split_and!; [done..|]. intros u. rewrite Hm, Ht'.
  destruct (decide (u ∈ to)) as [Hu|Hu].
  { by rewrite decide_True by set_solver. }
  rewrite head_seq_foldl_deliver by done. rewrite lookup_insert.
  destruct (decide (uid = u)) as [->|Hne].
  - rewrite decide_True by set_solver. by rewrite Hq.
  - by rewrite decide_False by set_solver.
Qed.

Lemma new_heads_lookup to d u :
  new_heads to d !! u = if decide (u ∈ to) then Some (head_seq d u) else None.
Proof.
  unfold new_heads. induction to as [|x to IH]; simpl.
  - apply lookup_empty.
  - rewrite lookup_insert, IH. destruct (decide (x = u)) as [->|].
    + by rewrite decide_True by set_solver.
    + destruct (decide (u ∈ to)).
      * by rewrite decide_True by set_solver.
      * by rewrite decide_False by set_solver.
Qed.

(** The closure that [Save] hands to [withTx]. *)
Lemma Save_body_Ok e c m c' :
  db_ok (tables c) →
  match sql_call (insertEventSQL (Offset e) (Event_CreateTime_ns e) (Payload e)) c with
  | (Err err, c1) => Save_duplicate e err c1
  | (Ok _, c1) => (let? _ := sql_call (λ d, (Ok tt, d)) in Save_loop e (To e) ∅) c1
  end = (Ok m, c') →
  (events (tables c) !! Offset e = None ∧ tables c' = apply_event e (tables c) ∧
   db_ok (tables c') ∧ m = new_heads (To e) (tables c')) ∨
  (∃ row, events (tables c) !! Offset e = Some row ∧ same_event e row ∧
   tables c' = tables c ∧ m = ∅).
Proof.
  intros Hok. destruct (sql_call (insertEventSQL _ _ _) c) as [[[]|err] c1] eqn:Hins.
  - intros Hrun. left. apply sql_call_Ok in Hins. unfold insertEventSQL in Hins.
    case_bool_decide; [done|]. destruct (events (tables c) !! Offset e) eqn:Hev; [done|].
    injection Hins as Hins. fold (add_event_row e (tables c)) in Hins.
    apply tx_bind_Ok in Hrun as ([] & c2 & Hprep & Hrun).
    apply sql_call_Ok in Hprep. injection Hprep as Hprep.
    destruct (Save_loop_Ok e (To e) ∅ c2 m c') as (Ht & Hok' & Hm); [| |done|].
    { rewrite <-Hprep, <-Hins. by apply add_event_row_db_ok. }
    { rewrite <-Hprep, <-Hins. simpl. rewrite lookup_insert_eq. done. }
    split_and!; [done| by rewrite Ht, <-Hprep, <-Hins | done |].
    apply map_eq. intros u. rewrite Hm, new_heads_lookup. case_decide; [done|]. apply lookup_empty.
  - assert (Ht1 : tables c1 = tables c).
    { eapply sql_call_Err; [|done]. intros d e0 d'. unfold insertEventSQL. go_cases; naive_solver. }
    intros Hrun. right. unfold Save_duplicate in Hrun. destruct (IsDupKeyError err); [|done].
    apply tx_bind_Ok in Hrun as (row & c2 & Hget & Hrun). destruct row as [row|]; [|done].
    destruct (same_event e row) eqn:Hsame; [|done]. injection Hrun as <- <-.
    apply tx_catch_Ok in Hget as [Hget|(?&?&?&?)]; [|done].
    apply tx_bind_Ok in Hget as (row' & c3 & Hget & [= <- <-]).
    apply sql_call_Ok in Hget. unfold getEventSQL in Hget. rewrite Ht1 in Hget.
    destruct (events (tables c) !! Offset e) as [row''|]; [|done].
    injection Hget as <- Ht3. eexists. by rewrite Hsame.
Qed.

(** What a call of [Save] can do to the tables, on every path. *)
Lemma Save_cases e c r c' :
  db_ok (tables c) → Save e c = (r, c') →
  (events (tables c) !! Offset e = None ∧ tables c' = apply_event e (tables c) ∧
   db_ok (tables c') ∧
   match r with
   | Ok m => m = new_heads (To e) (tables c')
   | Err err => commit_fault (pred (calls c')) = Some (err, true)
   end) ∨
  (∃ row, events (tables c) !! Offset e = Some row ∧ same_event e row ∧
   tables c' = tables c ∧ r = Ok ∅) ∨
  (tables c' = tables c ∧ ∃ err, r = Err err).
Proof.
  intros Hok. unfold Save, withTx. destruct (fault (calls c)); [naive_solver|].
  set (body := match sql_call _ _ with (Ok _, _) => _ | (Err _, _) => _ end).
  destruct body as [[m|err] c1] eqn:E; subst body; [|naive_solver].
  apply (Save_body_Ok e (next_call c)) in E; [|done]. simpl in E.
  destruct (commit_fault (calls c1)) as [[err []]|] eqn:Ec; simpl; intros [= <- <-];
    destruct E as [(?&?&?&?)|(row&?&?&Ht&?)]; naive_solver.
Qed.

(** Failed calls of [Save] that the consumer retries. *)
Inductive failed_saves (e : store_Event) : conn → conn → Prop :=
| failed_none c : failed_saves e c c
| failed_more c err c1 c2 :
    Save e c = (Err err, c1) → failed_saves e c1 c2 → failed_saves e c c2.

Lemma failed_saves_tables e c c' :
  db_ok (tables c) → failed_saves e c c' →
  db_ok (tables c') ∧
  (tables c' = tables c ∨
   (events (tables c) !! Offset e = None ∧ tables c' = apply_event e (tables c))).
Proof.
  intros Hok Hf. induction Hf as [|c err c1 c2 Hs Hf IH]; [naive_solver|].
  destruct (Save_cases e c (Err err) c1 Hok Hs) as [(Hn & Ht & Hok' & _)|[(?&?&?&?&?)|(Ht&_)]]; [|done|].
  - destruct (IH Hok') as (Hok2 & [Heq|[Hno _]]); [rewrite Heq, Ht in *; naive_solver|].
    exfalso. rewrite Ht in Hno. unfold apply_event in Hno.
    rewrite events_foldl_deliver in Hno. simpl in Hno. by rewrite lookup_insert_eq in Hno.
  - rewrite Ht in IH. auto.
Qed.

Lemma apply_event_row e d :
  events (apply_event e d) !! Offset e =
  Some {| er_create_time := datetime3 (Event_CreateTime_ns e); er_payload := Payload e |}.
Proof. unfold apply_event. rewrite events_foldl_deliver. simpl. apply lookup_insert_eq. Qed.

(** Numbers handed out by the loop over the recipients. *)
Definition occurrences (u : Z) (to : list Z) : Z := Z.of_nat (length (filter (λ x, x = u) to)).

Lemma foldl_deliver_numbers e d to u :
  head_seq (foldl (deliver e) d to) u = (head_seq d u + occurrences u to)%Z ∧
  ∀ q, user_events (foldl (deliver e) d to) !! (u, q) =
    if decide (head_seq d u < q ≤ head_seq d u + occurrences u to)%Z
    then Some {| ue_create_time := datetime3 (Event_CreateTime_ns e); ue_read_state := 0;
                 ue_topic_offset := Offset e |}
    else user_events d !! (u, q).
Proof.
  unfold occurrences. revert d. induction to as [|x to IH]; intros d.
  { simpl. split; [lia|]. intros q. by rewrite decide_False by lia. }
  destruct (IH (deliver e d x)) as [Hh Hr]. simpl foldl. rewrite Hh.
  rewrite head_seq_deliver in *. rewrite filter_cons. split.
  - case_decide; case_decide; subst; simpl; lia || done.
  - intros q. rewrite Hr. unfold deliver. simpl. rewrite lookup_insert.
    destruct (decide (u = x)) as [->|Hne].
    + rewrite (decide_True (P := x = x)) by done. simpl length.
      destruct (decide (q = head_seq d x + 1)%Z) as [->|Hq].
      * rewrite (decide_True (P := (x, _) = _)) by done.
        rewrite (decide_True (P := (head_seq d x < _ ∧ _)%Z)) by lia. by case_decide.
      * rewrite (decide_False (P := (x, _) = _)) by congruence.
        repeat case_decide; done || lia.
    + rewrite (decide_False (P := x = u)), (decide_False (P := (x, _) = _)) by congruence. done.
Qed.
End SaveSpec.

(** * The reading methods *)

Section Reads.
Context `{MySQL}.
Implicit Types (d : db).

Lemma user_rows_elem uid p d s r :
  (s, r) ∈ user_rows uid p d ↔ user_events d !! (uid, s) = Some r ∧ p s r.
Proof.
  unfold user_rows. rewrite sort_by_elem, list_elem_of_omap. split.
  - intros ([[u s'] r'] & Hin & Hf). apply elem_of_map_to_list in Hin.
    case_bool_decide; simpl in Hf; [|done]. destruct (p s' r') eqn:Hp; simplify_eq.
    by rewrite Hp.
  - intros [Hl Hp]. exists ((uid, s), r). rewrite elem_of_map_to_list. split; [done|].
    rewrite bool_decide_eq_true_2 by done. simpl. by destruct (p s r).
Qed.

Lemma omap_rows_NoDup (uid : Z) (p : Z → user_event_row → bool) (l : list (Z * Z * user_event_row)) :
  NoDup l.*1 →
  NoDup (omap (λ kv : Z * Z * user_event_row,
    let '((u, s), r) := kv in
    if bool_decide (u = uid) && p s r then Some (s, r) else None) l).*1.
Proof.
  induction l as [|[[u s] r] l IH]; simpl; [constructor|].
  intros [Hnin Hnd]%NoDup_cons. case_bool_decide; simpl; [|by apply IH].
  destruct (p s r); simpl; [|by apply IH].
  apply NoDup_cons. split; [|by apply IH]. subst. contradict Hnin.
  apply list_elem_of_fmap in Hnin as ([s' r'] & Heq & Hin). simpl in Heq. subst s'.
  apply list_elem_of_omap in Hin as ([[u' s''] r''] & Hin & Hf).
  case_bool_decide; simpl in Hf; [|done]. destruct (p s'' r''); simplify_eq.
  apply list_elem_of_fmap. by eexists ((_, _), _).
Qed.

Lemma sort_desc_strict {A} (l : list (Z * A)) :
  NoDup l.*1 → StronglySorted Z.gt (sort_by (λ r, - fst r)%Z l).*1.
Proof.
  intros Hnd. pose proof (sort_by_sorted (λ r : Z * A, - fst r)%Z l) as Hs.
  rewrite <-(sort_by_perm (λ r : Z * A, - fst r)%Z l) in Hnd.
  induction Hs as [|[s a] k Hs IH Hall]; simpl in *; [constructor|].
  apply NoDup_cons in Hnd as [Hnin Hnd]. constructor; [by apply IH|].
  apply Forall_forall. intros x Hx.
  assert (Hne : x ≠ s) by congruence. apply list_elem_of_fmap in Hx as ([s' a'] & -> & Hin).
  rewrite Forall_forall in Hall. specialize (Hall _ Hin). unfold key_le in Hall. simpl in *. lia.
Qed.

Lemma user_rows_desc uid p d : StronglySorted Z.gt (user_rows uid p d).*1.
Proof. apply sort_desc_strict, omap_rows_NoDup, NoDup_fst_map_to_list. Qed.

(** A method whose closure does not write leaves the tables alone. *)
Lemma withTx_tables {A} (exec : tx A) c r c' :
  (∀ c r c', exec c = (r, c') → tables c' = tables c) →
  withTx exec c = (r, c') → tables c' = tables c.
Proof.
  intros Hexec. unfold withTx. destruct (fault (calls c)); [naive_solver|].
  destruct (exec (next_call c)) as [[a|e] c1] eqn:E; [|naive_solver].
  apply Hexec in E. destruct (commit_fault (calls c1)) as [[? []]|]; naive_solver.
Qed.

Lemma withTx_Ok {A} (exec : tx A) c a c' :
  withTx exec c = (Ok a, c') → ∃ c1, exec (next_call c) = (Ok a, c1) ∧ tables c' = tables c1.
Proof.
  unfold withTx. destruct (fault (calls c)); [done|].
  destruct (exec (next_call c)) as [[a'|e] c1]; [|done].
  destruct (commit_fault (calls c1)) as [[? []]|]; naive_solver.
Qed.

Lemma withTx_db_ok {A} (exec : tx A) c :
  (∀ a c', exec (next_call c) = (Ok a, c') → db_ok (tables c')) →
  db_ok (tables c) → db_ok (tables (withTx exec c).2).
Proof.
  intros Hexec Hok. unfold withTx. destruct (fault (calls c)); [done|].
  destruct (exec (next_call c)) as [[a|e] c1]; [|done].
  specialize (Hexec _ _ eq_refl). by destruct (commit_fault (calls c1)) as [[? []]|].
Qed.

(** [rows.Next] yields a prefix of the result of the query. *)
Lemma query_rows_Ok {R} (rows : db → list R) c l c' :
  query_rows rows c = (Ok l, c') →
  l `prefix_of` rows (tables c) ∧ tables c' = tables c ∧
  (rows_cut (calls c) = None → l = rows (tables c)).
Proof.
  unfold query_rows. destruct (fault (calls c)); [done|]. intros [= <- <-].
  split_and!; [|done|].
  - destruct (rows_cut (calls c)) as [n|]; [|done].
    exists (drop n (rows (tables c))). by rewrite take_drop.
  - by intros ->.
Qed.

Lemma query_rows_Err {R} (rows : db → list R) c e c' :
  query_rows rows c = (Err e, c') → fault (calls c) = Some e ∧ tables c' = tables c.
Proof. unfold query_rows. destruct (fault (calls c)); naive_solver. Qed.

Definition event_of (uid : Z) (row : Z * Z * Z * string) : pb_Event :=
  let '(s, t, rs, payload) := row in
  {| Event_Uid := uid; Event_Seq := s; Event_CreateTime := unix t;
     Event_Payload := payload; Event_ReadState := bool_decide (rs = 1)%Z |}.

Definition row_ok (row : Z * Z * Z * string) : Prop :=
  let '(s, _, rs, _) := row in in_int32 s ∧ (rs = 0 ∨ rs = 1)%Z.

Lemma GetEvents_loop_ok uid rows acc c :
  Forall row_ok rows → GetEvents_loop uid rows acc c = (Ok (acc ++ (event_of uid <$> rows)), c).
Proof.
  revert acc. induction rows as [|[[[s t] rs] payload] rows IH]; intros acc Hok; simpl.
  { by rewrite app_nil_r. }
  apply Forall_cons in Hok as [[Hs Hrs] Hok].
  unfold tx_bind at 1, scan_int32. rewrite bool_decide_eq_true_2 by done. simpl.
  unfold tx_bind at 1, scan_bool.
  destruct Hrs as [-> | ->]; simpl; rewrite IH by done; by rewrite <-app_assoc.
Qed.

Lemma getEventsSQL_ok uid from to d : db_ok d → Forall row_ok (getEventsSQL uid from to d).
Proof.
  intros Hok. apply Forall_forall. intros [[[s t] rs] p] Hin.
  apply list_elem_of_omap in Hin as ([s' r] & Hin & Hf).
  apply user_rows_elem in Hin as [Hl _].
  destruct (events d !! ue_topic_offset r); simplify_eq/=.
  destruct (ok_rows _ Hok _ _ _ Hl) as [Hq Hrs].
  pose proof (head_seq_bounds d uid Hok). unfold in_int32, MaxInt32 in *. split; [lia|done].
Qed.

(** With the foreign key the join keeps every row. *)
Lemma getEventsSQL_elem uid from to d s t rs p :
  (s, t, rs, p) ∈ getEventsSQL uid from to d ↔
  ∃ r er, user_events d !! (uid, s) = Some r ∧ (from ≤ s ≤ to)%Z ∧
    events d !! ue_topic_offset r = Some er ∧
    t = ue_create_time r ∧ rs = ue_read_state r ∧ p = er_payload er.
Proof.
  unfold getEventsSQL. rewrite list_elem_of_omap. split.
  - intros ([s' r] & Hin & Hf). apply user_rows_elem in Hin as [Hl Hp].
    destruct (events d !! ue_topic_offset r) as [er|] eqn:He; simplify_eq/=.
    exists r, er. split_and!; try done; case_bool_decide; case_bool_decide; done.
  - intros (r & er & Hl & [Hf Ht] & He & -> & -> & ->). exists (s, r).
    rewrite user_rows_elem. rewrite !bool_decide_eq_true_2 by done. by rewrite He.
Qed.

Lemma getEventsSQL_seqs uid from to d :
  db_ok d →
  (λ row, fst (fst (fst row))) <$> getEventsSQL uid from to d
  = (user_rows uid (λ s _, bool_decide (from ≤ s)%Z && bool_decide (s ≤ to)%Z) d).*1.
Proof.
  intros Hok. unfold getEventsSQL.
  assert (Hfk : Forall (λ sr : Z * user_event_row, is_Some (events d !! ue_topic_offset (snd sr)))
    (user_rows uid (λ s _, bool_decide (from ≤ s)%Z && bool_decide (s ≤ to)%Z) d)).
  { apply Forall_forall. intros [s r] Hin. apply user_rows_elem in Hin as [Hl _].
    by apply (ok_fk _ Hok (uid, s)). }
  induction Hfk as [|[s r] l [er Her] _ IH]; [done|]. simpl in *. rewrite Her. simpl. by f_equal.
Qed.
End Reads.

(** * The writing methods and the invariant *)

Section Writes.
Context `{MySQL}.
Implicit Types (d : db).

Lemma setReadSQL_db_ok uid seq d : db_ok d → db_ok (setReadSQL uid seq d).2.
Proof.
  intros Hok. unfold setReadSQL. destruct (user_events d !! (uid, seq)) as [r|] eqn:E; [|done].
  case_bool_decide; [|done]. split; [apply (ok_seq _ Hok)| |]; simpl.
  - intros u q r'. rewrite lookup_insert. case_decide.
    + intros [= <-]. simplify_eq. simpl. split; [|lia]. by apply (ok_rows _ Hok _ _ _ E).
    + apply (ok_rows _ Hok).
  - intros k r'. rewrite lookup_insert. case_decide.
    + intros [= <-]. simpl. by apply (ok_fk _ Hok _ _ E).
    + apply (ok_fk _ Hok).
Qed.

Lemma cleanEventsSQL_db_ok cutoff d : db_ok d → db_ok (cleanEventsSQL cutoff d).2.
Proof.
  intros Hok. unfold cleanEventsSQL. split; [apply (ok_seq _ Hok)| |]; simpl.
  - intros u q r [Hr _]%map_lookup_filter_Some. by apply (ok_rows _ Hok).
  - intros k r [Hr Hk]%map_lookup_filter_Some. done.
Qed.

Lemma sql_then_ret_Ok {A B} (body : db → result sql_error A * db) (f : A → B) c b c' :
  (let? n := sql_call body in tx_ret (f n)) c = (Ok b, c') →
  ∃ a, body (tables c) = (Ok a, tables c') ∧ b = f a.
Proof.
  intros (a & c1 & H1%sql_call_Ok & [= <- <-])%tx_bind_Ok. eauto.
Qed.

Lemma SetRead_Ok uid seq c resp c' :
  SetRead uid seq c = (Ok resp, c') →
  ∃ n, setReadSQL uid seq (tables c) = (Ok n, tables c') ∧
    resp = {| SetReadResp_Seq := seq; Changed := bool_decide (n = 1)%Z |}.
Proof.
  unfold SetRead. intros (b & c1 & H1 & [= <- <-])%tx_bind_Ok.
  apply withTx_Ok in H1 as (c2 & H1 & Ht).
  apply sql_then_ret_Ok in H1 as (n & H1 & ->). simpl in H1. rewrite Ht. eauto.
Qed.

(** All calls of the store interface, as steps on the connection. *)
Inductive store_step : conn → conn → Prop :=
| step_Save e c : store_step c (Save e c).2
| step_SetRead uid seq c : store_step c (SetRead uid seq c).2
| step_Delete midnight now days c : store_step c (DeleteOutdatedEvents midnight now days c).2
| step_Stats midnight now uid days req c : store_step c (Stats midnight now uid days req c).2
| step_GetEvents uid req c : store_step c (GetEvents uid req c).2
| step_GetReadStates midnight now uid days req c r c' :
    GetReadStates midnight now uid days req c = Ret (r, c') → store_step c c'.

Lemma tx_bind_ret_snd {A B} (m : tx A) (f : A → B) c :
  ((let? x := m in tx_ret (f x)) c).2 = (m c).2.
Proof. unfold tx_bind, tx_ret. by destruct (m c) as [[]]. Qed.

Lemma getSeq_tables uid c r c' : getSeq uid c = (r, c') → tables c' = tables c.
Proof.
  unfold getSeq, tx_catch.
  destruct ((let? s := sql_call (getSeqSQL uid) in scan_int32 s) c) as [[s|e] c1] eqn:E.
  - apply read_seq_Ok in E. naive_solver.
  - apply read_seq_Err in E. unfold tx_ret, tx_err. case_decide; naive_solver.
Qed.

Lemma countUnread_tables cutoff uid c r c' :
  countUnread cutoff uid c = (r, c') → tables c' = tables c.
Proof.
  unfold countUnread, tx_bind, sql_call, scan_int32, tx_ret, tx_err, countUnreadSQL, next_call.
  destruct (fault (calls c)); [naive_solver|]. case_bool_decide; naive_solver.
Qed.

Lemma Stats_tables midnight now uid days req c r c' :
  Stats midnight now uid days req c = (r, c') → tables c' = tables c.
Proof.
  unfold Stats. apply withTx_tables. clear. intros c r c'. unfold tx_bind, tx_ret.
  destruct (getSeq uid c) as [[q|e] c1] eqn:E; apply getSeq_tables in E; [|naive_solver].
  destruct (CountUnread req); [|naive_solver].
  destruct (countUnread _ uid c1) as [[n|e] c2] eqn:E2; apply countUnread_tables in E2;
    intros [= <- <-]; congruence.
Qed.

Lemma GetEvents_loop_conn uid rows acc c r c' :
  GetEvents_loop uid rows acc c = (r, c') → c' = c.
Proof.
  revert acc. induction rows as [|[[[s t] rs] p] rows IH]; intros acc; simpl.
  { by intros [= <- <-]. }
  unfold tx_bind, scan_int32, scan_bool, tx_ret, tx_err.
  repeat case_bool_decide; try naive_solver; apply IH.
Qed.

Lemma GetReadStates_loop_conn rows ss rs c r c' :
  GetReadStates_loop rows ss rs c = (r, c') → c' = c.
Proof.
  revert ss rs. induction rows as [|[s b] rows IH]; intros ss rs; simpl.
  { by intros [= <- <-]. }
  unfold tx_bind, scan_int32, tx_ret, tx_err.
  repeat case_bool_decide; try naive_solver; apply IH.
Qed.

Lemma query_tables {R A} (rows : db → list R) (k : list R → tx A) c r c' :
  (∀ l c r c', k l c = (r, c') → c' = c) →
  (let? l := query_rows rows in k l) c = (r, c') → tables c' = tables c.
Proof.
  intros Hk. unfold tx_bind. destruct (query_rows rows c) as [[l|e] c1] eqn:E.
  - intros ->%Hk. by apply query_rows_Ok in E as (_ & ? & _).
  - intros [= <- <-]. by apply query_rows_Err in E as [_ ?].
Qed.

Lemma GetEvents_tables uid req c r c' :
  GetEvents uid req c = (r, c') → tables c' = tables c.
Proof.
  intros Hrun. apply (f_equal snd) in Hrun. unfold GetEvents in Hrun.
  rewrite tx_bind_ret_snd in Hrun. simpl in Hrun. subst c'.
  destruct (withTx _ c) as [r' c'] eqn:E. apply withTx_tables in E; [done|].
  clear. intros c r c'. apply query_tables. intros. by eapply GetEvents_loop_conn.
Qed.

Lemma GetReadStates_tables midnight now uid days req c r c' :
  GetReadStates midnight now uid days req c = Ret (r, c') → tables c' = tables c.
Proof.
  unfold GetReadStates. destruct (withTx _ c) as [[[ss bs]|e] c1] eqn:E.
  - destruct (MakeGetReadStatesResp ss bs); [|done]. intros [= <- <-].
    apply withTx_tables in E; [done|]. clear. intros c r c'.
    apply query_tables. intros. by eapply GetReadStates_loop_conn.
  - intros [= <- <-]. apply withTx_tables in E; [done|]. clear. intros c r c'.
    apply query_tables. intros. by eapply GetReadStates_loop_conn.
Qed.

(** A transaction of one statement either applies it or leaves the tables. *)
Lemma withTx_single {A B} (body : db → result sql_error A * db) (f : A → B) c :
  let c' := (withTx (let? n := sql_call body in tx_ret (f n)) c).2 in
  tables c' = tables c ∨ tables c' = (body (tables c)).2.
Proof.
  unfold withTx. destruct (fault (calls c)); [by left|].
  destruct ((let? n := sql_call body in _) (next_call c)) as [[a|e] c1] eqn:E; [|by left].
  apply sql_then_ret_Ok in E as (n & E & _). simpl in E. rewrite E.
  destruct (commit_fault (calls c1)) as [[? []]|]; simpl; auto.
Qed.

(** What one step may do to the tables. *)
Lemma store_step_tables c c' :
  db_ok (tables c) → store_step c c' →
  tables c' = tables c ∨
  (∃ e, events (tables c) !! Offset e = None ∧ tables c' = apply_event e (tables c) ∧ db_ok (tables c')) ∨
  (∃ uid seq, tables c' = (setReadSQL uid seq (tables c)).2) ∨
  (∃ cutoff, tables c' = (cleanEventsSQL cutoff (tables c)).2).
Proof.
  intros Hok Hs. destruct Hs as [e c|uid seq c|mid now days c|mid now uid days req c|uid req c|mid now uid days req c r c' Hr].
  - destruct (Save e c) as [r c'] eqn:E. apply Save_cases in E; [|done].
    destruct E as [(?&?&?&_)|[(?&_&_&?&_)|(?&_)]]; simpl; naive_solver.
  - unfold SetRead. rewrite tx_bind_ret_snd.
    destruct (withTx_single (setReadSQL uid seq) (λ n, bool_decide (n = 1)%Z) c); [by left|].
    right; right; left. eauto.
  - destruct (withTx_single (cleanEventsSQL (unix (GetDayBefore mid now days))) wrap32 c); [by left|].
    right; right; right. eauto.
  - left. destruct (Stats mid now uid days req c) as [r c'] eqn:E. by apply Stats_tables in E.
  - left. destruct (GetEvents uid req c) as [r c'] eqn:E. by apply GetEvents_tables in E.
  - left. by eapply GetReadStates_tables.
Qed.

Lemma store_step_db_ok c c' : db_ok (tables c) → store_step c c' → db_ok (tables c').
Proof.
  intros Hok Hs. destruct (store_step_tables c c' Hok Hs) as [->|[(?&_&_&?)|[(?&?&->)|(?&->)]]];
    auto using setReadSQL_db_ok, cleanEventsSQL_db_ok.
Qed.

Lemma db_empty_ok : db_ok db_empty.
Proof. split; intros *; unfold db_empty; simpl; by rewrite lookup_empty. Qed.
End Writes.

(** * Progress: without failures Save succeeds *)

Section Progress.
Context `{MySQL}.
Hypothesis no_fault : ∀ i, fault i = None.
Hypothesis no_commit_fault : ∀ i, commit_fault i = None.

Lemma sql_call_run {A} (body : db → result sql_error A * db) c a d :
  body (tables c) = (Ok a, d) →
  sql_call body c = (Ok a, {| tables := d; calls := S (calls c) |}).
Proof using no_fault. intros Hb. unfold sql_call. by rewrite no_fault, Hb. Qed.

Lemma incSeq_total uid c :
  db_ok (tables c) → in_uint32 uid → (head_seq (tables c) uid + 1 ≤ MaxInt32)%Z →
  ∃ c', incSeq uid c = (Ok (head_seq (tables c) uid + 1)%Z, c').
Proof using no_fault.
  intros Hok Hu Hmax. pose proof (head_seq_bounds _ uid Hok) as Hb.
  assert (Hwrap : wrap32 (head_seq (tables c) uid + 1) = (head_seq (tables c) uid + 1)%Z).
  { apply wrap32_id. unfold in_int32, MaxInt32 in *. lia. }
  unfold incSeq, tx_catch, tx_bind, sql_call. rewrite !no_fault.
  unfold getSeqSQL at 1. unfold head_seq, MaxInt32 in *.
  destruct (user_seq (tables c) !! uid) as [s|] eqn:E; simpl in *.
  - pose proof (ok_seq _ Hok _ _ E) as [_ Hs].
    unfold scan_int32. rewrite bool_decide_eq_true_2 by (unfold in_int32; lia). simpl.
    rewrite bool_decide_eq_false_2 by lia. simpl.
    rewrite ?no_fault. unfold incSeqSQL. simpl. rewrite E.
    rewrite (bool_decide_eq_true_2 (s = s)), bool_decide_eq_true_2 by (unfold in_uint32; done || lia).
    eexists. unfold tx_ret. by rewrite Hwrap.
  - rewrite ?no_fault. unfold insertSeqSQL. rewrite bool_decide_eq_true_2 by done. simpl. rewrite E.
    unfold tx_ret. simpl. rewrite no_fault. unfold incSeqSQL. simpl.
    rewrite lookup_insert_eq. by eexists.
Qed.

Lemma Save_turn_total e uid c :
  db_ok (tables c) → is_Some (events (tables c) !! Offset e) →
  in_uint32 uid → (head_seq (tables c) uid + 1 ≤ MaxInt32)%Z →
  ∃ c1 c2, incSeq uid c = (Ok (head_seq (tables c) uid + 1)%Z, c1) ∧
    sql_call (insertUserEventSQL uid (head_seq (tables c) uid + 1) (Event_CreateTime_ns e) (Offset e)) c1
    = (Ok tt, c2).
Proof using no_fault.
  intros Hok [er Hev] Hu Hmax. pose proof (head_seq_bounds _ uid Hok) as Hb.
  destruct (incSeq_total uid c) as [c1 Hinc]; [done..|].
  exists c1. eexists. split; [done|]. apply incSeq_Ok in Hinc as (_ & _ & Ht); [|done].
  apply sql_call_run. unfold insertUserEventSQL.
  rewrite bool_decide_eq_true_2 by (unfold in_uint32, MaxInt32 in *; split; [done|lia]).
  rewrite Ht. simpl. rewrite next_row_free, Hev by done. reflexivity.
Qed.

Lemma Save_loop_total e to m c :
  db_ok (tables c) → is_Some (events (tables c) !! Offset e) →
  Forall (λ uid, in_uint32 uid ∧ head_seq (tables c) uid + occurrences uid to ≤ MaxInt32)%Z to →
  ∃ m' c', Save_loop e to m c = (Ok m', c').
Proof using no_fault.
  revert m c. induction to as [|uid to IH]; intros m c Hok Hev Hto; simpl; [by eexists _, _|].
  pose proof (Forall_inv Hto) as [Hu Hmax].
  assert (Hocc : ∀ u, occurrences u (uid :: to) = (occurrences u to + if decide (uid = u) then 1 else 0)%Z).
  { intros u. unfold occurrences. rewrite filter_cons. case_decide; simpl; lia. }
  rewrite Hocc, decide_True in Hmax by done.
  assert (0 ≤ occurrences uid to)%Z by (unfold occurrences; lia).
  destruct (Save_turn_total e uid c) as (c1 & c2 & Hinc & Hins); [done|done|done|lia|].
  destruct (Save_turn_Ok e uid c _ c1 c2 Hok Hev Hinc Hins) as (Ht & Hok2 & _).
  unfold tx_bind. rewrite Hinc, Hins. apply IH; [done| |].
  { by rewrite Ht. }
  apply Forall_forall. intros u Hin. rewrite Forall_forall in Hto.
  destruct (Hto u) as [Huu Hm]; [by right|]. split; [done|].
  rewrite Ht, head_seq_deliver. rewrite Hocc in Hm.
  repeat case_decide; simplify_eq; lia.
Qed.

Lemma Save_total e c :
  db_ok (tables c) → (0 ≤ Offset e)%Z →
  Forall (λ uid, in_uint32 uid ∧ head_seq (tables c) uid + occurrences uid (To e) ≤ MaxInt32)%Z (To e) →
  match events (tables c) !! Offset e with Some row => same_event e row | None => true end →
  ∃ m c', Save e c = (Ok m, c').
Proof using no_fault no_commit_fault.
  intros Hok Hoff Hto Hsame. unfold Save, withTx. rewrite no_fault.
  unfold sql_call at 1. rewrite no_fault. unfold insertEventSQL.
  rewrite bool_decide_eq_false_2 by lia. simpl.
  destruct (events (tables c) !! Offset e) as [row|] eqn:Hev.
  - unfold Save_duplicate, tx_bind, tx_catch, sql_call, getEventSQL. simpl.
    rewrite no_fault. simpl. rewrite Hev. simpl.
    destruct (same_event e row); [|done]. simpl. rewrite no_commit_fault. by eexists _, _.
  - unfold tx_bind, sql_call. rewrite no_fault. simpl. cbn [tables calls].
    destruct (Save_loop_total e (To e) ∅ {| tables := add_event_row e (tables c); calls := S (S (S (calls c))) |})
      as (m & c' & Hl).
    { by apply add_event_row_db_ok. }
    { simpl. rewrite lookup_insert_eq. by eexists. }
    { done. }
    unfold add_event_row in Hl. rewrite Hl. rewrite no_commit_fault. by eexists _, _.
Qed.
End Progress.

(** * Duplicate keys

    Which calls of [Save] end in a duplicate-key error, on a server whose own
    failures are not reported as one. *)

Section DupKeys.
Context `{MySQL}.
Hypothesis fault_not_dup : ∀ i e, fault i = Some e → IsDupKeyError e = false.
Hypothesis commit_not_dup : ∀ i e b, commit_fault i = Some (e, b) → IsDupKeyError e = false.

Lemma tx_bind_Err {A B} (m : tx A) (k : A → tx B) c e c' :
  tx_bind m k c = (Err e, c') →
  m c = (Err e, c') ∨ ∃ a c1, m c = (Ok a, c1) ∧ k a c1 = (Err e, c').
Proof. unfold tx_bind. destruct (m c) as [[a|e'] c1]; naive_solver. Qed.

Lemma sql_call_not_dup {A} (body : db → result sql_error A * db) c e c' :
  (∀ e d', body (tables c) = (Err e, d') → IsDupKeyError e = false) →
  sql_call body c = (Err e, c') → IsDupKeyError e = false.
Proof using fault_not_dup.
  intros Hb. unfold sql_call. destruct (fault (calls c)) eqn:Hf; [intros [= <- _]; by eapply fault_not_dup|].
  destruct (body (tables c)) as [r d] eqn:E. intros [= -> _]. by eapply Hb.
Qed.

Lemma read_seq_not_dup uid c e c' :
  (let? s := sql_call (getSeqSQL uid) in scan_int32 s) c = (Err e, c') → IsDupKeyError e = false.
Proof using fault_not_dup.
  intros [Hc|(s & c1 & _ & Hc)]%tx_bind_Err.
  - eapply sql_call_not_dup; [|done]. intros e' d'. unfold getSeqSQL.
    destruct (user_seq (tables c) !! uid); naive_solver.
  - unfold scan_int32, tx_ret, tx_err in Hc. case_bool_decide; naive_solver.
Qed.

Lemma incSeq_not_dup uid c e c' : incSeq uid c = (Err e, c') → IsDupKeyError e = false.
Proof using fault_not_dup.
  intros [Hr|(s1 & c1 & _ & Hr)]%tx_bind_Err.
  { unfold tx_catch in Hr. destruct (tx_bind _ _ c) as [[?|e'] c1] eqn:E; [done|].
    case_decide; [done|]. injection Hr as -> _. by eapply read_seq_not_dup. }
  apply tx_bind_Err in Hr as [Hr|(s2 & c2 & _ & Hr)].
  - case_bool_decide; [|done]. unfold tx_catch in Hr.
    destruct (tx_bind _ _ c1) as [[?|e'] c2] eqn:E; [done|].
    destruct (IsDupKeyError e') eqn:Hd; [by eapply read_seq_not_dup|]. by injection Hr as <- _.
  - apply tx_bind_Err in Hr as [Hr|(? & ? & _ & Hr)]; [|done].
    eapply sql_call_not_dup; [|done]. intros e' d'. unfold incSeqSQL. go_cases; naive_solver.
Qed.

Lemma Save_turn_not_dup e uid c q c1 err c2 :
  db_ok (tables c) → incSeq uid c = (Ok q, c1) →
  sql_call (insertUserEventSQL uid q (Event_CreateTime_ns e) (Offset e)) c1 = (Err err, c2) →
  IsDupKeyError err = false.
Proof using fault_not_dup.
  intros Hok Hinc Hins. pose proof (head_seq_bounds _ uid Hok) as Hb.
  apply incSeq_Ok in Hinc as (Hu & Hq & Ht); [|done].
  eapply sql_call_not_dup; [|done]. intros e' d'. unfold insertUserEventSQL.
  case_bool_decide as Hr; [|naive_solver]. destruct Hr as [_ Hrq].
  assert (Hq' : q = (head_seq (tables c) uid + 1)%Z).
  { destruct (decide (head_seq (tables c) uid = 2147483647)%Z) as [Heq|].
    - rewrite Heq in Hq. change (wrap32 (2147483647 + 1)) with (-2147483648)%Z in Hq.
      unfold in_uint32 in Hrq. lia.
    - rewrite wrap32_id in Hq; [done|]. unfold in_int32, MaxInt32 in *. lia. }
  rewrite Ht. simpl. rewrite Hq', next_row_free by done. destruct (events (tables c) !! Offset e); naive_solver.
Qed.

Lemma Save_loop_not_dup e to m c err c' :
  db_ok (tables c) → is_Some (events (tables c) !! Offset e) →
  Save_loop e to m c = (Err err, c') → IsDupKeyError err = false.
Proof using fault_not_dup.
  revert m c. induction to as [|uid to IH]; intros m c Hok Hev Hrun; [done|]. simpl in Hrun.
  apply tx_bind_Err in Hrun as [Hrun|(q & c1 & Hinc & Hrun)]; [by eapply incSeq_not_dup|].
  apply tx_bind_Err in Hrun as [Hrun|([] & c2 & Hins & Hrun)]; [by eapply Save_turn_not_dup|].
  destruct (Save_turn_Ok e uid c q c1 c2) as (Ht & Hok2 & _); [done..|].
  eapply IH; [exact Hok2| |exact Hrun]. by rewrite Ht.
Qed.

(** [Save] ends in a duplicate-key error only for an event whose offset is taken,
    when the stored event differs or the server failed during the comparison. *)
Lemma Save_dup e c err c' :
  db_ok (tables c) → Save e c = (Err err, c') → IsDupKeyError err = true →
  ∃ row, events (tables c) !! Offset e = Some row ∧
    (same_event e row = false ∨ ∃ i, is_Some (fault i)).
Proof using fault_not_dup commit_not_dup.
  intros Hok. unfold Save, withTx.
  destruct (fault (calls c)) eqn:Hf; [intros [= <- _] Hd; by rewrite (fault_not_dup _ _ Hf) in Hd|].
  set (body := match sql_call _ _ with (Ok _, _) => _ | (Err _, _) => _ end).
  destruct body as [[m|err'] c1] eqn:E; subst body.
  { destruct (commit_fault (calls c1)) as [[err' []]|] eqn:Hc; intros [= <- _] Hd;
      by rewrite (commit_not_dup _ _ _ Hc) in Hd. }
  intros [= <- _] Hd.
  destruct (sql_call (insertEventSQL _ _ _) (next_call c)) as [[[]|err2] c2] eqn:Hins.
  - exfalso. apply sql_call_Ok in Hins. unfold insertEventSQL in Hins.
    case_bool_decide; [done|]. destruct (events (tables (next_call c)) !! Offset e); [done|].
    injection Hins as Hins. fold (add_event_row e (tables c)) in Hins.
    apply tx_bind_Err in E as [E|([] & c3 & Hp & E)].
    + apply sql_call_not_dup in E; [congruence|naive_solver].
    + apply sql_call_Ok in Hp. injection Hp as Hp.
      apply Save_loop_not_dup in E; [congruence|..]; rewrite <-Hp, <-Hins.
      * by apply add_event_row_db_ok.
      * simpl. rewrite lookup_insert_eq. done.
  - assert (Hsome : IsDupKeyError err2 = true → ∃ row, events (tables c) !! Offset e = Some row).
    { intros Hd2. unfold sql_call in Hins. destruct (fault (calls (next_call c))) eqn:Hf2.
      { injection Hins as -> _. by rewrite (fault_not_dup _ _ Hf2) in Hd2. }
      unfold insertEventSQL in Hins. case_bool_decide; [by injection Hins as <- _|].
      simpl in Hins. destruct (events (tables c) !! Offset e); [eauto|done]. }
    assert (Ht2 : tables c2 = tables c).
    { change (tables c) with (tables (next_call c)).
      eapply sql_call_Err; [|done]. intros d e0 d'. unfold insertEventSQL. go_cases; naive_solver. }
    unfold Save_duplicate in E. destruct (IsDupKeyError err2) eqn:Hd2; [|injection E as <- _; congruence].
    destruct (Hsome eq_refl) as [row Hrow]. exists row. split; [done|].
    unfold tx_bind, tx_catch, sql_call in E.
    destruct (fault (calls c2)) eqn:Hf3; [right; eauto|].
    unfold getEventSQL in E. rewrite Ht2, Hrow in E. simpl in E.
    destruct (same_event e row); [done|]. by left.
Qed.
End DupKeys.

(** * Read states *)

Section ReadStatesOfStore.
Context `{MySQL}.

Lemma GetReadStates_loop_ok rows ss bs c :
  Forall (λ r : Z * Z, in_int32 r.1 ∧ (r.2 = 0 ∨ r.2 = 1)%Z) rows →
  GetReadStates_loop rows ss bs c
  = (Ok (ss ++ rows.*1, bs ++ ((λ r : Z * Z, bool_decide (0 < r.2)%Z) <$> rows)), c).
Proof.
  revert ss bs. induction rows as [|[s b] rows IH]; intros ss bs Hok; simpl.
  { by rewrite !app_nil_r. }
  apply Forall_cons in Hok as [[Hs Hb] Hok]. simpl in *.
  unfold tx_bind, scan_int32. rewrite bool_decide_eq_true_2 by done. simpl.
  rewrite bool_decide_eq_true_2 by lia. rewrite IH by done. by rewrite <-!app_assoc.
Qed.

Lemma getReadStatesSQL_elem uid head cutoff d s b :
  db_ok d → (s, b) ∈ getReadStatesSQL uid head cutoff d →
  (1 ≤ s ≤ head_seq d uid)%Z ∧ (s ≤ head)%Z ∧ (b = 0 ∨ b = 1)%Z.
Proof.
  intros Hok Hin. apply list_elem_of_fmap in Hin as ([s' r] & [= -> ->] & Hin).
  apply user_rows_elem in Hin as [Hl Hp]. destruct (ok_rows _ Hok _ _ _ Hl).
  case_bool_decide; naive_solver.
Qed.

Lemma getReadStatesSQL_desc uid head cutoff d :
  StronglySorted Z.gt (getReadStatesSQL uid head cutoff d).*1.
Proof.
  unfold getReadStatesSQL. rewrite <-list_fmap_compose. apply user_rows_desc.
Qed.

Lemma StronglySorted_prefix {A} (R : relation A) (l k : list A) :
  l `prefix_of` k → StronglySorted R k → StronglySorted R l.
Proof. intros [l' ->]. apply StronglySorted_app_1_l. Qed.

(** The rows read by the transaction of [GetReadStates]. *)
Lemma GetReadStates_rows uid head cutoff c p c' :
  db_ok (tables c) →
  withTx (let? rows := query_rows (getReadStatesSQL uid head cutoff) in
          GetReadStates_loop rows [] []) c = (Ok p, c') →
  ∃ rows, rows `prefix_of` getReadStatesSQL uid head cutoff (tables c) ∧
    p = (rows.*1, (λ r : Z * Z, bool_decide (0 < r.2)%Z) <$> rows).
Proof.
  intros Hok (c1 & Hrun & _)%withTx_Ok.
  apply tx_bind_Ok in Hrun as (rows & c2 & Hq & Hl).
  apply query_rows_Ok in Hq as (Hpre & _ & _). simpl in Hpre. exists rows. split; [done|].
  rewrite GetReadStates_loop_ok in Hl by (apply Forall_forall; intros [s b] Hin;
    eapply elem_of_prefix in Hin; [|done];
    apply getReadStatesSQL_elem in Hin as (Hs & _ & Hb); [|done];
    pose proof (head_seq_bounds _ uid Hok); unfold in_int32, MaxInt32 in *; simpl; split; [lia|done]).
  by injection Hl as <- _.
Qed.
End ReadStatesOfStore.

(** * Properties *)

Section Properties.
Context `{MySQL}.

(** C1: every call of [Save], whatever the server does, has one of three
    outcomes: it applies the whole event (the event row, and for each recipient
    the next number and an unread row) and reports the new heads; it finds the
    event already stored and reports nothing; or it fails and leaves the tables
    as they were, unless the commit was applied and only its answer was lost. *)
Theorem Save_refines e c r c' :
  db_ok (tables c) → Save e c = (r, c') →
  match r with
  | Ok m =>
      (events (tables c) !! Offset e = None ∧ tables c' = apply_event e (tables c) ∧
       m = new_heads (To e) (tables c')) ∨
      (∃ row, events (tables c) !! Offset e = Some row ∧ same_event e row ∧
       tables c' = tables c ∧ m = ∅)
  | Err err =>
      tables c' = tables c ∨
      (events (tables c) !! Offset e = None ∧ tables c' = apply_event e (tables c) ∧
       commit_fault (pred (calls c')) = Some (err, true))
  end.
Proof.
  intros Hok Hs. pose proof (Save_cases e c r c' Hok Hs) as Hc. destruct r as [m|err].
  - destruct Hc as [(?&?&?&?)|[(row&?&?&?&[= ->])|(_&?&?)]]; naive_solver.
  - destruct Hc as [(?&?&_&?)|[(?&?&?&?&?)|(?&_)]]; naive_solver.
Qed.

(** C2: exactly once. However often saving a new event failed before (lost
    commits included), once [Save] succeeds the tables hold the effect of the
    event exactly once. *)
Theorem Save_exactly_once e c c1 m c2 :
  db_ok (tables c) → events (tables c) !! Offset e = None →
  failed_saves e c c1 → Save e c1 = (Ok m, c2) →
  tables c2 = apply_event e (tables c).
Proof.
  intros Hok Hnew Hf Hs. destruct (failed_saves_tables e c c1 Hok Hf) as [Hok1 Ht1].
  destruct (Save_cases e c1 (Ok m) c2 Hok1 Hs) as [(Hn & Ht & _)|[(row & Hr & _ & Ht & _)|(_&?&?)]]; [| |done].
  - destruct Ht1 as [Heq|[_ Heq]]; [by rewrite Ht, Heq|].
    rewrite Heq, apply_event_row in Hn. done.
  - destruct Ht1 as [Heq|[_ Heq]]; [congruence|]. by rewrite Ht.
Qed.

(** C3: numbering. A successful [Save] of a new event gives each recipient,
    for every time it is listed, the next consecutive number: the head grows by
    the number of occurrences, exactly the new numbers get an unread row of
    this event, all other rows stay, and the reported map holds the new head of
    exactly the recipients. *)
Theorem Save_numbers e c m c' uid :
  db_ok (tables c) → events (tables c) !! Offset e = None → Save e c = (Ok m, c') →
  head_seq (tables c') uid = (head_seq (tables c) uid + occurrences uid (To e))%Z ∧
  (∀ q, user_events (tables c') !! (uid, q) =
    if decide (head_seq (tables c) uid < q ≤ head_seq (tables c') uid)%Z
    then Some {| ue_create_time := datetime3 (Event_CreateTime_ns e); ue_read_state := 0;
                 ue_topic_offset := Offset e |}
    else user_events (tables c) !! (uid, q)) ∧
  m !! uid = (if decide (uid ∈ To e) then Some (head_seq (tables c') uid) else None).
Proof.
  intros Hok Hnew Hs.
  destruct (Save_cases e c (Ok m) c' Hok Hs) as [(_ & Ht & _ & Hm)|[(row & Hr & _)|(_&?&?)]];
    [|congruence|done].
  destruct (foldl_deliver_numbers e (add_event_row e (tables c)) (To e) uid) as [Hh Hrows].
  fold (apply_event e (tables c)) in Hh, Hrows. rewrite <-Ht in Hh, Hrows.
  change (head_seq (add_event_row e (tables c)) uid) with (head_seq (tables c) uid) in *.
  split_and!; [done| |].
  - intros q. rewrite Hrows, Hh. done.
  - subst m. apply new_heads_lookup.
Qed.

(** C4: the tables are well formed in every state the store can reach from
    empty tables, for every sequence of calls and every failure: numbers of
    rows lie between 1 and the user's head, read states are 0 or 1, and every
    row refers to a stored event. *)
Theorem store_invariant c c' :
  tables c = db_empty → rtc store_step c c' → db_ok (tables c').
Proof.
  intros He Hr. assert (Hok : db_ok (tables c)) by (rewrite He; apply db_empty_ok).
  clear He. induction Hr as [|c c1 c2 Hs _ IH]; [done|]. apply IH. by eapply store_step_db_ok.
Qed.

(** One step never reassigns a number at or below the head. *)
Lemma store_step_rows c c' uid q r' :
  db_ok (tables c) → store_step c c' →
  (head_seq (tables c) uid ≤ head_seq (tables c') uid)%Z ∧
  (user_events (tables c') !! (uid, q) = Some r' → (q ≤ head_seq (tables c) uid)%Z →
   ∃ r, user_events (tables c) !! (uid, q) = Some r ∧
     ue_topic_offset r' = ue_topic_offset r ∧ ue_create_time r' = ue_create_time r ∧
     (ue_read_state r ≤ ue_read_state r')%Z).
Proof.
  intros Hok Hs. destruct (store_step_tables c c' Hok Hs) as [->|[(e&_&->&_)|[(u&s&->)|(cut&->)]]].
  - naive_solver.
  - destruct (foldl_deliver_numbers e (add_event_row e (tables c)) (To e) uid) as [Hh Hrows].
    fold (apply_event e (tables c)) in Hh, Hrows.
    change (head_seq (add_event_row e (tables c)) uid) with (head_seq (tables c) uid) in *.
    rewrite Hh, Hrows. split; [unfold occurrences; lia|].
    intros Hr Hq. rewrite decide_False in Hr by lia. naive_solver.
  - unfold setReadSQL. destruct (user_events (tables c) !! (u, s)) as [r|] eqn:E; [|naive_solver].
    case_bool_decide; [|naive_solver]. simpl. split; [done|].
    rewrite lookup_insert. case_decide; [|naive_solver]. intros [= <-] _. simplify_eq.
    exists r. simpl. split_and!; [done..|]. lia.
  - simpl. split; [done|]. intros [Hr _]%map_lookup_filter_Some. naive_solver.
Qed.

(** C5: numbers are never reused. Along any sequence of calls, heads never
    decrease, and a row found later at a number that was already handed out is
    the row that was there before: same event, same time, and never marked
    unread again. *)
Theorem seq_never_reused c c' uid q r' :
  db_ok (tables c) → rtc store_step c c' →
  (head_seq (tables c) uid ≤ head_seq (tables c') uid)%Z ∧
  (user_events (tables c') !! (uid, q) = Some r' → (q ≤ head_seq (tables c) uid)%Z →
   ∃ r, user_events (tables c) !! (uid, q) = Some r ∧
     ue_topic_offset r' = ue_topic_offset r ∧ ue_create_time r' = ue_create_time r ∧
     (ue_read_state r ≤ ue_read_state r')%Z).
Proof.
  intros Hok Hr. revert Hok. induction Hr as [c|c c1 c2 Hs Hr IH]; intros Hok; [naive_solver|].
  destruct (IH (store_step_db_ok _ _ Hok Hs)) as [Hh Hrow]. split.
  - destruct (store_step_rows c c1 uid q r' Hok Hs). lia.
  - intros Hr' Hq. destruct (store_step_rows c c1 uid q r' Hok Hs) as [Hh1 _].
    destruct Hrow as (r1 & Hr1 & Ho & Ht & Hrs); [done|lia|].
    destruct (store_step_rows c c1 uid q r1 Hok Hs) as [_ Hrow].
    destruct Hrow as (r & Hr0 & Ho' & Ht' & Hrs'); [done..|].
    exists r. split_and!; [done|congruence|congruence|lia].
Qed.


(** [SetRead] reports a change exactly when it turned an unread row into a
    read one; that row is the only thing it touches, and repeating it changes
    nothing and says so. *)
Theorem SetRead_correct uid seq c resp c' :
  SetRead uid seq c = (Ok resp, c') →
  SetReadResp_Seq resp = seq ∧
  (Changed resp = true ↔ ∃ r, user_events (tables c) !! (uid, seq) = Some r ∧ ue_read_state r = 0%Z) ∧
  (∀ k, user_events (tables c') !! k =
    if decide (k = (uid, seq) ∧ Changed resp = true)
    then (λ r, {| ue_create_time := ue_create_time r; ue_read_state := 1;
                  ue_topic_offset := ue_topic_offset r |}) <$> user_events (tables c) !! k
    else user_events (tables c) !! k) ∧
  events (tables c') = events (tables c) ∧ user_seq (tables c') = user_seq (tables c) ∧
  (∀ resp2 c2, SetRead uid seq c' = (Ok resp2, c2) → Changed resp2 = false ∧ tables c2 = tables c').
Proof.
  intros (n & Hn & ->)%SetRead_Ok. simpl. unfold setReadSQL in Hn.
  destruct (user_events (tables c) !! (uid, seq)) as [r|] eqn:E; [case_bool_decide as Hz|];
    injection Hn as <- Ht; rewrite <-?Ht.
  - rewrite bool_decide_eq_true_2 by done. split_and!; [done|naive_solver| |done|done|].
    + intros k. simpl. rewrite lookup_insert. destruct (decide ((uid, seq) = k)) as [<-|Hk].
      * rewrite decide_True by done. by rewrite E.
      * rewrite decide_False by naive_solver. done.
    + intros resp2 c2 (n2 & Hn2 & ->)%SetRead_Ok. unfold setReadSQL in Hn2.
      rewrite <-Ht in Hn2. simpl in Hn2. rewrite lookup_insert_eq in Hn2. simpl in Hn2.
      by injection Hn2 as <- <-.
  - rewrite bool_decide_eq_false_2 by done. split_and!; [done|naive_solver| |done|done|].
    + intros k. by rewrite decide_False by naive_solver.
    + intros resp2 c2 (n2 & Hn2 & ->)%SetRead_Ok. unfold setReadSQL in Hn2.
      rewrite <-Ht, E in Hn2. rewrite bool_decide_eq_false_2 in Hn2 by done.
      by injection Hn2 as <- <-.
  - rewrite bool_decide_eq_false_2 by done. split_and!; [done|naive_solver| |done|done|].
    + intros k. by rewrite decide_False by naive_solver.
    + intros resp2 c2 (n2 & Hn2 & ->)%SetRead_Ok. unfold setReadSQL in Hn2.
      rewrite <-Ht, E in Hn2. by injection Hn2 as <- <-.
Qed.

(** A successful [GetEvents] returns the rows it read, a prefix of those asked for. *)
Lemma GetEvents_Ok uid req c resp c' :
  db_ok (tables c) → GetEvents uid req c = (Ok resp, c') →
  let all := getEventsSQL uid (FromSeq req) (ToSeq req) (tables c) in
  ∃ rows, rows `prefix_of` all ∧ (rows_cut (S (calls c)) = None → rows = all) ∧
    Events resp = event_of uid <$> rows.
Proof.
  intros Hok (evs & c1 & Htx & [= <- <-])%tx_bind_Ok all. simpl.
  pose proof (getEventsSQL_ok uid (FromSeq req) (ToSeq req) _ Hok) as Hrows.
  apply withTx_Ok in Htx as (c2 & (rows & c3 & Hq & Hl)%tx_bind_Ok & _).
  apply query_rows_Ok in Hq as (Hpre & _ & Hcut). simpl in Hpre, Hcut.
  rewrite GetEvents_loop_ok in Hl by (destruct Hpre as [? Hp]; rewrite Hp in Hrows; by apply Forall_app in Hrows as [? _]).
  injection Hl as <- _. eauto.
Qed.

(** Without failures it returns all of them. *)
Lemma GetEvents_total uid req c :
  (∀ i, fault i = None) → (∀ i, commit_fault i = None) → (∀ i, rows_cut i = None) → db_ok (tables c) →
  ∃ c', tables c' = tables c ∧
    GetEvents uid req c = (Ok {| Events := event_of uid <$> getEventsSQL uid (FromSeq req) (ToSeq req) (tables c) |}, c').
Proof.
  intros Hf Hcf Hcut Hok. destruct (GetEvents uid req c) as [r c'] eqn:Hrun. exists c'.
  split; [by eapply GetEvents_tables|]. revert Hrun. unfold GetEvents, withTx, tx_bind, query_rows. simpl.
  rewrite !Hf, Hcut, GetEvents_loop_ok by (by apply getEventsSQL_ok). simpl. rewrite Hcf. by intros [= <- <-].
Qed.


(** [DeleteOutdatedEvents] removes exactly the events the server finds at
    or below the cut-off, and with each of them its user rows; it reports their
    number, and it never moves a head, so numbers of deleted events stay used. *)
Theorem DeleteOutdatedEvents_correct midnight now days c n c' :
  db_ok (tables c) → DeleteOutdatedEvents midnight now days c = (Ok n, c') →
  let old r := datetime_le (er_create_time r) (unix (GetDayBefore midnight now days)) in
  (∀ k, events (tables c') !! k =
    match events (tables c) !! k with
    | Some r => if old r then None else Some r
    | None => None
    end) ∧
  (∀ k r, user_events (tables c') !! k = Some r ↔
    user_events (tables c) !! k = Some r ∧
    ∃ er, events (tables c) !! ue_topic_offset r = Some er ∧ old er = false) ∧
  user_seq (tables c') = user_seq (tables c) ∧
  n = wrap32 (Z.of_nat (size (events (tables c))) - Z.of_nat (size (events (tables c')))).
Proof.
  intros Hok (c1 & Hrun & Ht)%withTx_Ok old.
  apply sql_then_ret_Ok in Hrun as (a & Hrun & ->). simpl in Hrun. rewrite Ht.
  unfold cleanEventsSQL in Hrun. injection Hrun as <- Hd. rewrite <-Hd. simpl. clear Ht Hd.
  assert (Hk : ∀ k, filter (λ kr : Z * event_row, ¬ datetime_le (er_create_time (snd kr))
      (unix (GetDayBefore midnight now days))) (events (tables c)) !! k =
    match events (tables c) !! k with Some r => if old r then None else Some r | None => None end).
  { intros k. rewrite map_lookup_filter. destruct (events (tables c) !! k) as [r|]; [|done].
    simpl. unfold old. destruct (datetime_le _ _); [by rewrite option_guard_False by naive_solver|].
    by rewrite option_guard_True by naive_solver. }
  split_and!; [done| |done|done].
  intros k r. rewrite map_lookup_filter_Some. simpl. rewrite Hk.
  destruct (events (tables c) !! ue_topic_offset r) as [er|] eqn:E.
  - destruct (old er) eqn:Ho; split.
    + by intros [_ [? ?]].
    + intros [_ (?&?&?)]. congruence.
    + intros [? _]. eauto.
    + intros [? _]. eauto.
  - split; [by intros [_ [? ?]]|]. by intros [_ (?&?&?)].
Qed.

(** [Stats] returns the user's head (0 for an unknown user) and, when it is
    asked to, the number of the user's unread rows inside the TTL. *)
Theorem Stats_correct midnight now uid days req c resp c' :
  Stats midnight now uid days req c = (Ok resp, c') →
  StatsResp_HeadSeq resp = head_seq (tables c) uid ∧
  StatsResp_UnreadCount resp =
    (if CountUnread req then Z.of_nat (length (user_rows uid (λ _ r,
       datetime_ge (ue_create_time r) (unix (GetDayBefore midnight now days)) &&
       bool_decide (ue_read_state r = 0)%Z) (tables c))) else 0)%Z.
Proof.
  intros (c1 & Hrun & _)%withTx_Ok.
  apply tx_bind_Ok in Hrun as (q & c2 & Hq & Hrun).
  assert (Hhead : q = head_seq (tables c) uid ∧ tables c2 = tables c).
  { split; [|by eapply getSeq_tables in Hq].
    apply tx_catch_Ok in Hq as [Hq|(e & c3 & Hq & He)].
    - apply read_seq_Ok in Hq as (Hq & _). unfold head_seq. simpl in Hq. by rewrite Hq.
    - case_decide as Hno; [|done]. injection He as <- <-. subst e.
      unfold tx_bind, sql_call in Hq. simpl in Hq.
      destruct (fault (S (calls c))) as [e|] eqn:Hf; [pose proof (fault_not_norows (S (calls c))); naive_solver|].
      unfold getSeqSQL in Hq. unfold head_seq.
      destruct (user_seq (tables c) !! uid) as [s|]; [|done].
      unfold scan_int32, tx_ret, tx_err in Hq. simpl in Hq. case_bool_decide; done. }
  destruct Hhead as [-> Ht2]. destruct (CountUnread req).
  - apply tx_bind_Ok in Hrun as (n & c3 & Hn & [= <- <-]). simpl. split; [done|].
    apply tx_bind_Ok in Hn as (n' & c4 & Hn & Hs).
    apply scan_int32_Ok in Hs as (-> & _). apply sql_call_Ok in Hn.
    unfold countUnreadSQL in Hn. rewrite Ht2 in Hn. by injection Hn as <- _.
  - by injection Hrun as <- <-.
Qed.

End Properties.

(** * Examples *)

(** A server that never fails, keeps instants and compares seconds. *)
Definition good_server : MySQL := {|
  fault := λ _, None; commit_fault := λ _, None; rows_cut := λ _, None;
  datetime3 := λ t, t;
  datetime_le := λ t sec, bool_decide (unix t ≤ sec)%Z;
  datetime_ge := λ t sec, bool_decide (sec ≤ unix t)%Z;
  fault_not_norows := λ i H, eq_ind None (λ o, match o with None => True | Some _ => False end) I _ H
|}.

(** A server that loses the answer to the commit sent as call number 14. *)
Definition lossy_server : MySQL := {|
  fault := λ _, None;
  commit_fault := λ i, if bool_decide (i = 14) then Some (ErrOther 0, true) else None;
  rows_cut := λ _, None; datetime3 := λ t, t;
  datetime_le := λ t sec, bool_decide (unix t ≤ sec)%Z;
  datetime_ge := λ t sec, bool_decide (sec ≤ unix t)%Z;
  fault_not_norows := λ i H, eq_ind None (λ o, match o with None => True | Some _ => False end) I _ H
|}.

Definition conn0 : conn := {| tables := db_empty; calls := 0 |}.

(** An event for user 1 (listed twice) and user 2. *)
Definition event0 : store_Event :=
  {| Offset := 5; Event_CreateTime_ns := 1700000000000000000; To := [1; 2; 1]%Z; Payload := "hello" |}.

Section Examples.
#[local] Existing Instance good_server.

Definition conn1 : conn := (Save event0 conn0).2.

Lemma Save_refines_witness :
  (Save event0 conn0).1 = Ok (<[1%Z := 2%Z]> (<[2%Z := 1%Z]> ∅)) ∧
  ((events (tables conn0) !! 5%Z = None ∧ tables conn1 = apply_event event0 (tables conn0) ∧
    ok_or ∅ (Save event0 conn0).1 = new_heads [1; 2; 1]%Z (tables conn1)) ∨
   (∃ row, events (tables conn0) !! 5%Z = Some row ∧ same_event event0 row ∧
    tables conn1 = tables conn0 ∧ ok_or ∅ (Save event0 conn0).1 = ∅)).
Proof.
  split; [vm_compute; reflexivity|].
  apply (Save_refines event0 conn0 (Ok (ok_or ∅ (Save event0 conn0).1)) conn1);
    [apply db_empty_ok | vm_compute; reflexivity].
Defined.

Lemma Save_numbers_witness :
  head_seq (tables conn1) 1 = 2%Z ∧
  head_seq (tables conn1) 1 = (head_seq (tables conn0) 1 + occurrences 1 (To event0))%Z.
Proof.
  split; [vm_compute; reflexivity|].
  apply (Save_numbers event0 conn0 (ok_or ∅ (Save event0 conn0).1) conn1 1);
    [apply db_empty_ok | reflexivity | vm_compute; reflexivity].
Defined.

Lemma store_invariant_witness : db_ok (tables (SetRead 1 2 conn1).2).
Proof.
  apply (store_invariant conn0); [reflexivity|].
  eapply rtc_l; [apply (step_Save event0)|].
  eapply rtc_l; [apply (step_SetRead 1 2)|]. apply rtc_refl.
Defined.

Lemma seq_never_reused_witness :
  (head_seq (tables conn0) 1 ≤ head_seq (tables (SetRead 1 2 conn1).2) 1)%Z.
Proof.
  apply (seq_never_reused conn0 (SetRead 1 2 conn1).2 1 2
           {| ue_create_time := 0; ue_read_state := 0; ue_topic_offset := 0 |});
    [apply db_empty_ok|].
  eapply rtc_l; [apply (step_Save event0)|].
  eapply rtc_l; [apply (step_SetRead 1 2)|]. apply rtc_refl.
Defined.


Lemma SetRead_correct_witness :
  (SetRead 1 2 conn1).1 = Ok {| SetReadResp_Seq := 2; Changed := true |} ∧
  SetReadResp_Seq (ok_or {| SetReadResp_Seq := 0; Changed := false |} (SetRead 1 2 conn1).1) = 2%Z.
Proof.
  split; [vm_compute; reflexivity|].
  apply (SetRead_correct 1 2 conn1
           (ok_or {| SetReadResp_Seq := 0; Changed := false |} (SetRead 1 2 conn1).1) (SetRead 1 2 conn1).2).
  vm_compute. reflexivity.
Defined.

Lemma conn1_db_ok : db_ok (tables conn1).
Proof. apply (store_step_db_ok conn0); [apply db_empty_ok | apply (step_Save event0)]. Qed.


Lemma DeleteOutdatedEvents_correct_witness :
  user_seq (tables (DeleteOutdatedEvents (λ t, t) 1800000000000000000 30 conn1).2)
  = user_seq (tables conn1).
Proof.
  apply (DeleteOutdatedEvents_correct (λ t, t) 1800000000000000000 30 conn1 1
    (DeleteOutdatedEvents (λ t, t) 1800000000000000000 30 conn1).2);
    [apply conn1_db_ok | vm_compute; reflexivity].
Defined.

Lemma Stats_correct_witness :
  let req := {| CountUnread := true |} in
  StatsResp_HeadSeq {| StatsResp_Conf := None; StatsResp_HeadSeq := 2; StatsResp_UnreadCount := 2 |}
  = head_seq (tables conn1) 1.
Proof.
  intros req.
  apply (Stats_correct (λ t, t) 1700000000000000000 1 30 req conn1
    {| StatsResp_Conf := None; StatsResp_HeadSeq := 2; StatsResp_UnreadCount := 2 |}
    (Stats (λ t, t) 1700000000000000000 1 30 req conn1).2).
  vm_compute. reflexivity.
Defined.

End Examples.

Section LossyExamples.
#[local] Existing Instance lossy_server.

(** The commit of the first call is applied but its answer is lost; the second
    call finds the event and reports no new head. *)
Lemma Save_exactly_once_witness :
  (Save event0 conn0).1 = Err (ErrOther 0) ∧
  (Save event0 (Save event0 conn0).2).1 = Ok ∅ ∧
  tables (Save event0 (Save event0 conn0).2).2 = apply_event event0 db_empty.
Proof.
  split; [vm_compute; reflexivity|]. split; [vm_compute; reflexivity|].
  apply (Save_exactly_once event0 conn0 (Save event0 conn0).2 ∅
           (Save event0 (Save event0 conn0).2).2);
    [apply db_empty_ok | reflexivity | | vm_compute; reflexivity].
  eapply (failed_more _ _ (ErrOther 0)); [vm_compute; reflexivity | apply failed_none].
Defined.
End LossyExamples.
