(* ===== verification/EventApi.v ===== *)
(** [ws/eventapi.go]: the API behind a websocket, and the store interface
    [store.IEventStore] it is written against.

    The interface is a class: [S] is the state behind the implementation and [E]
    its error type.  [EventStore.v] provides the instance; the API's own theorems
    hold for every implementation. *)

From Stdlib Require Import Ascii ZArith Lia.
From stdpp Require Import base option list numbers gmap strings pretty sorting.
From S2P Require Import Prelude Proto ReadStates EventStore.

(** * store.IEventStore *)

Class IEventStore (S E : Type) := {
  es_GetEvents : Z → pb_GetEventsReq → S → result E pb_GetEventsResp * S;
  es_GetReadStates : Z → Z → pb_GetReadStatesReq → S → go (result E pb_GetReadStatesResp * S);
  es_SetRead : Z → Z → S → result E pb_SetReadResp * S;
  es_Stats : Z → Z → pb_StatsReq → S → result E pb_StatsResp * S;
  es_Save : store_Event → S → result E (gmap Z Z) * S;
  es_DeleteOutdatedEvents : Z → S → result E Z * S;
  es_IsDupKeyError : E → bool;
  (** [err.Error()] *)
  es_Error : E → string
}.

(** [*eventStore] implements the interface; the clock, the local calendar and
    the texts of the driver's errors are its environment. *)
Definition eventStore_IEventStore `{MySQL} (midnight : Z → Z) (now : Z)
    (text : sql_error → string) : IEventStore conn sql_error := {|
  es_GetEvents := GetEvents;
  es_GetReadStates := GetReadStates midnight now;
  es_SetRead := SetRead;
  es_Stats := Stats midnight now;
  es_Save := Save;
  es_DeleteOutdatedEvents := DeleteOutdatedEvents midnight now;
  es_IsDupKeyError := IsDupKeyError;
  es_Error := text
|}.

(** * EventApi *)

Definition MinTTLDays : Z := 7%Z.
Definition MaxTTLDays : Z := 100%Z.
Definition MinGetEventsLimit : Z := 25%Z.
Definition MaxGetEventsLimit : Z := 100%Z.
Definition ErrorCodeInvalidArguments : Z := 3%Z.
Definition ErrorCodeInternal : Z := 13%Z.

Definition newInvalidArgumentError (req : option pb_ClientMsg) (errs : list string) : pb_Error :=
  {| Error_Code := ErrorCodeInvalidArguments; Error_Params := errs; Error_Req := req |}.

Definition newInternalError (req : option pb_ClientMsg) (err : string) : pb_Error :=
  {| Error_Code := ErrorCodeInternal; Error_Params := [err]; Error_Req := req |}.

Definition interceptError (err : pb_Error) : pb_Error :=
  if bool_decide (Error_Code err = ErrorCodeInternal) then
    {| Error_Code := Error_Code err; Error_Params := ["temp storage error"];
       Error_Req := Error_Req err |}
  else err.

(** [&pb.ClientMsg{...}] with one field set. *)
Definition ClientMsg_of_Stats (r : pb_StatsReq) : pb_ClientMsg :=
  {| ClientMsg_Stats := Some r; ClientMsg_GetEvents := None; ClientMsg_SetRead := None;
     ClientMsg_GetReadStates := None; ClientMsg_Im := None |}.
Definition ClientMsg_of_GetEvents (r : pb_GetEventsReq) : pb_ClientMsg :=
  {| ClientMsg_Stats := None; ClientMsg_GetEvents := Some r; ClientMsg_SetRead := None;
     ClientMsg_GetReadStates := None; ClientMsg_Im := None |}.
Definition ClientMsg_of_SetRead (r : pb_SetReadReq) : pb_ClientMsg :=
  {| ClientMsg_Stats := None; ClientMsg_GetEvents := None; ClientMsg_SetRead := Some r;
     ClientMsg_GetReadStates := None; ClientMsg_Im := None |}.
Definition ClientMsg_of_GetReadStates (r : pb_GetReadStatesReq) : pb_ClientMsg :=
  {| ClientMsg_Stats := None; ClientMsg_GetEvents := None; ClientMsg_SetRead := None;
     ClientMsg_GetReadStates := Some r; ClientMsg_Im := None |}.

Section EventApi.
Context {S E : Type} `{IEventStore S E}.
Context (conf : pb_WsConf).

Definition EventApi_Stats (uid : Z) (req : pb_StatsReq) (st : S)
    : result pb_Error pb_StatsResp * S :=
  match es_Stats uid (EventTtlDays conf) req st with
  | (Err err, st') =>
      (Err (newInternalError (Some (ClientMsg_of_Stats req)) (es_Error err)), st')
  | (Ok stats, st') =>
      (Ok {| StatsResp_Conf := Some conf; StatsResp_HeadSeq := StatsResp_HeadSeq stats;
             StatsResp_UnreadCount := StatsResp_UnreadCount stats |}, st')
  end.

(** The validation at the top of [GetEvents]; the difference is an [int32]. *)
Definition GetEvents_errs (req : pb_GetEventsReq) : list string :=
  (if bool_decide (FromSeq req ≤ 0)%Z then ["from_seq: should be positive integer"] else []) ++
  (if bool_decide (ToSeq req ≤ 0)%Z then ["to_seq: should be positive integer"] else []) ++
  (if bool_decide (GetEventsLimit conf ≤ wrap32 (FromSeq req - ToSeq req))%Z
   then ["seq range: exceeds limit: " +:+ pretty (GetEventsLimit conf)] else []).

Definition EventApi_GetEvents (uid : Z) (req : pb_GetEventsReq) (st : S)
    : result pb_Error pb_GetEventsResp * S :=
  let errs := GetEvents_errs req in
  if bool_decide (0 < length errs) then
    (Err (newInvalidArgumentError (Some (ClientMsg_of_GetEvents req)) errs), st)
  else match es_GetEvents uid req st with
  | (Err err, st') =>
      (Err (newInternalError (Some (ClientMsg_of_GetEvents req)) (es_Error err)), st')
  | (Ok resp, st') => (Ok resp, st')
  end.

Definition EventApi_SetRead (uid : Z) (req : pb_SetReadReq) (st : S)
    : result pb_Error pb_SetReadResp * S :=
  if bool_decide (SetReadReq_Seq req ≤ 0)%Z then
    (Err (newInvalidArgumentError (Some (ClientMsg_of_SetRead req))
            ["seq: should be positive integer"]), st)
  else match es_SetRead uid (SetReadReq_Seq req) st with
  | (Err err, st') =>
      (Err (newInternalError (Some (ClientMsg_of_SetRead req)) (es_Error err)), st')
  | (Ok resp, st') => (Ok resp, st')
  end.

Definition EventApi_GetReadStates (uid : Z) (req : pb_GetReadStatesReq) (st : S)
    : go (result pb_Error pb_GetReadStatesResp * S) :=
  if bool_decide (GetReadStatesReq_HeadSeq req ≤ 0)%Z then
    Ret (Err (newInvalidArgumentError (Some (ClientMsg_of_GetReadStates req))
                ["head_seq: should be positive integer"]), st)
  else
    let! rs := es_GetReadStates uid (EventTtlDays conf) req st in
    match rs with
    | (Err err, st') =>
        Ret (Err (newInternalError (Some (ClientMsg_of_GetReadStates req)) (es_Error err)), st')
    | (Ok resp, st') => Ret (Ok resp, st')
    end.
End EventApi.

(** * Properties *)

Section Properties.
Context {S E : Type} `{IEventStore S E}.
Implicit Types (st : S).

Lemma GetEvents_errs_nil conf req :
  GetEvents_errs conf req = [] ↔
  (0 < FromSeq req ∧ 0 < ToSeq req ∧ wrap32 (FromSeq req - ToSeq req) < GetEventsLimit conf)%Z.
Proof.
  unfold GetEvents_errs. repeat case_bool_decide; simpl; split; intros; try done; lia.
Qed.

(** The event API asks the store exactly for the requests it accepts: a
    request with a non-positive bound, or whose [from - to] reaches the limit,
    is refused with code 3, one message per violated rule, and without touching
    the store; every other request gets the store's answer, and a store failure
    becomes code 13. *)
Theorem EventApi_GetEvents_correct conf uid req st :
  ((0 < FromSeq req ∧ 0 < ToSeq req ∧
    wrap32 (FromSeq req - ToSeq req) < GetEventsLimit conf)%Z ∧
   EventApi_GetEvents conf uid req st =
     match es_GetEvents uid req st with
     | (Ok resp, st') => (Ok resp, st')
     | (Err err, st') =>
         (Err (newInternalError (Some (ClientMsg_of_GetEvents req)) (es_Error err)), st')
     end) ∨
  ((FromSeq req ≤ 0 ∨ ToSeq req ≤ 0 ∨
    GetEventsLimit conf ≤ wrap32 (FromSeq req - ToSeq req))%Z ∧
   ∃ errs, errs ≠ [] ∧ length errs ≤ 3 ∧
     EventApi_GetEvents conf uid req st =
       (Err (newInvalidArgumentError (Some (ClientMsg_of_GetEvents req)) errs), st)).
Proof.
  unfold EventApi_GetEvents. case_bool_decide as Hlen.
  - right. split.
    + destruct (decide (GetEvents_errs conf req = [])) as [Heq|Hne]; [rewrite Heq in Hlen; simpl in Hlen; lia|].
      rewrite GetEvents_errs_nil in Hne. lia.
    + eexists. split_and!; [by intros Heq; rewrite Heq in Hlen; simpl in Hlen; lia| |done].
      unfold GetEvents_errs. repeat case_bool_decide; simpl; lia.
  - left. split; [|done]. apply GetEvents_errs_nil. apply nil_length_inv. lia.
Qed.

(** The limit on the width of the range is not enforced. The store selects
    the numbers between [from_seq] and [to_seq], but the check subtracts in the
    other direction: every ascending range of positive numbers, however wide,
    is accepted whenever the limit is positive. *)
Theorem EventApi_GetEvents_limit_not_enforced conf uid req st :
  (0 < FromSeq req ≤ ToSeq req)%Z → (ToSeq req ≤ MaxInt32)%Z → (0 < GetEventsLimit conf)%Z →
  EventApi_GetEvents conf uid req st =
    match es_GetEvents uid req st with
    | (Ok resp, st') => (Ok resp, st')
    | (Err err, st') =>
        (Err (newInternalError (Some (ClientMsg_of_GetEvents req)) (es_Error err)), st')
    end.
Proof.
  intros Hr Hmax Hlim. unfold EventApi_GetEvents.
  assert (Hn : GetEvents_errs conf req = []).
  { apply GetEvents_errs_nil. unfold MaxInt32 in *.
    rewrite wrap32_id by (unfold in_int32; lia). lia. }
  by rewrite Hn.
Qed.
End Properties.

(** * Examples *)

Section Examples.
#[local] Existing Instance good_server.
#[local] Instance example_store : IEventStore conn sql_error :=
  eventStore_IEventStore (λ t, t) 1700000000000000000 (λ _, "").

Definition conf25 : pb_WsConf :=
  {| EventTtlDays := 30; GetEventsLimit := 25; EnableClientMsg := false; MaxMsgSize := 4096 |}.

(** Thirty events of user 1. *)
Definition conn30 : conn :=
  (Save {| Offset := 1; Event_CreateTime_ns := 0; To := replicate 30 1%Z; Payload := "x" |} conn0).2.

(** A limit of 25 and a request that returns 30 events. *)
Lemma EventApi_GetEvents_limit_not_enforced_witness :
  let req := {| FromSeq := 1; ToSeq := 30 |} in
  length (Events (ok_or {| Events := [] |} (EventApi_GetEvents conf25 1 req conn30).1)) = 30 ∧
  EventApi_GetEvents conf25 1 req conn30 =
    match es_GetEvents 1 req conn30 with
    | (Ok resp, st') => (Ok resp, st')
    | (Err err, st') => (Err (newInternalError (Some (ClientMsg_of_GetEvents req)) (es_Error err)), st')
    end.
Proof.
  intros req. split; [vm_compute; reflexivity|].
  apply EventApi_GetEvents_limit_not_enforced; unfold MaxInt32; simpl; lia.
Defined.
End Examples.
