(* ===== verification/SessionStore.v ===== *)
(** [cluster/sessionstore.go]: the leader's in-memory store of user sessions.

    The store maps a hub to the sessions of that hub by session id.  The map
    values are pointers: [add] and [kickoff] write through them, so the sessions
    live in a heap and the store holds locations.  The locks make every method
    atomic; a method is one function from the heap and the store to the new heap
    and store. *)

From Stdlib Require Import ZArith Lia.
From stdpp Require Import base option list numbers gmap strings sorting.
From S2P Require Import Prelude Proto.

Definition deleteSinceKickoffTTL : Z := 60%Z.

Abbreviation heap := (gmap positive pb_Session).

Record SessionStore := { kv : gmap string (gmap string loc) }.

Definition newSessionStore : SessionStore := {| kv := ∅ |}.

Definition SessionStore_empty (s : SessionStore) : SessionStore := {| kv := ∅ |}.

Definition SessionStore_add (hubId : string) (sess : loc) (h : heap) (s : SessionStore)
    : heap * SessionStore :=
  let v := default ∅ (kv s !! hubId) in
  let h' := alter (set_HubId hubId) sess h in
  (h', {| kv := <[hubId := <[Sid (h' !!! sess) := sess]> v]> (kv s) |}).

(** The loop of [addMany] over the slice, on the heap and the hub's map. *)
Fixpoint addMany_loop (hubId : string) (slice : list loc) (h : heap) (v : gmap string loc)
    : heap * gmap string loc :=
  match slice with
  | [] => (h, v)
  | sess :: rest =>
      let h' := alter (set_HubId hubId) sess h in
      addMany_loop hubId rest h' (<[Sid (h' !!! sess) := sess]> v)
  end.

Definition SessionStore_addMany (hubId : string) (slice : list loc) (h : heap) (s : SessionStore)
    : heap * SessionStore :=
  let v := default ∅ (kv s !! hubId) in
  let '(h', v') := addMany_loop hubId slice h v in
  (h', {| kv := <[hubId := v']> (kv s) |}).

Definition SessionStore_del (hubId sid : string) (s : SessionStore) : SessionStore :=
  match kv s !! hubId with
  | Some v => {| kv := <[hubId := delete sid v]> (kv s) |}
  | None => s
  end.

(** [n := len(slice) - int(quota)]; nothing to do for [n <= 0]; otherwise sort by
    creation time and cut: [slice[:n]]. *)
Definition over_quota (h : heap) (quota : Z) (slice : list loc) : go (list loc) :=
  let n := (Z.of_nat (length slice) - quota)%Z in
  if bool_decide (n ≤ 0)%Z then Ret []
  else go_subslice (sort_by (λ l, CreateTime (h !!! l)) slice) 0 (Z.to_nat n).

(** [for _, sess := range ... { kickoff[sess.Sid] = sess }] *)
Definition put_by_sid (h : heap) (l : list loc) (kickoff : gmap string loc) : gmap string loc :=
  foldl (λ m sess, <[Sid (h !!! sess) := sess]> m) kickoff l.

Section Methods.
Context `{GoRange}.

(** The two nested [range] loops over the store, at call sites [i] and [j]. *)
Definition all_sessions (i j : nat) (s : SessionStore) : list loc :=
  range i (kv s) ≫= λ kv', (range j (snd kv')).*2.

Definition SessionStore_getUserSessionsToKickoff (uid quota : Z) (h : heap) (s : SessionStore)
    : go (gmap string loc) :=
  let slice := filter (λ l, Uid (h !!! l) = uid) (all_sessions 0 1 s) in
  let! oldest := over_quota h quota slice in
  Ret (put_by_sid h oldest ∅).

Definition kickoff_expired (now : Z) (sess : pb_Session) : bool :=
  bool_decide (0 < KickoffTime sess)%Z &&
  bool_decide (wrap64 (KickoffTime sess + deleteSinceKickoffTTL) < now)%Z.

(** The inner loop of the first pass of [gc]: sessions of one live hub. *)
Definition gc_hub (now : Z) (h : heap) (v : gmap string loc) : gmap string loc :=
  foldl (λ v' (kl : string * loc),
           if kickoff_expired now (h !!! snd kl) then delete (fst kl) v' else v')
        v (range 1 v).

Definition gc_sweep (liveHubIds : gset string) (now : Z) (h : heap) (s : SessionStore) : SessionStore :=
  {| kv := foldl (λ m (kv' : string * gmap string loc),
                    if bool_decide (fst kv' ∈ liveHubIds)
                    then <[fst kv' := gc_hub now h (snd kv')]> m
                    else delete (fst kv') m)
                 (kv s) (range 0 (kv s)) |}.

(** [userSessions[uid] = append(userSessions[uid], sess)] *)
Definition group_by_uid (h : heap) (l : list loc) : gmap Z (list loc) :=
  foldl (λ m sess, <[Uid (h !!! sess) := default [] (m !! Uid (h !!! sess)) ++ [sess]]> m) ∅ l.

(** The last loop of [gc], over [userSessions]. *)
Fixpoint gc_kickoff (h : heap) (quota : Z) (users : list (Z * list loc)) (kickoff : gmap string loc)
    : go (gmap string loc) :=
  match users with
  | [] => Ret kickoff
  | (_, slice) :: rest =>
      let! oldest := over_quota h quota slice in
      gc_kickoff h quota rest (put_by_sid h oldest kickoff)
  end.

Definition SessionStore_gc (liveHubIds : gset string) (quota now : Z) (h : heap) (s : SessionStore)
    : go (gmap string loc * SessionStore) :=
  let s' := gc_sweep liveHubIds now h s in
  let userSessions := group_by_uid h (all_sessions 2 3 s') in
  let! kickoff := gc_kickoff h quota (range 4 userSessions) ∅ in
  Ret (kickoff, s').
End Methods.

(** * Specification *)

(** [l] is stored under [hub] and [sid]. *)
Definition stored (s : SessionStore) (hub sid : string) (l : loc) : Prop :=
  ∃ v, kv s !! hub = Some v ∧ v !! sid = Some l.

(** Every stored pointer reaches a session that knows its own place. *)
Definition store_ok (h : heap) (s : SessionStore) : Prop :=
  ∀ hub sid l, stored s hub sid l → ∃ sess, h !! l = Some sess ∧ HubId sess = hub ∧ Sid sess = sid.

(** Session ids are unique in the cluster (they are fresh UUIDs). *)
Definition sids_unique (s : SessionStore) : Prop :=
  ∀ hub1 hub2 sid l1 l2, stored s hub1 sid l1 → stored s hub2 sid l2 → hub1 = hub2.

(** The set of stored sessions, and those of one user. *)
Definition stored_set (s : SessionStore) : gset loc :=
  list_to_set (map_to_list (kv s) ≫= λ kv', (map_to_list (snd kv')).*2).

Definition sessions_of (h : heap) (uid : Z) (s : SessionStore) : gset loc :=
  filter (λ l, Uid (h !!! l) = uid) (stored_set s).

(** What enforcing a quota means: [selected] are sessions of the user, as many as
    exceed the quota, and none of them is younger than one that stays. *)
Record quota_selection (h : heap) (mine : gset loc) (quota : Z) (selected : gset loc) : Prop := {
  qs_subset : selected ⊆ mine;
  qs_size : Z.of_nat (size selected) = Z.max 0 (Z.of_nat (size mine) - quota);
  qs_oldest : ∀ x y, x ∈ selected → y ∈ mine → y ∉ selected →
    (CreateTime (h !!! x) ≤ CreateTime (h !!! y))%Z
}.

(** * Lemmas *)

Section Selection.
Implicit Types (h : heap).

(** The oldest sessions of a slice enforce the quota on it. *)
Lemma over_quota_spec h quota slice :
  NoDup slice → (0 ≤ quota)%Z →
  ∃ oldest, over_quota h quota slice = Ret oldest ∧ NoDup oldest ∧
    quota_selection h (list_to_set slice) quota (list_to_set oldest).
Proof.
  intros Hnd Hq. unfold over_quota. set (key := λ l, CreateTime (h !!! l)).
  case_bool_decide as Hn.
  - exists []. split_and!; [done|constructor|].
    split; [set_solver| |set_solver]. rewrite (size_list_to_set slice) by done.
    change (size (list_to_set [] : gset loc)) with 0. lia.
  - pose proof (sort_by_perm key slice) as Hp.
    assert (Hnd' : NoDup (sort_by key slice)) by (by rewrite Hp).
    unfold go_subslice. rewrite bool_decide_eq_true_2 by (rewrite sort_by_length; lia).
    set (n := Z.to_nat (Z.of_nat (length slice) - quota)). rewrite Nat.sub_0_r, drop_0.
    pose proof (take_drop n (sort_by key slice)) as Htd.
    assert (Hnd2 : NoDup (take n (sort_by key slice) ++ drop n (sort_by key slice))) by (by rewrite Htd).
    apply NoDup_app in Hnd2 as (Hnt & _ & _).
    eexists. split_and!; [done|done|]. split.
    + intros x. rewrite !elem_of_list_to_set. intros Hx.
      apply (sort_by_elem key). rewrite <-Htd. set_solver.
    + rewrite !size_list_to_set by done. rewrite length_take, sort_by_length. lia.
    + intros x y. rewrite !elem_of_list_to_set. intros Hx Hy Hny.
      apply (sort_by_elem key) in Hy. rewrite <-Htd in Hy. apply elem_of_app in Hy as [?|Hy]; [done|].
      by apply (sort_by_take_le key slice n).
Qed.

Definition sid_inj h (l : list loc) : Prop :=
  ∀ x y, x ∈ l → y ∈ l → Sid (h !!! x) = Sid (h !!! y) → x = y.

Lemma put_by_sid_lookup h (l : list loc) m sid x :
  sid_inj h l →
  put_by_sid h l m !! sid = Some x ↔
  (x ∈ l ∧ Sid (h !!! x) = sid) ∨
  (m !! sid = Some x ∧ ∀ y, y ∈ l → Sid (h !!! y) ≠ sid).
Proof.
  revert m. induction l as [|a l IH]; intros m Hinj; [set_solver|].
  change (put_by_sid h (a :: l) m) with (put_by_sid h l (<[Sid (h !!! a) := a]> m)).
  rewrite IH by (intros u w Hu Hw; apply Hinj; by right).
  rewrite lookup_insert_Some. split.
  - intros [[Hx Hs]|[[[Hs ->]|[Hs Hm]] Hl]]; [left; set_solver|left; set_solver|].
    right. split; [done|]. intros y [->|Hy]%elem_of_cons; [done|by apply Hl].
  - intros [[[->|Hx]%elem_of_cons Hs]|[Hm Hl]].
    + destruct (decide (a ∈ l)); [by left|]. right. split; [by left|].
      intros y Hy Hsy. assert (a = y) as -> by (apply Hinj; set_solver). done.
    + by left.
    + right. split; [right; split; [|done]|]; intros; apply Hl; set_solver.
Qed.

Lemma put_by_sid_img h (l : list loc) :
  sid_inj h l → map_img (put_by_sid h l ∅) =@{gset loc} list_to_set l.
Proof.
  intros Hinj. apply leibniz_equiv. intros x.
  rewrite elem_of_map_img, elem_of_list_to_set. split.
  - intros [sid [[? _]|[Hm _]]%put_by_sid_lookup]; [done| |done]. by rewrite lookup_empty in Hm.
  - intros Hx. exists (Sid (h !!! x)). apply put_by_sid_lookup; [done|]. by left.
Qed.
End Selection.

Section Store.
Context `{GoRange}.
Implicit Types (h : heap) (s : SessionStore).

Lemma all_sessions_elem i j s l : l ∈ all_sessions i j s ↔ ∃ hub sid, stored s hub sid l.
Proof.
  unfold all_sessions, stored. rewrite list_elem_of_bind. split.
  - intros ([hub v] & Hl & Hv). apply range_elem in Hv. simpl in Hl.
    apply list_elem_of_fmap in Hl as ([sid l'] & -> & Hl). apply range_elem in Hl. eauto.
  - intros (hub & sid & v & Hv & Hl). exists (hub, v). rewrite range_elem. split; [|done].
    simpl. apply list_elem_of_fmap. exists (sid, l). by rewrite range_elem.
Qed.

Lemma stored_set_elem s l : l ∈ stored_set s ↔ ∃ hub sid, stored s hub sid l.
Proof.
  unfold stored_set, stored. rewrite elem_of_list_to_set, list_elem_of_bind. split.
  - intros ([hub v] & Hl & Hv). apply elem_of_map_to_list in Hv. simpl in Hl.
    apply list_elem_of_fmap in Hl as ([sid l'] & -> & Hl). apply elem_of_map_to_list in Hl. eauto.
  - intros (hub & sid & v & Hv & Hl). exists (hub, v). rewrite elem_of_map_to_list. split; [|done].
    simpl. apply list_elem_of_fmap. exists (sid, l). by rewrite elem_of_map_to_list.
Qed.

(** A session knows its own place, so one pointer is stored in one place. *)
Lemma store_ok_place h s hub1 sid1 hub2 sid2 l :
  store_ok h s → stored s hub1 sid1 l → stored s hub2 sid2 l → hub1 = hub2 ∧ sid1 = sid2.
Proof.
  intros Hok H1 H2. destruct (Hok _ _ _ H1) as (a & Ha & <- & <-).
  destruct (Hok _ _ _ H2) as (b & Hb & <- & <-). by simplify_eq.
Qed.

Lemma store_ok_sid h s hub sid l : store_ok h s → stored s hub sid l → Sid (h !!! l) = sid.
Proof.
  intros Hok Hl. destruct (Hok _ _ _ Hl) as (a & Ha & _ & <-). by rewrite (lookup_total_correct _ _ _ Ha).
Qed.

Lemma all_sessions_NoDup i j h s : store_ok h s → NoDup (all_sessions i j s).
Proof.
  intros Hok. unfold all_sessions. apply NoDup_bind.
  - intros [hub1 v1] [hub2 v2] l Hv1%range_elem Hv2%range_elem Hl1 Hl2. simpl in *.
    apply list_elem_of_fmap in Hl1 as ([sid1 l1] & Heq1 & Hl1%range_elem).
    apply list_elem_of_fmap in Hl2 as ([sid2 l2] & Heq2 & Hl2%range_elem). simpl in *. subst l1 l2.
    destruct (store_ok_place h s hub1 sid1 hub2 sid2 l) as [-> ->];
      [done|by exists v1|by exists v2|congruence].
  - intros [hub v] Hv%range_elem. simpl. apply NoDup_fmap_2_strong.
    + intros [sid1 l1] [sid2 l2] Hl1%range_elem Hl2%range_elem Heq. simpl in Heq. subst l2.
      destruct (store_ok_place h s hub sid1 hub sid2 l1) as [_ ->]; [done|by exists v|by exists v|done].
    + eapply (NoDup_fmap_1 fst). apply range_NoDup_fst.
  - eapply (NoDup_fmap_1 fst). apply range_NoDup_fst.
Qed.

Lemma stored_sid_inj h s l :
  store_ok h s → sids_unique s → (∀ x, x ∈ l → ∃ hub sid, stored s hub sid x) → sid_inj h l.
Proof.
  intros Hok Hu Hl x y Hx Hy Hs.
  destruct (Hl x Hx) as (hub1 & sid1 & H1). destruct (Hl y Hy) as (hub2 & sid2 & H2).
  rewrite (store_ok_sid _ _ _ _ _ Hok H1), (store_ok_sid _ _ _ _ _ Hok H2) in Hs. subst sid2.
  pose proof (Hu _ _ _ _ _ H1 H2) as ->.
  destruct H1 as (v & Hv & Hlx). destruct H2 as (v' & Hv' & Hly). congruence.
Qed.

Lemma user_slice_set i j h uid s :
  list_to_set (filter (λ l, Uid (h !!! l) = uid) (all_sessions i j s)) = sessions_of h uid s.
Proof.
  apply leibniz_equiv. intros l. unfold sessions_of.
  rewrite elem_of_list_to_set, list_elem_of_filter, elem_of_filter, all_sessions_elem, stored_set_elem.
  done.
Qed.
End Store.

(** * Garbage collection *)

Section Gc.
Context `{GoRange}.
Implicit Types (h : heap) (s : SessionStore).

Lemma foldl_delete_lookup {V} (p : V → bool) (l : list (string * V)) (m : gmap string V) k :
  foldl (λ m' (kl : string * V), if p (snd kl) then delete (fst kl) m' else m') m l !! k =
  if decide (Exists (λ kl, fst kl = k ∧ p (snd kl) = true) l) then None else m !! k.
Proof.
  revert m. induction l as [|[k' v] l IH]; intros m; simpl.
  { done. }
  rewrite IH. destruct (decide (Exists _ l)) as [He|He].
  { by rewrite decide_True by (by apply Exists_cons_tl). }
  destruct (p v) eqn:Hp.
  - destruct (decide (k' = k)) as [->|Hk].
    + rewrite lookup_delete_eq, decide_True by (by apply Exists_cons_hd). done.
    + rewrite lookup_delete_ne by done.
      rewrite decide_False by (intros [[? _]|?]%Exists_cons; done). done.
  - rewrite decide_False by (intros [[_ ?]|?]%Exists_cons; simpl in *; congruence). done.
Qed.

Lemma gc_hub_lookup now h v sid :
  gc_hub now h v !! sid =
  match v !! sid with
  | Some l => if kickoff_expired now (h !!! l) then None else Some l
  | None => None
  end.
Proof.
  unfold gc_hub. rewrite (foldl_delete_lookup (λ l, kickoff_expired now (h !!! l))).
  destruct (v !! sid) as [l|] eqn:E; case_decide as He.
  - apply Exists_exists in He as ([sid' l'] & Hin%range_elem & Heq & Hx). simpl in *. simplify_eq.
    by rewrite Hx.
  - destruct (kickoff_expired now (h !!! l)) eqn:Hx; [|done]. destruct He.
    apply Exists_exists. exists (sid, l). by rewrite range_elem.
  - done.
  - done.
Qed.

Lemma gc_sweep_lookup live now h s hub :
  kv (gc_sweep live now h s) !! hub =
  if decide (hub ∈ live) then gc_hub now h <$> kv s !! hub else None.
Proof.
  unfold gc_sweep. simpl.
  assert (Hgen : ∀ (l : list (string * gmap string loc)) (m : gmap string (gmap string loc)),
    NoDup l.*1 → (∀ k v, (k, v) ∈ l → m !! k = Some v) → 
    foldl (λ m (kv' : string * gmap string loc),
      if bool_decide (fst kv' ∈ live) then <[fst kv' := gc_hub now h (snd kv')]> m
      else delete (fst kv') m) m l !! hub =
    if decide (hub ∈ l.*1)
    then (if decide (hub ∈ live) then gc_hub now h <$> m !! hub else None) else m !! hub).
  { induction l as [|[k v] l IH]; intros m Hnd Hm; [done|].
    cbn [fmap list_fmap fst] in *. apply NoDup_cons in Hnd as [Hk Hnd]. simpl foldl. rewrite IH; [|done|].
    2:{ intros k' v' Hin. assert (k' ≠ k) by (intros ->; apply Hk; by apply (list_elem_of_fmap_2 fst) in Hin).
        case_bool_decide; rewrite ?lookup_insert_ne, ?lookup_delete_ne by done; apply Hm; by right. }
    pose proof (Hm k v ltac:(by left)) as Hkv.
    destruct (decide (hub = k)) as [->|Hne].
    - rewrite decide_False, (decide_True (P := k ∈ k :: _)) by (done || by left).
      rewrite Hkv. case_bool_decide; [rewrite lookup_insert_eq, decide_True by done; done|].
      rewrite lookup_delete_eq, decide_False by done. done.
    - assert (Hb : (if bool_decide (k ∈ live) then <[k:=gc_hub now h v]> m else delete k m) !! hub = m !! hub).
      { case_bool_decide; rewrite ?lookup_insert_ne, ?lookup_delete_ne by done; done. }
      rewrite Hb. destruct (decide (hub ∈ l.*1)).
      + by rewrite (decide_True (P := hub ∈ k :: _)) by (by right).
      + rewrite (decide_False (P := hub ∈ k :: _)) by set_solver. done. }
  rewrite Hgen; [|apply range_NoDup_fst|intros k v; by rewrite range_elem].
  destruct (kv s !! hub) as [v|] eqn:E.
  - rewrite decide_True; [done|]. apply list_elem_of_fmap. exists (hub, v). by rewrite range_elem.
  - rewrite decide_False; [by case_decide|].
    intros ([k v] & -> & Hin%range_elem)%list_elem_of_fmap. simpl in *. congruence.
Qed.

(** Exactly the sessions of live hubs that were not kicked off too long ago stay. *)
Lemma gc_sweep_stored live now h s hub sid l :
  stored (gc_sweep live now h s) hub sid l ↔
  stored s hub sid l ∧ hub ∈ live ∧ kickoff_expired now (h !!! l) = false.
Proof.
  unfold stored. rewrite gc_sweep_lookup. split.
  - intros (v & Hv & Hl). case_decide; [|done]. apply fmap_Some in Hv as (v0 & Hv0 & ->).
    rewrite gc_hub_lookup in Hl. destruct (v0 !! sid) as [l'|] eqn:E; [|done].
    destruct (kickoff_expired now (h !!! l')) eqn:Hx; simplify_eq. eauto.
  - intros ((v & Hv & Hl) & Hlive & Hx). rewrite decide_True by done. rewrite Hv. simpl.
    eexists. split; [done|]. by rewrite gc_hub_lookup, Hl, Hx.
Qed.

Lemma gc_sweep_ok live now h s : store_ok h s → store_ok h (gc_sweep live now h s).
Proof. intros Hok hub sid l [Hl _]%gc_sweep_stored. by apply Hok. Qed.

Lemma gc_sweep_unique live now h s : sids_unique s → sids_unique (gc_sweep live now h s).
Proof. intros Hu ????? [H1 _]%gc_sweep_stored [H2 _]%gc_sweep_stored. by eapply Hu. Qed.

Lemma group_by_uid_lookup h (l : list loc) u :
  group_by_uid h l !! u =
  match filter (λ x, Uid (h !!! x) = u) l with [] => None | k => Some k end.
Proof.
  unfold group_by_uid.
  induction l as [|x l IH] using rev_ind; [done|].
  rewrite foldl_snoc, filter_app, lookup_insert.
  set (g := foldl _ ∅ l) in *. simpl filter at 1. rewrite filter_cons, filter_nil.
  destruct (decide (Uid (h !!! x) = u)) as [->|Hne].
  - rewrite IH. by destruct (filter _ l).
  - rewrite app_nil_r. apply IH.
Qed.

Lemma range_users h (l : list loc) i u slice :
  (u, slice) ∈ range i (group_by_uid h l) →
  slice = filter (λ x, Uid (h !!! x) = u) l ∧ slice ≠ [].
Proof.
  intros Hin%range_elem. rewrite group_by_uid_lookup in Hin.
  destruct (filter _ l) eqn:E; naive_solver.
Qed.

(** The last loop of [gc]: each user's oldest sessions are added to the map. *)
Lemma gc_kickoff_spec h quota (all : list loc) users m :
  (0 ≤ quota)%Z → NoDup all → sid_inj h all → NoDup users.*1 →
  (∀ u slice, (u, slice) ∈ users → slice = filter (λ x, Uid (h !!! x) = u) all) →
  (∀ sid x, m !! sid = Some x → x ∈ all ∧ Sid (h !!! x) = sid ∧ Uid (h !!! x) ∉ users.*1) →
  ∃ m', gc_kickoff h quota users m = Ret m' ∧
    (∀ sid x, m' !! sid = Some x → x ∈ all ∧ Sid (h !!! x) = sid) ∧
    (∀ x, Uid (h !!! x) ∉ users.*1 → x ∈ map_img (SA := gset loc) m' ↔ x ∈ map_img (SA := gset loc) m) ∧
    (∀ u, u ∈ users.*1 → quota_selection h
       (list_to_set (filter (λ x, Uid (h !!! x) = u) all)) quota
       (filter (λ x, Uid (h !!! x) = u) (map_img m'))).
Proof.
  intros Hq Hnd Hinj. revert m.
  induction users as [|[u slice] users IH]; intros m Hndu Husers Hm; simpl.
  { exists m. split_and!; [done| |done|set_solver]. intros sid x Hx. by apply Hm in Hx as (?&?&_). }
  cbn [fmap list_fmap fst] in *. apply NoDup_cons in Hndu as [Hu Hndu].
  pose proof (Husers u slice ltac:(by left)) as Hslice.
  assert (Hsub : ∀ x, x ∈ slice → x ∈ all ∧ Uid (h !!! x) = u).
  { intros x. rewrite Hslice, list_elem_of_filter. tauto. }
  destruct (over_quota_spec h quota slice) as (oldest & Hov & Hndo & Hsel).
  { rewrite Hslice. by apply NoDup_filter. }
  { done. }
  rewrite Hov. simpl.
  assert (Hold : ∀ x, x ∈ oldest → x ∈ slice).
  { intros x Hx. pose proof (qs_subset _ _ _ _ Hsel x). rewrite !elem_of_list_to_set in *. auto. }
  assert (Hinjo : sid_inj h oldest).
  { intros x y Hx Hy. apply Hinj; by apply Hsub, Hold. }
  assert (Himg : ∀ x, x ∈ map_img (SA := gset loc) (put_by_sid h oldest m) ↔
    x ∈ oldest ∨ x ∈ map_img (SA := gset loc) m).
  { intros x. rewrite !elem_of_map_img. split.
    - intros [sid [[? _]|[Hx _]]%put_by_sid_lookup]; eauto.
    - intros [Hx|[sid Hx]].
      + exists (Sid (h !!! x)). apply put_by_sid_lookup; auto.
      + exists sid. apply put_by_sid_lookup; [done|]. right. split; [done|].
        intros y Hy Hs. apply Hm in Hx as (Hall & Hsx & Hux).
        assert (x = y) as -> by (apply Hinj; [done|by apply Hsub, Hold|congruence]).
        apply Hold, Hsub in Hy as [_ <-]. apply Hux. by left. }
  destruct (IH (put_by_sid h oldest m)) as (m' & Hrun & Hkeys & Hother & Hmine); [done| | |].
  { intros u' slice' Hin. apply Husers. by right. }
  { intros sid x [[Hx Hs]|[Hx _]]%put_by_sid_lookup; [| |done].
    - apply Hold, Hsub in Hx as [? <-]. done.
    - apply Hm in Hx as (?&?&Hux). split_and!; [done..|]. set_solver. }
  exists m'. split_and!; [done|done| |].
  - intros x Hx. rewrite Hother by set_solver. rewrite Himg. split; [|by right].
    intros [Hxo|?]; [|done]. apply Hold, Hsub in Hxo as [_ Heq]. set_solver.
  - intros u' [->|Hu']%elem_of_cons; [|by apply Hmine].
    assert (Heq : filter (λ x, Uid (h !!! x) = u) (map_img m') =@{gset loc} list_to_set oldest).
    { apply leibniz_equiv. intros x. rewrite elem_of_filter, elem_of_list_to_set. split.
      - intros [<- Hx]. rewrite Hother, Himg in Hx by done. destruct Hx as [?|[sid Hx]%elem_of_map_img]; [done|].
        apply Hm in Hx as (_&_&Hux). destruct Hux. by left.
      - intros Hx. pose proof (Hsub x (Hold x Hx)) as [_ Hux]. split; [done|].
        rewrite Hother by (by rewrite Hux). rewrite Himg. by left. }
    rewrite Heq, <-Hslice. done.
Qed.
End Gc.

(** * Updates *)

Section Updates.
Implicit Types (h : heap) (s : SessionStore).

Lemma set_HubId_lookup_total h (l : loc) hub sess :
  h !! l = Some sess → alter (set_HubId hub) l h !!! l = set_HubId hub sess.
Proof. intros Hl. apply lookup_total_correct. by rewrite lookup_alter_eq, Hl. Qed.

Lemma stored_insert s hub v hub' sid l :
  stored {| kv := <[hub := v]> (kv s) |} hub' sid l ↔
  (hub' = hub ∧ v !! sid = Some l) ∨ (hub' ≠ hub ∧ stored s hub' sid l).
Proof.
  unfold stored. simpl. rewrite lookup_insert. case_decide as Hd; subst; naive_solver.
Qed.

Lemma stored_default s hub sid l :
  default ∅ (kv s !! hub) !! sid = Some l ↔ stored s hub sid l.
Proof.
  unfold stored. destruct (kv s !! hub) as [v|]; simpl; [naive_solver|].
  rewrite lookup_empty. naive_solver.
Qed.

Lemma add_stored hub (sess : loc) h s hub' sid l :
  let '(h', s') := SessionStore_add hub sess h s in
  stored s' hub' sid l ↔
  (hub' = hub ∧ sid = Sid (h' !!! sess) ∧ l = sess) ∨
  (¬ (hub' = hub ∧ sid = Sid (h' !!! sess)) ∧ stored s hub' sid l).
Proof.
  unfold SessionStore_add. rewrite stored_insert, lookup_insert_Some, stored_default.
  destruct (decide (hub' = hub)) as [->|]; naive_solver.
Qed.

Lemma del_stored hub sid0 s hub' sid l :
  stored (SessionStore_del hub sid0 s) hub' sid l ↔
  ¬ (hub' = hub ∧ sid = sid0) ∧ stored s hub' sid l.
Proof.
  unfold SessionStore_del. destruct (kv s !! hub) as [v|] eqn:E.
  - rewrite stored_insert, lookup_delete_Some. unfold stored.
    destruct (decide (hub' = hub)) as [->|]; naive_solver.
  - unfold stored. naive_solver.
Qed.

(** A session that is not stored yet can be written without harm. *)
Lemma store_ok_alter h s (l : loc) f :
  store_ok h s → (∀ hub sid, ¬ stored s hub sid l) → store_ok (alter f l h) s.
Proof.
  intros Hok Hn hub sid x Hx. destruct (Hok _ _ _ Hx) as (sess & Hs & ?).
  exists sess. rewrite lookup_alter_ne; [done|]. intros ->. by eapply Hn.
Qed.

(** A fresh object: allocated, and not in the store. *)
Definition fresh_session h s (l : loc) : Prop :=
  is_Some (h !! l) ∧ ∀ hub sid, ¬ stored s hub sid l.

Lemma add_ok hub (sess : loc) h s :
  store_ok h s → fresh_session h s sess →
  store_ok (SessionStore_add hub sess h s).1 (SessionStore_add hub sess h s).2.
Proof.
  intros Hok [[x Hx] Hfresh] hub' sid l Hl.
  apply (add_stored hub sess h s) in Hl. simpl.
  rewrite (set_HubId_lookup_total _ _ _ _ Hx) in Hl.
  destruct Hl as [(-> & -> & ->)|[_ Hl]].
  - exists (set_HubId hub x). by rewrite lookup_alter_eq, Hx.
  - apply (store_ok_alter h s sess (set_HubId hub)); done.
Qed.

Lemma addMany_loop_ok hub slice h s v :
  store_ok h {| kv := <[hub := v]> (kv s) |} → NoDup slice →
  (∀ l, l ∈ slice → fresh_session h {| kv := <[hub := v]> (kv s) |} l) →
  let '(h', v') := addMany_loop hub slice h v in
  store_ok h' {| kv := <[hub := v']> (kv s) |}.
Proof.
  revert h v. induction slice as [|sess slice IH]; intros h v Hok Hnd Hfresh; simpl; [done|].
  apply NoDup_cons in Hnd as [Hnin Hnd].
  destruct (Hfresh sess ltac:(by left)) as [[x Hx] Hns].
  rewrite (set_HubId_lookup_total _ _ _ _ Hx).
  apply IH; [|done|].
  - intros hub' sid l [(-> & Hl)|(Hne & Hl)]%stored_insert.
    + apply lookup_insert_Some in Hl as [[<- <-]|[Hs Hl]].
      * exists (set_HubId hub x). by rewrite lookup_alter_eq, Hx.
      * apply (store_ok_alter h _ sess (set_HubId hub)) in Hok; [|done].
        apply Hok, stored_insert. by left.
    + apply (store_ok_alter h _ sess (set_HubId hub)) in Hok; [|done].
      apply Hok, stored_insert. by right.
  - intros l Hl. assert (l ≠ sess) by set_solver.
    destruct (Hfresh l ltac:(by right)) as [[y Hy] Hnl]. split.
    + rewrite lookup_alter_ne by done. by eexists.
    + intros hub' sid [(-> & Hin)|(Hne & Hin)]%stored_insert.
      * apply lookup_insert_Some in Hin as [[_ ?]|[_ Hin]]; [done|].
        eapply (Hnl hub sid), stored_insert. by left.
      * eapply (Hnl hub' sid), stored_insert. by right.
Qed.

Lemma stored_refresh s hub hub' sid l :
  stored {| kv := <[hub := default ∅ (kv s !! hub)]> (kv s) |} hub' sid l ↔ stored s hub' sid l.
Proof.
  rewrite stored_insert, stored_default. destruct (decide (hub' = hub)) as [->|]; naive_solver.
Qed.

Lemma addMany_ok hub slice h s :
  store_ok h s → NoDup slice → (∀ l, l ∈ slice → fresh_session h s l) →
  store_ok (SessionStore_addMany hub slice h s).1 (SessionStore_addMany hub slice h s).2.
Proof.
  intros Hok Hnd Hfresh. unfold SessionStore_addMany.
  pose proof (addMany_loop_ok hub slice h s (default ∅ (kv s !! hub))) as Hloop.
  destruct (addMany_loop hub slice h _) as [h' v']. simpl. apply Hloop; [|done|].
  - intros hub' sid l Hl%stored_refresh. by apply Hok.
  - intros l Hl. destruct (Hfresh l Hl) as [? Hn]. split; [done|].
    intros hub' sid ?%stored_refresh. by eapply Hn.
Qed.

Lemma del_ok hub sid h s : store_ok h s → store_ok h (SessionStore_del hub sid s).
Proof. intros Hok ??? [_ ?]%del_stored. by apply Hok. Qed.

Lemma empty_ok h s : store_ok h (SessionStore_empty s).
Proof. intros ??? (v & Hv & _). simpl in Hv. by rewrite lookup_empty in Hv. Qed.
End Updates.

(** * The quota *)

Section Quota.
Context `{GoRange}.
Implicit Types (h : heap) (s : SessionStore).

(** With a non-negative quota the sessions chosen for a user never make the
    program panic and enforce the quota: they are sessions of that user, exactly
    as many as exceed it, and the oldest ones; and the map sends each session id
    to the session that has it. *)
Lemma getUserSessionsToKickoff_spec uid quota h s :
  store_ok h s → sids_unique s → (0 ≤ quota)%Z →
  ∃ m, SessionStore_getUserSessionsToKickoff uid quota h s = Ret m ∧
    quota_selection h (sessions_of h uid s) quota (map_img m) ∧
    ∀ sid l, m !! sid = Some l → Sid (h !!! l) = sid.
Proof.
  intros Hok Hu Hq. unfold SessionStore_getUserSessionsToKickoff.
  set (slice := filter _ _).
  destruct (over_quota_spec h quota slice) as (oldest & -> & Hnd & Hsel).
  { apply NoDup_filter, (all_sessions_NoDup _ _ h s Hok). }
  { done. }
  assert (Hinj : sid_inj h oldest).
  { apply (stored_sid_inj h s); [done..|]. intros x Hx.
    pose proof (qs_subset _ _ _ _ Hsel x) as Hin. rewrite !elem_of_list_to_set in Hin.
    specialize (Hin Hx). unfold slice in Hin. rewrite list_elem_of_filter, all_sessions_elem in Hin. tauto. }
  eexists. split; [done|]. split.
  - rewrite put_by_sid_img by done. unfold slice in Hsel. by rewrite user_slice_set in Hsel.
  - intros sid l [[_ ?]|[Hl _]]%put_by_sid_lookup; [done| |done]. by rewrite lookup_empty in Hl.
Qed.

(** Garbage collection removes exactly the sessions of hubs that are not
    connected and those kicked off more than 60 seconds ago, and keeps all
    others; the sessions it returns enforce the quota of every user among the
    sessions that remain. *)
Lemma SessionStore_gc_spec live quota now h s :
  store_ok h s → sids_unique s → (0 ≤ quota)%Z →
  ∃ m s', SessionStore_gc live quota now h s = Ret (m, s') ∧
    (∀ hub sid l, stored s' hub sid l ↔
       stored s hub sid l ∧ hub ∈ live ∧ kickoff_expired now (h !!! l) = false) ∧
    (∀ u, quota_selection h (sessions_of h u s') quota
            (filter (λ l, Uid (h !!! l) = u) (map_img m))) ∧
    ∀ sid l, m !! sid = Some l → Sid (h !!! l) = sid.
Proof.
  intros Hok Hu Hq. unfold SessionStore_gc.
  set (s' := gc_sweep live now h s). set (all := all_sessions 2 3 s').
  assert (Hok' : store_ok h s') by (by apply gc_sweep_ok).
  assert (Hu' : sids_unique s') by (by apply gc_sweep_unique).
  destruct (gc_kickoff_spec h quota all (range 4 (group_by_uid h all)) ∅)
    as (m & -> & Hkeys & Hother & Hmine); [done|by apply (all_sessions_NoDup _ _ h)| | | | |].
  { apply (stored_sid_inj h s'); [done..|]. intros x. apply (all_sessions_elem 2 3 s'). }
  { apply range_NoDup_fst. }
  { intros u slice Hin. by apply range_users in Hin as [-> _]. }
  { intros sid x Hx. by rewrite lookup_empty in Hx. }
  exists m, s'. split_and!; [done| | |].
  - intros hub sid l. apply gc_sweep_stored.
  - intros u. rewrite <-(user_slice_set 2 3). fold all.
    destruct (decide (u ∈ (range 4 (group_by_uid h all)).*1)) as [Hin|Hnin]; [by apply Hmine|].
    assert (Hnil : filter (λ x, Uid (h !!! x) = u) all = []).
    { destruct (filter _ all) as [|x l] eqn:E; [done|]. destruct Hnin.
      apply list_elem_of_fmap. exists (u, x :: l). split; [done|].
      apply range_elem. rewrite group_by_uid_lookup, E. done. }
    assert (Hemp : filter (λ l, Uid (h !!! l) = u) (map_img m) =@{gset loc} ∅).
    { apply leibniz_equiv. intros x. rewrite elem_of_filter, elem_of_empty. split; [|done].
      intros [<- Hx]. rewrite Hother in Hx by done.
      apply elem_of_map_img in Hx as [sid Hx]. by rewrite lookup_empty in Hx. }
    rewrite Hnil, Hemp. split; [set_solver| |set_solver].
    change (list_to_set [] : gset loc) with (∅ : gset loc). rewrite size_empty. lia.
  - intros sid l Hl. by apply Hkeys in Hl as [_ ?].
Qed.
End Quota.

(** * Deciding the invariants *)

Section Deciding.
Implicit Types (h : heap) (s : SessionStore).

Definition stored_list s : list (string * string * loc) :=
  map_to_list (kv s) ≫= λ kv', (λ sl, (fst kv', fst sl, snd sl)) <$> map_to_list (snd kv').

Lemma stored_list_elem s hub sid l : (hub, sid, l) ∈ stored_list s ↔ stored s hub sid l.
Proof.
  unfold stored_list, stored. rewrite list_elem_of_bind. split.
  - intros ([hub' v] & Hl & Hv%elem_of_map_to_list). simpl in *.
    apply list_elem_of_fmap in Hl as ([sid' l'] & Heq & Hl%elem_of_map_to_list). simpl in *.
    simplify_eq. eauto.
  - intros (v & Hv & Hl). exists (hub, v). rewrite elem_of_map_to_list. split; [|done].
    apply list_elem_of_fmap. exists (sid, l). by rewrite elem_of_map_to_list.
Qed.

Definition in_place h (p : string * string * loc) : Prop :=
  HubId (h !!! p.2) = p.1.1 ∧ Sid (h !!! p.2) = p.1.2 ∧ is_Some (h !! p.2).

Lemma store_ok_alt h s : store_ok h s ↔ Forall (in_place h) (stored_list s).
Proof.
  rewrite Forall_forall. split.
  - intros Hok [[hub sid] l] (sess & Hs & <- & <-)%stored_list_elem%Hok.
    unfold in_place. simpl. rewrite (lookup_total_correct _ _ _ Hs), Hs. eauto.
  - intros Hall hub sid l Hl%stored_list_elem%Hall. unfold in_place in Hl. simpl in Hl.
    destruct Hl as (<- & <- & [sess Hs]). exists sess. by rewrite (lookup_total_correct _ _ _ Hs).
Qed.

Lemma sids_unique_alt s :
  sids_unique s ↔
  Forall (λ p, Forall (λ q, p.1.2 = q.1.2 → p.1.1 = q.1.1) (stored_list s)) (stored_list s).
Proof.
  rewrite Forall_forall. setoid_rewrite Forall_forall. split.
  - intros Hu [[hub1 sid1] l1] H1%stored_list_elem [[hub2 sid2] l2] H2%stored_list_elem.
    simpl. intros <-. by eapply Hu.
  - intros Hall hub1 hub2 sid l1 l2 H1%stored_list_elem H2%stored_list_elem.
    by apply (Hall _ H1 _ H2).
Qed.

#[export] Instance store_ok_dec h s : Decision (store_ok h s).
Proof.
  refine (cast_if (decide (Forall (in_place h) (stored_list s)))); by rewrite store_ok_alt.
Defined.

#[export] Instance sids_unique_dec s : Decision (sids_unique s).
Proof.
  refine (cast_if (decide (Forall (λ p, Forall (λ q, p.1.2 = q.1.2 → p.1.1 = q.1.1)
    (stored_list s)) (stored_list s)))); by rewrite sids_unique_alt.
Defined.
End Deciding.

(** * Examples *)

Section Examples.

(** Two hubs; user 7 has three sessions, the third of them kicked off at time 100. *)
Definition ex_session hub uid sid ctime ktime : pb_Session := {|
  HubId := hub; Uid := uid; Sid := sid; Ip := ""; CreateTime := ctime; KickoffTime := ktime |}.

Definition ex_heap : heap := list_to_map [
  (1%positive, ex_session "a" 7 "s1" 30 0);
  (2%positive, ex_session "a" 7 "s2" 10 0);
  (3%positive, ex_session "b" 7 "s3" 20 100);
  (4%positive, ex_session "b" 8 "s4" 40 0)].

Definition ex_store : SessionStore := {| kv := list_to_map [
  ("a", list_to_map [("s1", 1%positive); ("s2", 2%positive)]);
  ("b", list_to_map [("s3", 3%positive); ("s4", 4%positive)])] |}.

Example getUserSessionsToKickoff_example :
  SessionStore_getUserSessionsToKickoff (H := canonical_range) 7 1 ex_heap ex_store =
    Ret (<["s2" := 2%positive]> (<["s3" := 3%positive]> ∅)).
Proof. vm_compute. reflexivity. Qed.
End Examples.
