(* ===== verification/Cache.v ===== *)
(** [cluster/eventstore.go], the [cache] type: the flow control between the
    consumer of Kafka messages and the push of head sequence numbers.

    [put] and [check] are first modelled as whole calls.  [check] reads and
    deletes the entries of the map without the lock, so the second half of the
    file splits it into its steps and lets [put] run between them. *)

From Stdlib Require Import ZArith Lia SpecFloat.
From stdpp Require Import base option list numbers gmap strings pretty.
From S2P Require Import Prelude Proto.

(** * Durations and float64 *)

Definition Millisecond : Z := 1000000%Z.
Definition Second : Z := 1000000000%Z.
Definition Hour : Z := 3600000000000%Z.

(** [time.Since(t)]: the difference saturates at the bounds of [int64]. *)
Definition Since (now t : Z) : Z :=
  Z.max (- 2 ^ 63) (Z.min (2 ^ 63 - 1) (now - t)).

(** IEEE 754 binary64, rounding to nearest even. *)
Definition float64 (z : Z) : spec_float := binary_normalize 53 1024 z 0 false.
Definition f64_mul : spec_float → spec_float → spec_float := SFmul 53 1024.
Definition f64_div : spec_float → spec_float → spec_float := SFdiv 53 1024.
Definition f64_add : spec_float → spec_float → spec_float := SFadd 53 1024.

(** [int64(f)] truncates towards zero; outside the range of [int64] the amd64
    conversion gives the smallest integer. *)
Definition f64_int64 (f : spec_float) : Z :=
  match f with
  | S754_zero _ => 0
  | S754_finite s m e =>
      let a := (if bool_decide (0 ≤ e) then Z.pos m * 2 ^ e else Z.pos m / 2 ^ (- e))%Z in
      let z := if s then (- a)%Z else a in
      if bool_decide (- 2 ^ 63 ≤ z < 2 ^ 63)%Z then z else (- 2 ^ 63)%Z
  | _ => (- 2 ^ 63)%Z
  end.

(** [d.Seconds()] *)
Definition Seconds (d : Z) : spec_float :=
  f64_add (float64 (Z.quot d Second)) (f64_div (float64 (Z.rem d Second)) (float64 Second)).

(** * The cache *)

Definition storeCacheTTL : Z := (5 * Second)%Z.

Record userSeq := { headSeq : Z; counter : Z; cacheTime : Z }.

Record cache := { cache_kv : gmap Z userSeq; sending : bool }.

Definition newCache : cache := {| cache_kv := ∅; sending := false |}.

Definition with_kv (m : gmap Z userSeq) (c : cache) : cache :=
  {| cache_kv := m; sending := sending c |}.
Definition with_sending (b : bool) (c : cache) : cache :=
  {| cache_kv := cache_kv c; sending := b |}.

(** The loop of [put]; [now uid] is what [time.Now()] returns at that entry. *)
Fixpoint put_loop (now : Z → Z) (data : list (Z * Z)) (kv : gmap Z userSeq)
    : go (gmap Z userSeq) :=
  match data with
  | [] => Ret kv
  | (uid, seq) :: rest =>
      match kv !! uid with
      | Some v =>
          if bool_decide (headSeq v < seq)%Z then
            put_loop now rest (<[uid := {| headSeq := seq; counter := wrap64 (counter v + 1);
                                           cacheTime := cacheTime v |}]> kv)
          else Panic ("uid: " +:+ pretty uid +:+ ", incoming seq `" +:+ pretty seq +:+
                      "` is not bigger than last `" +:+ pretty (headSeq v) +:+ "`")
      | None =>
          put_loop now rest (<[uid := {| headSeq := seq; counter := 1; cacheTime := now uid |}]> kv)
      end
  end.

(** The condition under which [check] sends an entry, at time [t]. *)
Definition due (t : Z) (v : userSeq) : bool :=
  let dur := Since t (cacheTime v) in
  let freq := f64_div (float64 (counter v)) (Seconds dur) in
  SFleb freq (float64 1) || bool_decide (storeCacheTTL < dur)%Z.

(** The loop of [check]: [out] collects what is sent. *)
Fixpoint check_loop (now : Z → Z) (entries : list (Z * userSeq)) (kv : gmap Z userSeq)
    (out : gmap Z Z) : gmap Z userSeq * gmap Z Z :=
  match entries with
  | [] => (kv, out)
  | (uid, v) :: rest =>
      if due (now uid) v
      then check_loop now rest (delete uid kv) (<[uid := headSeq v]> out)
      else check_loop now rest kv out
  end.

Definition LeaderMsg_of_HeadSeq (out : gmap Z Z) : pb_LeaderMsg := {|
  LeaderMsg_HeadSeq := out; LeaderMsg_Kickoff := []; LeaderMsg_ServerShutdown := false |}.

Section Methods.
Context `{GoRange}.

Definition cache_put (now : Z → Z) (data : gmap Z Z) (c : cache) : go cache :=
  let! kv := put_loop now (range 0 data) (cache_kv c) in
  Ret (with_kv kv c).

(** The result carries the message sent on [pushChan], if any. *)
Definition cache_check (now : Z → Z) (c : cache) : cache * option pb_LeaderMsg :=
  if sending c then (c, None)
  else
    let '(kv, out) := check_loop now (range 1 (cache_kv c)) (cache_kv c) ∅ in
    (with_sending false (with_kv kv c),
     if bool_decide (0 < size out) then Some (LeaderMsg_of_HeadSeq out) else None).
End Methods.

(** * Lemmas *)

Section Lemmas.
Context `{GoRange}.

Lemma put_loop_panics now data kv uid v seq :
  NoDup data.*1 → (uid, seq) ∈ data → kv !! uid = Some v → (seq ≤ headSeq v)%Z →
  ∃ why, put_loop now data kv = Panic why.
Proof.
  revert kv. induction data as [|[u s] data IH]; intros kv Hnd Hin Hv Hle; [by apply elem_of_nil in Hin|].
  cbn [fmap list_fmap fst] in Hnd. apply NoDup_cons in Hnd as [Hu Hnd]. simpl.
  apply elem_of_cons in Hin as [[= <- <-]|Hin].
  - rewrite Hv, bool_decide_eq_false_2 by lia. eauto.
  - assert (u ≠ uid) by (intros ->; apply Hu; by apply (list_elem_of_fmap_2 fst) in Hin).
    destruct (kv !! u); [case_bool_decide; [|eauto]|]; apply IH; rewrite ?lookup_insert_ne by done; done.
Qed.

Lemma put_loop_lookup now data kv :
  NoDup data.*1 →
  (∀ uid seq v, (uid, seq) ∈ data → kv !! uid = Some v → headSeq v < seq)%Z →
  ∃ kv', put_loop now data kv = Ret kv' ∧
  (∀ uid, uid ∉ data.*1 → kv' !! uid = kv !! uid) ∧
  (∀ uid seq, (uid, seq) ∈ data → kv' !! uid = Some
     match kv !! uid with
     | Some v => {| headSeq := seq; counter := wrap64 (counter v + 1); cacheTime := cacheTime v |}
     | None => {| headSeq := seq; counter := 1; cacheTime := now uid |}
     end).
Proof.
  revert kv. induction data as [|[u s] data IH]; intros kv Hnd Hlt; [set_solver|].
  cbn [fmap list_fmap fst] in *. apply NoDup_cons in Hnd as [Hu Hnd]. simpl put_loop.
  assert (Hne : ∀ uid seq, (uid, seq) ∈ data → uid ≠ u).
  { intros uid seq Hin ->. apply Hu. by apply (list_elem_of_fmap_2 fst) in Hin. }
  set (v' := match kv !! u with
             | Some v => {| headSeq := s; counter := wrap64 (counter v + 1); cacheTime := cacheTime v |}
             | None => {| headSeq := s; counter := 1; cacheTime := now u |} end).
  destruct (IH (<[u := v']> kv)) as (kv' & Hrun & Hout & Hin); [done| |].
  { intros uid seq v Hin. rewrite lookup_insert_ne by (symmetry; by eapply Hne).
    apply (Hlt uid seq v). by right. }
  exists kv'. split_and!.
  - rewrite <-Hrun. unfold v'. destruct (kv !! u) as [v|] eqn:Hv; [|done].
    rewrite bool_decide_eq_true_2; [done|]. apply (Hlt u); [by left|done].
  - intros uid Hnin. rewrite Hout by set_solver. apply lookup_insert_ne. set_solver.
  - intros uid seq [[= -> ->]|Hin']%elem_of_cons.
    + rewrite Hout by done. by rewrite lookup_insert_eq.
    + rewrite (Hin uid seq Hin'). by rewrite lookup_insert_ne by (symmetry; by eapply Hne).
Qed.

(** [put] as a whole: it panics exactly when a number is not bigger than the
    cached one, and otherwise stores every number. *)
Lemma cache_put_spec now data c :
  (∀ uid seq v, data !! uid = Some seq → cache_kv c !! uid = Some v → headSeq v < seq)%Z →
  ∃ kv, cache_put now data c = Ret (with_kv kv c) ∧
  ∀ uid, kv !! uid =
    match data !! uid, cache_kv c !! uid with
    | None, o => o
    | Some seq, Some v =>
        Some {| headSeq := seq; counter := wrap64 (counter v + 1); cacheTime := cacheTime v |}
    | Some seq, None => Some {| headSeq := seq; counter := 1; cacheTime := now uid |}
    end.
Proof.
  intros Hlt. unfold cache_put.
  destruct (put_loop_lookup now (range 0 data) (cache_kv c)) as (kv & Hrun & Hout & Hin).
  { apply range_NoDup_fst. }
  { intros uid seq v Hd%range_elem. by apply Hlt. }
  exists kv. rewrite Hrun. split; [done|]. intros uid.
  destruct (data !! uid) as [seq|] eqn:Hd.
  - rewrite (Hin uid seq) by (by rewrite range_elem). by destruct (cache_kv c !! uid).
  - apply Hout. intros ([u s] & -> & Hs%range_elem)%list_elem_of_fmap. simpl in Hd. congruence.
Qed.

Lemma check_loop_lookup now entries kv out :
  NoDup entries.*1 → (∀ uid v, (uid, v) ∈ entries → kv !! uid = Some v) →
  let '(kv', out') := check_loop now entries kv out in
  ∀ uid,
    kv' !! uid = (match kv !! uid with
                  | Some v => if bool_decide (uid ∈ entries.*1) && due (now uid) v then None else Some v
                  | None => None end) ∧
    out' !! uid = (match kv !! uid with
                   | Some v => if bool_decide (uid ∈ entries.*1) && due (now uid) v
                               then Some (headSeq v) else out !! uid
                   | None => out !! uid end).
Proof.
  revert kv out. induction entries as [|[u v] entries IH]; intros kv out Hnd Hkv.
  { cbn [check_loop]. intros uid. by destruct (kv !! uid). }
  cbn [fmap list_fmap fst] in *. apply NoDup_cons in Hnd as [Hu Hnd]. simpl check_loop.
  pose proof (Hkv u v ltac:(by left)) as Huv.
  assert (Hne : ∀ uid w, (uid, w) ∈ entries → uid ≠ u).
  { intros uid w Hin ->. apply Hu. by apply (list_elem_of_fmap_2 fst) in Hin. }
  destruct (due (now u) v) eqn:Hdue.
  - specialize (IH (delete u kv) (<[u := headSeq v]> out) Hnd).
    destruct (check_loop _ _ _ _) as [kv' out']. intros uid.
    destruct (IH ltac:(intros uid' w Hin; rewrite lookup_delete_ne by (symmetry; by eapply Hne); apply Hkv; by right) uid)
      as [-> ->].
    destruct (decide (uid = u)) as [->|Hd].
    + rewrite lookup_delete_eq, lookup_insert_eq, Huv, Hdue, bool_decide_eq_true_2 by (by left). done.
    + rewrite lookup_delete_ne, lookup_insert_ne by done.
      rewrite (bool_decide_ext (uid ∈ u :: entries.*1) (uid ∈ entries.*1)) by set_solver. done.
  - specialize (IH kv out Hnd). destruct (check_loop _ _ _ _) as [kv' out']. intros uid.
    destruct (IH ltac:(intros; apply Hkv; by right) uid) as [-> ->].
    destruct (decide (uid = u)) as [->|Hd].
    + rewrite Huv, Hdue, !andb_false_r. done.
    + rewrite (bool_decide_ext (uid ∈ u :: entries.*1) (uid ∈ entries.*1)) by set_solver. done.
Qed.

(** What one uninterrupted [check] does when no other one is running. *)
Lemma cache_check_spec now c :
  sending c = false →
  let '(c', o) := cache_check now c in
  let sent := default ∅ (LeaderMsg_HeadSeq <$> o) in
  sending c' = false ∧
  ∀ uid,
    match cache_kv c !! uid with
    | Some v => if due (now uid) v
                then cache_kv c' !! uid = None ∧ sent !! uid = Some (headSeq v)
                else cache_kv c' !! uid = Some v ∧ sent !! uid = None
    | None => cache_kv c' !! uid = None ∧ sent !! uid = None
    end.
Proof.
  intros Hs. unfold cache_check. rewrite Hs.
  pose proof (check_loop_lookup now (range 1 (cache_kv c)) (cache_kv c) ∅
    ltac:(apply range_NoDup_fst) ltac:(intros uid v; by rewrite range_elem)) as Hl.
  destruct (check_loop _ _ _ _) as [kv out]. simpl. split; [done|]. intros uid.
  assert (Hsent : default ∅ (LeaderMsg_HeadSeq <$>
    (if bool_decide (0 < size out) then Some (LeaderMsg_of_HeadSeq out) else None)) = out).
  { case_bool_decide as Hz; [done|]. simpl. symmetry. apply map_size_empty_iff. lia. }
  rewrite Hsent. destruct (Hl uid) as [-> ->]. rewrite lookup_empty.
  destruct (cache_kv c !! uid) as [v|] eqn:E; [|done].
  rewrite bool_decide_eq_true_2; [simpl; by destruct (due _ v)|].
  apply list_elem_of_fmap. exists (uid, v). by rewrite range_elem.
Qed.

(** An entry older than the TTL is sent whatever its frequency. *)
Lemma due_after_ttl t v : (storeCacheTTL < t - cacheTime v)%Z → due t v = true.
Proof.
  intros Hlt. unfold due. rewrite (bool_decide_eq_true_2 (storeCacheTTL < _)%Z), orb_true_r; [done|].
  unfold Since, storeCacheTTL, Second in *. lia.
Qed.
End Lemmas.

(** * [check] step by step

    [check] takes the lock only around the flag [sending]; its loop reads and
    deletes entries without it.  The state machine below has one step per
    access, and lets a [put] (which runs under the lock) happen in between. *)

Inductive check_pc :=
| NotChecking
| Ranging (todo : list Z) (out : gmap Z Z)       (* at the head of the loop *)
| Deleting (uid : Z) (todo : list Z) (out : gmap Z Z)  (* out[uid] is set, delete is next *)
| Finishing.                                     (* the message has been sent *)

(** [ck_received] are the arguments of the [put] calls so far and [ck_sent] the
    messages on [pushChan]. *)
Record check_world := {
  ck_cache : cache;
  ck_pc : check_pc;
  ck_received : list (gmap Z Z);
  ck_sent : list pb_LeaderMsg
}.

Section Interleaving.
Context `{GoRange}.

Inductive check_step (now : Z → Z) : check_world → check_world → Prop :=
| ck_begin c recv sent :
    sending c = false →
    check_step now {| ck_cache := c; ck_pc := NotChecking; ck_received := recv; ck_sent := sent |}
      {| ck_cache := with_sending true c; ck_pc := Ranging (range 1 (cache_kv c)).*1 ∅;
         ck_received := recv; ck_sent := sent |}
| ck_skip c uid todo out recv sent :
    match cache_kv c !! uid with Some v => due (now uid) v = false | None => True end →
    check_step now {| ck_cache := c; ck_pc := Ranging (uid :: todo) out; ck_received := recv; ck_sent := sent |}
      {| ck_cache := c; ck_pc := Ranging todo out; ck_received := recv; ck_sent := sent |}
| ck_take c uid v todo out recv sent :
    cache_kv c !! uid = Some v → due (now uid) v = true →
    check_step now {| ck_cache := c; ck_pc := Ranging (uid :: todo) out; ck_received := recv; ck_sent := sent |}
      {| ck_cache := c; ck_pc := Deleting uid todo (<[uid := headSeq v]> out);
         ck_received := recv; ck_sent := sent |}
| ck_delete c uid todo out recv sent :
    check_step now {| ck_cache := c; ck_pc := Deleting uid todo out; ck_received := recv; ck_sent := sent |}
      {| ck_cache := with_kv (delete uid (cache_kv c)) c; ck_pc := Ranging todo out;
         ck_received := recv; ck_sent := sent |}
| ck_send c out recv sent :
    check_step now {| ck_cache := c; ck_pc := Ranging [] out; ck_received := recv; ck_sent := sent |}
      {| ck_cache := c; ck_pc := Finishing; ck_received := recv;
         ck_sent := sent ++ (if bool_decide (0 < size out) then [LeaderMsg_of_HeadSeq out] else []) |}
| ck_finish c recv sent :
    check_step now {| ck_cache := c; ck_pc := Finishing; ck_received := recv; ck_sent := sent |}
      {| ck_cache := with_sending false c; ck_pc := NotChecking; ck_received := recv; ck_sent := sent |}.

(** [put] runs whenever the lock is free, which it is during the loop. *)
Inductive cache_step : check_world → check_world → Prop :=
| cs_check now w w' : check_step now w w' → cache_step w w'
| cs_put now data c c' pc recv sent :
    cache_put now data c = Ret c' →
    cache_step {| ck_cache := c; ck_pc := pc; ck_received := recv; ck_sent := sent |}
      {| ck_cache := c'; ck_pc := pc; ck_received := recv ++ [data]; ck_sent := sent |}.

Lemma check_loop_steps now entries c out recv sent :
  NoDup entries.*1 → (∀ uid v, (uid, v) ∈ entries → cache_kv c !! uid = Some v) →
  rtc (check_step now)
    {| ck_cache := c; ck_pc := Ranging entries.*1 out; ck_received := recv; ck_sent := sent |}
    (let '(kv, out') := check_loop now entries (cache_kv c) out in
     {| ck_cache := with_kv kv c; ck_pc := Ranging [] out'; ck_received := recv; ck_sent := sent |}).
Proof.
  revert c out. induction entries as [|[uid v] entries IH]; intros c out Hnd Hkv.
  { simpl. by destruct c. }
  cbn [fmap list_fmap fst] in *. apply NoDup_cons in Hnd as [Hu Hnd]. simpl check_loop.
  pose proof (Hkv uid v ltac:(by left)) as Hv.
  destruct (due (now uid) v) eqn:Hdue.
  - eapply rtc_l; [by eapply ck_take|]. eapply rtc_l; [apply ck_delete|].
    specialize (IH (with_kv (delete uid (cache_kv c)) c) (<[uid := headSeq v]> out) Hnd). simpl in IH.
    destruct (check_loop _ _ _ _) as [kv out']. apply IH.
    intros uid' v' Hin. rewrite lookup_delete_ne; [apply Hkv; by right|].
    intros ->. apply Hu. by apply (list_elem_of_fmap_2 fst) in Hin.
  - eapply rtc_l; [apply ck_skip; by rewrite Hv|]. apply IH; [done|].
    intros uid' v' Hin. apply Hkv. by right.
Qed.

(** The steps of [check], when no [put] runs between them, terminate and
    have together the effect of the whole call: the same map, the same message
    on the channel, and the flag cleared again. *)
Theorem check_steps_refine now c recv sent :
  sending c = false →
  rtc (check_step now)
    {| ck_cache := c; ck_pc := NotChecking; ck_received := recv; ck_sent := sent |}
    (let '(c', o) := cache_check now c in
     {| ck_cache := c'; ck_pc := NotChecking; ck_received := recv; ck_sent := sent ++ option_list o |}).
Proof.
  intros Hs. eapply rtc_l; [by apply ck_begin|].
  pose proof (check_loop_steps now (range 1 (cache_kv c)) (with_sending true c) ∅ recv sent
    ltac:(apply range_NoDup_fst) ltac:(intros uid v; by rewrite range_elem)) as Hsteps.
  unfold cache_check. rewrite Hs. simpl in Hsteps.
  destruct (check_loop _ _ _ _) as [kv out].
  etransitivity; [exact Hsteps|].
  eapply rtc_l; [apply ck_send|]. eapply rtc_l; [apply ck_finish|].
  case_bool_decide; apply rtc_refl.
Qed.

Lemma cache_put_singleton now uid seq c :
  cache_put now {[uid := seq]} c =
  (let! kv := put_loop now [(uid, seq)] (cache_kv c) in Ret (with_kv kv c)).
Proof. unfold cache_put. by rewrite range_singleton. Qed.

(** C28: because the loop of [check] does not hold the lock, a head that [put]
    stores between the read and the deletion of an entry is lost: there is a
    run after which [put] accepted number 6 of user 1, no message carries it
    and no entry is left that would send it later. *)
Theorem check_put_race_loses_head :
  ∃ w,
    rtc cache_step
      {| ck_cache := newCache; ck_pc := NotChecking; ck_received := []; ck_sent := [] |} w ∧
    ck_pc w = NotChecking ∧ {[1%Z := 6%Z]} ∈ ck_received w ∧ cache_kv (ck_cache w) = ∅ ∧
    Forall (λ msg, LeaderMsg_HeadSeq msg = {[1%Z := 5%Z]}) (ck_sent w).
Proof.
  eexists. split.
  { eapply rtc_l; [apply (cs_put (λ _, 0%Z) {[1%Z := 5%Z]}); rewrite cache_put_singleton; reflexivity|].
    eapply rtc_l; [eapply (cs_check (λ _, 6 * Second)%Z), ck_begin; reflexivity|].
    rewrite (range_singleton 1 1%Z {| headSeq := 5; counter := 1; cacheTime := 0 |} :
      range 1 (cache_kv (with_kv (<[1%Z := _]> (cache_kv newCache)) newCache)) = _).
    eapply rtc_l; [eapply (cs_check (λ _, 6 * Second)%Z), ck_take; [reflexivity|vm_compute; reflexivity]|].
    eapply rtc_l; [apply (cs_put (λ _, 6 * Second)%Z {[1%Z := 6%Z]}); rewrite cache_put_singleton; reflexivity|].
    eapply rtc_l; [eapply (cs_check (λ _, 6 * Second)%Z), ck_delete|].
    eapply rtc_l; [eapply (cs_check (λ _, 6 * Second)%Z), ck_send|].
    eapply rtc_l; [eapply (cs_check (λ _, 6 * Second)%Z), ck_finish|]. apply rtc_refl. }
  simpl. split_and!; [done|set_solver|done|]. by repeat constructor.
Qed.
End Interleaving.

(** The frequency test on examples: one event is sent after a second, two events
    in one second wait, and everything is sent after the TTL. *)
Example due_examples :
  due Second {| headSeq := 1; counter := 1; cacheTime := 0 |} = true ∧
  due (Second - 1) {| headSeq := 1; counter := 1; cacheTime := 0 |} = false ∧
  due Second {| headSeq := 2; counter := 2; cacheTime := 0 |} = false ∧
  due (2 * Second) {| headSeq := 2; counter := 2; cacheTime := 0 |} = true ∧
  due (5 * Second + 1) {| headSeq := 1000; counter := 1000; cacheTime := 0 |} = true.
Proof. vm_compute. split_and!; reflexivity. Qed.

Lemma check_steps_refine_witness :
  let c := {| cache_kv := {[1%Z := {| headSeq := 3; counter := 2; cacheTime := 0 |}]}; sending := false |} in
  rtc (check_step (H := canonical_range) (λ _, 2 * Second)%Z)
    {| ck_cache := c; ck_pc := NotChecking; ck_received := []; ck_sent := [] |}
    {| ck_cache := newCache; ck_pc := NotChecking; ck_received := [];
       ck_sent := [LeaderMsg_of_HeadSeq {[1%Z := 3%Z]}] |}.
Proof.
  intros c.
  exact (check_steps_refine (H := canonical_range) (λ _, 2 * Second)%Z c [] [] eq_refl).
Defined.
