(* ===== verification/Storage.v ===== *)
(** [cluster/eventstore.go] and [cluster/util.go]: the [storage] of the leader.

    Three goroutines run concurrently: [consumeLoop] (fetch from Kafka, save,
    put the new heads into the cache, commit), [sendLoop] (the cache's [check]
    once a second) and [deleteLoop] (once an hour), while the websocket handlers
    use the same event store.  [consumeLoop] is a state machine whose inputs
    are what Kafka, the clock and the context deliver; a step of the system is
    a step of one of the goroutines.

    The store is used through the interface [IEventStore]; what the loop relies
    on is the class [NumberedStore], which [EventStore.v] implements. *)

From Stdlib Require Import ZArith Lia SpecFloat.
From stdpp Require Import base option list numbers gmap strings pretty relations sorting.
From S2P Require Import Prelude Proto ReadStates EventStore EventApi Cache.

(** * Kafka and JSON *)

(** [kafka.Message], the fields the program uses. *)
Record kafka_Message := {
  km_Offset : Z;
  km_Time : Z;
  km_Value : string
}.

(** The errors of a Kafka call: [context.Canceled], or any other. *)
Inductive kafka_error :=
| Canceled
| KafkaError (code : nat).

(** [json.Marshal] and [json.Unmarshal] on [pb.E2EMsg]. *)
Class Json := {
  json_Marshal : pb_E2EMsg → result string string;
  json_Unmarshal : string → result string pb_E2EMsg
}.

(** [IKafkaWriter.WriteMessages] of one message, given its value. *)
Class IKafkaWriter (K : Type) := {
  WriteMessages : string → K → option string * K
}.

(** * cluster/util.go *)

Inductive save_error :=
| ErrMarshal (err : string)
| ErrExceedsLimit (limit : Z)
| ErrWrite (err : string).

(** A writer that was never created is a nil interface: calling it panics. *)
Definition saveE2eMsg `{Json} {K} `{IKafkaWriter K} (kafkaWriter : option K) (msg : pb_E2EMsg)
    (limit : Z) : go (option save_error * option K) :=
  match json_Marshal msg with
  | Err err => Ret (Some (ErrMarshal err), kafkaWriter)
  | Ok value =>
      if bool_decide (limit < Z.of_nat (String.length value))%Z
      then Ret (Some (ErrExceedsLimit limit), kafkaWriter)
      else match kafkaWriter with
      | None => Panic "invalid memory address or nil pointer dereference"
      | Some k =>
          match WriteMessages value k with
          | (Some err, k') => Ret (Some (ErrWrite err), Some k')
          | (None, k') => Ret (None, Some k')
          end
      end
  end.

(** * backoff *)

Definition BackoffMinInterval : Z := (1 * Second)%Z.
Definition BackoffMaxInterval : Z := (60 * Second)%Z.
Definition BackoffMultiplier : spec_float := f64_div (float64 3) (float64 2).

(** [d.Truncate(m)] *)
Definition Truncate (d m : Z) : Z :=
  if bool_decide (m ≤ 0)%Z then d else (d - Z.rem d m)%Z.

Definition backoff (d : Z) : Z :=
  if bool_decide (d = 0)%Z then BackoffMinInterval
  else
    let d := f64_int64 (f64_mul (float64 d) BackoffMultiplier) in
    if bool_decide (d < BackoffMaxInterval)%Z then Truncate d Millisecond
    else BackoffMinInterval.

(** * storage *)

Record storage := {
  cleanEvents : bool;
  delEventsTtlDays : Z;
  valueMaxBytes : Z
}.

Definition newStorage (clean : bool) (eventsTtlDays maxBytes : Z) : storage := {|
  cleanEvents := clean;
  delEventsTtlDays := if clean then eventsTtlDays else MaxInt32;
  valueMaxBytes := maxBytes
|}.

(** [time.Duration(days)*24*time.Hour], in [int64]. *)
Definition ttl_duration (days : Z) : Z := wrap64 (wrap64 (days * 24) * Hour).

Definition shouldDiscard (s : storage) (now : Z) (msg : kafka_Message) : bool :=
  bool_decide (0 < delEventsTtlDays s)%Z &&
  bool_decide (ttl_duration (delEventsTtlDays s) < Since now (km_Time msg))%Z.

Definition decodeKafkaMsg `{Json} (s : storage) (now : Z) (msg : kafka_Message) : option pb_E2EMsg :=
  if bool_decide (valueMaxBytes s < Z.of_nat (String.length (km_Value msg)))%Z then None
  else match json_Unmarshal (km_Value msg) with
  | Err _ => None
  | Ok v => if shouldDiscard s now msg then None else Some v
  end.

(** The [store.Event] built from a message. *)
Definition event_of_msg (msg : kafka_Message) (value : pb_E2EMsg) : store_Event := {|
  Offset := km_Offset msg; Event_CreateTime_ns := km_Time msg;
  To := E2EMsg_To value; Payload := km_Value msg |}.

(** Where [consumeLoop] is. *)
Inductive consume_pc :=
| Fetching
| Saving (msg : kafka_Message) (e : store_Event)
| Putting (msg : kafka_Message) (res : gmap Z Z)
| Committing (msg : kafka_Message)
| Exited
| Panicked (why : string).

Inductive action :=
| Saved (e : store_Event) (res : gmap Z Z)
| Committed (msg : kafka_Message).

(** The process: the store, the cache, the loop with its variable [sleep], what
    it has done and what has been sent on [pushChan]. *)
Record world (S : Type) := {
  w_store : S;
  w_cache : cache;
  w_pc : consume_pc;
  w_sleep : Z;
  w_trace : list action;
  w_pushed : list pb_LeaderMsg
}.
Arguments w_store {S} _.
Arguments w_cache {S} _.
Arguments w_pc {S} _.
Arguments w_sleep {S} _.
Arguments w_trace {S} _.
Arguments w_pushed {S} _.

Definition with_store {S} (st : S) (w : world S) : world S := {|
  w_store := st; w_cache := w_cache w; w_pc := w_pc w; w_sleep := w_sleep w;
  w_trace := w_trace w; w_pushed := w_pushed w |}.
Definition with_cache {S} (c : cache) (w : world S) : world S := {|
  w_store := w_store w; w_cache := c; w_pc := w_pc w; w_sleep := w_sleep w;
  w_trace := w_trace w; w_pushed := w_pushed w |}.
Definition with_pc {S} (pc : consume_pc) (w : world S) : world S := {|
  w_store := w_store w; w_cache := w_cache w; w_pc := pc; w_sleep := w_sleep w;
  w_trace := w_trace w; w_pushed := w_pushed w |}.
Definition with_sleep {S} (d : Z) (w : world S) : world S := {|
  w_store := w_store w; w_cache := w_cache w; w_pc := w_pc w; w_sleep := d;
  w_trace := w_trace w; w_pushed := w_pushed w |}.
Definition with_action {S} (a : action) (w : world S) : world S := {|
  w_store := w_store w; w_cache := w_cache w; w_pc := w_pc w; w_sleep := w_sleep w;
  w_trace := w_trace w ++ [a]; w_pushed := w_pushed w |}.
Definition with_pushed {S} (o : option pb_LeaderMsg) (w : world S) : world S := {|
  w_store := w_store w; w_cache := w_cache w; w_pc := w_pc w; w_sleep := w_sleep w;
  w_trace := w_trace w; w_pushed := w_pushed w ++ option_list o |}.

(** What the environment delivers to one step of the loop: the answers of
    Kafka, whether [ctx.Done()] wins the [select], the time at which a message
    is decoded, and [time.Now()] inside [put]. *)
Record input := {
  in_fetch : result kafka_error kafka_Message;
  in_commit : option kafka_error;
  in_done : bool;
  in_now : Z;
  in_put : Z → Z
}.

Definition world_init {S} (st : S) : world S := {|
  w_store := st; w_cache := newCache; w_pc := Fetching; w_sleep := 0;
  w_trace := []; w_pushed := [] |}.

Section Loops.
Context `{GoRange} `{Json} {S E : Type} `{IEventStore S E}.
(** [err == context.Canceled] on an error of the store *)
Context (canceled : E → bool).
Context (s : storage).

(** [backoff(&sleep)] and the [select] behind it: try again, or return. *)
Definition retry (i : input) (w : world S) : world S :=
  let w := with_sleep (backoff (w_sleep w)) w in
  if in_done i then with_pc Exited w else w.

Definition consume_fetch (i : input) (w : world S) : world S :=
  match in_fetch i with
  | Ok msg =>
      let w := with_sleep 0 w in
      match decodeKafkaMsg s (in_now i) msg with
      | Some value => with_pc (Saving msg (event_of_msg msg value)) w
      | None => w
      end
  | Err Canceled => with_pc Exited w
  | Err _ => retry i w
  end.

Definition consume_save (i : input) (msg : kafka_Message) (e : store_Event) (w : world S) : world S :=
  match es_Save e (w_store w) with
  | (Ok res, st') =>
      let w := with_action (Saved e res) (with_sleep 0 (with_store st' w)) in
      with_pc (if bool_decide (0 < size res) then Putting msg res else Committing msg) w
  | (Err err, st') =>
      let w := with_store st' w in
      if canceled err then with_pc Exited w
      else if es_IsDupKeyError err then with_pc (Panicked (es_Error err)) w
      else retry i w
  end.

Definition consume_put (i : input) (msg : kafka_Message) (res : gmap Z Z) (w : world S) : world S :=
  match cache_put (in_put i) res (w_cache w) with
  | Ret c => with_pc (Committing msg) (with_cache c w)
  | Panic why => with_pc (Panicked why) w
  end.

Definition consume_commit (i : input) (msg : kafka_Message) (w : world S) : world S :=
  match in_commit i with
  | None => with_pc Fetching (with_action (Committed msg) (with_sleep 0 w))
  | Some Canceled => with_pc Exited w
  | Some _ => retry i w
  end.

Definition consume_step (i : input) (w : world S) : world S :=
  match w_pc w with
  | Fetching => consume_fetch i w
  | Saving msg e => consume_save i msg e w
  | Putting msg res => consume_put i msg res w
  | Committing msg => consume_commit i msg w
  | Exited | Panicked _ => w
  end.

(** A tick of [sendLoop] and one of [deleteLoop]; the latter ignores errors. *)
Definition sendLoop_tick (now : Z → Z) (w : world S) : world S :=
  let '(c, o) := cache_check now (w_cache w) in
  with_pushed o (with_cache c w).

Definition deleteLoop_tick (w : world S) : world S :=
  with_store (es_DeleteOutdatedEvents (delEventsTtlDays s) (w_store w)).2 w.

(** A call that any other user of the store makes. *)
Inductive es_call : S → S → Prop :=
| esc_GetEvents uid req st : es_call st (es_GetEvents uid req st).2
| esc_GetReadStates uid days req st r st' :
    es_GetReadStates uid days req st = Ret (r, st') → es_call st st'
| esc_SetRead uid seq st : es_call st (es_SetRead uid seq st).2
| esc_Stats uid days req st : es_call st (es_Stats uid days req st).2
| esc_Delete days st : es_call st (es_DeleteOutdatedEvents days st).2.

Inductive storage_step : world S → world S → Prop :=
| ss_consume i w : storage_step w (consume_step i w)
| ss_send now w : storage_step w (sendLoop_tick now w)
| ss_delete w : cleanEvents s = true → storage_step w (deleteLoop_tick w)
| ss_other st' w : es_call (w_store w) st' → storage_step w (with_store st' w).
End Loops.

(** * What the loop relies on *)

(** A store that numbers the events of each user upwards: a number reported by
    [Save] is bigger than every number reported before. *)
Class NumberedStore (S E : Type) `{IEventStore S E} := {
  ns_ok : S → Prop;
  ns_head : S → Z → Z;
  ns_head_nonneg : ∀ st uid, ns_ok st → (0 ≤ ns_head st uid)%Z;
  ns_Save : ∀ e st r st', ns_ok st → es_Save e st = (r, st') →
    ns_ok st' ∧ (∀ uid, ns_head st uid ≤ ns_head st' uid)%Z ∧
    (∀ m uid q, r = Ok m → m !! uid = Some q → ns_head st uid < q ≤ ns_head st' uid)%Z;
  ns_call : ∀ st st', ns_ok st → es_call st st' →
    ns_ok st' ∧ ∀ uid, (ns_head st uid ≤ ns_head st' uid)%Z
}.

(** [*eventStore] is such a store. *)
Section EventStoreNumbers.
Context `{MySQL} (midnight : Z → Z) (now : Z) (text : sql_error → string).
#[local] Existing Instance eventStore_IEventStore.

Lemma Save_heads e c m c' uid q :
  db_ok (tables c) → Save e c = (Ok m, c') → m !! uid = Some q →
  (head_seq (tables c) uid < q ≤ head_seq (tables c') uid)%Z.
Proof.
  intros Hok Hs Hm.
  destruct (Save_cases e c (Ok m) c' Hok Hs) as [(_ & Ht & _ & Heq)|[(row & _ & _ & _ & [= ->])|(_&?&?)]]; [| |done].
  2:{ by rewrite lookup_empty in Hm. }
  destruct (foldl_deliver_numbers e (add_event_row e (tables c)) (To e) uid) as [Hh _].
  fold (apply_event e (tables c)) in Hh. rewrite <-Ht in Hh.
  change (head_seq (add_event_row e (tables c)) uid) with (head_seq (tables c) uid) in Hh.
  subst m. rewrite new_heads_lookup in Hm. case_decide as Hin; [|done]. injection Hm as <-.
  split; [|lia]. rewrite Hh. unfold occurrences.
  assert (filter (λ x, x = uid) (To e) ≠ []); [|destruct (filter _ (To e)); [done|simpl; lia]].
  intros Hnil. assert (Hx : uid ∈ filter (λ x, x = uid) (To e)) by (by apply list_elem_of_filter).
  rewrite Hnil in Hx. by apply elem_of_nil in Hx.
Qed.

#[export] Program Instance eventStore_NumberedStore :
    NumberedStore conn sql_error (H := eventStore_IEventStore midnight now text) := {|
  ns_ok c := db_ok (tables c);
  ns_head c := head_seq (tables c)
|}.
Next Obligation. intros c uid Hok. by apply head_seq_bounds. Qed.
Next Obligation.
  intros e c r c' Hok Hs. simpl in Hok, Hs.
  assert (Hstep : store_step c c') by (replace c' with (Save e c).2 by (by rewrite Hs); constructor).
  split_and!.
  - by apply (store_step_db_ok c).
  - intros uid. by eapply (store_step_rows c c' uid 0
      {| ue_create_time := 0; ue_read_state := 0; ue_topic_offset := 0 |}).
  - intros m uid q -> Hm. by eapply Save_heads.
Qed.
Next Obligation.
  intros c c' Hok Hcall. simpl in Hok.
  assert (Hstep : store_step c c') by (destruct Hcall; simpl in *; econstructor; eassumption).
  split; [by apply (store_step_db_ok c)|]. intros uid. by eapply (store_step_rows c c' uid 0
      {| ue_create_time := 0; ue_read_state := 0; ue_topic_offset := 0 |}).
Qed.
End EventStoreNumbers.

(** * Invariants *)

(** The numbers pushed for one user, in order. *)
Definition pushed_to (uid : Z) (pushed : list pb_LeaderMsg) : list Z :=
  omap (λ msg, LeaderMsg_HeadSeq msg !! uid) pushed.

Lemma pushed_to_snoc uid pushed o :
  pushed_to uid (pushed ++ option_list o) =
  pushed_to uid pushed ++ option_list (default ∅ (LeaderMsg_HeadSeq <$> o) !! uid).
Proof.
  unfold pushed_to. rewrite omap_app. f_equal. destruct o as [msg|]; simpl; [|by rewrite lookup_empty].
  by destruct (LeaderMsg_HeadSeq msg !! uid).
Qed.

Lemma StronglySorted_snoc (l : list Z) q :
  StronglySorted Z.lt l → Forall (λ x, x < q)%Z l → StronglySorted Z.lt (l ++ [q]).
Proof.
  induction 1 as [|x l Hs IH Hx]; intros Hall; simpl; [by repeat constructor|].
  inversion_clear Hall as [|?? Hq Hl]. constructor; [by apply IH|].
  apply Forall_app. split; [done|]. by constructor.
Qed.

Section Invariants.
Context `{GoRange} `{Json} {S E : Type} `{NumberedStore S E}.
Context (canceled : E → bool) (s : storage).
Implicit Types (st : S) (c : cache) (pc : consume_pc) (pushed : list pb_LeaderMsg).

(** Numbers flow upwards: pushed < cached < about to be put <= head. *)
Record good st c pc pushed : Prop := {
  g_store : ns_ok st;
  g_idle : sending c = false;
  g_cache : ∀ uid v, cache_kv c !! uid = Some v →
    (0 < headSeq v ≤ ns_head st uid)%Z ∧ Forall (λ x, x < headSeq v)%Z (pushed_to uid pushed);
  g_pushed : ∀ uid, Forall (λ x, 0 < x ≤ ns_head st uid)%Z (pushed_to uid pushed);
  g_sorted : ∀ uid, StronglySorted Z.lt (pushed_to uid pushed);
  g_put : ∀ msg res uid q, pc = Putting msg res → res !! uid = Some q →
    (0 < q ≤ ns_head st uid)%Z ∧ Forall (λ x, x < q)%Z (pushed_to uid pushed) ∧
    (∀ v, cache_kv c !! uid = Some v → headSeq v < q)%Z;
  g_panic : ∀ why, pc = Panicked why → ∃ err, es_IsDupKeyError err = true ∧ why = es_Error err
}.

Lemma good_init st : ns_ok st → good st newCache Fetching [].
Proof. intros Hok. split; try done; try constructor. Qed.

Lemma good_pc st c pc pc' pushed :
  good st c pc pushed → (∀ msg res, pc' ≠ Putting msg res) →
  (∀ why, pc' = Panicked why → ∃ err, es_IsDupKeyError err = true ∧ why = es_Error err) →
  good st c pc' pushed.
Proof. intros [] Hp Hw. split; try done. intros msg res ?? ->. by destruct (Hp msg res). Qed.

Lemma good_store st st' c pc pushed :
  good st c pc pushed → ns_ok st' → (∀ uid, ns_head st uid ≤ ns_head st' uid)%Z →
  good st' c pc pushed.
Proof.
  intros Hg Hok Hmono. destruct Hg as [_ Hidle Hc Hp Hs Hput Hpanic]. split; try done.
  - intros uid v Hv. destruct (Hc uid v Hv). specialize (Hmono uid). split; [lia|done].
  - intros uid. eapply Forall_impl; [apply Hp|]. intros x ?. specialize (Hmono uid). simpl in *. lia.
  - intros msg res uid q Hpc Hq. destruct (Hput _ _ _ _ Hpc Hq) as (?&?&?).
    specialize (Hmono uid). split_and!; [lia|lia|done|done].
Qed.

Lemma good_save st st' c pc pushed e msg res :
  good st c pc pushed → es_Save e st = (Ok res, st') → good st' c (Putting msg res) pushed.
Proof.
  intros Hg Hs. destruct (ns_Save e st (Ok res) st' (g_store _ _ _ _ Hg) Hs) as (Hok & Hmono & Hnew).
  destruct (good_store st st' c pc pushed) as [_ ? Hc Hp ? _ _]; [done..|]. split; try done.
  intros msg' res' uid q [= <- <-] Hq. destruct (Hnew res uid q) as [Hlt Hle]; [done..|].
  pose proof (ns_head_nonneg st uid (g_store _ _ _ _ Hg)) as Hpos.
  destruct Hg as [_ _ Hc0 Hp0 _ _ _]. split_and!; [lia|lia| |].
  - eapply Forall_impl; [apply Hp0|]. simpl. lia.
  - intros v Hv. destruct (Hc0 uid v Hv). lia.
Qed.

Lemma good_put now st c pushed msg res :
  good st c (Putting msg res) pushed →
  ∃ c', cache_put now res c = Ret c' ∧ good st c' (Committing msg) pushed ∧
    (∀ uid q, res !! uid = Some q → headSeq <$> cache_kv c' !! uid = Some q) ∧
    (∀ uid, res !! uid = None → cache_kv c' !! uid = cache_kv c !! uid).
Proof.
  intros [Hok Hidle Hc Hp Hs Hput _].
  destruct (cache_put_spec now res c) as (kv & Hrun & Hkv).
  { intros uid seq v Hq Hv. destruct (Hput msg res uid seq) as (_&_&Hlt); [done..|]. by apply Hlt. }
  exists (with_kv kv c). split_and!; [done| | |].
  - split; try done. intros uid v. simpl. rewrite Hkv.
    destruct (res !! uid) as [q|] eqn:Hq; [|by apply Hc].
    destruct (Hput msg res uid q) as (Hle&Hlt&_); [done..|].
    destruct (cache_kv c !! uid); intros [= <-]; simpl; done.
  - intros uid q Hq. simpl. rewrite Hkv, Hq. by destruct (cache_kv c !! uid).
  - intros uid Hq. simpl. by rewrite Hkv, Hq.
Qed.

Lemma good_check now st c pc pushed :
  good st c pc pushed →
  let '(c', o) := cache_check now c in good st c' pc (pushed ++ option_list o).
Proof.
  intros [Hok Hidle Hc Hp Hs Hput Hpanic].
  pose proof (cache_check_spec now c Hidle) as Hspec.
  destruct (cache_check now c) as [c' o]. destruct Hspec as [Hidle' Hspec].
  assert (Hkeep : ∀ uid v, cache_kv c' !! uid = Some v →
    cache_kv c !! uid = Some v ∧ default ∅ (LeaderMsg_HeadSeq <$> o) !! uid = None).
  { intros uid v Hv. specialize (Hspec uid). destruct (cache_kv c !! uid); [destruct (due _ _)|]; naive_solver. }
  assert (Hsent : ∀ uid q, default ∅ (LeaderMsg_HeadSeq <$> o) !! uid = Some q →
    ∃ v, cache_kv c !! uid = Some v ∧ q = headSeq v).
  { intros uid q Hq. specialize (Hspec uid). destruct (cache_kv c !! uid); [destruct (due _ _)|]; naive_solver. }
  split; try done.
  - intros uid v Hv. apply Hkeep in Hv as [Hv Hn]. rewrite pushed_to_snoc, Hn, app_nil_r. by apply Hc.
  - intros uid. rewrite pushed_to_snoc. apply Forall_app. split; [apply Hp|].
    destruct (default ∅ (LeaderMsg_HeadSeq <$> o) !! uid) as [q|] eqn:Hq; simpl; [apply Forall_singleton|apply Forall_nil_2].
    apply Hsent in Hq as (v & Hv & ->). by apply Hc.
  - intros uid. rewrite pushed_to_snoc.
    destruct (default ∅ (LeaderMsg_HeadSeq <$> o) !! uid) as [q|] eqn:Hq; simpl; [|by rewrite app_nil_r].
    apply Hsent in Hq as (v & Hv & ->). apply StronglySorted_snoc; [done|]. by apply Hc.
  - intros msg res uid q Hpc Hq. destruct (Hput msg res uid q Hpc Hq) as (Hle&Hlt&Hcl). split; [done|]. split.
    + rewrite pushed_to_snoc. apply Forall_app. split; [done|].
      destruct (default ∅ (LeaderMsg_HeadSeq <$> o) !! uid) as [q'|] eqn:Hq'; simpl; [apply Forall_singleton|apply Forall_nil_2].
      apply Hsent in Hq' as (v & Hv & ->). by apply Hcl.
    + intros v Hv. apply Hcl. by apply Hkeep in Hv as [? _].
Qed.

(** The same for the whole process. *)
Definition storage_inv (w : world S) : Prop := good (w_store w) (w_cache w) (w_pc w) (w_pushed w).

Lemma retry_inv i w :
  storage_inv w → storage_inv (retry i w).
Proof. intros Hg. unfold retry. destruct (in_done i); [|done]. by eapply good_pc. Qed.

Lemma consume_step_inv i w : storage_inv w → storage_inv (consume_step canceled s i w).
Proof.
  intros Hg. unfold consume_step. destruct (w_pc w) as [|msg e|msg res|msg| |why] eqn:Hpc; [| | | |done|done].
  - unfold consume_fetch. destruct (in_fetch i) as [msg|[|code]].
    + destruct (decodeKafkaMsg s (in_now i) msg); [by eapply good_pc|done].
    + by eapply good_pc.
    + by apply retry_inv.
  - unfold consume_save. destruct (es_Save e (w_store w)) as [[res|err] st'] eqn:Hs.
    + pose proof (good_save _ _ _ _ _ _ msg _ Hg Hs) as Hg'.
      case_bool_decide; [done|]. by eapply good_pc.
    + destruct (ns_Save e _ _ _ (g_store _ _ _ _ Hg) Hs) as (Hok & Hmono & _).
      assert (Hg' : storage_inv (with_store st' w)) by (by eapply good_store).
      destruct (canceled err); [by eapply good_pc|].
      destruct (es_IsDupKeyError err) eqn:Hd; [|by apply retry_inv].
      eapply good_pc; [exact Hg'|done|]. intros why [= <-]. eauto.
  - unfold consume_put. unfold storage_inv in Hg. rewrite Hpc in Hg.
    destruct (good_put (in_put i) _ _ _ _ _ Hg) as (c' & -> & Hg' & _). done.
  - unfold consume_commit. destruct (in_commit i) as [[|code]|].
    + by eapply good_pc.
    + by apply retry_inv.
    + by eapply good_pc.
Qed.

Lemma storage_step_inv w w' : storage_inv w → storage_step canceled s w w' → storage_inv w'.
Proof.
  intros Hg. destruct 1 as [i w|now w|w _|st' w Hcall].
  - by apply consume_step_inv.
  - unfold sendLoop_tick. pose proof (good_check now _ _ _ _ Hg) as Hc.
    by destruct (cache_check now (w_cache w)).
  - destruct (ns_call (w_store w) _ (g_store _ _ _ _ Hg) (esc_Delete (delEventsTtlDays s) _)) as [Hok Hmono].
    by eapply good_store.
  - destruct (ns_call _ _ (g_store _ _ _ _ Hg) Hcall) as [Hok Hmono]. by eapply good_store.
Qed.

Lemma storage_reach_inv st w :
  ns_ok st → rtc (storage_step canceled s) (world_init st) w → storage_inv w.
Proof.
  intros Hok Hr.
  assert (Hgen : ∀ w1 w2, rtc (storage_step canceled s) w1 w2 → storage_inv w1 → storage_inv w2).
  { induction 1; eauto using storage_step_inv. }
  eapply Hgen; [exact Hr|]. by apply good_init.
Qed.

(** ** What was saved is known *)

(** User [uid]'s number [q], or a bigger one, was pushed, is in the cache, or is
    about to be put there. *)
Definition announced (w : world S) (uid q : Z) : Prop :=
  ∃ q', (q ≤ q')%Z ∧
    (q' ∈ pushed_to uid (w_pushed w) ∨ headSeq <$> cache_kv (w_cache w) !! uid = Some q' ∨
     ∃ msg res, w_pc w = Putting msg res ∧ res !! uid = Some q').

Definition all_announced (w : world S) : Prop :=
  ∀ e res uid q, Saved e res ∈ w_trace w → res !! uid = Some q → announced w uid q.

Lemma announced_weaken w w' uid q :
  announced w uid q →
  (∀ q', q' ∈ pushed_to uid (w_pushed w) → announced w' uid q') →
  (∀ q', headSeq <$> cache_kv (w_cache w) !! uid = Some q' → announced w' uid q') →
  (∀ msg res q', w_pc w = Putting msg res → res !! uid = Some q' → announced w' uid q') →
  announced w' uid q.
Proof.
  intros (q' & Hle & Hq') Hp Hc Hput.
  assert (announced w' uid q') as (q'' & ? & ?); [|exists q''; split; [lia|done]].
  destruct Hq' as [Hq'|[Hq'|(msg & res & Hpc & Hq')]]; eauto.
Qed.

(** A step that keeps the cache, the pushes and does not leave [Putting]. *)
Lemma announced_frame w w' uid q :
  announced w uid q → w_cache w' = w_cache w → w_pushed w' = w_pushed w →
  (w_pc w' = w_pc w ∨ ∀ msg res, w_pc w ≠ Putting msg res) → announced w' uid q.
Proof.
  intros (q' & Hle & Hq') Hc Hp Hpc. exists q'. split; [done|]. rewrite Hc, Hp.
  destruct Hq' as [?|[?|(msg & res & Hput & ?)]]; [auto..|].
  destruct Hpc as [->|Hno]; [|by destruct (Hno msg res)]. naive_solver.
Qed.

Lemma all_announced_frame w w' :
  all_announced w → w_trace w' = w_trace w → w_cache w' = w_cache w → w_pushed w' = w_pushed w →
  (w_pc w' = w_pc w ∨ ∀ msg res, w_pc w ≠ Putting msg res) → all_announced w'.
Proof.
  intros Ha Ht Hc Hp Hpc e res uid q. rewrite Ht. intros Hin Hq.
  eapply announced_frame; [by eapply Ha|done..].
Qed.

Lemma retry_frame i (w : world S) :
  w_trace (retry i w) = w_trace w ∧ w_cache (retry i w) = w_cache w ∧
  w_pushed (retry i w) = w_pushed w ∧ w_store (retry i w) = w_store w ∧
  (w_pc (retry i w) = w_pc w ∨ w_pc (retry i w) = Exited).
Proof. unfold retry. destruct (in_done i); naive_solver. Qed.

Lemma consume_step_announced i w :
  storage_inv w → all_announced w → all_announced (consume_step canceled s i w).
Proof.
  intros Hg Ha. unfold consume_step.
  destruct (w_pc w) as [|msg e|msg res|msg| |why] eqn:Hpc; [| | | |done|done].
  - unfold consume_fetch. destruct (retry_frame i w) as (?&?&?&_&?).
    destruct (in_fetch i) as [msg|[|code]]; [destruct (decodeKafkaMsg s (in_now i) msg)|..];
      eapply (all_announced_frame w); try done; right; congruence.
  - unfold consume_save. destruct (es_Save e (w_store w)) as [[res|err] st'] eqn:Hs.
    + intros e0 res0 uid q. simpl. intros [Hin|[= -> ->]%list_elem_of_singleton]%elem_of_app Hq.
      * eapply (announced_frame w); [by eapply Ha|done..|]. right. congruence.
      * exists q. split; [done|]. right; right. simpl.
        rewrite bool_decide_eq_true_2; [naive_solver|].
        destruct (decide (size res = 0)) as [Hz|]; [|lia].
        apply map_size_empty_inv in Hz as ->. by rewrite lookup_empty in Hq.
    + destruct (retry_frame i (with_store st' w)) as (?&?&?&_&?).
      destruct (canceled err), (es_IsDupKeyError err); eapply (all_announced_frame w); try done; right; congruence.
  - unfold consume_put. unfold storage_inv in Hg. rewrite Hpc in Hg.
    destruct (good_put (in_put i) _ _ _ _ _ Hg) as (c' & -> & _ & Hnew & Hold).
    intros e0 res0 uid q Hin Hq. simpl in Hin. eapply (announced_weaken w); [by eapply Ha| | |].
    + intros q' Hq'. exists q'. split; [done|]. by left.
    + intros q' Hq'. destruct (res !! uid) as [q2|] eqn:Hr.
      * exists q2. split; [|right; left; simpl; by apply Hnew].
        apply fmap_Some in Hq' as (v & Hv & ->).
        destruct (g_put _ _ _ _ Hg msg res uid q2) as (_&_&Hlt); [done..|].
        specialize (Hlt v Hv). lia.
      * exists q'. split; [done|]. right; left. simpl. by rewrite Hold.
    + intros msg' res' q'. rewrite Hpc. intros [= <- <-] Hq'. exists q'. split; [done|].
      right; left. simpl. by apply Hnew.
  - unfold consume_commit. destruct (retry_frame i w) as (?&?&?&_&?).
    destruct (in_commit i) as [[|code]|].
    1,2: eapply (all_announced_frame w); try done; right; congruence.
    intros e0 res0 uid q. simpl. intros [Hin|?%list_elem_of_singleton]%elem_of_app Hq; [|done].
    eapply (announced_frame w); [by eapply Ha|done..|]. right. congruence.
Qed.

Lemma send_announced now w : storage_inv w → all_announced w → all_announced (sendLoop_tick now w).
Proof.
  intros Hg Ha. unfold sendLoop_tick.
  pose proof (cache_check_spec now (w_cache w) (g_idle _ _ _ _ Hg)) as Hspec.
  destruct (cache_check now (w_cache w)) as [c' o]. destruct Hspec as [_ Hspec].
  intros e res uid q Hin Hq. simpl in Hin. specialize (Hspec uid).
  eapply (announced_weaken w); [by eapply Ha| | |].
  - intros q' Hq'. exists q'. split; [done|]. left. simpl. rewrite pushed_to_snoc. set_solver.
  - intros q' (v & Hv & ->)%fmap_Some. rewrite Hv in Hspec. exists (headSeq v). split; [done|]. simpl.
    destruct (due (now uid) v); destruct Hspec as [Hc Hs].
    + left. rewrite pushed_to_snoc, Hs. set_solver.
    + right; left. by rewrite Hc.
  - intros msg res' q' Hpc Hq'. exists q'. split; [done|]. right; right. eauto.
Qed.

Lemma storage_reach_announced st w :
  ns_ok st → rtc (storage_step canceled s) (world_init st) w → all_announced w.
Proof.
  intros Hok Hr.
  assert (Hgen : ∀ w1 w2, rtc (storage_step canceled s) w1 w2 →
    storage_inv w1 → all_announced w1 → all_announced w2).
  { induction 1 as [|w1 w2 w3 Hs _ IH]; [done|]. intros Hg Ha. apply IH; [by eapply storage_step_inv|].
    destruct Hs as [i w1|now w1|w1 _|st' w1 Hcall].
    - by apply consume_step_announced.
    - by apply send_announced.
    - eapply (all_announced_frame w1); try done. by left.
    - eapply (all_announced_frame w1); try done. by left. }
  eapply Hgen; [exact Hr|by apply good_init|]. intros e res uid q Hin. by apply elem_of_nil in Hin.
Qed.
End Invariants.

(** * The order of saving and committing *)

Section Order.
Context `{GoRange} `{Json} {S E : Type} `{IEventStore S E}.
Context (canceled : E → bool) (s : storage).

(** [e] is the event decoded from [msg] at some time. *)
Definition decoded (msg : kafka_Message) (e : store_Event) : Prop :=
  ∃ now value, decodeKafkaMsg s now msg = Some value ∧ e = event_of_msg msg value.

Definition just_saved (msg : kafka_Message) (trace : list action) : Prop :=
  ∃ t e res, trace = t ++ [Saved e res] ∧ decoded msg e.

Record ordered (w : world S) : Prop := {
  o_pc : match w_pc w with
         | Saving msg e => decoded msg e
         | Putting msg _ | Committing msg => just_saved msg (w_trace w)
         | _ => True
         end;
  o_trace : ∀ t1 msg t2, w_trace w = t1 ++ Committed msg :: t2 → just_saved msg t1
}.

Lemma ordered_pc w w' :
  ordered w → w_trace w' = w_trace w →
  (w_pc w' = w_pc w ∨ w_pc w' = Exited ∨ (∃ why, w_pc w' = Panicked why) ∨
   (∃ msg e, w_pc w' = Saving msg e ∧ decoded msg e) ∨
   (∃ msg res, w_pc w = Putting msg res ∧ w_pc w' = Committing msg)) → ordered w'.
Proof.
  intros [Hpc Ht] Heq Hcase. split; [|by rewrite Heq]. rewrite Heq.
  destruct Hcase as [->|[->|[[why ->]|[(msg&e&->&?)|(msg&res&Hp&->)]]]]; [done..|]. by rewrite Hp in Hpc.
Qed.

Lemma snoc_cut {A} (t : list A) a t1 b t2 :
  t ++ [a] = t1 ++ b :: t2 → (t = t1 ∧ a = b ∧ t2 = []) ∨ ∃ t2', t = t1 ++ b :: t2'.
Proof.
  destruct t2 as [|c t2 _] using rev_ind.
  - intros Heq. left. apply app_inj_2 in Heq as [-> [= ->]]; done.
  - intros Heq. right. exists t2. rewrite app_comm_cons, app_assoc in Heq.
    by apply app_inj_2 in Heq as [-> _].
Qed.

Lemma consume_step_ordered i w : ordered w → ordered (consume_step canceled s i w).
Proof.
  intros Ho. unfold consume_step.
  destruct (w_pc w) as [|msg e|msg res|msg| |why] eqn:Hpc; [| | | |done|done].
  - unfold consume_fetch. destruct (retry_frame i w) as (?&_&_&_&?).
    destruct (in_fetch i) as [msg|[|code]]; [destruct (decodeKafkaMsg s (in_now i) msg) eqn:Hd|..];
      eapply (ordered_pc w); try done; simpl; unfold decoded; naive_solver.
  - unfold consume_save. destruct (es_Save e (w_store w)) as [[res|err] st'].
    + destruct Ho as [Hd Ht]. rewrite Hpc in Hd. split.
      * simpl. case_bool_decide; by exists (w_trace w), e, res.
      * simpl. intros t1 m t2 [(_&[=]&_)|[t2' Heq]]%snoc_cut. by eapply Ht.
    + destruct (retry_frame i (with_store st' w)) as (?&_&_&_&?).
      destruct (canceled err), (es_IsDupKeyError err); eapply (ordered_pc w); try done; simpl; naive_solver.
  - unfold consume_put. destruct (cache_put _ _ _); eapply (ordered_pc w); try done; simpl; eauto 10.
  - unfold consume_commit. destruct (retry_frame i w) as (?&_&_&_&?).
    destruct (in_commit i) as [[|code]|].
    1,2: eapply (ordered_pc w); try done; simpl; naive_solver.
    destruct Ho as [Hd Ht]. rewrite Hpc in Hd. split; [done|]. simpl.
    intros t1 m t2 [(<-&[= <-]&_)|[t2' Heq]]%snoc_cut; [done|]. by eapply Ht.
Qed.

Lemma storage_reach_ordered st w :
  rtc (storage_step canceled s) (world_init st) w → ordered w.
Proof.
  assert (Hgen : ∀ w1 w2, rtc (storage_step canceled s) w1 w2 → ordered w1 → ordered w2).
  { induction 1 as [|w1 w2 w3 Hs _ IH]; [done|]. intros Ho. apply IH.
    destruct Hs as [i w1|now w1|w1 _|st' w1 _]; [by apply consume_step_ordered|..];
      unfold sendLoop_tick; try destruct (cache_check _ _);
      (eapply (ordered_pc w1); [done|done|by left]). }
  intros Hr. eapply Hgen; [exact Hr|]. split; [done|]. intros [|? t1] m t2 Heq; discriminate Heq.
Qed.
End Order.

(** * Messages of one Kafka topic

    Kafka delivers a message again until it is committed, and always the same
    message at an offset.  Under that contract the rows of [events] are copies
    of messages, and a second [Save] recognises its event. *)

Section Topic.
Context `{GoRange} `{Json} `{MySQL} (midnight : Z → Z) (now : Z) (text : sql_error → string).
Context (s : storage) (topic : gmap Z kafka_Message).
Definition is_canceled (e : sql_error) : bool := bool_decide (e = ErrCanceled).

Definition from_topic (i : input) : Prop :=
  ∀ msg, in_fetch i = Ok msg → topic !! km_Offset msg = Some msg.

#[local] Abbreviation es := (eventStore_IEventStore midnight now text).
#[local] Abbreviation inv := (storage_inv (H1 := es) (H2 := eventStore_NumberedStore midnight now text)).

Inductive topic_step : world conn → world conn → Prop :=
| ts_consume i w : from_topic i → topic_step w (consume_step (H1 := es) is_canceled s i w)
| ts_send t w : topic_step w (sendLoop_tick t w)
| ts_delete w : cleanEvents s = true → topic_step w (deleteLoop_tick (H1 := es) s w)
| ts_other st' w : es_call (H1 := es) (w_store w) st' → topic_step w (with_store st' w).

Lemma topic_step_step w w' : topic_step w w' → storage_step (H1 := es) is_canceled s w w'.
Proof. destruct 1; by constructor. Qed.

Definition row_of (msg : kafka_Message) : event_row :=
  {| er_create_time := datetime3 (km_Time msg); er_payload := km_Value msg |}.

(** Every stored event is a copy of the message at its offset. *)
Definition mirrors (c : conn) : Prop :=
  ∀ off row, events (tables c) !! off = Some row →
    ∃ msg, topic !! off = Some msg ∧ row = row_of msg.

Definition topic_inv (w : world conn) : Prop :=
  mirrors (w_store w) ∧
  match w_pc w with
  | Saving msg e => topic !! km_Offset msg = Some msg ∧ ∃ value, e = event_of_msg msg value
  | Panicked _ => False
  | _ => True
  end.

Lemma mirrors_call c c' : db_ok (tables c) → mirrors c → es_call (H1 := es) c c' → mirrors c'.
Proof.
  intros Hok Hm Hcall off row Hrow. apply Hm.
  assert (Hsub : tables c' = tables c ∨ (∃ uid seq, tables c' = (setReadSQL uid seq (tables c)).2) ∨
    (∃ cutoff, tables c' = (cleanEventsSQL cutoff (tables c)).2)).
  { destruct Hcall as [uid req c|uid days req c r c' Hr|uid seq c|uid days req c|days c]; simpl in *.
    - left. destruct (GetEvents uid req c) eqn:E. by apply GetEvents_tables in E.
    - left. by eapply GetReadStates_tables.
    - unfold SetRead. rewrite tx_bind_ret_snd.
      destruct (withTx_single (setReadSQL uid seq) (λ n, bool_decide (n = 1)%Z) c);
        [by left|right; left; eauto].
    - left. destruct (Stats midnight now uid days req c) eqn:E. by apply Stats_tables in E.
    - destruct (withTx_single (cleanEventsSQL (unix (GetDayBefore midnight now days))) wrap32 c) as [Hd|Hd];
        [left; exact Hd|right; right; eexists; exact Hd]. }
  destruct Hsub as [Heq|[(uid & seq & Heq)|(cut & Heq)]]; rewrite Heq in Hrow; [done| |].
  - unfold setReadSQL in Hrow. destruct (user_events _ !! _); [case_bool_decide|]; done.
  - simpl in Hrow. by apply map_lookup_filter_Some in Hrow as [? _].
Qed.

Lemma mirrors_save e msg value c r c' :
  db_ok (tables c) → mirrors c → topic !! km_Offset msg = Some msg → e = event_of_msg msg value →
  Save e c = (r, c') → mirrors c'.
Proof.
  intros Hok Hm Ht -> Hs off row. apply Save_cases in Hs; [|done].
  destruct Hs as [(_ & -> & _)|[(?&_&_&->&_)|(->&_)]]; [|apply Hm..].
  unfold apply_event. rewrite events_foldl_deliver. simpl.
  intros [[<- <-]|[_ Hrow]]%lookup_insert_Some; [eauto|by apply Hm].
Qed.

Hypothesis no_fault : ∀ i, fault i = None.
Hypothesis commit_not_dup : ∀ i e b, commit_fault i = Some (e, b) → IsDupKeyError e = false.
Hypothesis datetime3_ms : ∀ t, (t mod 1000000 = 0)%Z → datetime3 t = t.
Hypothesis topic_ms : ∀ off msg, topic !! off = Some msg → (km_Time msg mod 1000000 = 0)%Z.

Lemma Save_of_topic_not_dup e msg value c err c' :
  db_ok (tables c) → mirrors c → topic !! km_Offset msg = Some msg → e = event_of_msg msg value →
  Save e c = (Err err, c') → IsDupKeyError err = false.
Proof using no_fault commit_not_dup datetime3_ms topic_ms.
  intros Hok Hm Ht -> Hs. destruct (IsDupKeyError err) eqn:Hd; [|done].
  apply Save_dup in Hs as (row & Hrow & Hcase); [|intros; by rewrite no_fault in *|done..].
  exfalso. destruct Hcase as [Hsame|[i [? Hf]]]; [|by rewrite no_fault in Hf].
  apply Hm in Hrow as (msg' & Ht' & ->). simpl in Ht'. simplify_eq.
  unfold same_event, row_of in Hsame. simpl in Hsame.
  rewrite datetime3_ms in Hsame by (by eapply topic_ms).
  by rewrite !bool_decide_eq_true_2 in Hsame.
Qed.

Lemma retry_topic i w : topic_inv w → topic_inv (retry i w).
Proof.
  intros [Hm Hpc]. destruct (retry_frame i w) as (_&_&_&Hst&Hc). unfold topic_inv. rewrite Hst.
  destruct Hc as [-> | ->]; done.
Qed.

Lemma topic_step_inv w w' :
  inv w → topic_inv w → topic_step w w' → topic_inv w'.
Proof using no_fault commit_not_dup datetime3_ms topic_ms.
  intros Hg Hti. pose proof (g_store _ _ _ _ Hg) as Hok. simpl in Hok. destruct Hti as [Hm Hpc].
  destruct 1 as [i w Hi|t w|w Hcl|st' w Hcall].
  2:{ unfold sendLoop_tick. by destruct (cache_check t (w_cache w)). }
  2:{ split; [|done]. by eapply mirrors_call, esc_Delete. }
  2:{ split; [|done]. by eapply mirrors_call. }
  unfold consume_step. destruct (w_pc w) as [|msg e|msg res|msg| |why] eqn:Hw; [| | | |by split; rewrite ?Hw..].
  - unfold consume_fetch. destruct (in_fetch i) as [msg|[|code]] eqn:Hf.
    + apply Hi in Hf. destruct (decodeKafkaMsg s (in_now i) msg) as [v|]; split; simpl; rewrite ?Hw; eauto.
    + done.
    + apply retry_topic. split; [done|]. by rewrite Hw.
  - destruct Hpc as [Ht [value He]]. unfold consume_save. simpl.
    destruct (Save e (w_store w)) as [[res|err] c'] eqn:Hs.
    + split; [by eapply mirrors_save|]. simpl. by case_bool_decide.
    + assert (mirrors c') by (by eapply mirrors_save).
      destruct (is_canceled err); [done|].
      erewrite Save_of_topic_not_dup by done. apply retry_topic. split; [done|]. simpl. rewrite Hw. eauto.
  - unfold storage_inv in Hg. rewrite Hw in Hg. unfold consume_put.
    destruct (good_put (in_put i) _ _ _ _ _ Hg) as (c' & -> & _). done.
  - unfold consume_commit. destruct (in_commit i) as [[|code]|]; [done| |done].
    apply retry_topic. split; [done|]. by rewrite Hw.
Qed.

Lemma topic_reach_inv c w :
  db_ok (tables c) → mirrors c → rtc topic_step (world_init c) w → topic_inv w.
Proof using no_fault commit_not_dup datetime3_ms topic_ms.
  intros Hok Hm Hr.
  assert (Hgen : ∀ w1 w2, rtc topic_step w1 w2 →
    inv w1 → topic_inv w1 → topic_inv w2).
  { induction 1 as [|w1 w2 w3 Hs _ IH]; [done|]. intros Hg Ht. apply IH.
    - eapply storage_step_inv; [exact Hg|by apply topic_step_step].
    - by eapply topic_step_inv. }
  eapply Hgen; [exact Hr|by apply good_init|]. by split.
Qed.
End Topic.

(** * Pauses between attempts *)

Definition backoff_schedule : list Z :=
  (λ ms, ms * Millisecond)%Z <$>
  [1000; 1500; 2250; 3375; 5062; 7593; 11389; 17083; 25624; 38436; 57654]%Z.

Lemma backoff_schedule_closed : Forall (λ d, backoff d ∈ backoff_schedule) (0%Z :: backoff_schedule).
Proof. apply (bool_decide_unpack _). vm_compute. exact I. Qed.

Lemma backoff_schedule_bounds :
  Forall (λ d, BackoffMinInterval ≤ d < BackoffMaxInterval ∧ d mod Millisecond = 0)%Z backoff_schedule.
Proof. apply (bool_decide_unpack _). vm_compute. exact I. Qed.

Lemma backoff_next d : d ∈ 0%Z :: backoff_schedule → backoff d ∈ backoff_schedule.
Proof. pose proof backoff_schedule_closed as Hall. rewrite Forall_forall in Hall. apply Hall. Qed.

Section Sleep.
Context `{GoRange} `{Json} {S E : Type} `{IEventStore S E}.
Context (canceled : E → bool) (s : storage).

Lemma retry_sleep i (w : world S) : w_sleep (retry i w) = backoff (w_sleep w).
Proof. unfold retry. by destruct (in_done i). Qed.

Lemma consume_step_sleep i (w : world S) :
  w_sleep w ∈ 0%Z :: backoff_schedule → w_sleep (consume_step canceled s i w) ∈ 0%Z :: backoff_schedule.
Proof.
  intros Hin. assert (Hz : 0%Z ∈ 0%Z :: backoff_schedule) by left.
  assert (Hr : ∀ w' : world S, w_sleep w' = w_sleep w → w_sleep (retry i w') ∈ 0%Z :: backoff_schedule).
  { intros w' Hw. right. rewrite retry_sleep, Hw. by apply backoff_next. }
  unfold consume_step. destruct (w_pc w) as [|msg e|msg res|msg| |why]; [| | | |done|done].
  - unfold consume_fetch. destruct (in_fetch i) as [msg|[|code]]; [by destruct (decodeKafkaMsg _ _ _)|done|auto].
  - unfold consume_save. destruct (es_Save e (w_store w)) as [[res|err] st']; [done|].
    destruct (canceled err); [done|]. destruct (es_IsDupKeyError err); [done|]. by apply Hr.
  - unfold consume_put. by destruct (cache_put _ _ _).
  - unfold consume_commit. destruct (in_commit i) as [[|code]|]; [done|auto|done].
Qed.

Lemma storage_reach_sleep st w :
  rtc (storage_step canceled s) (world_init st) w → w_sleep w ∈ 0%Z :: backoff_schedule.
Proof.
  assert (Hgen : ∀ w1 w2, rtc (storage_step canceled s) w1 w2 →
    w_sleep w1 ∈ 0%Z :: backoff_schedule → w_sleep w2 ∈ 0%Z :: backoff_schedule).
  { induction 1 as [|w1 w2 w3 Hs _ IH]; [done|]. intros Hin. apply IH.
    destruct Hs as [i w1|t w1|w1 _|st' w1 _]; [by apply consume_step_sleep| |done..].
    unfold sendLoop_tick. by destruct (cache_check _ _). }
  intros Hr. eapply Hgen; [exact Hr|]. by left.
Qed.
End Sleep.

Lemma ttl_duration_id days :
  (0 ≤ days ≤ 106751)%Z → ttl_duration days = (days * 24 * Hour)%Z.
Proof. intros Hd. unfold ttl_duration, Hour. rewrite (wrap64_id (days * 24)), wrap64_id; unfold in_int64; lia. Qed.

(** * Properties *)

Section Properties.
Context `{GoRange} `{Json} {S E : Type} `{NumberedStore S E}.
Context (canceled : E → bool) (s : storage).

(** C7: heads are pushed in order. In every run of the process, with any
    interleaving of consuming, sending, deleting and calls of the handlers, the
    numbers pushed for a user are strictly increasing and never exceed the
    user's head in the store. *)
Theorem heads_pushed_in_order st w uid :
  ns_ok st → rtc (storage_step canceled s) (world_init st) w →
  StronglySorted Z.lt (pushed_to uid (w_pushed w)) ∧
  Forall (λ q, q ≤ ns_head (w_store w) uid)%Z (pushed_to uid (w_pushed w)).
Proof.
  intros Hok Hr. pose proof (storage_reach_inv canceled s st w Hok Hr) as Hg.
  split; [apply (g_sorted _ _ _ _ Hg)|]. eapply Forall_impl; [apply (g_pushed _ _ _ _ Hg)|]. simpl. lia.
Qed.


(** The consumer panics only on a duplicate-key error of [Save]: the check
    inside [put] that numbers grow can never fail. *)
Theorem put_never_panics st w why :
  ns_ok st → rtc (storage_step canceled s) (world_init st) w → w_pc w = Panicked why →
  ∃ err, es_IsDupKeyError err = true ∧ why = es_Error err.
Proof. intros Hok Hr. apply (g_panic _ _ _ _ (storage_reach_inv canceled s st w Hok Hr)). Qed.

(** C9: a message is committed to Kafka only after its event was saved: the
    action before each commit is a successful [Save] of the event decoded from
    that very message. *)
Theorem commit_after_save st w t1 msg t2 :
  rtc (storage_step canceled s) (world_init st) w → w_trace w = t1 ++ Committed msg :: t2 →
  ∃ t now value res, decodeKafkaMsg s now msg = Some value ∧
    t1 = t ++ [Saved (event_of_msg msg value) res].
Proof.
  intros Hr Ht. destruct (o_trace _ _ (storage_reach_ordered canceled s st w Hr) _ _ _ Ht)
    as (t & e & res & -> & now & value & Hd & ->).
  by exists t, now, value, res.
Qed.

(** The pauses of the consumer. [sleep] is always zero or one of eleven
    values, so the pause before another attempt lies between one second and one
    minute, in whole milliseconds. *)
Theorem sleep_bounds st w :
  rtc (storage_step canceled s) (world_init st) w →
  (w_sleep w = 0 ∨ BackoffMinInterval ≤ w_sleep w < BackoffMaxInterval)%Z ∧
  (BackoffMinInterval ≤ backoff (w_sleep w) < BackoffMaxInterval)%Z ∧
  (backoff (w_sleep w) mod Millisecond = 0)%Z.
Proof.
  intros Hr%storage_reach_sleep. pose proof backoff_schedule_bounds as Hb. rewrite Forall_forall in Hb.
  destruct (Hb _ (backoff_next _ Hr)) as [? ?]. split; [|done].
  apply elem_of_cons in Hr as [->|Hr]; [by left|]. right. by apply (Hb _ Hr).
Qed.
End Properties.

(** The age, in nanoseconds, up to which messages are accepted: without cleaning
    the product with [MaxInt32] days wraps around to about 166 years. *)
Definition max_age (clean : bool) (days : Z) : Z :=
  if clean then (days * 24 * Hour)%Z else 5235207429329846272%Z.

Lemma shouldDiscard_newStorage clean days maxBytes now msg :
  (0 < days ≤ 106751)%Z →
  shouldDiscard (newStorage clean days maxBytes) now msg =
  bool_decide (max_age clean days < now - km_Time msg)%Z.
Proof.
  intros Hd. unfold shouldDiscard, max_age. simpl.
  destruct clean.
  - rewrite ttl_duration_id by lia. rewrite bool_decide_eq_true_2 by lia. simpl.
    apply bool_decide_ext. unfold Since, Hour. lia.
  - change (ttl_duration MaxInt32) with 5235207429329846272%Z. simpl.
    apply bool_decide_ext. unfold Since. lia.
Qed.

Lemma decodeKafkaMsg_newStorage `{Json} clean days maxBytes now msg v :
  (0 < days ≤ 106751)%Z →
  decodeKafkaMsg (newStorage clean days maxBytes) now msg = Some v ↔
  (Z.of_nat (String.length (km_Value msg)) ≤ maxBytes)%Z ∧
  json_Unmarshal (km_Value msg) = Ok v ∧
  (now - km_Time msg ≤ max_age clean days)%Z.
Proof.
  intros Hd. unfold decodeKafkaMsg. rewrite shouldDiscard_newStorage by done. simpl.
  case_bool_decide; [naive_solver lia|]. destruct (json_Unmarshal (km_Value msg)); [|naive_solver].
  unfold max_age. case_bool_decide; naive_solver lia.
Qed.

(** Which messages are accepted. For a TTL of at most 106751 days a message
    is decoded to [v] exactly when its value is not too long, is the JSON text
    of [v], and the message is not older than the TTL; without cleaning,
    messages of the last 165 years are never discarded for their age. *)
Theorem decodeKafkaMsg_correct `{Json} clean days maxBytes now msg v :
  (0 < days ≤ 106751)%Z →
  decodeKafkaMsg (newStorage clean days maxBytes) now msg = Some v ↔
  (Z.of_nat (String.length (km_Value msg)) ≤ maxBytes)%Z ∧
  json_Unmarshal (km_Value msg) = Ok v ∧
  (now - km_Time msg ≤ max_age clean days)%Z.
Proof. apply decodeKafkaMsg_newStorage. Qed.

(** A client message written to Kafka by [saveE2eMsg] comes back unchanged:
    when the call succeeds, exactly one value was written, and any message of
    the topic with that value and within the age limit is accepted by the
    consumer with the same size limit and decoded to the message that was sent. *)
Lemma saveE2eMsg_roundtrip `{Json} {K} `{IKafkaWriter K} k k' msg clean days limit :
  (∀ value, json_Marshal msg = Ok value → json_Unmarshal value = Ok msg) →
  (0 < days ≤ 106751)%Z →
  saveE2eMsg (Some k) msg limit = Ret (None, k') →
  ∃ value k2, WriteMessages value k = (None, k2) ∧ k' = Some k2 ∧
    ∀ now km, km_Value km = value →
      (now - km_Time km ≤ max_age clean days)%Z →
      decodeKafkaMsg (newStorage clean days limit) now km = Some msg.
Proof.
  intros Hjson Hd Hsave. unfold saveE2eMsg in Hsave.
  destruct (json_Marshal msg) as [value|] eqn:Hm; [|done]. case_bool_decide as Hl; [done|].
  destruct (WriteMessages value k) as [[err|] k2] eqn:Hw; [done|]. injection Hsave as <-.
  exists value, k2. split_and!; [done..|]. intros now km Hkm Hage.
  unfold decodeKafkaMsg. rewrite shouldDiscard_newStorage, Hkm, Hjson by done. simpl.
  by rewrite !bool_decide_eq_false_2 by lia.
Qed.

(** C10: no crash loop. When Kafka returns the same message at an offset every
    time, and the server answers every statement (answers to commits may be
    lost), the consumer never panics: a message that is delivered again is
    recognised as already saved. *)
Theorem consumer_never_panics `{GoRange} `{Json} `{MySQL} midnight now text s topic c w why :
  (∀ i, fault i = None) →
  (∀ i e b, commit_fault i = Some (e, b) → IsDupKeyError e = false) →
  (∀ t, (t mod 1000000 = 0)%Z → datetime3 t = t) →
  (∀ off msg, topic !! off = Some msg → (km_Time msg mod 1000000 = 0)%Z) →
  db_ok (tables c) → mirrors topic c →
  rtc (topic_step midnight now text s topic) (world_init c) w →
  w_pc w ≠ Panicked why.
Proof.
  intros Hf Hc Hdt Hms Hok Hm Hr Hpc.
  destruct (topic_reach_inv midnight now text s topic Hf Hc Hdt Hms c w Hok Hm Hr) as [_ Hp].
  by rewrite Hpc in Hp.
Qed.

(** A transient failure crashes the consumer. When an event is stored
    already and the server fails just while [Save] reads it back for the
    comparison, the loop does not retry: the duplicate-key error of the insertion
    is returned and the process panics. *)
Theorem failed_reread_panics `{GoRange} `{Json} `{MySQL} midnight now text s i w msg e row err :
  w_pc w = Saving msg e → (0 ≤ Offset e)%Z →
  events (tables (w_store w)) !! Offset e = Some row →
  fault (calls (w_store w)) = None → fault (1 + calls (w_store w)) = None →
  fault (2 + calls (w_store w)) = Some err →
  w_pc (consume_step (H1 := eventStore_IEventStore midnight now text) is_canceled s i w) =
  Panicked (text (MySQLError ER_DUP_ENTRY)).
Proof.
  intros Hpc Hoff Hrow Hf0 Hf1 Hf2. unfold consume_step. rewrite Hpc. unfold consume_save. simpl.
  unfold Save, withTx, sql_call. rewrite Hf0. simpl in *. rewrite Hf1. unfold insertEventSQL.
  rewrite bool_decide_eq_false_2 by lia. rewrite Hrow. simpl.
  unfold Save_duplicate, tx_bind, tx_catch, sql_call. simpl. rewrite Hf2. simpl. done.
Qed.

(** * Examples *)

(** A message is its own JSON text: one recipient list, chosen by the value. *)
Definition ex_msg : pb_E2EMsg := {|
  E2EMsg_Type := "im"; E2EMsg_From := 3; E2EMsg_To := [1; 2; 1]%Z; E2EMsg_Props := ∅; E2EMsg_Body := "hi" |}.

Definition ex_json : Json := {|
  json_Marshal := λ m, Ok (E2EMsg_Body m);
  json_Unmarshal := λ v, if bool_decide (v = "hi") then Ok ex_msg else Err "invalid character"
|}.

Definition ex_writer : IKafkaWriter (list string) := {|
  WriteMessages := λ v k, (None, k ++ [v])
|}.

Definition ex_km : kafka_Message :=
  {| km_Offset := 5; km_Time := 1700000000000000000; km_Value := "hi" |}.

Definition ex_storage : storage := newStorage true 30 1024.

Definition ex_input (i : result kafka_error kafka_Message) (commit : option kafka_error) : input := {|
  in_fetch := i; in_commit := commit; in_done := false;
  in_now := 1700000001000000000; in_put := λ _, 1700000001000000000%Z |}.

Section Examples.
#[local] Existing Instance canonical_range.
#[local] Existing Instance ex_json.
#[local] Existing Instance good_server.

Definition ex_es : IEventStore conn sql_error := eventStore_IEventStore (λ t, t) 0 (λ _, "").
#[local] Existing Instance ex_es.
#[local] Instance ex_ns : NumberedStore conn sql_error := eventStore_NumberedStore (λ t, t) 0 (λ _, "").

Lemma ex_ok : ns_ok conn0.
Proof. change (db_ok (tables conn0)). apply db_empty_ok. Qed.

(** Fetch, save, put, fail to commit once, commit. *)
Definition ex_inputs : list input :=
  [ex_input (Ok ex_km) None; ex_input (Ok ex_km) None; ex_input (Ok ex_km) None;
   ex_input (Ok ex_km) (Some (KafkaError 7)); ex_input (Ok ex_km) None].

Definition ex_run (n : nat) : world conn :=
  foldl (λ w i, consume_step is_canceled ex_storage i w) (world_init conn0) (take n ex_inputs).

Lemma ex_reach n : rtc (storage_step is_canceled ex_storage) (world_init conn0) (ex_run n).
Proof.
  unfold ex_run. generalize (take n ex_inputs). intros l. generalize (world_init conn0).
  induction l as [|i l IH]; intros w; simpl; [done|]. eapply rtc_l; [apply ss_consume|]. apply IH.
Qed.

Definition ex_pushed : world conn := sendLoop_tick (λ _, 1700000007000000000%Z) (ex_run 5).

Lemma heads_pushed_in_order_witness :
  pushed_to 1 (w_pushed ex_pushed) = [2%Z] ∧
  StronglySorted Z.lt (pushed_to 1 (w_pushed ex_pushed)) ∧
  Forall (λ q, q ≤ head_seq (tables (w_store ex_pushed)) 1)%Z (pushed_to 1 (w_pushed ex_pushed)).
Proof.
  split; [vm_compute; reflexivity|].
  apply (heads_pushed_in_order is_canceled ex_storage conn0 ex_pushed 1 ex_ok).
  eapply rtc_r; [apply (ex_reach 5)|]. apply ss_send.
Defined.


Lemma commit_after_save_witness :
  ∃ t now value res, decodeKafkaMsg ex_storage now ex_km = Some value ∧
    [Saved (event_of_msg ex_km ex_msg) (<[1%Z := 2%Z]> (<[2%Z := 1%Z]> ∅))] =
    t ++ [Saved (event_of_msg ex_km value) res].
Proof.
  apply (commit_after_save is_canceled ex_storage conn0 (ex_run 5) _ ex_km [] (ex_reach 5)).
  vm_compute. reflexivity.
Defined.

Lemma sleep_bounds_witness :
  w_sleep (ex_run 4) = Second ∧
  (w_sleep (ex_run 4) = 0 ∨ BackoffMinInterval ≤ w_sleep (ex_run 4) < BackoffMaxInterval)%Z ∧
  (BackoffMinInterval ≤ backoff (w_sleep (ex_run 4)) < BackoffMaxInterval)%Z ∧
  (backoff (w_sleep (ex_run 4)) mod Millisecond = 0)%Z.
Proof.
  split; [vm_compute; reflexivity|].
  apply (sleep_bounds is_canceled ex_storage conn0 (ex_run 4) (ex_reach 4)).
Defined.

Lemma decodeKafkaMsg_correct_witness :
  decodeKafkaMsg ex_storage 1700000001000000000 ex_km = Some ex_msg.
Proof.
  apply (decodeKafkaMsg_correct true 30 1024 1700000001000000000 ex_km ex_msg); [lia|].
  vm_compute. split_and!; [discriminate|reflexivity|discriminate].
Defined.

Lemma saveE2eMsg_roundtrip_witness :
  ∃ value k2, WriteMessages (IKafkaWriter := ex_writer) value [] = (None, k2) ∧ Some ["hi"] = Some k2 ∧
    ∀ now km, km_Value km = value → (now - km_Time km ≤ max_age true 30)%Z →
      decodeKafkaMsg (newStorage true 30 1024) now km = Some ex_msg.
Proof.
  apply (saveE2eMsg_roundtrip (H0 := ex_writer) [] (Some ["hi"]) ex_msg true 30 1024).
  - intros value [= <-]. reflexivity.
  - lia.
  - vm_compute. reflexivity.
Defined.
End Examples.

(** The commit of the first attempt is applied but its answer is lost, and the
    read of the second attempt fails. *)
Definition flaky_server : MySQL := {|
  fault := λ i, if bool_decide (i = 17) then Some (ErrOther 1) else None;
  commit_fault := λ i, if bool_decide (i = 14) then Some (ErrOther 0, true) else None;
  rows_cut := λ _, None; datetime3 := λ t, t;
  datetime_le := λ t sec, bool_decide (unix t ≤ sec)%Z;
  datetime_ge := λ t sec, bool_decide (sec ≤ unix t)%Z;
  fault_not_norows := λ i, match bool_decide (i = 17) as b
    return (if b then Some (ErrOther 1) else None) ≠ Some ErrNoRows with
    | true => λ H, ltac:(discriminate H) | false => λ H, ltac:(discriminate H) end
|}.

Section LossyExamples.
#[local] Existing Instance canonical_range.
#[local] Existing Instance ex_json.

Definition ex_text (e : sql_error) : string :=
  match e with MySQLError n => "Error " +:+ pretty n | _ => "error" end.

Definition ex_es_of (server : MySQL) : IEventStore conn sql_error :=
  eventStore_IEventStore (H := server) (λ t, t) 0 ex_text.

(** Fetch, then try to save twice. *)
Definition ex_retry (server : MySQL) (n : nat) : world conn :=
  Nat.iter n (consume_step (H1 := ex_es_of server) is_canceled ex_storage (ex_input (Ok ex_km) None))
    (world_init conn0).

Lemma failed_reread_panics_witness :
  w_pc (ex_retry flaky_server 2) = Saving ex_km (event_of_msg ex_km ex_msg) ∧
  w_pc (ex_retry flaky_server 3) = Panicked "Error 1062".
Proof.
  split; [vm_compute; reflexivity|].
  apply (failed_reread_panics (H1 := flaky_server) (λ t, t) 0 ex_text ex_storage
    (ex_input (Ok ex_km) None) (ex_retry flaky_server 2) ex_km (event_of_msg ex_km ex_msg)
    {| er_create_time := 1700000000000000000; er_payload := "hi" |} (ErrOther 1));
    first [vm_compute; reflexivity | vm_compute; discriminate].
Defined.

Lemma put_never_panics_witness :
  ∃ err, IsDupKeyError err = true ∧ "Error 1062" = ex_text err.
Proof.
  apply (put_never_panics (H1 := ex_es_of flaky_server)
    (H2 := eventStore_NumberedStore (H := flaky_server) (λ t, t) 0 ex_text)
    is_canceled ex_storage conn0 (ex_retry flaky_server 3) "Error 1062").
  - change (db_ok (tables conn0)). apply db_empty_ok.
  - eapply rtc_r; [eapply rtc_r; [eapply rtc_once|]|]; apply ss_consume.
  - vm_compute. reflexivity.
Defined.

Lemma consumer_never_panics_witness :
  w_pc (ex_retry lossy_server 3) = Committing ex_km ∧
  w_pc (ex_retry lossy_server 3) ≠ Panicked "Error 1062".
Proof.
  split; [vm_compute; reflexivity|].
  apply (consumer_never_panics (H1 := lossy_server) (λ t, t) 0 ex_text ex_storage {[5%Z := ex_km]} conn0).
  - reflexivity.
  - intros i e b. simpl. case_bool_decide; [|discriminate]. intros [= <- _]. reflexivity.
  - reflexivity.
  - intros off msg [_ <-]%lookup_singleton_Some. reflexivity.
  - apply db_empty_ok.
  - intros off row Hrow. simpl in Hrow. by rewrite lookup_empty in Hrow.
  - assert (Hft : from_topic {[5%Z := ex_km]} (ex_input (Ok ex_km) None)).
    { intros msg [= <-]. apply lookup_singleton_eq. }
    eapply rtc_r; [eapply rtc_r; [eapply rtc_once|]|]; by apply ts_consume.
Defined.
End LossyExamples.
