(* ===== verification/PushServer.v ===== *)
(** [cluster/server.go]: the gRPC server that the leader runs.

    Every hub keeps one stream open; [Route] handles its messages, [run] sends
    the leader's messages to all streams, [cleanSessionLoop] collects garbage
    once a minute.  The mutexes of the server and of the session store make the
    methods called here atomic, so a handler is a function on the server state;
    the deferred [removeStream] of a handler that ends is a step of its own. *)

From Stdlib Require Import ZArith Lia.
From stdpp Require Import base option list numbers gmap strings pretty relations sorting fin_map_dom.
From S2P Require Import Prelude Proto EventStore EventApi Cache Storage SessionStore.

(** * gRPC *)

(** Errors of [Recv] and [Send]: [io.EOF], or an error with a status code. *)
Inductive rpc_error :=
| ErrEOF
| ErrStatus (code : Z).

Definition codes_Canceled : Z := 1%Z.
Definition codes_Unavailable : Z := 14%Z.

(** [err == io.EOF || code == codes.Canceled || code == codes.Unavailable] *)
Definition stream_gone (err : rpc_error) : bool :=
  match err with
  | ErrEOF => true
  | ErrStatus code => bool_decide (code = codes_Canceled) || bool_decide (code = codes_Unavailable)
  end.

(** [stream.Send], at the [i]-th call of the process. *)
Class GrpcStreams := {
  Send : nat → loc → pb_LeaderMsg → option rpc_error
}.

(** * The server *)

(** One call of [Send]: the hub, the stream, the message and the outcome. *)
Record attempt := {
  at_hub : string;
  at_stream : loc;
  at_msg : pb_LeaderMsg;
  at_result : option rpc_error
}.

Record pushServer (K : Type) := {
  sessionQuota : Z;
  eventMaxSize : Z;
  sessionStore : SessionStore;
  kafkaWriter : option K;
  hubStreams : gmap string loc;
  ps_heap : heap;                 (* the sessions behind the pointers *)
  ps_attempts : list attempt      (* the calls of [Send] so far *)
}.
Arguments sessionQuota {K} _.
Arguments eventMaxSize {K} _.
Arguments sessionStore {K} _.
Arguments kafkaWriter {K} _.
Arguments hubStreams {K} _.
Arguments ps_heap {K} _.
Arguments ps_attempts {K} _.

Definition newPushServer {K} (writer : option K) (quota maxSize : Z) : pushServer K := {|
  sessionQuota := quota; eventMaxSize := maxSize; sessionStore := newSessionStore;
  kafkaWriter := writer; hubStreams := ∅; ps_heap := ∅; ps_attempts := [] |}.

Section Fields.
Context {K : Type}.
Implicit Types (s : pushServer K).

Definition with_sessions (hs : heap * SessionStore) s : pushServer K := {|
  sessionQuota := sessionQuota s; eventMaxSize := eventMaxSize s; sessionStore := hs.2;
  kafkaWriter := kafkaWriter s; hubStreams := hubStreams s; ps_heap := hs.1;
  ps_attempts := ps_attempts s |}.
Definition with_streams (m : gmap string loc) s : pushServer K := {|
  sessionQuota := sessionQuota s; eventMaxSize := eventMaxSize s; sessionStore := sessionStore s;
  kafkaWriter := kafkaWriter s; hubStreams := m; ps_heap := ps_heap s;
  ps_attempts := ps_attempts s |}.
Definition with_writer (w : option K) s : pushServer K := {|
  sessionQuota := sessionQuota s; eventMaxSize := eventMaxSize s; sessionStore := sessionStore s;
  kafkaWriter := w; hubStreams := hubStreams s; ps_heap := ps_heap s;
  ps_attempts := ps_attempts s |}.
Definition with_attempt (a : attempt) s : pushServer K := {|
  sessionQuota := sessionQuota s; eventMaxSize := eventMaxSize s; sessionStore := sessionStore s;
  kafkaWriter := kafkaWriter s; hubStreams := hubStreams s; ps_heap := ps_heap s;
  ps_attempts := ps_attempts s ++ [a] |}.
End Fields.

Definition LeaderMsg_of_Kickoff (sids : list string) : pb_LeaderMsg := {|
  LeaderMsg_HeadSeq := ∅; LeaderMsg_Kickoff := sids; LeaderMsg_ServerShutdown := false |}.

Section Methods.
Context `{GoRange} `{GrpcStreams} `{Json} {K : Type} `{IKafkaWriter K}.
Implicit Types (s : pushServer K).

(** [out[k] = v] for every entry *)
Definition copyStreams s : gmap string loc :=
  foldl (λ out kv, <[kv.1 := kv.2]> out) ∅ (range 20 (hubStreams s)).

Definition getLiveHubIds s : gset string :=
  foldl (λ out kv, {[kv.1]} ∪ out) ∅ (range 21 (hubStreams s)).

Definition copyStreamsByFollower (hubs : list string) s : gmap string loc :=
  foldl (λ out hub, match hubStreams s !! hub with
                    | Some stream => <[hub := stream]> out
                    | None => out
                    end) ∅ hubs.

Definition addStream (ni : string) (stream : loc) s : pushServer K :=
  with_streams (<[ni := stream]> (hubStreams s)) s.

Definition removeStream (ni : string) s : pushServer K :=
  with_streams (delete ni (hubStreams s)) s.

Definition pushToFollower (hubId : string) (stream : loc) (msg : pb_LeaderMsg) s
    : bool * pushServer K :=
  let r := Send (length (ps_attempts s)) stream msg in
  let s := with_attempt {| at_hub := hubId; at_stream := stream; at_msg := msg; at_result := r |} s in
  match r with
  | Some err => (false, if stream_gone err then removeStream hubId s else s)
  | None => (true, s)
  end.

(** [targets[sess.HubId] = append(targets[sess.HubId], sess.Sid)] *)
Definition kickoff_targets (h : heap) (sessions : list loc) : gmap string (list string) :=
  foldl (λ targets sess,
           <[HubId (h !!! sess) := default [] (targets !! HubId (h !!! sess)) ++ [Sid (h !!! sess)]]> targets)
        ∅ sessions.

(** [for _, sid := range sids { sessions[sid].KickoffTime = now }]; a missing key
    gives a nil pointer. *)
Fixpoint stamp_kickoff (now : Z) (sids : list string) (sessions : gmap string loc) (h : heap)
    : go heap :=
  match sids with
  | [] => Ret h
  | sid :: rest =>
      match sessions !! sid with
      | Some sess => stamp_kickoff now rest sessions (alter (set_KickoffTime now) sess h)
      | None => Panic "invalid memory address or nil pointer dereference"
      end
  end.

(** The loop over the streams; [now hub] is [time.Now().Unix()] at that hub.  The
    condition tests [ok] of the enclosing statement, not the result of the push. *)
Fixpoint kickoff_loop (now : string → Z) (targets : gmap string (list string))
    (sessions : gmap string loc) (streams : list (string * loc)) s : go (pushServer K) :=
  match streams with
  | [] => Ret s
  | (hub, stream) :: rest =>
      match targets !! hub with
      | Some sids =>
          let '(_, s) := pushToFollower hub stream (LeaderMsg_of_Kickoff sids) s in
          let! h := stamp_kickoff (now hub) sids sessions (ps_heap s) in
          kickoff_loop now targets sessions rest (with_sessions (h, sessionStore s) s)
      | None => kickoff_loop now targets sessions rest s
      end
  end.

Definition pushServer_kickoff (now : string → Z) (sessions : gmap string loc) s
    : go (pushServer K) :=
  let targets := kickoff_targets (ps_heap s) (range 22 sessions).*2 in
  let hubs := (range 23 targets).*1 in
  let streams := copyStreamsByFollower hubs s in
  kickoff_loop now targets sessions (range 24 streams) s.

(** [if v := ...; len(v) > 0 { s.kickoff(v) }] *)
Definition kickoff_if_any (now : string → Z) (sessions : gmap string loc) s : go (pushServer K) :=
  if bool_decide (0 < size sessions) then pushServer_kickoff now sessions s else Ret s.

(** gRPC decodes a received session into a new object. *)
Definition receive_session (sess : pb_Session) (h : heap) : loc * heap :=
  let l := fresh (dom h) in (l, <[l := sess]> h).

Fixpoint receive_sessions (slice : list pb_Session) (h : heap) : list loc * heap :=
  match slice with
  | [] => ([], h)
  | sess :: rest =>
      let '(l, h) := receive_session sess h in
      let '(ls, h) := receive_sessions rest h in
      (l :: ls, h)
  end.

(** The head of [Route]: the hub id comes from the metadata of the stream. *)
Definition Route_open (md : option (list string)) (stream : loc) s : go (string * pushServer K) :=
  let hubId := match md with Some (hub :: _) => hub | _ => "" end in
  if bool_decide (hubId = "") then Panic "error x-hub-id not found from context metadata"
  else Ret (hubId, addStream hubId stream s).

(** The reaction of [Route] to an error of [Recv]: the error it returns. *)
Definition Route_error (err : rpc_error) : option rpc_error :=
  if stream_gone err then None else Some err.

(** The body of the loop of [Route] for one message; the result says whether the
    handler returns. *)
Definition Route_msg (now : string → Z) (hubId : string) (msg : pb_FollowerMsg pb_Session) s
    : go (bool * pushServer K) :=
  match SessionOnline msg with
  | Some v =>
      let '(l, h) := receive_session v (ps_heap s) in
      let s := with_sessions (SessionStore_add hubId l h (sessionStore s)) s in
      let! sessions := SessionStore_getUserSessionsToKickoff (Uid (ps_heap s !!! l)) (sessionQuota s)
                         (ps_heap s) (sessionStore s) in
      let! s := kickoff_if_any now sessions s in
      Ret (false, s)
  | None =>
  if negb (bool_decide (SessionOffline msg = "")) then
    Ret (false, with_sessions (ps_heap s, SessionStore_del hubId (SessionOffline msg) (sessionStore s)) s)
  else if bool_decide (0 < length (SyncSessions msg)) then
    let '(ls, h) := receive_sessions (SyncSessions msg) (ps_heap s) in
    Ret (false, with_sessions (SessionStore_addMany hubId ls h (sessionStore s)) s)
  else match FollowerMsg_E2EMsg msg with
  | Some v =>
      let! r := saveE2eMsg (kafkaWriter s) v (eventMaxSize s) in
      Ret (false, with_writer r.2 s)
  | None =>
  if FollowerMsg_ServerShutdown msg then Ret (true, s)
  else Panic ("unknown message from hub " +:+ hubId)
  end
  end.

(** [run]: one message of [sendMsgCh] goes to every stream. *)
Definition run_push (msg : pb_LeaderMsg) s : pushServer K :=
  foldl (λ s hs, (pushToFollower hs.1 hs.2 msg s).2) s (range 25 (copyStreams s)).

(** A tick of [cleanSessionLoop]; [t] is the time read by [gc]. *)
Definition cleanSession_tick (t : Z) (now : string → Z) s : go (pushServer K) :=
  let! r := SessionStore_gc (getLiveHubIds s) (sessionQuota s) t (ps_heap s) (sessionStore s) in
  kickoff_if_any now r.1 (with_sessions (ps_heap s, r.2) s).

(** [ctx.Done()] in [cleanSessionLoop] *)
Definition cleanSession_done s : pushServer K :=
  with_sessions (ps_heap s, SessionStore_empty (sessionStore s)) s.
End Methods.

(** * Lemmas *)

(** The stream of [hub] was dropped after one of these attempts. *)
Definition lost (new : list attempt) (hub : string) : bool :=
  existsb (λ a, bool_decide (at_hub a = hub) && from_option stream_gone false (at_result a)) new.

Definition attempt_of (a : attempt) : string * loc * pb_LeaderMsg := (at_hub a, at_stream a, at_msg a).

(** [s'] is [s] after the calls [new] of [Send], on everything but the heap. *)
Record sent_after {K} (new : list attempt) (s s' : pushServer K) : Prop := {
  sa_quota : sessionQuota s' = sessionQuota s;
  sa_store : sessionStore s' = sessionStore s;
  sa_writer : kafkaWriter s' = kafkaWriter s;
  sa_attempts : ps_attempts s' = ps_attempts s ++ new;
  sa_streams : ∀ hub, hubStreams s' !! hub = if lost new hub then None else hubStreams s !! hub
}.

Section Lemmas.
Context `{GoRange} `{GrpcStreams} `{Json} {K : Type} `{IKafkaWriter K}.
Implicit Types (s : pushServer K).

Lemma sent_after_refl s : sent_after [] s s.
Proof. split; rewrite ?app_nil_r; done. Qed.

Lemma lost_app a1 a2 hub : lost (a1 ++ a2) hub = lost a1 hub || lost a2 hub.
Proof. apply existsb_app. Qed.

Lemma sent_after_trans a1 a2 s1 s2 s3 :
  sent_after a1 s1 s2 → sent_after a2 s2 s3 → sent_after (a1 ++ a2) s1 s3.
Proof.
  intros [Hq1 Hs1 Hw1 Ha1 Hh1] [Hq2 Hs2 Hw2 Ha2 Hh2]. split; try congruence.
  - by rewrite Ha2, Ha1, app_assoc.
  - intros hub. rewrite Hh2, Hh1, lost_app. by destruct (lost a1 hub), (lost a2 hub).
Qed.

Lemma pushToFollower_spec hub stream msg s :
  ∃ a, attempt_of a = (hub, stream, msg) ∧
    at_result a = Send (length (ps_attempts s)) stream msg ∧
    (pushToFollower hub stream msg s).1 = bool_decide (at_result a = None) ∧
    ps_heap (pushToFollower hub stream msg s).2 = ps_heap s ∧
    sent_after [a] s (pushToFollower hub stream msg s).2.
Proof.
  unfold pushToFollower. set (r := Send _ _ _).
  exists {| at_hub := hub; at_stream := stream; at_msg := msg; at_result := r |}.
  split; [done|]. split; [done|].
  assert (Hl : ∀ hub', lost [{| at_hub := hub; at_stream := stream; at_msg := msg; at_result := r |}] hub' =
    bool_decide (hub = hub') && from_option stream_gone false r) by (intros; apply orb_false_r).
  destruct r as [err|]; [destruct (stream_gone err) eqn:Hg|]; cbn [fst snd]; split_and!; try done;
    split; try done; intros hub'; rewrite Hl; simpl; rewrite ?Hg.
  - rewrite andb_true_r. case_bool_decide; subst; [by rewrite lookup_delete_eq|by rewrite lookup_delete_ne].
  - by rewrite andb_false_r.
  - by rewrite andb_false_r.
Qed.

Lemma copyStreams_id s : copyStreams s = hubStreams s.
Proof.
  unfold copyStreams.
  assert (Hgen : ∀ (l : list (string * loc)) (m : gmap string loc),
    foldl (λ out kv, <[kv.1 := kv.2]> out) m l = list_to_map (reverse l) ∪ m).
  { induction l as [|[k v] l IH]; intros m.
    - simpl. by rewrite (left_id_L ∅ (∪)).
    - simpl foldl. rewrite IH, reverse_cons, list_to_map_app. simpl. rewrite insert_empty.
      by rewrite <-(assoc_L (∪)), <-insert_union_singleton_l. }
  rewrite Hgen, (right_id_L ∅ (∪)).
  rewrite <-(list_to_map_to_list (hubStreams s)) at 2. apply list_to_map_proper.
  - rewrite fmap_reverse, reverse_Permutation. apply range_NoDup_fst.
  - by rewrite reverse_Permutation, range_perm.
Qed.

Lemma getLiveHubIds_dom s : getLiveHubIds s = dom (hubStreams s).
Proof.
  unfold getLiveHubIds. apply leibniz_equiv. intros hub.
  assert (Hgen : ∀ (l : list (string * loc)) (m : gset string),
    hub ∈ foldl (λ out kv, {[kv.1]} ∪ out) m l ↔ hub ∈ l.*1 ∨ hub ∈ m).
  { induction l as [|[k v] l IH]; intros m; simpl; [set_solver|]. rewrite IH. set_solver. }
  rewrite Hgen, elem_of_dom. split.
  - intros [([k v] & -> & Hin%range_elem)%list_elem_of_fmap|?]; [by eexists|set_solver].
  - intros [v Hv]. left. apply list_elem_of_fmap. exists (hub, v). by rewrite range_elem.
Qed.

Lemma copyStreamsByFollower_lookup hubs s hub :
  copyStreamsByFollower hubs s !! hub = if decide (hub ∈ hubs) then hubStreams s !! hub else None.
Proof.
  unfold copyStreamsByFollower. induction hubs as [|x hubs IH] using rev_ind; [done|].
  rewrite foldl_snoc. destruct (decide (hub = x)) as [->|Hne].
  - rewrite decide_True by set_solver. destruct (hubStreams s !! x) as [st|] eqn:Hx; [by rewrite lookup_insert_eq|].
    rewrite IH. by case_decide.
  - assert (Hk : ∀ m : gmap string loc, match hubStreams s !! x with Some st => <[x := st]> m | None => m end !! hub = m !! hub).
    { intros m. destruct (hubStreams s !! x); [by rewrite lookup_insert_ne|done]. }
    rewrite Hk, IH. destruct (decide (hub ∈ hubs)).
    + by rewrite decide_True by set_solver.
    + by rewrite decide_False by set_solver.
Qed.

Lemma kickoff_targets_lookup h (l : list loc) hub :
  kickoff_targets h l !! hub =
  match filter (λ x, HubId (h !!! x) = hub) l with
  | [] => None
  | k => Some ((λ x, Sid (h !!! x)) <$> k)
  end.
Proof.
  unfold kickoff_targets. induction l as [|x l IH] using rev_ind; [done|].
  rewrite foldl_snoc, filter_app, lookup_insert. set (g := foldl _ ∅ l) in *.
  rewrite filter_cons, filter_nil.
  destruct (decide (HubId (h !!! x) = hub)) as [->|Hne].
  - rewrite IH. destruct (filter _ l); simpl; [done|]. by rewrite fmap_app.
  - rewrite app_nil_r. apply IH.
Qed.

Lemma stamp_kickoff_spec now sids sessions h :
  (∀ sid, sid ∈ sids → is_Some (sessions !! sid)) →
  ∃ h', stamp_kickoff now sids sessions h = Ret h' ∧
    ∀ l, h' !! l = if decide (Exists (λ sid, sessions !! sid = Some l) sids)
                   then set_KickoffTime now <$> h !! l else h !! l.
Proof.
  revert h. induction sids as [|sid sids IH]; intros h Hsome; simpl.
  { by exists h. }
  destruct (Hsome sid ltac:(by left)) as [x Hx]. rewrite Hx.
  destruct (IH (alter (set_KickoffTime now) x h)) as (h' & -> & Hl); [intros; apply Hsome; by right|].
  exists h'. split; [done|]. intros l. rewrite Hl, lookup_alter.
  destruct (decide (x = l)) as [->|Hne].
  - rewrite (decide_True (P := Exists _ (sid :: sids))) by (by apply Exists_cons_hd).
    case_decide; [|done]. by destruct (h !! l).
  - destruct (decide (Exists _ sids)).
    + by rewrite decide_True by (by apply Exists_cons_tl).
    + rewrite decide_False; [done|]. intros [Hs|?]%Exists_cons; [congruence|done].
Qed.

Lemma sent_after_heap new s s' h :
  sent_after new s s' → sent_after new s (with_sessions (h, sessionStore s') s').
Proof. by intros []. Qed.

Lemma sent_after_heap_l new s s' h :
  sent_after new (with_sessions (h, sessionStore s) s) s' → sent_after new s s'.
Proof. by intros []. Qed.

(** [targets] lists, by hub, exactly the sessions of the map. *)
Record targets_ok (h : heap) (sessions : gmap string loc) (targets : gmap string (list string)) : Prop := {
  tg_sound : ∀ hub sids sid, targets !! hub = Some sids → sid ∈ sids →
    ∃ l, sessions !! sid = Some l ∧ HubId (h !!! l) = hub;
  tg_complete : ∀ sid l, sessions !! sid = Some l →
    ∃ sids, targets !! HubId (h !!! l) = Some sids ∧ sid ∈ sids
}.

Lemma targets_exists h sessions targets hub sids (l : loc) :
  targets_ok h sessions targets → targets !! hub = Some sids →
  Exists (λ sid, sessions !! sid = Some l) sids ↔
  l ∈ map_img (SA := gset loc) sessions ∧ HubId (h !!! l) = hub.
Proof.
  intros [Hs Hc] Ht. rewrite Exists_exists, elem_of_map_img. split.
  - intros (sid & Hin & Hl). destruct (Hs _ _ _ Ht Hin) as (l' & Hl' & <-). simplify_eq. eauto.
  - intros [[sid Hl] <-]. destruct (Hc _ _ Hl) as (sids' & Ht' & Hin). simplify_eq. eauto.
Qed.

Lemma kickoff_loop_spec now targets sessions h0 streams s :
  NoDup streams.*1 → targets_ok h0 sessions targets →
  ∃ s' new, kickoff_loop now targets sessions streams s = Ret s' ∧ sent_after new s s' ∧
    attempt_of <$> new = omap (λ hs : string * loc, (λ sids, (hs.1, hs.2, LeaderMsg_of_Kickoff sids)) <$>
      targets !! hs.1) streams ∧
    ∀ l, ps_heap s' !! l =
      if decide (l ∈ map_img (SA := gset loc) sessions ∧ HubId (h0 !!! l) ∈ streams.*1)
      then set_KickoffTime (now (HubId (h0 !!! l))) <$> ps_heap s !! l else ps_heap s !! l.
Proof.
  intros Hnd Htg. revert s. induction streams as [|[hub stream] streams IH]; intros s.
  { exists s, []. split_and!; [done|apply sent_after_refl|done|].
    intros l. rewrite decide_False; [done|]. intros [_ Hin]. by apply elem_of_nil in Hin. }
  cbn [fmap list_fmap fst] in *. apply NoDup_cons in Hnd as [Hhub Hnd]. simpl kickoff_loop.
  destruct (targets !! hub) as [sids|] eqn:Ht.
  - destruct (pushToFollower_spec hub stream (LeaderMsg_of_Kickoff sids) s) as (a & Ha & _ & _ & Hh1 & Hsent1).
    destruct (pushToFollower hub stream _ s) as [ok s1]. simpl in Hh1, Hsent1.
    destruct (stamp_kickoff_spec (now hub) sids sessions (ps_heap s1)) as (h1 & -> & Hstamp).
    { intros sid Hin. destruct (tg_sound _ _ _ Htg _ _ _ Ht Hin) as (l & -> & _). done. }
    simpl go_bind. destruct (IH Hnd (with_sessions (h1, sessionStore s1) s1))
      as (s' & new & Hrun & Hsent & Hatt & Hheap).
    exists s', (a :: new). split_and!; [done| | |].
    + apply (sent_after_trans [a] new s s1 s'); [done|]. by apply sent_after_heap_l in Hsent.
    + rewrite fmap_cons, Ha, Hatt. simpl. by rewrite Ht.
    + intros l. rewrite Hheap. simpl. rewrite Hstamp, Hh1.
      destruct (decide (HubId (h0 !!! l) = hub)) as [<-|Hne].
      * rewrite (decide_False (P := _ ∧ _ ∈ streams.*1)) by (by intros [_ ?]).
        apply decide_ext. rewrite (targets_exists h0 _ _ _ _ _ Htg Ht). set_solver.
      * rewrite (decide_False (P := Exists _ _))
          by (rewrite (targets_exists h0 _ _ _ _ _ Htg Ht); by intros [_ ?]).
        apply decide_ext. set_solver.
  - destruct (IH Hnd s) as (s' & new & Hrun & Hsent & Hatt & Hheap).
    exists s', new. split_and!; [done|done| |].
    + simpl. by rewrite Ht.
    + intros l. rewrite Hheap. apply decide_ext. split; [set_solver|]. intros [Hl Hin]. split; [done|].
      apply elem_of_cons in Hin as [<-|?]; [|done].
      apply elem_of_map_img in Hl as [sid Hl].
      destruct (tg_complete _ _ _ Htg _ _ Hl) as (sids & Ht' & _). congruence.
Qed.

(** Each session of the map is the one with that id. *)
Definition by_sid (h : heap) (sessions : gmap string loc) : Prop :=
  ∀ sid l, sessions !! sid = Some l → Sid (h !!! l) = sid.

Lemma kickoff_targets_ok i h sessions :
  by_sid h sessions → targets_ok h sessions (kickoff_targets h (range i sessions).*2).
Proof.
  intros Hsid.
  assert (Hin : ∀ hub l, l ∈ filter (λ x, HubId (h !!! x) = hub) (range i sessions).*2 ↔
    HubId (h !!! l) = hub ∧ ∃ sid, sessions !! sid = Some l).
  { intros hub l. rewrite list_elem_of_filter. f_equiv. split.
    - intros ([sid l'] & -> & Hl%range_elem)%list_elem_of_fmap. eauto.
    - intros [sid Hl]. apply list_elem_of_fmap. exists (sid, l). by rewrite range_elem. }
  split.
  - intros hub sids sid. rewrite kickoff_targets_lookup. specialize (Hin hub).
    destruct (filter _ _) as [|x k]; [done|]. intros [= <-] Hs.
    change (sid ∈ (λ x, Sid (h !!! x)) <$> (x :: k)) in Hs.
    apply list_elem_of_fmap in Hs as (l & -> & Hl). apply Hin in Hl as [<- [sid Hl]].
    exists l. by rewrite (Hsid _ _ Hl).
  - intros sid l Hl. rewrite kickoff_targets_lookup. specialize (Hin (HubId (h !!! l)) l).
    assert (Hl' : l ∈ filter (λ x, HubId (h !!! x) = HubId (h !!! l)) (range i sessions).*2) by (apply Hin; eauto).
    destruct (filter _ _) as [|x k]; [by apply elem_of_nil in Hl'|]. eexists. split; [done|].
    change (sid ∈ (λ x, Sid (h !!! x)) <$> (x :: k)). apply list_elem_of_fmap.
    exists l. by rewrite (Hsid _ _ Hl).
Qed.
End Lemmas.

(** * Handlers *)

Section Handlers.
Context `{GoRange} `{GrpcStreams} `{Json} {K : Type} `{IKafkaWriter K}.
Implicit Types (s : pushServer K).

(** What [kickoff] does with a map of sessions: every connected hub that has
    some of them gets one message that names exactly these, and they are stamped. *)
Record kicked (now : string → Z) (sessions : gmap string loc) (new : list attempt) s s' : Prop := {
  k_sent : sent_after new s s';
  k_once : NoDup (at_hub <$> new);
  k_attempts : ∀ a, a ∈ new → hubStreams s !! at_hub a = Some (at_stream a) ∧
    ∃ sids, at_msg a = LeaderMsg_of_Kickoff sids ∧
      ∀ sid, sid ∈ sids ↔ ∃ l, sessions !! sid = Some l ∧ HubId (ps_heap s !!! l) = at_hub a;
  k_reached : ∀ sid l, sessions !! sid = Some l → is_Some (hubStreams s !! HubId (ps_heap s !!! l)) →
    HubId (ps_heap s !!! l) ∈ at_hub <$> new;
  k_heap : ∀ l, ps_heap s' !! l =
    if decide (l ∈ map_img (SA := gset loc) sessions ∧ is_Some (hubStreams s !! HubId (ps_heap s !!! l)))
    then set_KickoffTime (now (HubId (ps_heap s !!! l))) <$> ps_heap s !! l else ps_heap s !! l
}.

Lemma kickoff_spec now sessions s :
  by_sid (ps_heap s) sessions →
  ∃ s' new, pushServer_kickoff now sessions s = Ret s' ∧ kicked now sessions new s s'.
Proof.
  intros Hsid. unfold pushServer_kickoff.
  set (targets := kickoff_targets _ _). set (hubs := (range 23 targets).*1).
  pose proof (kickoff_targets_ok 22 (ps_heap s) sessions Hsid) as Htg. fold targets in Htg.
  assert (Hhubs : ∀ hub, hub ∈ hubs ↔ is_Some (targets !! hub)).
  { intros hub. unfold hubs. split.
    - intros ([k v] & -> & Hk%range_elem)%list_elem_of_fmap. by eexists.
    - intros [v Hv]. apply list_elem_of_fmap. exists (hub, v). by rewrite range_elem. }
  set (streams := range 24 (copyStreamsByFollower hubs s)).
  assert (Hst : ∀ hub stream, (hub, stream) ∈ streams ↔ is_Some (targets !! hub) ∧ hubStreams s !! hub = Some stream).
  { intros hub stream. unfold streams. rewrite range_elem, copyStreamsByFollower_lookup, <-Hhubs.
    case_decide; naive_solver. }
  assert (Hfst : ∀ hub, hub ∈ streams.*1 ↔ is_Some (targets !! hub) ∧ is_Some (hubStreams s !! hub)).
  { intros hub. rewrite list_elem_of_fmap. split.
    - intros ([h st] & -> & [? ?]%Hst). simpl. eauto.
    - intros [? [st ?]]. exists (hub, st). rewrite Hst. auto. }
  destruct (kickoff_loop_spec now targets sessions (ps_heap s) streams s) as (s' & new & Hrun & Hsent & Hatt & Hheap);
    [apply range_NoDup_fst|done|].
  assert (Hnew : ∀ a, a ∈ new → (at_hub a, at_stream a) ∈ streams ∧
    ∃ sids, targets !! at_hub a = Some sids ∧ at_msg a = LeaderMsg_of_Kickoff sids).
  { intros a Ha. apply (list_elem_of_fmap_2 attempt_of) in Ha. rewrite Hatt in Ha.
    apply list_elem_of_omap in Ha as ([hub st] & Hin & (sids & Ht & [= -> -> ->])%fmap_Some). eauto. }
  assert (Hhub : at_hub <$> new = streams.*1).
  { assert (Hf : at_hub <$> new = (λ p : string * loc * pb_LeaderMsg, p.1.1) <$> (attempt_of <$> new))
      by (by rewrite <-list_fmap_compose).
    rewrite Hf, Hatt. clear -Hst. assert (Hall : ∀ hs, hs ∈ streams → is_Some (targets !! hs.1)).
    { intros [hub st]. rewrite Hst. by intros [? _]. }
    clear Hst. generalize streams, Hall. clear. intros l Hall. induction l as [|[hub st] l IH]; [done|].
    destruct (Hall (hub, st) ltac:(by left)) as [sids Ht]. simpl in *. rewrite Ht. simpl. f_equal.
    apply IH. intros. apply Hall. by right. }
  exists s', new. split; [done|]. split.
  - done.
  - rewrite Hhub. apply range_NoDup_fst.
  - intros a Ha. destruct (Hnew a Ha) as [[_ ?]%Hst (sids & Ht & ?)]. split; [done|].
    exists sids. split; [done|]. intros sid. split; [by apply (tg_sound _ _ _ Htg)|].
    intros (l & Hl & Hh). destruct (tg_complete _ _ _ Htg _ _ Hl) as (sids' & Ht' & ?).
    rewrite Hh in Ht'. by simplify_eq.
  - intros sid l Hl Hs. rewrite Hhub, Hfst. split; [|done].
    destruct (tg_complete _ _ _ Htg _ _ Hl) as (sids & -> & _). done.
  - intros l. rewrite Hheap. apply decide_ext. rewrite Hfst. split; [tauto|].
    intros [Hl ?]. split_and!; [done| |done]. apply elem_of_map_img in Hl as [sid Hl].
    destruct (tg_complete _ _ _ Htg _ _ Hl) as (sids & -> & _). done.
Qed.

Lemma kicked_empty now s : kicked now ∅ [] s s.
Proof.
  split; [apply sent_after_refl|constructor| | |].
  - intros a Ha. by apply elem_of_nil in Ha.
  - intros sid l Hl. by rewrite lookup_empty in Hl.
  - intros l. rewrite decide_False; [done|]. intros [[sid Hl]%elem_of_map_img _]. by rewrite lookup_empty in Hl.
Qed.

Lemma kickoff_if_any_spec now sessions s :
  by_sid (ps_heap s) sessions →
  ∃ s' new, kickoff_if_any now sessions s = Ret s' ∧ kicked now sessions new s s'.
Proof.
  intros Hsid. unfold kickoff_if_any. case_bool_decide as Hz; [by apply kickoff_spec|].
  assert (sessions = ∅) as -> by (apply map_size_empty_iff; lia).
  exists s, []. split; [done|]. apply kicked_empty.
Qed.

(** ** Received sessions are new objects *)

Lemma receive_session_spec sess h :
  h !! (receive_session sess h).1 = None ∧
  (receive_session sess h).2 = <[(receive_session sess h).1 := sess]> h.
Proof.
  unfold receive_session. simpl. split; [|done]. apply not_elem_of_dom. apply is_fresh.
Qed.

Lemma receive_sessions_spec slice h :
  let '(ls, h') := receive_sessions slice h in
  NoDup ls ∧ (∀ l, l ∈ ls → h !! l = None ∧ is_Some (h' !! l)) ∧ h ⊆ h' ∧ length ls = length slice.
Proof.
  revert h. induction slice as [|sess slice IH]; intros h; cbn [receive_sessions].
  { split_and!; [constructor|intros l Hl; by apply elem_of_nil in Hl|done|done]. }
  destruct (receive_session_spec sess h) as [Hf Hh].
  destruct (receive_session sess h) as [l h1]. simpl in Hf, Hh. subst h1. specialize (IH (<[l := sess]> h)).
  destruct (receive_sessions slice _) as [ls h']. destruct IH as (Hnd & Hnew & Hsub & Hlen).
  assert (Hl : h' !! l = Some sess).
  { eapply lookup_weaken; [|done]. apply lookup_insert_eq. }
  split_and!; [| | |simpl; lia].
  - constructor; [|done]. intros Hin. apply Hnew in Hin as [Hn _]. by rewrite lookup_insert_eq in Hn.
  - intros x [->|Hx]%elem_of_cons; [by rewrite Hl|]. apply Hnew in Hx as [Hn Hs]. split; [|done].
    by apply lookup_insert_None in Hn as [? _].
  - etransitivity; [|done]. by apply insert_subseteq.
Qed.

Lemma store_ok_mono h h' st : store_ok h st → h ⊆ h' → store_ok h' st.
Proof.
  intros Hok Hsub hub sid l (sess & Hs & ? & ?)%Hok. exists sess. split; [|done]. by eapply lookup_weaken.
Qed.

Lemma unallocated_fresh h h' st (l : loc) :
  store_ok h st → h !! l = None → is_Some (h' !! l) → fresh_session h' st l.
Proof. intros Hok Hn Hs. split; [done|]. intros hub sid (sess & Hl & _)%Hok. congruence. Qed.
End Handlers.

(** * The leader as a state machine *)

Section Steps.
Context `{GoRange} `{GrpcStreams} `{Json} {K : Type} `{IKafkaWriter K}.
Implicit Types (s : pushServer K).

(** The goroutines of the leader; a handler's deferred [removeStream] may come
    at any time after it returns. *)
Inductive server_step : pushServer K → pushServer K → Prop :=
| sv_open md stream hub s s' : Route_open md stream s = Ret (hub, s') → server_step s s'
| sv_msg now hub msg b s s' : Route_msg now hub msg s = Ret (b, s') → server_step s s'
| sv_close hub s : server_step s (removeStream hub s)
| sv_push msg s : server_step s (run_push msg s)
| sv_tick t now s s' : cleanSession_tick t now s = Ret s' → server_step s s'
| sv_done s : server_step s (cleanSession_done s).

Definition sessions_ok s : Prop := store_ok (ps_heap s) (sessionStore s).

(** Two heaps whose sessions are in the same places. *)
Definition same_places (h h' : heap) : Prop :=
  ∀ l, (λ x, (HubId x, Sid x)) <$> h' !! l = (λ x, (HubId x, Sid x)) <$> h !! l.

Lemma same_places_refl h : same_places h h.
Proof. by intros l. Qed.

Lemma same_places_trans h1 h2 h3 : same_places h1 h2 → same_places h2 h3 → same_places h1 h3.
Proof. intros H1' H2' l. by rewrite H2', H1'. Qed.

Lemma store_ok_places h h' st : store_ok h st → same_places h h' → store_ok h' st.
Proof.
  intros Hok Hp hub sid l (sess & Hs & <- & <-)%Hok. specialize (Hp l). rewrite Hs in Hp. simpl in Hp.
  apply fmap_Some in Hp as (sess' & Hs' & Heq). injection Heq as Hh Hi. exists sess'. by rewrite Hh, Hi.
Qed.

Lemma stamp_kickoff_places now sids sessions h h' :
  stamp_kickoff now sids sessions h = Ret h' → same_places h h'.
Proof.
  revert h. induction sids as [|sid sids IH]; intros h; simpl; [intros [= <-]; apply same_places_refl|].
  destruct (sessions !! sid) as [x|]; [|done]. intros Hr%IH. eapply same_places_trans; [|exact Hr].
  intros l. rewrite lookup_alter. case_decide; [subst|done]. by destruct (h !! l).
Qed.

Lemma kickoff_loop_places now targets sessions streams s s' :
  kickoff_loop now targets sessions streams s = Ret s' →
  sessionStore s' = sessionStore s ∧ same_places (ps_heap s) (ps_heap s').
Proof.
  revert s. induction streams as [|[hub stream] streams IH]; intros s; simpl.
  { intros [= <-]. split; [done|apply same_places_refl]. }
  destruct (targets !! hub) as [sids|]; [|apply IH].
  destruct (pushToFollower_spec hub stream (LeaderMsg_of_Kickoff sids) s) as (a & _ & _ & _ & Hh & Hsent).
  destruct (pushToFollower hub stream _ s) as [ok s1]. simpl in Hh, Hsent.
  destruct (stamp_kickoff _ _ _ _) as [h1|] eqn:Hst; [|done]. simpl. intros [Hs Hp]%IH. simpl in *.
  rewrite Hs, (sa_store _ _ _ Hsent). split; [done|].
  apply stamp_kickoff_places in Hst. rewrite Hh in Hst. by eapply same_places_trans.
Qed.

Lemma kickoff_if_any_ok now sessions s s' :
  kickoff_if_any now sessions s = Ret s' → sessions_ok s → sessions_ok s'.
Proof.
  unfold kickoff_if_any. case_bool_decide; [|by intros [= <-]].
  intros [Hs Hp]%kickoff_loop_places. unfold sessions_ok. rewrite Hs. intros Hok. by eapply store_ok_places.
Qed.

Lemma online_ok hub v s :
  sessions_ok s →
  let '(l, h) := receive_session v (ps_heap s) in
  sessions_ok (with_sessions (SessionStore_add hub l h (sessionStore s)) s).
Proof.
  intros Hok. destruct (receive_session_spec v (ps_heap s)) as [Hn Hh].
  destruct (receive_session v (ps_heap s)) as [l h]. simpl in Hn, Hh. subst h.
  apply add_ok.
  - eapply store_ok_mono; [exact Hok|]. by apply insert_subseteq.
  - eapply unallocated_fresh; [exact Hok|done|]. by rewrite lookup_insert_eq.
Qed.

Lemma Route_msg_ok now hub msg b s s' :
  Route_msg now hub msg s = Ret (b, s') → sessions_ok s → sessions_ok s'.
Proof.
  intros Hr Hok. unfold Route_msg in Hr. destruct (SessionOnline msg) as [v|].
  { pose proof (online_ok hub v s Hok) as Hadd. destruct (receive_session v (ps_heap s)) as [l h].
    destruct (SessionStore_getUserSessionsToKickoff _ _ _ _) as [m|]; [|done]. simpl in Hr.
    destruct (kickoff_if_any _ _ _) as [s1|] eqn:Hk; [|done]. injection Hr as _ <-.
    by eapply kickoff_if_any_ok. }
  case_bool_decide; simpl in Hr; [|injection Hr as _ <-; by apply del_ok].
  case_bool_decide.
  - pose proof (receive_sessions_spec (SyncSessions msg) (ps_heap s)) as Hrs.
    destruct (receive_sessions _ _) as [ls h]. destruct Hrs as (Hnd & Hnew & Hsub & _).
    injection Hr as _ <-. apply addMany_ok; [by eapply store_ok_mono|done|].
    intros l [Hn Hs]%Hnew. by eapply unallocated_fresh.
  - destruct (FollowerMsg_E2EMsg msg) as [v|].
    + destruct (saveE2eMsg _ _ _) as [r|]; [|done]. by injection Hr as _ <-.
    + destruct (FollowerMsg_ServerShutdown msg); [|done]. by injection Hr as _ <-.
Qed.

Lemma pushes_spec msg (l : list (string * loc)) s :
  ∃ new, sent_after new s (foldl (λ s hs, (pushToFollower hs.1 hs.2 msg s).2) s l) ∧
    attempt_of <$> new = (λ hs, (hs.1, hs.2, msg)) <$> l ∧
    ps_heap (foldl (λ s hs, (pushToFollower hs.1 hs.2 msg s).2) s l) = ps_heap s.
Proof.
  revert s. induction l as [|[hub stream] l IH]; intros s; simpl.
  { exists []. split_and!; [apply sent_after_refl|done|done]. }
  destruct (pushToFollower_spec hub stream msg s) as (a & Ha & _ & _ & Hh & Hsent).
  destruct (IH (pushToFollower hub stream msg s).2) as (new & Hs & Hn & Hheap).
  exists (a :: new). split_and!.
  - by apply (sent_after_trans [a] new s (pushToFollower hub stream msg s).2).
  - by rewrite fmap_cons, Ha, Hn.
  - by rewrite Hheap.
Qed.

(** A tick changes the store by the sweep of [gc] only. *)
Lemma cleanSession_tick_store t now s s' :
  cleanSession_tick t now s = Ret s' →
  sessionStore s' = gc_sweep (getLiveHubIds s) t (ps_heap s) (sessionStore s).
Proof.
  unfold cleanSession_tick, SessionStore_gc, kickoff_if_any.
  destruct (gc_kickoff _ _ _ _) as [m|]; [|done]. simpl.
  case_bool_decide; [by intros [-> _]%kickoff_loop_places|by intros [= <-]].
Qed.

Lemma server_step_ok s s' : server_step s s' → sessions_ok s → sessions_ok s'.
Proof.
  destruct 1 as [md stream hub s s' Hr|now hub msg b s s' Hr|hub s|msg s|t now s s' Hr|s]; intros Hok.
  - unfold Route_open in Hr. case_bool_decide; [done|]. by injection Hr as _ <-.
  - by eapply Route_msg_ok.
  - done.
  - unfold run_push. destruct (pushes_spec msg (range 25 (copyStreams s)) s) as (new & Hs & _ & Hh).
    unfold sessions_ok. by rewrite Hh, (sa_store _ _ _ Hs).
  - unfold cleanSession_tick, SessionStore_gc in Hr.
    destruct (gc_kickoff _ _ _ _) as [m|]; [|done]. simpl in Hr.
    eapply kickoff_if_any_ok; [exact Hr|]. by apply gc_sweep_ok.
  - apply empty_ok.
Qed.
End Steps.

(** * Properties *)

Section Properties.
Context `{GoRange} `{GrpcStreams} `{Json} {K : Type} `{IKafkaWriter K}.
Implicit Types (s : pushServer K).

(** C16: in every state of the leader, for any interleaving of connections, hub
    messages, pushes, garbage collections and disconnections, each stored
    pointer reaches a session that is filed under its own hub and id. *)
Theorem server_invariant s s' :
  rtc server_step s s' → sessionStore s = newSessionStore → sessions_ok s'.
Proof.
  intros Hr He. assert (Hok : sessions_ok s).
  { unfold sessions_ok. rewrite He. apply (empty_ok _ newSessionStore). }
  clear He. induction Hr; eauto using server_step_ok.
Qed.

(** C14: a session that comes online. The handler never panics; it files the new
    session, chooses the oldest sessions of that user beyond the quota, tells each
    connected hub which of its sessions are chosen, and stamps exactly these. *)
Theorem Route_online_correct now hubId msg v s :
  SessionOnline msg = Some v → sessions_ok s → sids_unique (sessionStore s) → (0 ≤ sessionQuota s)%Z →
  (∀ hub l, stored (sessionStore s) hub (Sid v) l → hub = hubId) →
  ∃ l s1 s' sessions new,
    Route_msg now hubId msg s = Ret (false, s') ∧
    ps_heap s !! l = None ∧ ps_heap s1 = <[l := set_HubId hubId v]> (ps_heap s) ∧
    hubStreams s1 = hubStreams s ∧
    (∀ hub sid x, stored (sessionStore s1) hub sid x ↔
       (hub = hubId ∧ sid = Sid v ∧ x = l) ∨
       (¬ (hub = hubId ∧ sid = Sid v) ∧ stored (sessionStore s) hub sid x)) ∧
    quota_selection (ps_heap s1) (sessions_of (ps_heap s1) (Uid v) (sessionStore s1)) (sessionQuota s)
      (map_img sessions) ∧
    kicked now sessions new s1 s'.
Proof.
  intros Hmsg Hok Hu Hq Hsid. unfold Route_msg. rewrite Hmsg.
  pose proof (online_ok hubId v s Hok) as Hok1. destruct (receive_session_spec v (ps_heap s)) as [Hn Hh].
  destruct (receive_session v (ps_heap s)) as [l h]. simpl in Hn, Hh. subst h.
  set (s1 := with_sessions _ s) in *. exists l, s1.
  assert (Hheap : ps_heap s1 = <[l := set_HubId hubId v]> (ps_heap s)).
  { unfold s1. simpl. rewrite alter_insert. case_decide; [done|congruence]. }
  assert (Hl : ps_heap s1 !!! l = set_HubId hubId v) by (rewrite Hheap; apply lookup_total_insert_eq).
  assert (Hst : ∀ hub sid x, stored (sessionStore s1) hub sid x ↔
    (hub = hubId ∧ sid = Sid v ∧ x = l) ∨ (¬ (hub = hubId ∧ sid = Sid v) ∧ stored (sessionStore s) hub sid x)).
  { intros hub sid x. pose proof (add_stored hubId l (<[l := v]> (ps_heap s)) (sessionStore s) hub sid x) as Ha.
    change (SessionStore_add _ _ _ _) with (ps_heap s1, sessionStore s1) in Ha. cbv beta iota zeta in Ha. by rewrite Hl in Ha. }
  assert (Hu1 : sids_unique (sessionStore s1)).
  { intros hub1 hub2 sid x y [(-> & -> & _)|[_ Hx]]%Hst [(-> & Hy1 & _)|[_ Hy]]%Hst;
      [done|symmetry; by eapply Hsid|subst; by eapply Hsid|by eapply Hu]. }
  destruct (getUserSessionsToKickoff_spec (Uid (ps_heap s1 !!! l)) (sessionQuota s1) (ps_heap s1) (sessionStore s1))
    as (m & Hm & Hsel & Hby); [done..|].
  rewrite Hm. simpl go_bind. destruct (kickoff_if_any_spec now m s1 Hby) as (s' & new & Hk & Hkicked).
  rewrite Hk. simpl go_bind. exists s', m, new.
  rewrite Hl in Hsel. change (Uid (set_HubId hubId v)) with (Uid v) in Hsel. done.
Qed.


(** The oldest of too many sessions is selected. *)
Lemma oldest_selected h mine quota selected (l : loc) :
  quota_selection h mine quota selected → l ∈ mine → (quota < Z.of_nat (size mine))%Z →
  (∀ y, y ∈ mine → y ≠ l → CreateTime (h !!! l) < CreateTime (h !!! y))%Z → l ∈ selected.
Proof.
  intros [Hsub Hsize Hold] Hl Hq Hmin. destruct (decide (l ∈ selected)) as [|Hn]; [done|exfalso].
  assert (Hne : selected ≠ ∅) by (intros ->; rewrite size_empty in Hsize; lia).
  apply set_choose_L in Hne as [x Hx]. specialize (Hold x l Hx Hl Hn).
  specialize (Hmin x (Hsub _ Hx)). assert (x ≠ l) by congruence. specialize (Hmin ltac:(done)). lia.
Qed.

(** A kicked session is never removed by its age. When a user is over the
    quota, the oldest session that a tick kicks off (its hub being connected) is
    stored again after the next tick, provided that tick reads the clock at most
    60 seconds after the kick-off, which holds for a cleaner that runs once a
    minute; the premise then holds again. *)
Theorem kicked_session_survives_next_tick t now s s1 t' now' s2 hub sid l :
  sessions_ok s → sids_unique (sessionStore s) → (0 ≤ sessionQuota s)%Z →
  cleanSession_tick t now s = Ret s1 → stored (sessionStore s1) hub sid l →
  let mine := sessions_of (ps_heap s) (Uid (ps_heap s !!! l)) (sessionStore s1) in
  (sessionQuota s < Z.of_nat (size mine))%Z →
  (∀ y, y ∈ mine → y ≠ l → CreateTime (ps_heap s !!! l) < CreateTime (ps_heap s !!! y))%Z →
  is_Some (hubStreams s1 !! hub) → in_int64 (now hub + 60) → (t' ≤ now hub + 60)%Z →
  cleanSession_tick t' now' s1 = Ret s2 → stored (sessionStore s2) hub sid l.
Proof.
  intros Hok Hu Hq Ht Hst mine Hover Hold Hlive Hint Hle Ht2.
  unfold cleanSession_tick in Ht. rewrite getLiveHubIds_dom in Ht.
  destruct (SessionStore_gc_spec (dom (hubStreams s)) (sessionQuota s) t (ps_heap s) (sessionStore s))
    as (m & st & Hgc & Hstored & Hsel & Hby); [done..|].
  rewrite Hgc in Ht. simpl go_bind in Ht.
  destruct (kickoff_if_any_spec now m (with_sessions (ps_heap s, st) s) Hby) as (s' & new & Hk & Hkicked).
  simpl in Ht. rewrite Hk in Ht. injection Ht as ->.
  pose proof (sa_store _ _ _ (k_sent _ _ _ _ _ Hkicked)) as Hstore. simpl in Hstore. subst mine. rewrite Hstore in *.
  destruct (proj1 (Hstored hub sid l) Hst) as (Hst0 & Hdom & _).
  destruct (Hok _ _ _ Hst0) as (sess & Hs & Hhub & _).
  assert (Htot : ps_heap s !!! l = sess) by (by apply lookup_total_correct).
  assert (Hin : l ∈ map_img (SA := gset loc) m).
  { assert (Hl : l ∈ filter (λ x, Uid (ps_heap s !!! x) = Uid (ps_heap s !!! l)) (map_img (SA := gset loc) m)).
    { eapply oldest_selected; [apply Hsel| |done|done]. apply elem_of_filter. split; [done|].
      apply stored_set_elem. eauto. }
    by apply elem_of_filter in Hl as [_ ?]. }
  pose proof (k_heap _ _ _ _ _ Hkicked l) as Hheap. simpl in Hheap.
  rewrite decide_True, Htot, Hhub, Hs in Hheap
    by (split; [done|rewrite Htot, Hhub; by apply elem_of_dom]). simpl in Hheap.
  rewrite (cleanSession_tick_store _ _ _ _ Ht2), gc_sweep_stored, getLiveHubIds_dom, elem_of_dom, Hstore. split_and!; [done|done|].
  rewrite (lookup_total_correct _ _ _ Hheap). unfold kickoff_expired, deleteSinceKickoffTTL. simpl.
  rewrite wrap64_id by done. rewrite (bool_decide_eq_false_2 (now hub + 60 < t')%Z) by lia.
  apply andb_false_r.
Qed.

(** A message of the leader goes to every connected hub exactly once, and a
    hub stays connected unless its own [Send] failed because the stream is gone. *)
Theorem run_push_correct msg s :
  ∃ new, attempt_of <$> new ≡ₚ (λ hs, (hs.1, hs.2, msg)) <$> map_to_list (hubStreams s) ∧
    sent_after new s (run_push msg s) ∧ ps_heap (run_push msg s) = ps_heap s.
Proof.
  unfold run_push. destruct (pushes_spec msg (range 25 (copyStreams s)) s) as (new & Hs & Hn & Hh).
  exists new. split_and!; [|done|done]. by rewrite Hn, range_perm, copyStreams_id.
Qed.

(** A hub that reconnects can lose its new stream. When the handler of the
    old stream ends after the new one was registered, its deferred
    [removeStream] removes the new stream; the next tick then drops all
    sessions of that hub, although it is connected. *)
Theorem reconnect_race md old new hub s s1 s2 s3 t now :
  Route_open md old s = Ret (hub, s1) → Route_open md new s1 = Ret (hub, s2) →
  cleanSession_tick t now (removeStream hub s2) = Ret s3 →
  hubStreams s2 !! hub = Some new ∧ ∀ sid l, ¬ stored (sessionStore s3) hub sid l.
Proof.
  intros _ Ho2 Ht. unfold Route_open in Ho2. case_bool_decide; [done|]. injection Ho2 as Hhub <-. rewrite Hhub in *.
  split; [apply lookup_insert_eq|]. intros sid l Hl.
  rewrite (cleanSession_tick_store _ _ _ _ Ht), gc_sweep_stored, getLiveHubIds_dom in Hl. destruct Hl as (_ & Hd & _).
  apply elem_of_dom in Hd as [x Hx]. simpl in Hx. by rewrite lookup_delete_eq in Hx.
Qed.
End Properties.

(** * Examples *)

Section Examples.
#[local] Existing Instance canonical_range.
#[local] Existing Instance ex_json.
#[local] Existing Instance ex_writer.

Definition ex_streams : GrpcStreams := {| Send := λ _ _ _, None |}.
#[local] Existing Instance ex_streams.

(** The store of [SessionStore.v], with both hubs connected and a quota of 2. *)
Definition ex_server : pushServer (list string) := {|
  sessionQuota := 2; eventMaxSize := 1024; sessionStore := ex_store; kafkaWriter := Some [];
  hubStreams := <["a" := 10%positive]> (<["b" := 11%positive]> ∅);
  ps_heap := ex_heap; ps_attempts := [] |}.

Definition ex_online : pb_FollowerMsg pb_Session := {|
  SessionOnline := Some (ex_session "" 7 "s9" 50 0); SessionOffline := ""; SyncSessions := [];
  FollowerMsg_ServerShutdown := false; FollowerMsg_E2EMsg := None |}.

Lemma ex_server_ok : sessions_ok ex_server ∧ sids_unique (sessionStore ex_server).
Proof. split; apply (bool_decide_unpack _); vm_compute; exact I. Qed.

Definition ret_or {A} (d : A) (c : go A) : A := match c with Ret a => a | Panic _ => d end.

Lemma server_invariant_witness :
  let s := newPushServer (Some []) 2 1024 in
  let s1 := addStream "a" 10%positive s in
  sessions_ok (ret_or (false, s1) (Route_msg (λ _, 60%Z) "a" ex_online s1)).2.
Proof.
  intros s s1. apply (server_invariant s); [|reflexivity].
  eapply rtc_l; [apply (sv_open (Some ["a"]) 10%positive "a"); reflexivity|].
  eapply rtc_l; [apply (sv_msg (λ _, 60%Z) "a" ex_online false); vm_compute; reflexivity|].
  apply rtc_refl.
Defined.

Lemma Route_online_correct_witness :
  ∃ s', Route_msg (λ _, 60%Z) "a" ex_online ex_server = Ret (false, s').
Proof.
  destruct (Route_online_correct (λ _, 60%Z) "a" ex_online (ex_session "" 7 "s9" 50 0) ex_server)
    as (l & s1 & s' & m & new & Hr & _); [reflexivity|apply ex_server_ok..|vm_compute; discriminate| |].
  - intros hub l Hl%stored_list_elem. vm_compute in Hl.
    repeat (apply elem_of_cons in Hl as [Hl|Hl]; [discriminate|]). by apply elem_of_nil in Hl.
  - exists s'. exact Hr.
Defined.


(** User 7 has three sessions and a quota of 2: the oldest, on hub "a", is kicked
    off at time 100 and again at time 160, and stays. *)
Lemma kicked_session_survives_next_tick_witness :
  let s1 := ret_or ex_server (cleanSession_tick 100 (λ _, 100%Z) ex_server) in
  let s2 := ret_or ex_server (cleanSession_tick 160 (λ _, 160%Z) s1) in
  KickoffTime (ps_heap s2 !!! 2%positive) = 160%Z ∧ stored (sessionStore s2) "a" "s2" 2%positive.
Proof.
  intros s1 s2. split; [vm_compute; reflexivity|].
  apply (kicked_session_survives_next_tick 100 (λ _, 100%Z) ex_server s1 160 (λ _, 160%Z) s2 "a" "s2" 2%positive).
  - apply ex_server_ok.
  - apply ex_server_ok.
  - vm_compute. discriminate.
  - vm_compute. reflexivity.
  - apply stored_list_elem. apply (bool_decide_unpack _). vm_compute. exact I.
  - vm_compute. reflexivity.
  - apply (bool_decide_unpack (set_Forall (λ y, y ≠ 2%positive → CreateTime (ex_heap !!! 2%positive) <
      CreateTime (ex_heap !!! y))%Z (sessions_of ex_heap 7 (sessionStore s1)))). vm_compute. exact I.
  - vm_compute. by eexists.
  - vm_compute. split; [discriminate|reflexivity].
  - vm_compute. discriminate.
  - vm_compute. reflexivity.
Defined.

Lemma reconnect_race_witness :
  let s2 := addStream "a" 12%positive ex_server in
  hubStreams s2 !! "a" = Some 12%positive ∧
  ∀ sid l, ¬ stored (sessionStore (ret_or s2 (cleanSession_tick 150 (λ _, 150%Z) (removeStream "a" s2)))) "a" sid l.
Proof.
  intros s2.
  apply (reconnect_race (Some ["a"]) 10%positive 12%positive "a" ex_server
    (addStream "a" 10%positive ex_server) (addStream "a" 12%positive (addStream "a" 10%positive ex_server)) _
    150 (λ _, 150%Z)); vm_compute; reflexivity.
Defined.
End Examples.
