(* ===== verification/Standalone.v ===== *)
(** [cluster/standalone.go]: the single-node server.

    It keeps its own map of sessions by id, shares the session objects with the
    hub (no copy over gRPC), and talks to the hub through [sendMsgChan].  The
    specification of the quota is the one of the cluster's session store. *)

From Stdlib Require Import ZArith Lia.
From stdpp Require Import base option list numbers gmap strings pretty relations sorting.
From S2P Require Import Prelude Proto EventStore EventApi Cache Storage SessionStore PushServer.

Record Standalone (K : Type) := {
  st_sessions : gmap string loc;
  conf_SessionQuota : Z;
  conf_EventPayloadMaxBytes : Z;
  st_kafkaWriter : option K;
  st_heap : heap;                     (* the objects shared with the hub *)
  st_sent : list pb_LeaderMsg         (* the messages sent to [sendMsgChan] *)
}.
Arguments st_sessions {K} _.
Arguments conf_SessionQuota {K} _.
Arguments conf_EventPayloadMaxBytes {K} _.
Arguments st_kafkaWriter {K} _.
Arguments st_heap {K} _.
Arguments st_sent {K} _.

Section Methods.
Context `{GoRange} `{Json} {K : Type} `{IKafkaWriter K}.
Implicit Types (s : Standalone K).

Definition set_sessions (m : gmap string loc) s : Standalone K := {|
  st_sessions := m; conf_SessionQuota := conf_SessionQuota s;
  conf_EventPayloadMaxBytes := conf_EventPayloadMaxBytes s; st_kafkaWriter := st_kafkaWriter s;
  st_heap := st_heap s; st_sent := st_sent s |}.
Definition set_writer (w : option K) s : Standalone K := {|
  st_sessions := st_sessions s; conf_SessionQuota := conf_SessionQuota s;
  conf_EventPayloadMaxBytes := conf_EventPayloadMaxBytes s; st_kafkaWriter := w;
  st_heap := st_heap s; st_sent := st_sent s |}.
Definition send_kickoff (h : heap) (msg : pb_LeaderMsg) s : Standalone K := {|
  st_sessions := st_sessions s; conf_SessionQuota := conf_SessionQuota s;
  conf_EventPayloadMaxBytes := conf_EventPayloadMaxBytes s; st_kafkaWriter := st_kafkaWriter s;
  st_heap := h; st_sent := st_sent s ++ [msg] |}.

(** The kafka writer exists only with [EnableClientMsg]. *)
Definition NewStandalone (writer : option K) (EnableClientMsg : bool) (quota maxBytes : Z) (h : heap)
    : Standalone K := {|
  st_sessions := ∅; conf_SessionQuota := quota; conf_EventPayloadMaxBytes := maxBytes;
  st_kafkaWriter := if EnableClientMsg then writer else None; st_heap := h; st_sent := [] |}.

Definition addSession (sess : loc) s : Standalone K :=
  set_sessions (<[Sid (st_heap s !!! sess) := sess]> (st_sessions s)) s.

Definition addSessions (slice : list loc) s : Standalone K :=
  set_sessions (put_by_sid (st_heap s) slice (st_sessions s)) s.

Definition delSession (sid : string) s : Standalone K :=
  set_sessions (delete sid (st_sessions s)) s.

(** The loop of [kickoff]: stamp each session and collect the ids. *)
Fixpoint kickoff_sids (now : Z) (sessions : list loc) (h : heap) (sids : list string)
    : heap * list string :=
  match sessions with
  | [] => (h, sids)
  | sess :: rest =>
      let h := alter (set_KickoffTime now) sess h in
      kickoff_sids now rest h (sids ++ [Sid (h !!! sess)])
  end.

Definition Standalone_kickoff (now : Z) (sessions : list loc) s : Standalone K :=
  let '(h, sids) := kickoff_sids now sessions (st_heap s) [] in
  send_kickoff h (LeaderMsg_of_Kickoff sids) s.

Definition Standalone_getUserSessionsToKickoff (uid : Z) s : go (list loc) :=
  let slice := filter (λ l, Uid (st_heap s !!! l) = uid) (range 30 (st_sessions s)).*2 in
  over_quota (st_heap s) (conf_SessionQuota s) slice.

(** The last loop of [cleanSession]. *)
Fixpoint cleanSession_kickoff (h : heap) (quota : Z) (users : list (Z * list loc)) (kickoff : list loc)
    : go (list loc) :=
  match users with
  | [] => Ret kickoff
  | (_, slice) :: rest =>
      let! oldest := over_quota h quota slice in
      cleanSession_kickoff h quota rest (kickoff ++ oldest)
  end.

Definition sidsToDelete (now : Z) s : list string :=
  (λ l, Sid (st_heap s !!! l)) <$>
  filter (λ l, kickoff_expired now (st_heap s !!! l) = true) (range 31 (st_sessions s)).*2.

Definition cleanSession (now : Z) s : go (list loc * Standalone K) :=
  let s := set_sessions (foldl (λ m sid, delete sid m) (st_sessions s) (sidsToDelete now s)) s in
  let userSessions := group_by_uid (st_heap s) (range 32 (st_sessions s)).*2 in
  let! kickoff := cleanSession_kickoff (st_heap s) (conf_SessionQuota s) (range 33 userSessions) [] in
  Ret (kickoff, s).

(** [if v := ...; len(v) > 0 { s.kickoff(v) }] *)
Definition Standalone_kickoff_if_any (now : Z) (sessions : list loc) s : Standalone K :=
  if bool_decide (0 < length sessions) then Standalone_kickoff now sessions s else s.

(** The [select] of [Run]: a tick of the cleaner, *)
Definition Run_tick (t now : Z) s : go (Standalone K) :=
  let! r := cleanSession t s in
  Ret (Standalone_kickoff_if_any now r.1 r.2).

(** and a message of the hub; the result says whether the loop returns. *)
Definition Run_msg (now : Z) (msg : pb_FollowerMsg loc) s : go (bool * Standalone K) :=
  match SessionOnline msg with
  | Some v =>
      let s := addSession v s in
      let! sessions := Standalone_getUserSessionsToKickoff (Uid (st_heap s !!! v)) s in
      Ret (false, Standalone_kickoff_if_any now sessions s)
  | None =>
  if negb (bool_decide (SessionOffline msg = "")) then Ret (false, delSession (SessionOffline msg) s)
  else if bool_decide (0 < length (SyncSessions msg)) then Ret (false, addSessions (SyncSessions msg) s)
  else match FollowerMsg_E2EMsg msg with
  | Some v =>
      let! r := saveE2eMsg (st_kafkaWriter s) v (conf_EventPayloadMaxBytes s) in
      Ret (false, set_writer r.2 s)
  | None =>
  if FollowerMsg_ServerShutdown msg then Ret (true, s)
  else Panic "unknown hub message"
  end
  end.
End Methods.

(** * Specification *)

(** Every pointer of the map reaches a session with that id. *)
Definition sessions_filed (h : heap) (m : gmap string loc) : Prop :=
  ∀ sid l, m !! sid = Some l → ∃ sess, h !! l = Some sess ∧ Sid sess = sid.

Definition my_sessions {K} (uid : Z) (s : Standalone K) : gset loc :=
  filter (λ l, Uid (st_heap s !!! l) = uid) (map_img (st_sessions s)).

(** What [kickoff] does: one message names exactly the chosen sessions, and
    exactly these are stamped. *)
Record announced_kickoff {K} (now : Z) (chosen : list loc) (s s' : Standalone K) : Prop := {
  ak_sessions : st_sessions s' = st_sessions s;
  ak_sent : st_sent s' = st_sent s ++
    (if chosen is [] then [] else [LeaderMsg_of_Kickoff ((λ l, Sid (st_heap s !!! l)) <$> chosen)]);
  ak_heap : ∀ l, st_heap s' !! l =
    if decide (l ∈ chosen) then set_KickoffTime now <$> st_heap s !! l else st_heap s !! l
}.

Section Lemmas.
Context `{GoRange} `{Json} {K : Type} `{IKafkaWriter K}.
Implicit Types (s : Standalone K).

Lemma Sid_stamp now (h : heap) (x l : loc) : Sid (alter (set_KickoffTime now) x h !!! l) = Sid (h !!! l).
Proof.
  rewrite !lookup_total_alt, lookup_alter. case_decide as Hd; [subst|done]. by destruct (h !! l).
Qed.

Lemma kickoff_sids_spec now sessions h sids :
  let '(h', sids') := kickoff_sids now sessions h sids in
  sids' = sids ++ ((λ l, Sid (h !!! l)) <$> sessions) ∧
  ∀ l, h' !! l = if decide (l ∈ sessions) then set_KickoffTime now <$> h !! l else h !! l.
Proof.
  revert h sids. induction sessions as [|x sessions IH]; intros h sids; cbn [kickoff_sids].
  { rewrite app_nil_r. split; [done|]. intros l. rewrite decide_False; [done|]. apply not_elem_of_nil. }
  set (h1 := alter (set_KickoffTime now) x h). specialize (IH h1 (sids ++ [Sid (h1 !!! x)])).
  destruct (kickoff_sids _ _ _ _) as [h' sids']. destruct IH as [-> Hh]. split.
  - rewrite <-app_assoc. simpl. f_equal. unfold h1. rewrite Sid_stamp. f_equal.
    apply list_fmap_ext. intros _ l _. apply Sid_stamp.
  - intros l. rewrite Hh. unfold h1. rewrite lookup_alter.
    destruct (decide (x = l)) as [->|Hne].
    + rewrite (decide_True (P := l ∈ l :: _)) by (by left). case_decide; [|done]. by destruct (h !! l).
    + apply decide_ext. set_solver.
Qed.

Lemma kickoff_if_any_announces now chosen s :
  announced_kickoff now chosen s (Standalone_kickoff_if_any now chosen s).
Proof.
  unfold Standalone_kickoff_if_any, Standalone_kickoff.
  destruct chosen as [|x chosen].
  { split; [done|by rewrite app_nil_r|]. intros l. rewrite decide_False; [done|]. apply not_elem_of_nil. }
  rewrite bool_decide_eq_true_2 by (simpl; lia).
  pose proof (kickoff_sids_spec now (x :: chosen) (st_heap s) []) as Hk.
  destruct (kickoff_sids _ _ _ _) as [h sids]. destruct Hk as [-> Hh]. split; done.
Qed.

Lemma filed_NoDup i h m : sessions_filed h m → NoDup (range i m).*2.
Proof.
  intros Hf. apply NoDup_fmap_2_strong.
  - intros [sid1 l1] [sid2 l2] (a & Ha & <-)%range_elem%Hf (b & Hb & <-)%range_elem%Hf Heq.
    simpl in *. by simplify_eq.
  - eapply (NoDup_fmap_1 fst). apply range_NoDup_fst.
Qed.

Lemma filed_img i (m : gmap string loc) l : l ∈ (range i m).*2 ↔ l ∈ map_img (SA := gset loc) m.
Proof.
  rewrite elem_of_map_img, list_elem_of_fmap. split.
  - intros ([sid l'] & -> & Hl%range_elem). eauto.
  - intros [sid Hl]. exists (sid, l). by rewrite range_elem.
Qed.

Lemma my_slice i uid s :
  list_to_set (filter (λ l, Uid (st_heap s !!! l) = uid) (range i (st_sessions s)).*2) = my_sessions uid s.
Proof.
  apply leibniz_equiv. intros l. unfold my_sessions.
  by rewrite elem_of_list_to_set, list_elem_of_filter, elem_of_filter, filed_img.
Qed.

Lemma foldl_delete_sids (sids : list string) (m : gmap string loc) sid :
  foldl (λ m sid, delete sid m) m sids !! sid = if decide (sid ∈ sids) then None else m !! sid.
Proof.
  revert m. induction sids as [|x sids IH]; intros m; [by rewrite decide_False by apply not_elem_of_nil|].
  simpl foldl. rewrite IH. destruct (decide (sid ∈ sids)).
  - by rewrite decide_True by (by right).
  - destruct (decide (sid = x)) as [->|Hne].
    + rewrite lookup_delete_eq. by rewrite decide_True by (by left).
    + rewrite lookup_delete_ne by done. rewrite decide_False by set_solver. done.
Qed.

(** The map after the deletions of [cleanSession]. *)
Definition swept (now : Z) s : gmap string loc :=
  foldl (λ m sid, delete sid m) (st_sessions s) (sidsToDelete now s).

Lemma swept_lookup now s sid :
  sessions_filed (st_heap s) (st_sessions s) →
  swept now s !! sid =
  match st_sessions s !! sid with
  | Some l => if kickoff_expired now (st_heap s !!! l) then None else Some l
  | None => None
  end.
Proof.
  intros Hf. unfold swept, sidsToDelete. rewrite foldl_delete_sids.
  assert (Hsid : ∀ sid l, st_sessions s !! sid = Some l → Sid (st_heap s !!! l) = sid).
  { intros sid' l (a & Ha & <-)%Hf. by rewrite (lookup_total_correct _ _ _ Ha). }
  destruct (st_sessions s !! sid) as [l|] eqn:Hl; [|by case_decide].
  destruct (kickoff_expired now (st_heap s !!! l)) eqn:Hx.
  - rewrite decide_True; [done|]. apply list_elem_of_fmap. exists l. split; [symmetry; by apply Hsid|].
    apply list_elem_of_filter. split; [done|]. apply filed_img, elem_of_map_img. eauto.
  - rewrite decide_False; [done|]. intros (l' & Hs & Hin)%list_elem_of_fmap.
    apply list_elem_of_filter in Hin as [Hx' Hin]. apply filed_img, elem_of_map_img in Hin as [sid' Hl'].
    rewrite (Hsid _ _ Hl') in Hs. subst sid'. simplify_eq. congruence.
Qed.

Lemma swept_filed now s :
  sessions_filed (st_heap s) (st_sessions s) → sessions_filed (st_heap s) (swept now s).
Proof.
  intros Hf sid l. rewrite swept_lookup by done. intros Hl. apply Hf.
  destruct (st_sessions s !! sid) as [l'|]; [|done]. by destruct (kickoff_expired _ _); simplify_eq.
Qed.

(** The last loop of [cleanSession] collects the choice for each user. *)
Lemma cleanSession_kickoff_spec h quota (all : list loc) users acc :
  (0 ≤ quota)%Z → NoDup all → NoDup users.*1 →
  (∀ u slice, (u, slice) ∈ users → slice = filter (λ x, Uid (h !!! x) = u) all) →
  ∃ chosen, cleanSession_kickoff h quota users acc = Ret (acc ++ chosen) ∧ NoDup chosen ∧
    (∀ x, x ∈ chosen → x ∈ all ∧ Uid (h !!! x) ∈ users.*1) ∧
    ∀ u, u ∈ users.*1 → quota_selection h (list_to_set (filter (λ x, Uid (h !!! x) = u) all)) quota
      (list_to_set (filter (λ x, Uid (h !!! x) = u) chosen)).
Proof.
  intros Hq Hnd. revert acc. induction users as [|[u slice] users IH]; intros acc Hndu Hus.
  { exists []. rewrite app_nil_r. split_and!; [done|constructor|set_solver|set_solver]. }
  cbn [fmap list_fmap fst] in *. apply NoDup_cons in Hndu as [Hu Hndu]. simpl cleanSession_kickoff.
  pose proof (Hus u slice ltac:(by left)) as Hslice.
  destruct (over_quota_spec h quota slice) as (oldest & -> & Hndo & Hsel).
  { rewrite Hslice. by apply NoDup_filter. }
  { done. }
  simpl go_bind. destruct (IH (acc ++ oldest)) as (chosen & Hrun & Hndc & Hin & Hchosen); [done| |].
  { intros. apply Hus. by right. }
  assert (Hold : ∀ x, x ∈ oldest → x ∈ all ∧ Uid (h !!! x) = u).
  { intros x Hx. pose proof (qs_subset _ _ _ _ Hsel x) as Hs. rewrite !elem_of_list_to_set in Hs.
    specialize (Hs Hx). rewrite Hslice, list_elem_of_filter in Hs. tauto. }
  exists (oldest ++ chosen). rewrite app_assoc. split_and!; [done| | |].
  - apply NoDup_app. split_and!; [done| |done]. intros x Hx Hc. apply Hold in Hx as [_ <-].
    by apply Hin in Hc as [_ ?].
  - intros x [Hx|Hx]%elem_of_app; [apply Hold in Hx as [? <-]; set_solver|]. apply Hin in Hx. set_solver.
  - intros u'. rewrite filter_app. intros [->|Hu']%elem_of_cons.
    + assert (Hnil : filter (λ x, Uid (h !!! x) = u) chosen = []).
      { apply list_filter_nil. intros x Hx Heq. apply Hin in Hx as [_ Hx]. by rewrite Heq in Hx. }
      assert (Hall : filter (λ x, Uid (h !!! x) = u) oldest = oldest).
      { apply list_filter_all. intros x Hx. by apply Hold. }
      rewrite Hnil, Hall, app_nil_r, <-Hslice. done.
    + assert (Hnil : filter (λ x, Uid (h !!! x) = u') oldest = []).
      { apply list_filter_nil. intros x Hx Heq. apply Hold in Hx as [_ ?]. congruence. }
      rewrite Hnil. by apply Hchosen.
Qed.

Lemma cleanSession_spec now s :
  sessions_filed (st_heap s) (st_sessions s) → (0 ≤ conf_SessionQuota s)%Z →
  ∃ chosen, cleanSession now s = Ret (chosen, set_sessions (swept now s) s) ∧ NoDup chosen ∧
    ∀ u, quota_selection (st_heap s) (my_sessions u (set_sessions (swept now s) s)) (conf_SessionQuota s)
      (list_to_set (filter (λ x, Uid (st_heap s !!! x) = u) chosen)).
Proof.
  intros Hf Hq. unfold cleanSession. fold (swept now s). set (s1 := set_sessions (swept now s) s).
  set (all := (range 32 (st_sessions s1)).*2).
  assert (Hnd : NoDup all) by (apply (filed_NoDup 32 (st_heap s)); by apply swept_filed).
  destruct (cleanSession_kickoff_spec (st_heap s) (conf_SessionQuota s) all
    (range 33 (group_by_uid (st_heap s) all)) []) as (chosen & Hrun & Hndc & Hin & Hsel); [done|done| | |].
  { apply range_NoDup_fst. }
  { intros u slice Hu. by apply range_users in Hu as [-> _]. }
  exists chosen. change (st_heap s1) with (st_heap s). change (conf_SessionQuota s1) with (conf_SessionQuota s).
  rewrite Hrun. split_and!; [done|done|]. intros u. rewrite <-(my_slice 32). fold all.
  destruct (decide (u ∈ (range 33 (group_by_uid (st_heap s) all)).*1)) as [?|Hn]; [by apply Hsel|].
  assert (Hnil : filter (λ x, Uid (st_heap s !!! x) = u) all = []).
  { destruct (filter _ all) as [|x k] eqn:E; [done|]. destruct Hn.
    apply list_elem_of_fmap. exists (u, x :: k). split; [done|]. apply range_elem.
    by rewrite group_by_uid_lookup, E. }
  assert (Hnil' : filter (λ x, Uid (st_heap s !!! x) = u) chosen = []).
  { apply list_filter_nil. intros x Hx Heq. apply Hin in Hx as [Hx _].
    assert (Hx' : x ∈ filter (λ y, Uid (st_heap s !!! y) = u) all) by (by apply list_elem_of_filter).
    rewrite Hnil in Hx'. by apply elem_of_nil in Hx'. }
  change (st_heap s1) with (st_heap s). rewrite Hnil, Hnil'. split; [set_solver| |set_solver].
  change (list_to_set [] : gset loc) with (∅ : gset loc). rewrite size_empty. lia.
Qed.
End Lemmas.

(** * Properties *)

Section Properties.
Context `{GoRange} `{Json} {K : Type} `{IKafkaWriter K}.
Implicit Types (s : Standalone K).

(** The standalone server enforces the quota when a session comes online: it
    never panics, files the session, chooses the oldest sessions of that user
    beyond the quota, and one message to the hub names exactly these. *)
Theorem Run_online_correct now msg v sess s :
  SessionOnline msg = Some v → st_heap s !! v = Some sess →
  sessions_filed (st_heap s) (st_sessions s) → (0 ≤ conf_SessionQuota s)%Z →
  ∃ chosen s1 s', Run_msg now msg s = Ret (false, s') ∧
    s1 = set_sessions (<[Sid sess := v]> (st_sessions s)) s ∧
    sessions_filed (st_heap s') (st_sessions s') ∧ NoDup chosen ∧
    quota_selection (st_heap s) (my_sessions (Uid sess) s1) (conf_SessionQuota s) (list_to_set chosen) ∧
    announced_kickoff now chosen s1 s'.
Proof.
  intros Hmsg Hv Hf Hq. pose proof (lookup_total_correct _ _ _ Hv) as Htot.
  set (s1 := set_sessions (<[Sid sess := v]> (st_sessions s)) s).
  assert (Hadd : addSession v s = s1) by (unfold addSession; by rewrite Htot).
  unfold Run_msg. rewrite Hmsg. cbv zeta. rewrite Hadd.
  assert (Hf1 : sessions_filed (st_heap s) (st_sessions s1)).
  { intros sid l. simpl. intros [[<- <-]|[_ Hl]]%lookup_insert_Some; [by exists sess|by apply Hf]. }
  unfold Standalone_getUserSessionsToKickoff.
  change (st_heap s1) with (st_heap s). rewrite Htot.
  destruct (over_quota_spec (st_heap s) (conf_SessionQuota s1)
    (filter (λ l, Uid (st_heap s !!! l) = Uid sess) (range 30 (st_sessions s1)).*2)) as (chosen & -> & Hnd & Hsel).
  { by apply NoDup_filter, (filed_NoDup 30 (st_heap s)). }
  { done. }
  pose proof (my_slice 30 (Uid sess) s1) as Hmine. change (st_heap s1) with (st_heap s) in Hmine. rewrite Hmine in Hsel.
  pose proof (kickoff_if_any_announces now chosen s1) as Hann.
  exists chosen, s1. eexists. split_and!; [done|done| |done|done|done].
  destruct Hann as [-> _ Hheap]. intros sid l (a & Ha & <-)%Hf1. rewrite Hheap.
  change (st_heap s1) with (st_heap s). rewrite Ha. case_decide; simpl; by eexists.
Qed.

(** The standalone cleaner: it never panics, removes exactly the sessions
    kicked off more than a minute ago, and chooses for every user the oldest
    remaining sessions beyond the quota, named in one message to the hub. *)
Theorem Run_tick_correct t now s :
  sessions_filed (st_heap s) (st_sessions s) → (0 ≤ conf_SessionQuota s)%Z →
  ∃ chosen s1 s', Run_tick t now s = Ret s' ∧ s1 = set_sessions (st_sessions s1) s ∧
    (∀ sid l, st_sessions s1 !! sid = Some l ↔
       st_sessions s !! sid = Some l ∧ kickoff_expired t (st_heap s !!! l) = false) ∧
    (∀ u, quota_selection (st_heap s) (my_sessions u s1) (conf_SessionQuota s)
            (list_to_set (filter (λ x, Uid (st_heap s !!! x) = u) chosen))) ∧
    announced_kickoff now chosen s1 s'.
Proof.
  intros Hf Hq. unfold Run_tick. destruct (cleanSession_spec t s Hf Hq) as (chosen & -> & Hnd & Hsel).
  simpl go_bind. set (s1 := set_sessions (swept t s) s).
  exists chosen, s1, (Standalone_kickoff_if_any now chosen s1). split_and!; [done|done| |done|].
  - intros sid l. simpl. rewrite swept_lookup by done. split.
    + destruct (st_sessions s !! sid) as [l'|]; [|done].
      destruct (kickoff_expired t (st_heap s !!! l')) eqn:E; [done|]. by intros [= <-].
    + by intros [-> ->].
  - apply kickoff_if_any_announces.
Qed.

(** C25: standalone and one-node cluster agree. From a session store with one
    connected hub that holds the same sessions, garbage collection of the
    cluster's store and [cleanSession] leave the same sessions. *)
Theorem standalone_matches_cluster hub now s st m st' chosen s' :
  kv st = {[hub := st_sessions s]} → sessions_filed (st_heap s) (st_sessions s) →
  SessionStore_gc {[hub]} (conf_SessionQuota s) now (st_heap s) st = Ret (m, st') →
  cleanSession now s = Ret (chosen, s') →
  kv st' = {[hub := st_sessions s']}.
Proof.
  intros Hkv Hf Hgc Hclean. unfold SessionStore_gc in Hgc.
  destruct (gc_kickoff _ _ _ _) as [m'|]; [|done]. injection Hgc as _ <-.
  unfold cleanSession in Hclean. fold (swept now s) in Hclean.
  destruct (cleanSession_kickoff _ _ _ _) as [k|]; [|done]. injection Hclean as _ <-.
  apply map_eq. intros x. rewrite gc_sweep_lookup, Hkv. simpl.
  destruct (decide (x = hub)) as [->|Hne].
  - rewrite decide_True by set_solver. rewrite !lookup_singleton_eq. simpl. f_equal.
    apply map_eq. intros sid. by rewrite gc_hub_lookup, swept_lookup.
  - rewrite decide_False by set_solver. by rewrite lookup_singleton_ne.
Qed.
End Properties.

(** * Examples *)

Section Examples.
#[local] Existing Instance canonical_range.
#[local] Existing Instance ex_json.
#[local] Existing Instance ex_writer.

Definition ex_standalone : Standalone (list string) := {|
  st_sessions := list_to_map [("s1", 1%positive); ("s2", 2%positive); ("s4", 4%positive)];
  conf_SessionQuota := 1; conf_EventPayloadMaxBytes := 1024; st_kafkaWriter := None;
  st_heap := ex_heap; st_sent := [] |}.

Definition ex_local : pb_FollowerMsg loc := {|
  SessionOnline := Some 3%positive; SessionOffline := ""; SyncSessions := [];
  FollowerMsg_ServerShutdown := false; FollowerMsg_E2EMsg := None |}.

Lemma ex_standalone_filed : sessions_filed (st_heap ex_standalone) (st_sessions ex_standalone).
Proof.
  intros sid l Hl%elem_of_map_to_list. vm_compute in Hl.
  repeat (apply elem_of_cons in Hl as [[= -> ->]|Hl]; [vm_compute; eauto|]). by apply elem_of_nil in Hl.
Qed.

Lemma Run_online_correct_witness :
  ∃ s', Run_msg 60 ex_local ex_standalone = Ret (false, s').
Proof.
  destruct (Run_online_correct 60 ex_local 3%positive (ex_session "b" 7 "s3" 20 100) ex_standalone)
    as (chosen & s1 & s' & Hr & _); [reflexivity|reflexivity|apply ex_standalone_filed|vm_compute; discriminate|].
  exists s'. exact Hr.
Defined.

Lemma Run_tick_correct_witness : ∃ s', Run_tick 161 161 ex_standalone = Ret s'.
Proof.
  destruct (Run_tick_correct 161 161 ex_standalone) as (chosen & s1 & s' & Hr & _);
    [apply ex_standalone_filed|vm_compute; discriminate|].
  exists s'. exact Hr.
Defined.

Lemma standalone_matches_cluster_witness :
  let st := {| kv := {["a" := st_sessions ex_standalone]} |} in
  kv (ret_or (∅, st) (SessionStore_gc {["a"]} 1 161 ex_heap st)).2 =
  {["a" := st_sessions (ret_or ([], ex_standalone) (cleanSession 161 ex_standalone)).2]}.
Proof.
  intros st.
  apply (standalone_matches_cluster "a" 161 ex_standalone st
    (ret_or (∅, st) (SessionStore_gc {["a"]} 1 161 ex_heap st)).1 _
    (ret_or ([], ex_standalone) (cleanSession 161 ex_standalone)).1);
    [reflexivity|apply ex_standalone_filed|vm_compute; reflexivity|vm_compute; reflexivity].
Defined.
End Examples.
