(* ===== verification/Hub.v ===== *)
(** [ws/hstore.go], [ws/hub.go] and [ws/handler.go]: the hub and its websocket
    handlers.

    A handler is a shared object: the hub, its two goroutines ([recvLoop] and
    [sendLoop]) and the close callback of the connection reach it through one
    pointer.  [dataChan] is a bounded channel: a send on a full one waits, a send
    on a closed one panics.  A hub operation returns [Ret None] when it waits. *)

From Stdlib Require Import ZArith Lia.
From stdpp Require Import base option list numbers gmap strings pretty relations sorting.
From S2P Require Import Prelude Proto EventStore EventApi SessionStore.

(** * Data *)

Definition ReadError : Z := 1%Z.
Definition WriteError : Z := 2%Z.
Definition PingError : Z := 3%Z.
Definition BadRequest : Z := 4%Z.
Definition ServerStop : Z := 5%Z.
Definition KickedOff : Z := 6%Z.

Record SessionData := {
  sd_Error : Z;
  sd_ServerMsg : option pb_ServerMsg
}.

Definition data_error (cause : Z) : SessionData := {| sd_Error := cause; sd_ServerMsg := None |}.
Definition data_msg (msg : pb_ServerMsg) : SessionData := {| sd_Error := 0; sd_ServerMsg := Some msg |}.

(** [&pb.ServerMsg{...}] with one field set. *)
Definition ServerMsg_of_Error (e : pb_Error) : pb_ServerMsg := {|
  ServerMsg_Error := Some e; ServerMsg_HeadSeq := 0; ServerMsg_Kickoff := false; ServerMsg_Stats := None;
  ServerMsg_GetEvents := None; ServerMsg_GetReadStates := None; ServerMsg_SetRead := None |}.
Definition ServerMsg_of_HeadSeq (seq : Z) : pb_ServerMsg := {|
  ServerMsg_Error := None; ServerMsg_HeadSeq := seq; ServerMsg_Kickoff := false; ServerMsg_Stats := None;
  ServerMsg_GetEvents := None; ServerMsg_GetReadStates := None; ServerMsg_SetRead := None |}.
Definition ServerMsg_of_Kickoff : pb_ServerMsg := {|
  ServerMsg_Error := None; ServerMsg_HeadSeq := 0; ServerMsg_Kickoff := true; ServerMsg_Stats := None;
  ServerMsg_GetEvents := None; ServerMsg_GetReadStates := None; ServerMsg_SetRead := None |}.
Definition ServerMsg_of_Stats (r : pb_StatsResp) : pb_ServerMsg := {|
  ServerMsg_Error := None; ServerMsg_HeadSeq := 0; ServerMsg_Kickoff := false; ServerMsg_Stats := Some r;
  ServerMsg_GetEvents := None; ServerMsg_GetReadStates := None; ServerMsg_SetRead := None |}.
Definition ServerMsg_of_GetEvents (r : pb_GetEventsResp) : pb_ServerMsg := {|
  ServerMsg_Error := None; ServerMsg_HeadSeq := 0; ServerMsg_Kickoff := false; ServerMsg_Stats := None;
  ServerMsg_GetEvents := Some r; ServerMsg_GetReadStates := None; ServerMsg_SetRead := None |}.
Definition ServerMsg_of_GetReadStates (r : pb_GetReadStatesResp) : pb_ServerMsg := {|
  ServerMsg_Error := None; ServerMsg_HeadSeq := 0; ServerMsg_Kickoff := false; ServerMsg_Stats := None;
  ServerMsg_GetEvents := None; ServerMsg_GetReadStates := Some r; ServerMsg_SetRead := None |}.
Definition ServerMsg_of_SetRead (r : pb_SetReadResp) : pb_ServerMsg := {|
  ServerMsg_Error := None; ServerMsg_HeadSeq := 0; ServerMsg_Kickoff := false; ServerMsg_Stats := None;
  ServerMsg_GetEvents := None; ServerMsg_GetReadStates := None; ServerMsg_SetRead := Some r |}.

(** [make(chan *SessionData, 16)] *)
Definition dataChan_cap : nat := 16.

Record Handler := {
  session : loc;
  dataChan : list SessionData;   (* the buffered values, oldest first *)
  chan_closed : bool;            (* [close(h.dataChan)] has run *)
  closing : bool;
  recv_exited : bool;            (* [recvLoop] has returned *)
  send_exited : bool;            (* [sendLoop] has returned *)
  written : list pb_ServerMsg    (* the messages written to the connection *)
}.

Record Hub := {
  wsConf : pb_WsConf;
  handlers : gmap string loc;          (* [hstore.handlers] *)
  hobjs : gmap positive Handler;       (* the handler objects *)
  hsess : heap;                        (* the session objects *)
  followerC : list (pb_FollowerMsg positive);  (* the messages sent to the leader *)
  online : bool
}.

Definition upd_handler (l : loc) (f : Handler → Handler) (h : Hub) : Hub := {|
  wsConf := wsConf h; handlers := handlers h; hobjs := alter f l (hobjs h); hsess := hsess h;
  followerC := followerC h; online := online h |}.
Definition upd_handlers (m : gmap string loc) (h : Hub) : Hub := {|
  wsConf := wsConf h; handlers := m; hobjs := hobjs h; hsess := hsess h;
  followerC := followerC h; online := online h |}.
Definition tell_leader (msg : pb_FollowerMsg loc) (h : Hub) : Hub := {|
  wsConf := wsConf h; handlers := handlers h; hobjs := hobjs h; hsess := hsess h;
  followerC := followerC h ++ [msg]; online := online h |}.
Definition set_online (b : bool) (h : Hub) : Hub := {|
  wsConf := wsConf h; handlers := handlers h; hobjs := hobjs h; hsess := hsess h;
  followerC := followerC h; online := b |}.

Definition with_dataChan (d : list SessionData) (x : Handler) : Handler := {|
  session := session x; dataChan := d; chan_closed := chan_closed x; closing := closing x;
  recv_exited := recv_exited x; send_exited := send_exited x; written := written x |}.
Definition with_closed (x : Handler) : Handler := {|
  session := session x; dataChan := dataChan x; chan_closed := true; closing := true;
  recv_exited := recv_exited x; send_exited := send_exited x; written := written x |}.
Definition with_recv_exited (x : Handler) : Handler := {|
  session := session x; dataChan := dataChan x; chan_closed := chan_closed x; closing := closing x;
  recv_exited := true; send_exited := send_exited x; written := written x |}.
Definition with_send_exited (x : Handler) : Handler := {|
  session := session x; dataChan := dataChan x; chan_closed := chan_closed x; closing := closing x;
  recv_exited := recv_exited x; send_exited := true; written := written x |}.
Definition with_written (m : pb_ServerMsg) (x : Handler) : Handler := {|
  session := session x; dataChan := dataChan x; chan_closed := chan_closed x; closing := closing x;
  recv_exited := recv_exited x; send_exited := send_exited x; written := written x ++ [m] |}.

(** [&pb.FollowerMsg{...}] with one field set. *)
Definition FollowerMsg_of_Online (sess : loc) : pb_FollowerMsg loc := {|
  SessionOnline := Some sess; SessionOffline := ""; SyncSessions := [];
  FollowerMsg_ServerShutdown := false; FollowerMsg_E2EMsg := None |}.
Definition FollowerMsg_of_Offline (sid : string) : pb_FollowerMsg loc := {|
  SessionOnline := None; SessionOffline := sid; SyncSessions := [];
  FollowerMsg_ServerShutdown := false; FollowerMsg_E2EMsg := None |}.
Definition FollowerMsg_of_Sync (l : list loc) : pb_FollowerMsg loc := {|
  SessionOnline := None; SessionOffline := ""; SyncSessions := l;
  FollowerMsg_ServerShutdown := false; FollowerMsg_E2EMsg := None |}.
Definition FollowerMsg_of_E2EMsg (m : pb_E2EMsg) : pb_FollowerMsg loc := {|
  SessionOnline := None; SessionOffline := ""; SyncSessions := [];
  FollowerMsg_ServerShutdown := false; FollowerMsg_E2EMsg := Some m |}.

(** A hub operation: it returns, waits ([Ret None]) or panics. *)
Definition hub_bind (c : go (option Hub)) (k : Hub → go (option Hub)) : go (option Hub) :=
  match c with
  | Ret (Some h) => k h
  | Ret None => Ret None
  | Panic w => Panic w
  end.

Fixpoint hub_each {A} (f : A → Hub → go (option Hub)) (l : list A) (h : Hub) : go (option Hub) :=
  match l with
  | [] => Ret (Some h)
  | a :: rest => hub_bind (f a h) (hub_each f rest)
  end.

Section Hub.
Context `{GoRange}.
Implicit Types (h : Hub).

(** * hstore.go *)

Definition HandlerStore_get (sid : string) h : option loc := handlers h !! sid.

Definition HandlerStore_del (sid : string) h : bool * Hub :=
  match handlers h !! sid with
  | Some _ => (true, upd_handlers (delete sid (handlers h)) h)
  | None => (false, h)
  end.

(** [handler.session.Sid]: a pointer to no object would be a nil dereference. *)
Definition handler_session (l : loc) h : pb_Session :=
  match hobjs h !! l with Some x => hsess h !!! session x | None => Session_zero end.

Definition HandlerStore_add (handler : loc) h : Hub :=
  upd_handlers (<[Sid (handler_session handler h) := handler]> (handlers h)) h.

Definition HandlerStore_getByUid (uid : Z) h : list loc :=
  filter (λ l, Uid (handler_session l h) = uid) (range 40 (handlers h)).*2.

Definition shallowCopySessions h : list loc :=
  omap (λ l, session <$> hobjs h !! l) (range 41 (handlers h)).*2.

(** * Handler *)

Definition delHandler (sid : string) h : Hub :=
  let '(ok, h) := HandlerStore_del sid h in
  if ok then tell_leader (FollowerMsg_of_Offline sid) h else h.

(** [close]: the lock makes it atomic; the connection's own errors are ignored. *)
Definition Handler_close (cause : Z) (l : loc) h : go (option Hub) :=
  match hobjs h !! l with
  | None => Panic "invalid memory address or nil pointer dereference"
  | Some x =>
      if closing x then Ret (Some h)
      else if chan_closed x then Panic "close of closed channel"
      else
        let h := upd_handler l with_closed h in
        Ret (Some (if bool_decide (cause = ServerStop) then h
                   else delHandler (Sid (hsess h !!! session x)) h))
  end.

Definition appendDataChan (v : SessionData) (l : loc) h : go (option Hub) :=
  match hobjs h !! l with
  | None => Panic "invalid memory address or nil pointer dereference"
  | Some x =>
      if closing x then Ret (Some h)
      else if chan_closed x then Panic "send on closed channel"
      else if bool_decide (length (dataChan x) < dataChan_cap)
      then Ret (Some (upd_handler l (with_dataChan (dataChan x ++ [v])) h))
      else Ret None
  end.

(** * hub.go *)

Definition addHandler (handler : loc) h : Hub :=
  let h := HandlerStore_add handler h in
  match hobjs h !! handler with
  | Some x => tell_leader (FollowerMsg_of_Online (session x)) h
  | None => h
  end.

Definition routeClientMsg (msg : pb_E2EMsg) h : Hub := tell_leader (FollowerMsg_of_E2EMsg msg) h.

(** The loop [for i := 0; i < size; i += batch] of [Online]. *)
Fixpoint sync_batches (fuel : nat) (sessions : list loc) : list (list loc) :=
  match fuel, sessions with
  | S fuel, _ :: _ => take 1000 sessions :: sync_batches fuel (drop 1000 sessions)
  | _, _ => []
  end.

Definition Online h : Hub :=
  let h := set_online true h in
  let sessions := shallowCopySessions h in
  foldl (λ h b, tell_leader (FollowerMsg_of_Sync b) h) h (sync_batches (length sessions) sessions).

Definition Offline h : Hub := set_online false h.

Definition Hub_Kickoff (sid : string) h : go (option Hub) :=
  match HandlerStore_get sid h with
  | Some s =>
      hub_bind (appendDataChan (data_msg ServerMsg_of_Kickoff) s h)
               (λ h, Ret (Some (HandlerStore_del sid h).2))
  | None => Ret (Some h)
  end.

(** The reaction of [Run] to one message of the leader. *)
Definition Hub_Run_msg (msg : pb_LeaderMsg) h : go (option Hub) :=
  if bool_decide (0 < length (LeaderMsg_Kickoff msg)) then
    hub_each Hub_Kickoff (LeaderMsg_Kickoff msg) h
  else if bool_decide (0 < size (LeaderMsg_HeadSeq msg)) then
    hub_each (λ us h, hub_each (appendDataChan (data_msg (ServerMsg_of_HeadSeq us.2)))
                               (HandlerStore_getByUid us.1 h) h)
             (range 42 (LeaderMsg_HeadSeq msg)) h
  else Ret (Some h).

(** [ctx.Done()] in [Run]: [hstore.close()]. *)
Definition HandlerStore_close h : go (option Hub) :=
  hub_each (Handler_close ServerStop) (range 43 (handlers h)).*2 h.

(** [ServeHTTP] after a successful authentication and upgrade: the new session
    and its handler are fresh objects. *)
Definition new_handler (sess : loc) : Handler := {|
  session := sess; dataChan := []; chan_closed := false; closing := false;
  recv_exited := false; send_exited := false; written := [] |}.

(** The HTTP status of a refused request. *)
Inductive serve_result :=
| ServeStatus (code : Z)
| UpgradeFailed
| Serving (handler : loc).

Definition ServeHTTP (auth : option Z) (upgrade : bool) (uuid ip : string) (now : Z) h
    : serve_result * Hub :=
  if negb (online h) then (ServeStatus 503, h)
  else match auth with
  | None => (ServeStatus 403, h)
  | Some uid =>
      if negb upgrade then (UpgradeFailed, h)
      else
        let sl := fresh (dom (hsess h)) in
        let hl := fresh (dom (hobjs h)) in
        let sess := {| HubId := ""; Uid := uid; Sid := uuid; Ip := ip; CreateTime := now; KickoffTime := 0 |} in
        let h := {| wsConf := wsConf h; handlers := handlers h;
                    hobjs := <[hl := new_handler sl]> (hobjs h); hsess := <[sl := sess]> (hsess h);
                    followerC := followerC h; online := online h |} in
        (Serving hl, addHandler hl h)
  end.

(** The close callback of the connection. *)
Definition peer_close (l : loc) h : Hub := delHandler (Sid (handler_session l h)) h.
End Hub.

(** * recvLoop *)

(** What [ReadMessage] delivers. *)
Inductive ws_read :=
| ReadFailed
| Frame (is_text : bool) (payload : string).

(** [json.Unmarshal] into a [pb.ClientMsg]: the value, filled as far as it got,
    and the error. *)
Class ClientJson := {
  ClientMsg_Unmarshal : string → pb_ClientMsg * option string
}.

(** What one turn of the loop does: the values for [dataChan], a message to route,
    and whether the loop returns. *)
Record recv_result := {
  rr_append : list SessionData;
  rr_route : option pb_E2EMsg;
  rr_return : bool
}.

Definition recv_reply (msg : pb_ServerMsg) : recv_result :=
  {| rr_append := [data_msg msg]; rr_route := None; rr_return := false |}.

Section RecvLoop.
Context `{ClientJson} {S E : Type} `{IEventStore S E}.
Context (conf : pb_WsConf).

(** A call of the event API: the response, or the intercepted error. *)
Definition api_reply {A} (f : A → pb_ServerMsg) (r : result pb_Error A) : recv_result :=
  match r with
  | Ok resp => recv_reply (f resp)
  | Err err => recv_reply (ServerMsg_of_Error (interceptError err))
  end.

Definition recvLoop_body (uid : Z) (r : ws_read) (st : S) : go (recv_result * S) :=
  match r with
  | ReadFailed =>
      Ret ({| rr_append := [data_error ReadError]; rr_route := None; rr_return := true |}, st)
  | Frame false _ =>
      Ret ({| rr_append := [data_msg (ServerMsg_of_Error
                (newInvalidArgumentError None ["websocket only supports TextMessage"]));
              data_error BadRequest];
              rr_route := None; rr_return := true |}, st)
  | Frame true payload =>
      match ClientMsg_Unmarshal payload with
      | (req, Some err) =>
          Ret ({| rr_append := [data_msg (ServerMsg_of_Error
                    (newInvalidArgumentError (Some req) ["marshal error: " +:+ err]));
                  data_error BadRequest];
                  rr_route := None; rr_return := true |}, st)
      | (req, None) =>
          match ClientMsg_Stats req, ClientMsg_GetEvents req, ClientMsg_SetRead req,
                ClientMsg_GetReadStates req, ClientMsg_Im req with
          | Some v, _, _, _, _ =>
              let '(r, st) := EventApi_Stats conf uid v st in Ret (api_reply ServerMsg_of_Stats r, st)
          | None, Some v, _, _, _ =>
              let '(r, st) := EventApi_GetEvents conf uid v st in Ret (api_reply ServerMsg_of_GetEvents r, st)
          | None, None, Some v, _, _ =>
              let '(r, st) := EventApi_SetRead uid v st in Ret (api_reply ServerMsg_of_SetRead r, st)
          | None, None, None, Some v, _ =>
              let! rs := EventApi_GetReadStates conf uid v st in
              Ret (api_reply ServerMsg_of_GetReadStates rs.1, rs.2)
          | None, None, None, None, Some v =>
              if EnableClientMsg conf
              then Ret ({| rr_append := []; rr_route := Some v; rr_return := false |}, st)
              else Ret (recv_reply (ServerMsg_of_Error {| Error_Code := ErrorCodeInvalidArguments;
                          Error_Params := ["feature is not supported"]; Error_Req := None |}), st)
          | None, None, None, None, None =>
              Ret ({| rr_append := [data_msg (ServerMsg_of_Error
                        (newInvalidArgumentError (Some req) ["unsupported request"]));
                      data_error BadRequest];
                      rr_route := None; rr_return := false |}, st)
          end
      end
  end.
End RecvLoop.

(** * The goroutines on the hub *)

Section Loops.
Context `{GoRange}.
Implicit Types (h : Hub).

(** A turn of [recvLoop] of handler [l] with result [r]. *)
Definition recvLoop_turn (l : loc) (r : recv_result) h : go (option Hub) :=
  hub_bind (hub_each (λ v, appendDataChan v l) (rr_append r) h) (λ h,
    let h := match rr_route r with Some m => routeClientMsg m h | None => h end in
    Ret (Some (if rr_return r then upd_handler l with_recv_exited h else h))).

(** A turn of [sendLoop] that receives from [dataChan]; [ok] says whether the
    connection accepts the write. *)
Definition sendLoop_data (ok : bool) (l : loc) h : go (option Hub) :=
  match hobjs h !! l with
  | None => Panic "invalid memory address or nil pointer dereference"
  | Some x =>
      match dataChan x with
      | [] => if chan_closed x then Ret (Some (upd_handler l with_send_exited h)) else Ret None
      | v :: rest =>
          let h := upd_handler l (with_dataChan rest) h in
          if bool_decide (0 < sd_Error v)%Z then
            hub_bind (Handler_close (sd_Error v) l h) (λ h, Ret (Some (upd_handler l with_send_exited h)))
          else match sd_ServerMsg v with
          | None => Panic "sendLoop(), unknown data from dataChan"
          | Some msg =>
              if ok then
                let h := upd_handler l (with_written msg) h in
                if ServerMsg_Kickoff msg then Handler_close KickedOff l h else Ret (Some h)
              else
                hub_bind (appendDataChan (data_error WriteError) l h)
                         (λ h, Ret (Some (upd_handler l with_send_exited h)))
          end
      end
  end.

(** A turn of [sendLoop] at a tick of the ping timer. *)
Definition sendLoop_ping (ok : bool) (l : loc) h : go (option Hub) :=
  if ok then Ret (Some h)
  else hub_bind (appendDataChan (data_error PingError) l h)
                (λ h, Ret (Some (upd_handler l with_send_exited h))).
End Loops.

(** * The invariant *)

(** A value that [sendLoop] understands. *)
Definition data_ok (v : SessionData) : Prop := (0 < sd_Error v)%Z ∨ is_Some (sd_ServerMsg v).

Definition recv_ok (r : recv_result) : Prop := Forall data_ok (rr_append r).

Record hub_ok (h : Hub) : Prop := {
  ho_filed : ∀ sid l, handlers h !! sid = Some l →
    ∃ x sess, hobjs h !! l = Some x ∧ hsess h !! session x = Some sess ∧ Sid sess = sid;
  ho_session : ∀ l x, hobjs h !! l = Some x → is_Some (hsess h !! session x);
  ho_chan : ∀ l x, hobjs h !! l = Some x →
    closing x = chan_closed x ∧ Forall data_ok (dataChan x) ∧ length (dataChan x) ≤ dataChan_cap
}.

(** [h'] has all objects of [h], and the sessions are the same. *)
Record hub_grows (h h' : Hub) : Prop := {
  hg_objs : dom (hobjs h) ⊆ dom (hobjs h');
  hg_sess : hsess h' = hsess h;
  hg_session : ∀ l x', hobjs h' !! l = Some x' → ∃ x, hobjs h !! l = Some x ∧ session x = session x'
}.

(** An operation that does not panic and keeps the invariant. *)
Definition safe (h : Hub) (c : go (option Hub)) : Prop :=
  match c with
  | Ret (Some h') => hub_ok h' ∧ hub_grows h h'
  | Ret None => True
  | Panic _ => False
  end.

Section Safety.
Context `{GoRange}.
Implicit Types (h : Hub).

Lemma hub_grows_refl h : hub_grows h h.
Proof. split; [done|done|eauto]. Qed.

Lemma hub_grows_trans h1 h2 h3 : hub_grows h1 h2 → hub_grows h2 h3 → hub_grows h1 h3.
Proof.
  intros [Ho1 Hs1 Hx1] [Ho2 Hs2 Hx2]. split; [set_solver|congruence|].
  intros l x (y & Hy & <-)%Hx2. by apply Hx1.
Qed.

Lemma safe_bind h c k :
  safe h c → (∀ h', hub_ok h' → hub_grows h h' → safe h' (k h')) → safe h (hub_bind c k).
Proof.
  destruct c as [[h'|]|]; simpl; [|done|done]. intros [Hok Hg] Hk. specialize (Hk h' Hok Hg).
  destruct (k h') as [[h2|]|]; simpl in *; [|done|done]. destruct Hk. split; [done|]. by eapply hub_grows_trans.
Qed.

Lemma safe_each {A} (f : A → Hub → go (option Hub)) (l : list A) h :
  hub_ok h → (∀ a h', a ∈ l → hub_ok h' → hub_grows h h' → safe h' (f a h')) → safe h (hub_each f l h).
Proof.
  revert h. induction l as [|a l IH]; intros h Hok Hf; simpl; [by split; [|apply hub_grows_refl]|].
  apply safe_bind; [apply Hf; [by left|done|apply hub_grows_refl]|].
  intros h' Hok' Hg. apply IH; [done|]. intros b h2 Hb Hok2 Hg2. apply Hf; [by right|done|].
  by eapply hub_grows_trans.
Qed.

(** Updates of one handler that keep its session. *)
Lemma upd_handler_grows l f h : (∀ x, session (f x) = session x) → hub_grows h (upd_handler l f h).
Proof.
  intros Hf. split; [simpl; by rewrite dom_alter|done|].
  intros l' x'. simpl. rewrite lookup_alter. case_decide; subst; [|eauto].
  destruct (hobjs h !! l'); [|done]. simpl. intros [= <-]. eauto.
Qed.

Lemma upd_handler_ok l f h :
  hub_ok h → (∀ x, session (f x) = session x) →
  (∀ x, hobjs h !! l = Some x → closing (f x) = chan_closed (f x) ∧ Forall data_ok (dataChan (f x)) ∧
    length (dataChan (f x)) ≤ dataChan_cap) → hub_ok (upd_handler l f h).
Proof.
  intros [Hf Hs Hc] Hsess Hfx. split; simpl.
  - intros sid l' (x & sess & Hx & ? & ?)%Hf. rewrite lookup_alter. case_decide; subst; rewrite Hx; simpl.
    + eexists _, sess. rewrite Hsess. done.
    + eauto.
  - intros l' x'. rewrite lookup_alter. case_decide; subst; [|apply Hs].
    destruct (hobjs h !! l') as [x|] eqn:Hx; [|done]. intros [= <-]. rewrite Hsess. by eapply Hs.
  - intros l' x'. rewrite lookup_alter. case_decide; subst; [|apply Hc].
    destruct (hobjs h !! l') as [x|] eqn:Hx; [|done]. intros [= <-]. by apply Hfx.
Qed.

Lemma tell_leader_ok m h : hub_ok h → hub_ok (tell_leader m h).
Proof. by intros []. Qed.

Lemma delHandler_ok sid h : hub_ok h → hub_ok (delHandler sid h) ∧ hub_grows h (delHandler sid h).
Proof.
  intros Hok. unfold delHandler, HandlerStore_del. destruct (handlers h !! sid) as [l|]; [|split; [done|apply hub_grows_refl]].
  split; [|by split; [| |eauto]]. destruct Hok as [Hf Hs Hc]. split; [|done|done].
  intros sid' l'. simpl. intros [_ Hl]%lookup_delete_Some. by apply Hf.
Qed.

Lemma HandlerStore_del_ok sid h :
  hub_ok h → hub_ok (HandlerStore_del sid h).2 ∧ hub_grows h (HandlerStore_del sid h).2.
Proof.
  intros [Hf Hs Hc]. unfold HandlerStore_del. destruct (handlers h !! sid) as [l|]; simpl.
  - split; [|by split; [| |eauto]]. split; [|done|done].
    intros sid' l'. simpl. intros [_ Hl]%lookup_delete_Some. by apply Hf.
  - split; [done|apply hub_grows_refl].
Qed.

Lemma appendDataChan_safe v l h :
  hub_ok h → data_ok v → l ∈ dom (hobjs h) → safe h (appendDataChan v l h).
Proof.
  intros Hok Hv [x Hx]%elem_of_dom. unfold appendDataChan. rewrite Hx.
  destruct (ho_chan _ Hok _ _ Hx) as (Hc & Hd & Hl).
  destruct (closing x) eqn:Hcl; [by split; [|apply hub_grows_refl]|]. rewrite <-Hc.
  case_bool_decide; [|done]. simpl. split; [|by apply upd_handler_grows].
  apply upd_handler_ok; [done|done|]. intros y Hy. simplify_eq. simpl. split_and!; [congruence| |].
  - apply Forall_app. split; [done|]. by apply Forall_singleton.
  - rewrite length_app. simpl. lia.
Qed.

Lemma Handler_close_safe cause l h :
  hub_ok h → l ∈ dom (hobjs h) → safe h (Handler_close cause l h).
Proof.
  intros Hok [x Hx]%elem_of_dom. unfold Handler_close. rewrite Hx.
  destruct (ho_chan _ Hok _ _ Hx) as (Hc & Hd & Hl).
  destruct (closing x) eqn:Hcl; [by split; [|apply hub_grows_refl]|]. rewrite <-Hc.
  assert (Hok1 : hub_ok (upd_handler l with_closed h)).
  { apply upd_handler_ok; [done|done|]. intros y Hy. simplify_eq. done. }
  assert (Hg1 : hub_grows h (upd_handler l with_closed h)) by (by apply upd_handler_grows).
  case_bool_decide; [done|].
  destruct (delHandler_ok (Sid (hsess h !!! session x)) _ Hok1) as [Hok2 Hg2].
  split; [done|]. by eapply hub_grows_trans.
Qed.

Lemma upd_flag_safe l f h :
  hub_ok h → (∀ x, session (f x) = session x ∧ closing (f x) = closing x ∧
    chan_closed (f x) = chan_closed x ∧ dataChan (f x) = dataChan x) →
  hub_ok (upd_handler l f h) ∧ hub_grows h (upd_handler l f h).
Proof.
  intros Hok Hf. split; [apply upd_handler_ok|apply upd_handler_grows]; [done|intros x; apply Hf| |intros x; apply Hf].
  intros x Hx. destruct (Hf x) as (_ & -> & -> & ->). by apply (ho_chan _ Hok l).
Qed.

Lemma handlers_dom h sid l : hub_ok h → handlers h !! sid = Some l → l ∈ dom (hobjs h).
Proof. intros Hok Hl. destruct (ho_filed _ Hok _ _ Hl) as (x & _ & Hx & _). by apply elem_of_dom_2 in Hx. Qed.

Lemma Hub_Kickoff_safe sid h : hub_ok h → safe h (Hub_Kickoff sid h).
Proof.
  intros Hok. unfold Hub_Kickoff, HandlerStore_get. destruct (handlers h !! sid) as [l|] eqn:Hl.
  - apply safe_bind; [apply appendDataChan_safe; [done|by right|by eapply handlers_dom]|].
    intros h' Hok' Hg. simpl. by apply HandlerStore_del_ok.
  - by split; [|apply hub_grows_refl].
Qed.

Lemma getByUid_dom uid h l : hub_ok h → l ∈ HandlerStore_getByUid uid h → l ∈ dom (hobjs h).
Proof.
  intros Hok [_ Hin]%list_elem_of_filter. apply list_elem_of_fmap in Hin as ([sid l'] & -> & Hl%range_elem).
  by eapply handlers_dom.
Qed.

Lemma Hub_Run_msg_safe msg h : hub_ok h → safe h (Hub_Run_msg msg h).
Proof.
  intros Hok. unfold Hub_Run_msg. case_bool_decide.
  { apply safe_each; [done|]. intros sid h' _ Hok' _. by apply Hub_Kickoff_safe. }
  case_bool_decide; [|by split; [|apply hub_grows_refl]].
  apply safe_each; [done|]. intros [uid seq] h' _ Hok' _. simpl.
  apply safe_each; [done|]. intros l h2 Hin Hok2 Hg2. apply appendDataChan_safe; [done|by right|].
  apply (hg_objs _ _ Hg2). by eapply getByUid_dom.
Qed.

Lemma HandlerStore_close_safe h : hub_ok h → safe h (HandlerStore_close h).
Proof.
  intros Hok. apply safe_each; [done|]. intros l h' Hin Hok' Hg.
  apply Handler_close_safe; [done|]. apply (hg_objs _ _ Hg).
  apply list_elem_of_fmap in Hin as ([sid l'] & -> & Hl%range_elem). by eapply handlers_dom.
Qed.

Lemma recvLoop_turn_safe l r h :
  hub_ok h → recv_ok r → l ∈ dom (hobjs h) → safe h (recvLoop_turn l r h).
Proof.
  intros Hok Hr Hl. unfold recvLoop_turn. apply safe_bind.
  - apply safe_each; [done|]. intros v h' Hin Hok' Hg. apply appendDataChan_safe; [done| |].
    + unfold recv_ok in Hr. rewrite Forall_forall in Hr. by apply Hr.
    + by apply (hg_objs _ _ Hg).
  - intros h' Hok' _. simpl.
    set (h1 := match rr_route r with Some m => routeClientMsg m h' | None => h' end).
    assert (Hh1 : hub_ok h1 ∧ hub_grows h' h1).
    { unfold h1. destruct (rr_route r); [|split; [done|apply hub_grows_refl]].
      split; [by apply tell_leader_ok|]. split; [done|done|eauto]. }
    destruct Hh1 as [Hok1 Hg1]. destruct (rr_return r); [|done].
    destruct (upd_flag_safe l with_recv_exited h1 Hok1) as [Hok2 Hg2]; [done|].
    split; [done|]. by eapply hub_grows_trans.
Qed.

Lemma exit_sender_safe l h : hub_ok h → safe h (Ret (Some (upd_handler l with_send_exited h))).
Proof. intros Hok. by apply upd_flag_safe. Qed.

Lemma sendLoop_data_safe ok l h :
  hub_ok h → l ∈ dom (hobjs h) → safe h (sendLoop_data ok l h).
Proof.
  intros Hok Hl. pose proof Hl as [x Hx]%elem_of_dom. unfold sendLoop_data. rewrite Hx.
  destruct (ho_chan _ Hok _ _ Hx) as (Hc & Hd & Hlen).
  destruct (dataChan x) as [|v rest] eqn:Hdata.
  { destruct (chan_closed x); [by apply exit_sender_safe|done]. }
  apply Forall_cons in Hd as [Hv Hd].
  set (h1 := upd_handler l (with_dataChan rest) h).
  assert (Hok1 : hub_ok h1).
  { apply upd_handler_ok; [done|done|]. intros y Hy. simplify_eq. simpl in *. split_and!; [done|done|lia]. }
  assert (Hg1 : hub_grows h h1) by (by apply upd_handler_grows).
  assert (Hl1 : l ∈ dom (hobjs h1)) by (by apply (hg_objs _ _ Hg1)).
  assert (Hlift : ∀ c, safe h1 c → safe h c).
  { intros [[h2|]|]; simpl; [|done|done]. intros [? ?]. split; [done|]. by eapply hub_grows_trans. }
  apply Hlift. case_bool_decide as He.
  { apply safe_bind; [by apply Handler_close_safe|]. intros h2 Hok2 _. by apply exit_sender_safe. }
  destruct Hv as [Hv|[msg Hmsg]]; [lia|]. rewrite Hmsg. destruct ok.
  - set (h2 := upd_handler l (with_written msg) h1).
    destruct (upd_flag_safe l (with_written msg) h1 Hok1) as [Hok2 Hg2]; [done|].
    destruct (ServerMsg_Kickoff msg); [|by split].
    assert (Hs : safe h2 (Handler_close KickedOff l h2)).
    { apply Handler_close_safe; [done|]. by apply (hg_objs _ _ Hg2). }
    destruct (Handler_close KickedOff l h2) as [[h3|]|]; simpl in *; [|done|done].
    destruct Hs. split; [done|]. by eapply hub_grows_trans.
  - apply safe_bind; [apply appendDataChan_safe; [done|by left|done]|].
    intros h2 Hok2 _. by apply exit_sender_safe.
Qed.

Lemma sendLoop_ping_safe ok l h :
  hub_ok h → l ∈ dom (hobjs h) → safe h (sendLoop_ping ok l h).
Proof.
  intros Hok Hl. unfold sendLoop_ping. destruct ok; [by split; [|apply hub_grows_refl]|].
  apply safe_bind; [apply appendDataChan_safe; [done|by left|done]|].
  intros h2 Hok2 _. by apply exit_sender_safe.
Qed.
End Safety.

(** * The hub as a state machine *)

Section Machine.
Context `{GoRange}.
Implicit Types (h : Hub).

(** A session id that no session object has. *)
Definition unused_sid (sid : string) h : Prop :=
  sid ≠ "" ∧ ∀ l sess, hsess h !! l = Some sess → Sid sess ≠ sid.

Inductive hub_step : Hub → Hub → Prop :=
| hs_serve auth upgrade uuid ip now r h h' :
    unused_sid uuid h → ServeHTTP auth upgrade uuid ip now h = (r, h') → hub_step h h'
| hs_leader msg h h' : Hub_Run_msg msg h = Ret (Some h') → hub_step h h'
| hs_recv l x r h h' :
    hobjs h !! l = Some x → recv_exited x = false → recv_ok r →
    recvLoop_turn l r h = Ret (Some h') → hub_step h h'
| hs_send ok l x h h' :
    hobjs h !! l = Some x → send_exited x = false →
    sendLoop_data ok l h = Ret (Some h') → hub_step h h'
| hs_ping ok l x h h' :
    hobjs h !! l = Some x → send_exited x = false →
    sendLoop_ping ok l h = Ret (Some h') → hub_step h h'
| hs_peer l x h : hobjs h !! l = Some x → hub_step h (peer_close l h)
| hs_stop h h' : HandlerStore_close h = Ret (Some h') → hub_step h h'
| hs_online h : hub_step h (Online h)
| hs_offline h : hub_step h (Offline h).

Definition hub_init (conf : pb_WsConf) : Hub := {|
  wsConf := conf; handlers := ∅; hobjs := ∅; hsess := ∅; followerC := []; online := false |}.

Lemma hub_init_ok conf : hub_ok (hub_init conf).
Proof. split; intros ??; simpl; by rewrite lookup_empty. Qed.

(** The new objects of [ServeHTTP]. *)
Lemma ServeHTTP_spec auth upgrade uuid ip now h r h' :
  ServeHTTP auth upgrade uuid ip now h = (r, h') →
  h' = h ∨
  ∃ hl sl sess, hobjs h !! hl = None ∧ hsess h !! sl = None ∧ Sid sess = uuid ∧
    h' = {| wsConf := wsConf h; handlers := <[uuid := hl]> (handlers h);
            hobjs := <[hl := new_handler sl]> (hobjs h); hsess := <[sl := sess]> (hsess h);
            followerC := followerC h ++ [FollowerMsg_of_Online sl]; online := online h |}.
Proof.
  unfold ServeHTTP. destruct (online h); simpl; [|intros [= <- <-]; by left].
  destruct auth as [uid|]; [|intros [= <- <-]; by left].
  destruct upgrade; simpl; [|intros [= <- <-]; by left].
  set (hl := fresh (dom (hobjs h))). set (sl := fresh (dom (hsess h))).
  intros [= <- <-]. right.
  set (sess := {| HubId := ""; Uid := uid; Sid := uuid; Ip := ip; CreateTime := now; KickoffTime := 0 |}).
  exists hl, sl, sess. split_and!; [apply not_elem_of_dom, is_fresh|apply not_elem_of_dom, is_fresh|done|].
  unfold addHandler, HandlerStore_add, handler_session. simpl. rewrite lookup_insert_eq. simpl.
  rewrite lookup_total_insert_eq. done.
Qed.

Lemma ServeHTTP_ok auth upgrade uuid ip now h r h' :
  ServeHTTP auth upgrade uuid ip now h = (r, h') → hub_ok h → hub_ok h'.
Proof.
  intros [->|(hl & sl & sess & Hhl & Hsl & <- & ->)]%ServeHTTP_spec; [done|]. intros [Hf Hs Hc]. split; simpl.
  - intros sid l [[<- <-]|[_ Hl]]%lookup_insert_Some.
    + eexists _, sess. rewrite lookup_insert_eq. split; [done|]. simpl. by rewrite lookup_insert_eq.
    + destruct (Hf _ _ Hl) as (x & s & Hx & Hsx & ?). exists x, s.
      rewrite !lookup_insert_ne by congruence. done.
  - intros l x [[<- <-]|[_ Hl]]%lookup_insert_Some; simpl; [by rewrite lookup_insert_eq|].
    destruct (Hs _ _ Hl) as [s ?]. rewrite lookup_insert_ne by congruence. by exists s.
  - intros l x [[<- <-]|[_ Hl]]%lookup_insert_Some; simpl; [|by eapply Hc].
    split_and!; [done|constructor|lia].
Qed.

Lemma Online_state h :
  hobjs (Online h) = hobjs h ∧ hsess (Online h) = hsess h ∧ handlers (Online h) = handlers h ∧
  followerC (Online h) = followerC h ++ (FollowerMsg_of_Sync <$> sync_batches (length (shallowCopySessions h)) (shallowCopySessions h)).
Proof.
  unfold Online. change (shallowCopySessions (set_online true h)) with (shallowCopySessions h).
  generalize (sync_batches (length (shallowCopySessions h)) (shallowCopySessions h)). intros l.
  assert (Hgen : ∀ h1, let h2 := foldl (λ h b, tell_leader (FollowerMsg_of_Sync b) h) h1 l in
    hobjs h2 = hobjs h1 ∧ hsess h2 = hsess h1 ∧ handlers h2 = handlers h1 ∧
    followerC h2 = followerC h1 ++ (FollowerMsg_of_Sync <$> l)).
  { induction l as [|b l IH]; intros h1; simpl; [by rewrite app_nil_r|].
    destruct (IH (tell_leader (FollowerMsg_of_Sync b) h1)) as (-> & -> & -> & ->). simpl.
    by rewrite <-app_assoc. }
  apply (Hgen (set_online true h)).
Qed.

Lemma hub_step_ok h h' : hub_step h h' → hub_ok h → hub_ok h'.
Proof.
  assert (Hsafe : ∀ h c h', safe h c → c = Ret (Some h') → hub_ok h') by (intros ? ? ? Hs ->; apply Hs).
  destruct 1 as [auth up uuid ip now r h h' _ Hr|msg h h' Hr|l x r h h' Hx _ Hrok Hr|ok l x h h' Hx _ Hr
    |ok l x h h' Hx _ Hr|l x h Hx|h h' Hr|h|h]; intros Hok.
  - by eapply ServeHTTP_ok.
  - by eapply Hsafe; [apply Hub_Run_msg_safe|].
  - eapply Hsafe; [apply recvLoop_turn_safe|exact Hr]; [done|done|by eapply elem_of_dom_2].
  - eapply Hsafe; [apply sendLoop_data_safe|exact Hr]; [done|by eapply elem_of_dom_2].
  - eapply Hsafe; [apply sendLoop_ping_safe|exact Hr]; [done|by eapply elem_of_dom_2].
  - by apply delHandler_ok.
  - by eapply Hsafe; [apply HandlerStore_close_safe|].
  - destruct (Online_state h) as (Ho & Hs & Hh & _). destruct Hok as [Hf Hse Hc].
    split; rewrite ?Ho, ?Hs, ?Hh; done.
  - by destruct Hok.
Qed.

Lemma hub_reach_ok conf h : rtc hub_step (hub_init conf) h → hub_ok h.
Proof.
  assert (Hgen : ∀ h1 h2, rtc hub_step h1 h2 → hub_ok h1 → hub_ok h2).
  { induction 1; eauto using hub_step_ok. }
  intros Hr. eapply Hgen; [exact Hr|]. apply hub_init_ok.
Qed.

(** ** Reports to the leader *)

(** How often the hub has reported session [sid] as offline. *)
Definition offline_count (sid : string) h : nat :=
  length (filter (λ m, SessionOffline m = sid) (followerC h)).

(** [h'] adds no report about [sid], and files no new handler under it. *)
Definition quiet (sid : string) h h' : Prop :=
  offline_count sid h' = offline_count sid h ∧
  (handlers h !! sid = None → handlers h' !! sid = None).

(** An operation reports [sid] only when it removes its handler. *)
Definition reports (sid : string) h h' : Prop :=
  hsess h' = hsess h ∧
  (quiet sid h h' ∨
   (is_Some (handlers h !! sid) ∧ handlers h' !! sid = None ∧ offline_count sid h' = S (offline_count sid h))).

Definition reports_opt (sid : string) h (c : go (option Hub)) : Prop :=
  ∀ h', c = Ret (Some h') → reports sid h h'.

Lemma reports_refl sid h : reports sid h h.
Proof. split; [done|]. by left. Qed.

Lemma reports_trans sid h1 h2 h3 : reports sid h1 h2 → reports sid h2 h3 → reports sid h1 h3.
Proof.
  intros [Hs1 Hr1] [Hs2 Hr2]. split; [congruence|].
  destruct Hr1 as [[Ho1 Hh1]|(Hsome1 & Hn1 & Hc1)], Hr2 as [[Ho2 Hh2]|(Hsome2 & Hn2 & Hc2)].
  - left. split; [congruence|auto].
  - right. split_and!; [|done|congruence].
    destruct (handlers h1 !! sid); [done|]. destruct Hsome2. rewrite Hh1 in *; done.
  - right. split_and!; [done|auto|congruence].
  - rewrite Hn1 in Hsome2. by destruct Hsome2.
Qed.

Lemma reports_bind sid h c k :
  reports_opt sid h c → (∀ h', reports_opt sid h' (k h')) → reports_opt sid h (hub_bind c k).
Proof.
  intros Hc Hk h'. destruct c as [[h1|]|]; simpl; [|done|done]. intros Hr.
  eapply reports_trans; [by apply Hc|by apply Hk].
Qed.

Lemma reports_each {A} sid (f : A → Hub → go (option Hub)) (l : list A) h :
  (∀ a h', reports_opt sid h' (f a h')) → reports_opt sid h (hub_each f l h).
Proof.
  intros Hf. revert h. induction l as [|a l IH]; intros h; simpl; [intros h' [= <-]; apply reports_refl|].
  apply reports_bind; [apply Hf|done].
Qed.

Lemma reports_upd sid l f h : reports sid h (upd_handler l f h).
Proof. split; [done|]. by left. Qed.

Lemma tell_quiet sid m h : SessionOffline m = "" → sid ≠ "" → reports sid h (tell_leader m h).
Proof.
  intros Hm Hs. split; [done|]. left. split; [|done]. unfold offline_count. simpl.
  rewrite filter_app, filter_cons_False by congruence. by rewrite app_nil_r.
Qed.

Lemma delHandler_reports sid sid' h : sid ≠ "" → reports sid h (delHandler sid' h).
Proof.
  intros Hne. unfold delHandler, HandlerStore_del.
  destruct (handlers h !! sid') as [l|] eqn:Hl; [|apply reports_refl].
  split; [done|]. unfold quiet, offline_count. simpl. rewrite filter_app.
  destruct (decide (sid' = sid)) as [->|Hd].
  - right. rewrite Hl, lookup_delete_eq, filter_cons_True by done.
    split_and!; [by eexists|done|]. rewrite length_app. simpl. lia.
  - left. rewrite filter_cons_False by done. rewrite app_nil_r. split; [done|].
    intros Hn. by rewrite lookup_delete_ne.
Qed.

Lemma appendDataChan_reports sid v l h : reports_opt sid h (appendDataChan v l h).
Proof.
  intros h'. unfold appendDataChan. destruct (hobjs h !! l) as [x|]; [|done].
  destruct (closing x); [intros [= <-]; apply reports_refl|].
  destruct (chan_closed x); [done|]. case_bool_decide; [|done]. intros [= <-]. apply reports_upd.
Qed.

Lemma Handler_close_reports sid cause l h : sid ≠ "" → reports_opt sid h (Handler_close cause l h).
Proof.
  intros Hne h'. unfold Handler_close. destruct (hobjs h !! l) as [x|]; [|done].
  destruct (closing x); [intros [= <-]; apply reports_refl|].
  destruct (chan_closed x); [done|]. intros [= <-].
  eapply reports_trans; [apply (reports_upd sid l with_closed)|].
  case_bool_decide; [apply reports_refl|by apply delHandler_reports].
Qed.

Lemma ret_upd_reports sid l f h : reports_opt sid h (Ret (Some (upd_handler l f h))).
Proof. intros h' [= <-]. apply reports_upd. Qed.

Lemma HandlerStore_del_quiet sid sid' h : quiet sid h (HandlerStore_del sid' h).2.
Proof.
  unfold HandlerStore_del. destruct (handlers h !! sid') as [l|]; [|done]. split; [done|].
  simpl. intros Hn. destruct (decide (sid = sid')) as [->|]; [apply lookup_delete_eq|by rewrite lookup_delete_ne].
Qed.

Lemma HandlerStore_del_sess sid h : hsess (HandlerStore_del sid h).2 = hsess h.
Proof. unfold HandlerStore_del. by destruct (handlers h !! sid). Qed.

Lemma Hub_Run_msg_reports sid msg h : reports_opt sid h (Hub_Run_msg msg h).
Proof.
  unfold Hub_Run_msg. case_bool_decide; [|case_bool_decide; [|intros h' [= <-]; apply reports_refl]].
  - apply reports_each. intros sid' h'. unfold Hub_Kickoff.
    destruct (HandlerStore_get sid' h'); [|intros h2 [= <-]; apply reports_refl].
    apply reports_bind; [apply appendDataChan_reports|]. intros h2 h3 [= <-].
    split; [apply HandlerStore_del_sess|]. left. apply HandlerStore_del_quiet.
  - apply reports_each. intros [uid seq] h'. apply reports_each. intros l h2. apply appendDataChan_reports.
Qed.

Lemma recvLoop_turn_reports sid l r h : sid ≠ "" → reports_opt sid h (recvLoop_turn l r h).
Proof.
  intros Hne. unfold recvLoop_turn. apply reports_bind.
  - apply reports_each. intros. apply appendDataChan_reports.
  - intros h1 h2 [= <-].
    assert (Hr : reports sid h1 (match rr_route r with Some m => routeClientMsg m h1 | None => h1 end)).
    { destruct (rr_route r); [by apply tell_quiet|apply reports_refl]. }
    destruct (rr_return r); [|done]. eapply reports_trans; [exact Hr|apply reports_upd].
Qed.

Lemma sendLoop_data_reports sid ok l h : sid ≠ "" → reports_opt sid h (sendLoop_data ok l h).
Proof.
  intros Hne. unfold sendLoop_data. destruct (hobjs h !! l) as [x|]; [|done].
  destruct (dataChan x) as [|v rest]; [destruct (chan_closed x); [apply ret_upd_reports|done]|].
  assert (Hup : ∀ c, reports_opt sid (upd_handler l (with_dataChan rest) h) c → reports_opt sid h c).
  { intros c Hc h' Hr. eapply reports_trans; [apply (reports_upd sid l (with_dataChan rest))|by apply Hc]. }
  apply Hup. case_bool_decide.
  { apply reports_bind; [by apply Handler_close_reports|]. intros h2. apply ret_upd_reports. }
  destruct (sd_ServerMsg v) as [msg|]; [|done]. destruct ok.
  - destruct (ServerMsg_Kickoff msg); [|apply ret_upd_reports]. intros h' Hr.
    eapply reports_trans; [apply (reports_upd sid l (with_written msg))|]. by eapply Handler_close_reports.
  - apply reports_bind; [apply appendDataChan_reports|]. intros h2. apply ret_upd_reports.
Qed.

Lemma sendLoop_ping_reports sid ok l h : reports_opt sid h (sendLoop_ping ok l h).
Proof.
  unfold sendLoop_ping. destruct ok; [intros h' [= <-]; apply reports_refl|].
  apply reports_bind; [apply appendDataChan_reports|]. intros h2. apply ret_upd_reports.
Qed.

Lemma HandlerStore_close_reports sid h : sid ≠ "" → reports_opt sid h (HandlerStore_close h).
Proof. intros Hne. apply reports_each. intros. by apply Handler_close_reports. Qed.

Lemma Online_reports sid h : sid ≠ "" → reports sid h (Online h).
Proof.
  intros Hne. destruct (Online_state h) as (_ & Hs & Hh & Hf). split; [done|]. left. split; [|by rewrite Hh].
  unfold offline_count. rewrite Hf, filter_app, length_app.
  rewrite (list_filter_nil _ (FollowerMsg_of_Sync <$> _)); [simpl; lia|].
  intros m (b & -> & _)%list_elem_of_fmap Hb. by apply Hne.
Qed.

(** A step that is not a new session reports [sid] only by removing it. *)
Lemma hub_step_reports sid h h' :
  hub_step h h' → sid ≠ "" →
  reports sid h h' ∨
  ∃ hl sl sess, unused_sid (Sid sess) h ∧ hsess h !! sl = None ∧ hsess h' = <[sl := sess]> (hsess h) ∧
    handlers h' = <[Sid sess := hl]> (handlers h) ∧ offline_count sid h' = offline_count sid h.
Proof.
  destruct 1 as [auth up uuid ip now r h h' Hun Hr|msg h h' Hr|l x r h h' Hx _ Hrok Hr|ok l x h h' Hx _ Hr
    |ok l x h h' Hx _ Hr|l x h Hx|h h' Hr|h|h]; intros Hne.
  - apply ServeHTTP_spec in Hr as [->|(hl & sl & sess & _ & Hsl & <- & ->)]; [left; apply reports_refl|].
    right. exists hl, sl, sess. split_and!; [done..|]. unfold offline_count. simpl.
    rewrite filter_app, filter_cons_False by (simpl; congruence). by rewrite app_nil_r.
  - left. by eapply Hub_Run_msg_reports.
  - left. by eapply recvLoop_turn_reports.
  - left. by eapply sendLoop_data_reports.
  - left. by eapply sendLoop_ping_reports.
  - left. by apply delHandler_reports.
  - left. by eapply HandlerStore_close_reports.
  - left. by apply Online_reports.
  - left. split; [done|]. by left.
Qed.
End Machine.

(** * Properties *)

Section Properties.
Context `{GoRange}.
Implicit Types (h : Hub).


(** Reports are about known sessions, and a filed session has not been reported. *)
Record report_inv (sid : string) h : Prop := {
  ri_filed : is_Some (handlers h !! sid) → offline_count sid h = 0;
  ri_once : offline_count sid h ≤ 1;
  ri_known : (0 < offline_count sid h ∨ is_Some (handlers h !! sid)) →
    ∃ l sess, hsess h !! l = Some sess ∧ Sid sess = sid
}.

Lemma report_inv_step sid h h' :
  sid ≠ "" → hub_step h h' → report_inv sid h → report_inv sid h'.
Proof.
  intros Hne Hs [Hf Ho Hk].
  destruct (hub_step_reports sid h h' Hs Hne) as [[Hsess [[Hc Hh]|(Hsome & Hn & Hc)]]|(hl & sl & sess & Hun & Hsl & Hsess & Hh & Hc)].
  - assert (Hmono : is_Some (handlers h' !! sid) → is_Some (handlers h !! sid)).
    { destruct (handlers h !! sid); [done|]. rewrite Hh by done. by intros [? ?]. }
    split; rewrite Hc, ?Hsess; [auto|done|]. intros [?|?]; apply Hk; auto.
  - split; rewrite Hc, ?Hsess; [rewrite Hn; by intros [? ?]|rewrite Hf by done; lia|]. intros _. apply Hk. auto.
  - assert (Hold : (∃ l s, hsess h !! l = Some s ∧ Sid s = sid) → ∃ l s, hsess h' !! l = Some s ∧ Sid s = sid).
    { intros (l & s & Hl & ?). exists l, s. rewrite Hsess, lookup_insert_ne by congruence. done. }
    split; rewrite ?Hc; [|done|].
    + rewrite Hh. intros [x [[Heq _]|[_ Hx]]%lookup_insert_Some]; [|by apply Hf].
      destruct (decide (offline_count sid h = 0)) as [|Hnz]; [done|]. exfalso.
      destruct Hk as (l & s & Hl & Hsid); [left; lia|]. destruct Hun as [_ Hun]. apply (Hun l s Hl). congruence.
    + intros [Hp|[x Hx]]; [apply Hold, Hk; by left|]. rewrite Hh in Hx.
      apply lookup_insert_Some in Hx as [[Heq _]|[_ Hx]]; [|apply Hold, Hk; right; by eexists].
      exists sl, sess. by rewrite Hsess, lookup_insert_eq.
Qed.

Lemma report_inv_init sid conf : report_inv sid (hub_init conf).
Proof.
  split; simpl; [done|unfold offline_count; simpl; lia|].
  intros [Hp|[x Hx]]; [unfold offline_count in Hp; simpl in Hp; lia|by rewrite lookup_empty in Hx].
Qed.

(** C12: a session is reported offline at most once, and never while its handler
    is still registered, however the peer, the two loops, kick-offs and the
    shutdown race to remove it. *)
Theorem offline_reported_once conf h sid :
  sid ≠ "" → rtc hub_step (hub_init conf) h →
  offline_count sid h ≤ 1 ∧ (is_Some (handlers h !! sid) → offline_count sid h = 0).
Proof.
  intros Hne Hr.
  assert (Hgen : ∀ h1 h2, rtc hub_step h1 h2 → report_inv sid h1 → report_inv sid h2).
  { induction 1; eauto using report_inv_step. }
  destruct (Hgen _ _ Hr (report_inv_init sid conf)). done.
Qed.

(** A kicked-off session is never reported offline. The hub removes its
    handler from the map without telling the leader, and whatever happens
    later, no report about it is sent. *)
Theorem kicked_never_reported sid l h h1 h2 :
  sid ≠ "" → hub_ok h → handlers h !! sid = Some l →
  Hub_Kickoff sid h = Ret (Some h1) → rtc hub_step h1 h2 →
  offline_count sid h2 = offline_count sid h ∧ handlers h2 !! sid = None.
Proof.
  intros Hne Hok Hl Hk Hr.
  destruct (ho_filed _ Hok _ _ Hl) as (x & sess & _ & Hsess & Hsid).
  assert (H1' : offline_count sid h1 = offline_count sid h ∧ handlers h1 !! sid = None ∧ hsess h1 = hsess h).
  { unfold Hub_Kickoff, HandlerStore_get in Hk. rewrite Hl in Hk.
    destruct (appendDataChan _ l h) as [[ha|]|] eqn:Ha; [|done|done]. simpl in Hk. injection Hk as <-.
    unfold appendDataChan in Ha. destruct (hobjs h !! l) as [y|]; [|done].
    assert (Hha : handlers ha = handlers h ∧ followerC ha = followerC h ∧ hsess ha = hsess h).
    { destruct (closing y); [by simplify_eq|]. destruct (chan_closed y); [done|].
      case_bool_decide; by simplify_eq. }
    destruct Hha as (Hh & Hf & Hs). unfold HandlerStore_del. rewrite Hh, Hl. simpl.
    unfold offline_count. simpl. rewrite Hf, lookup_delete_eq. done. }
  assert (Hgen : ∀ a b, rtc hub_step a b → handlers a !! sid = None →
    (∃ k s, hsess a !! k = Some s ∧ Sid s = sid) →
    offline_count sid b = offline_count sid a ∧ handlers b !! sid = None).
  { induction 1 as [|a b c Hs _ IH]; [done|]. intros Hn Hex.
    destruct (hub_step_reports sid a b Hs Hne) as [[Hse [[Hc Hh]|(Hsome & _)]]|(hl & sl & s & Hun & Hsl & Hse & Hh & Hc)].
    - rewrite <-Hc. apply IH; [auto|]. by rewrite Hse.
    - rewrite Hn in Hsome. by destruct Hsome.
    - rewrite <-Hc. destruct Hex as (k & s' & Hk' & Hs'). apply IH.
      + rewrite Hh, lookup_insert_ne; [done|]. intros Heq. destruct Hun as [_ Hun]. apply (Hun k s' Hk'). congruence.
      + exists k, s'. rewrite Hse, lookup_insert_ne by congruence. done. }
  destruct H1' as (Hc & Hn & Hs). rewrite <-Hc. apply Hgen; [done|done|].
  rewrite Hs. eauto.
Qed.
End Properties.

(** * Delivery *)

Section Delivery.
Context `{GoRange}.
Implicit Types (h : Hub).

(** A value reaches a handler unless it is closing. *)
Definition receive (v : SessionData) (x : Handler) : Handler :=
  if closing x then x else with_dataChan (dataChan x ++ [v]) x.

(** [h'] differs from [h] only in what the handlers' channels hold. *)
Record same_but_data h h' : Prop := {
  sbd_handlers : handlers h' = handlers h;
  sbd_sess : hsess h' = hsess h;
  sbd_session : ∀ l, session <$> hobjs h' !! l = session <$> hobjs h !! l
}.

Lemma same_but_data_refl h : same_but_data h h.
Proof. by split. Qed.

Lemma same_but_data_trans h1 h2 h3 : same_but_data h1 h2 → same_but_data h2 h3 → same_but_data h1 h3.
Proof. intros [? ? Ho1] [? ? Ho2]. split; [congruence|congruence|]. intros l. by rewrite Ho2. Qed.

Lemma appendDataChan_spec v l h h' :
  appendDataChan v l h = Ret (Some h') →
  same_but_data h h' ∧ ∀ k, hobjs h' !! k = (if decide (k = l) then receive v <$> hobjs h !! k else hobjs h !! k).
Proof.
  unfold appendDataChan. destruct (hobjs h !! l) as [x|] eqn:Hx; [|done].
  destruct (closing x) eqn:Hc.
  { intros [= <-]. split; [apply same_but_data_refl|]. intros k. case_decide; subst; [|done].
    rewrite Hx. simpl. unfold receive. by rewrite Hc. }
  destruct (chan_closed x); [done|]. case_bool_decide; [|done]. intros [= <-]. split.
  - split; [done|done|]. intros k. simpl. rewrite lookup_alter. case_decide; subst; [|done]. by rewrite Hx.
  - intros k. simpl. rewrite lookup_alter. destruct (decide (k = l)) as [->|Hne].
    + rewrite decide_True, Hx by done. simpl. unfold receive. by rewrite Hc.
    + by rewrite decide_False by congruence.
Qed.

Lemma append_each_spec v (ls : list loc) h h' :
  NoDup ls → hub_each (appendDataChan v) ls h = Ret (Some h') →
  same_but_data h h' ∧ ∀ k, hobjs h' !! k = (if decide (k ∈ ls) then receive v <$> hobjs h !! k else hobjs h !! k).
Proof.
  revert h. induction ls as [|l ls IH]; intros h Hnd; simpl.
  { intros [= <-]. split; [apply same_but_data_refl|done]. }
  apply NoDup_cons in Hnd as [Hl Hnd].
  destruct (appendDataChan v l h) as [[h1|]|] eqn:Ha; [|done|done]. simpl. intros Hr.
  apply appendDataChan_spec in Ha as [Hs1 Ho1]. destruct (IH h1 Hnd Hr) as [Hs2 Ho2].
  split; [by eapply same_but_data_trans|]. intros k. rewrite Ho2, Ho1.
  destruct (decide (k = l)) as [->|Hne].
  - rewrite (decide_False (P := l ∈ ls)) by done. by rewrite decide_True by (by left).
  - apply decide_ext. set_solver.
Qed.

Lemma same_but_data_session h h' l : same_but_data h h' → handler_session l h' = handler_session l h.
Proof.
  intros [_ Hs Ho]. unfold handler_session. specialize (Ho l).
  destruct (hobjs h !! l) as [x|], (hobjs h' !! l) as [y|]; simpl in Ho; [|done|done|done].
  injection Ho as Ho. by rewrite Hs, Ho.
Qed.

Lemma same_but_data_getByUid h h' uid :
  same_but_data h h' → HandlerStore_getByUid uid h' = HandlerStore_getByUid uid h.
Proof.
  intros Hs. unfold HandlerStore_getByUid. rewrite (sbd_handlers _ _ Hs). apply list_filter_iff.
  intros l. by rewrite (same_but_data_session h h').
Qed.

Lemma getByUid_elem uid h l :
  l ∈ HandlerStore_getByUid uid h ↔ Uid (handler_session l h) = uid ∧ ∃ sid, handlers h !! sid = Some l.
Proof.
  unfold HandlerStore_getByUid. rewrite list_elem_of_filter, list_elem_of_fmap. f_equiv. split.
  - intros ([sid l'] & -> & Hl%range_elem). eauto.
  - intros [sid Hl]. exists (sid, l). by rewrite range_elem.
Qed.

Lemma getByUid_NoDup uid h : hub_ok h → NoDup (HandlerStore_getByUid uid h).
Proof.
  intros Hok. unfold HandlerStore_getByUid. apply NoDup_filter, NoDup_fmap_2_strong.
  - intros [sid1 l1] [sid2 l2] H1'%range_elem H2'%range_elem Heq. simpl in *. subst l2.
    destruct (ho_filed _ Hok _ _ H1') as (x & s & Hx & Hs & <-).
    destruct (ho_filed _ Hok _ _ H2') as (y & t & Hy & Ht & <-). by simplify_eq.
  - eapply (NoDup_fmap_1 fst). apply range_NoDup_fst.
Qed.

Lemma heads_each_spec (entries : list (Z * Z)) h h' :
  NoDup entries.*1 → hub_ok h →
  hub_each (λ us h, hub_each (appendDataChan (data_msg (ServerMsg_of_HeadSeq us.2)))
                             (HandlerStore_getByUid us.1 h) h) entries h = Ret (Some h') →
  same_but_data h h' ∧
  (∀ uid q k, (uid, q) ∈ entries → k ∈ HandlerStore_getByUid uid h →
     hobjs h' !! k = receive (data_msg (ServerMsg_of_HeadSeq q)) <$> hobjs h !! k) ∧
  (∀ k, (∀ uid q, (uid, q) ∈ entries → k ∉ HandlerStore_getByUid uid h) → hobjs h' !! k = hobjs h !! k).
Proof.
  revert h. induction entries as [|[uid q] entries IH]; intros h Hnd Hok.
  { intros [= <-]. split_and!; [apply same_but_data_refl|set_solver|done]. }
  cbn [fmap list_fmap fst] in Hnd. apply NoDup_cons in Hnd as [Hu Hnd]. simpl hub_each.
  pose proof (safe_each (appendDataChan (data_msg (ServerMsg_of_HeadSeq q))) (HandlerStore_getByUid uid h) h Hok) as Hsafe.
  destruct (hub_each _ (HandlerStore_getByUid uid h) h) as [[h1|]|] eqn:Ha; [|done|done]. simpl. intros Hr.
  destruct Hsafe as [Hok1 _].
  { intros l h2 Hin Hok2 Hg2. apply appendDataChan_safe; [done|by right|]. apply (hg_objs _ _ Hg2).
    by eapply getByUid_dom. }
  apply append_each_spec in Ha as [Hs1 Ho1]; [|by apply getByUid_NoDup].
  destruct (IH h1 Hnd Hok1 Hr) as (Hs2 & Hin2 & Hout2).
  assert (Hget : ∀ u, HandlerStore_getByUid u h1 = HandlerStore_getByUid u h) by (intros; by apply same_but_data_getByUid).
  assert (Hdisj : ∀ u k, (∃ s, (u, s) ∈ entries) → k ∈ HandlerStore_getByUid uid h → k ∉ HandlerStore_getByUid u h).
  { intros u k [s Hs] [Hk _]%getByUid_elem [Hk' _]%getByUid_elem. apply Hu.
    apply (list_elem_of_fmap_2 fst) in Hs. simpl in Hs. congruence. }
  split_and!; [by eapply same_but_data_trans| |].
  - intros u s k [[= -> ->]|Hin]%elem_of_cons Hk.
    + rewrite Hout2; [by rewrite Ho1, decide_True|]. intros u' s' Hin'. rewrite Hget.
      apply Hdisj; eauto.
    + rewrite (Hin2 u s k Hin) by (by rewrite Hget). rewrite Ho1, decide_False; [done|].
      intros Hk'. by eapply Hdisj; [exists s|..].
  - intros k Hk. rewrite Hout2, Ho1.
    + rewrite decide_False; [done|]. apply (Hk uid q). by left.
    + intros u s Hin. rewrite Hget. apply (Hk u s). by right.
Qed.

Lemma Hub_Run_heads_spec msg h h' :
  hub_ok h → LeaderMsg_Kickoff msg = [] → Hub_Run_msg msg h = Ret (Some h') →
  handlers h' = handlers h ∧
  (∀ sid l x q, handlers h !! sid = Some l → hobjs h !! l = Some x →
     LeaderMsg_HeadSeq msg !! Uid (hsess h !!! session x) = Some q →
     hobjs h' !! l = Some (receive (data_msg (ServerMsg_of_HeadSeq q)) x)) ∧
  (∀ l x, hobjs h !! l = Some x →
     ((∀ sid, handlers h !! sid ≠ Some l) ∨ LeaderMsg_HeadSeq msg !! Uid (hsess h !!! session x) = None) →
     hobjs h' !! l = Some x).
Proof.
  intros Hok Hk Hr. unfold Hub_Run_msg in Hr. rewrite Hk in Hr. simpl in Hr.
  assert (Hsess : ∀ l x, hobjs h !! l = Some x → handler_session l h = hsess h !!! session x).
  { intros l x Hx. unfold handler_session. by rewrite Hx. }
  case_bool_decide as Hz.
  - apply heads_each_spec in Hr as (Hs & Hin & Hout); [|apply range_NoDup_fst|done].
    split_and!; [apply Hs| |].
    + intros sid l x q Hl Hx Hq.
      rewrite (Hin (Uid (hsess h !!! session x)) q l); [by rewrite Hx|by rewrite range_elem|].
      apply getByUid_elem. rewrite (Hsess l x Hx). eauto.
    + intros l x Hx Hcase. rewrite Hout; [done|]. intros uid q Hq%range_elem [Hu [sid Hl]]%getByUid_elem.
      rewrite (Hsess l x Hx) in Hu. destruct Hcase as [Hn|Hn]; [by eapply Hn|congruence].
  - injection Hr as <-. split_and!; [done| |done]. intros sid l x q _ _ Hq.
    assert (Hemp : LeaderMsg_HeadSeq msg = ∅) by (apply map_size_empty_iff; lia).
    by rewrite Hemp, lookup_empty in Hq.
Qed.

(** C13: every registered session of a user gets the user's new head, in the
    order of the pushes: when the hub has handled a message with heads, the
    channel of each open handler of a user in the message ends with that user's
    number, and the channels of all other handlers are untouched. *)
Theorem heads_delivered msg h h' :
  hub_ok h → LeaderMsg_Kickoff msg = [] → Hub_Run_msg msg h = Ret (Some h') →
  handlers h' = handlers h ∧
  (∀ sid l x q, handlers h !! sid = Some l → hobjs h !! l = Some x →
     LeaderMsg_HeadSeq msg !! Uid (hsess h !!! session x) = Some q →
     hobjs h' !! l = Some (receive (data_msg (ServerMsg_of_HeadSeq q)) x)) ∧
  (∀ l x, hobjs h !! l = Some x →
     ((∀ sid, handlers h !! sid ≠ Some l) ∨ LeaderMsg_HeadSeq msg !! Uid (hsess h !!! session x) = None) →
     hobjs h' !! l = Some x).
Proof. apply Hub_Run_heads_spec. Qed.

(** ** A sender that is gone *)

Lemma Hub_Run_msg_grows uid q h h' sid l x :
  hub_ok h → handlers h !! sid = Some l → hobjs h !! l = Some x → closing x = false →
  Uid (hsess h !!! session x) = uid →
  Hub_Run_msg {| LeaderMsg_HeadSeq := {[uid := q]}; LeaderMsg_Kickoff := []; LeaderMsg_ServerShutdown := false |} h
    = Ret (Some h') →
  hub_ok h' ∧ handlers h' !! sid = Some l ∧ Uid (hsess h' !!! session x) = uid ∧
  hobjs h' !! l = Some (with_dataChan (dataChan x ++ [data_msg (ServerMsg_of_HeadSeq q)]) x).
Proof.
  intros Hok Hl Hx Hc Hu Hr.
  assert (Hok' : hub_ok h').
  { pose proof (Hub_Run_msg_safe {| LeaderMsg_HeadSeq := {[uid := q]}; LeaderMsg_Kickoff := [];
      LeaderMsg_ServerShutdown := false |} h Hok) as Hs. rewrite Hr in Hs. apply Hs. }
  unfold Hub_Run_msg in Hr. simpl in Hr. rewrite bool_decide_eq_true_2 in Hr by (rewrite map_size_singleton; lia).
  apply heads_each_spec in Hr as (Hs & Hin & _); [|apply range_NoDup_fst|done].
  split_and!; [done|by rewrite (sbd_handlers _ _ Hs)|by rewrite (sbd_sess _ _ Hs)|].
  rewrite (Hin uid q l).
  - rewrite Hx. simpl. unfold receive. by rewrite Hc.
  - apply range_elem. apply lookup_singleton_eq.
  - apply getByUid_elem. split; [|eauto]. unfold handler_session. by rewrite Hx.
Qed.

End Delivery.

(** * Synchronisation and replies *)

Section Sync.
Context `{GoRange}.

Lemma sync_batches_spec fuel sessions :
  length sessions ≤ fuel →
  concat (sync_batches fuel sessions) = sessions ∧
  Forall (λ b : list loc, 1 ≤ length b ≤ 1000) (sync_batches fuel sessions).
Proof.
  revert sessions. induction fuel as [|fuel IH]; intros sessions Hlen.
  { destruct sessions; [done|simpl in Hlen; lia]. }
  destruct sessions as [|x sessions]; [done|].
  change (sync_batches (S fuel) (x :: sessions)) with
    (take 1000 (x :: sessions) :: sync_batches fuel (drop 1000 (x :: sessions))).
  destruct (IH (drop 1000 (x :: sessions))) as [Hc Hf].
  { rewrite length_drop. simpl in Hlen. simpl length. lia. }
  split; [cbn [concat]; rewrite Hc; apply take_drop|].
  constructor; [|done]. rewrite length_take. simpl length. lia.
Qed.

(** Going online tells the leader about every registered session exactly
    once, in messages of between one and a thousand sessions. *)
Theorem Online_syncs_all h :
  hub_ok h →
  online (Online h) = true ∧
  ∃ batches, followerC (Online h) = followerC h ++ (FollowerMsg_of_Sync <$> batches) ∧
    Forall (λ b, 1 ≤ length b ≤ 1000) batches ∧
    concat batches ≡ₚ omap (λ p : string * loc, session <$> hobjs h !! p.2) (map_to_list (handlers h)) ∧
    length (concat batches) = size (handlers h).
Proof.
  intros Hok. destruct (Online_state h) as (_ & _ & _ & Hf). split.
  { unfold Online. generalize (sync_batches (length (shallowCopySessions (set_online true h)))
      (shallowCopySessions (set_online true h))).
    intros l. assert (Hgen : ∀ h1, online h1 = true →
      online (foldl (λ h b, tell_leader (FollowerMsg_of_Sync b) h) h1 l) = true).
    { induction l; intros h1 Ho; simpl; auto. }
    by apply Hgen. }
  exists (sync_batches (length (shallowCopySessions h)) (shallowCopySessions h)).
  destruct (sync_batches_spec (length (shallowCopySessions h)) (shallowCopySessions h)) as [Hc Hb]; [done|].
  assert (Heq : shallowCopySessions h = omap (λ p : string * loc, session <$> hobjs h !! p.2) (range 41 (handlers h))).
  { unfold shallowCopySessions. generalize (range 41 (handlers h)). intros l.
    induction l as [|[sid k] l IH]; [done|]. cbn. destruct (hobjs h !! k); cbn; [f_equal|]; exact IH. }
  split_and!; [done|done| |].
  - rewrite Hc, Heq. by rewrite range_perm.
  - rewrite Hc, Heq, <-length_map_to_list, <-(Permutation_length (range_perm 41 _ _ (handlers h))).
    assert (Hall : ∀ p, p ∈ range 41 (handlers h) → is_Some (hobjs h !! p.2)).
    { intros [sid k] Hin%range_elem. destruct (ho_filed _ Hok _ _ Hin) as (x & _ & Hx & _). by exists x. }
    revert Hall. generalize (range 41 (handlers h)). intros l. induction l as [|p l IH]; intros Hall; simpl; [done|].
    destruct (Hall p ltac:(by left)) as [x Hx]. rewrite Hx. simpl. f_equal. apply IH. intros. apply Hall. by right.
Qed.
End Sync.

Section Replies.
Context `{ClientJson} {S E : Type} `{IEventStore S E}.

(** An error that a client may see. *)
Definition public_error (v : SessionData) : Prop :=
  ∀ msg e, sd_ServerMsg v = Some msg → ServerMsg_Error msg = Some e →
    Error_Code e = ErrorCodeInternal → Error_Params e = ["temp storage error"].

(** A value that announces neither a head nor a kick-off. *)
Definition announces_nothing (v : SessionData) : Prop :=
  ∀ msg, sd_ServerMsg v = Some msg → ServerMsg_HeadSeq msg = 0%Z ∧ ServerMsg_Kickoff msg = false.

(** A response of the event API, as one of the fields of a [pb.ServerMsg]. *)
Definition api_field {A} (f : A → pb_ServerMsg) : Prop :=
  ∀ a, ServerMsg_Error (f a) = None ∧ announces_nothing (data_msg (f a)).

Lemma api_fields :
  api_field ServerMsg_of_Stats ∧ api_field ServerMsg_of_GetEvents ∧ api_field ServerMsg_of_SetRead ∧
  api_field ServerMsg_of_GetReadStates.
Proof. split_and!; intros a; (split; [done|by intros msg [= <-]]). Qed.

Lemma api_reply_ok {A} (f : A → pb_ServerMsg) (r : result pb_Error A) :
  api_field f →
  recv_ok (api_reply f r) ∧ Forall public_error (rr_append (api_reply f r)) ∧
  Forall announces_nothing (rr_append (api_reply f r)) ∧
  rr_route (api_reply f r) = None ∧ rr_return (api_reply f r) = false ∧ length (rr_append (api_reply f r)) = 1.
Proof.
  intros Hf. destruct r as [a|e]; simpl; split_and!; try done; apply Forall_singleton; try (by right).
  - intros msg e [= <-]. by rewrite (proj1 (Hf a)).
  - apply Hf.
  - intros msg e' [= <-] [= <-]. unfold interceptError. case_bool_decide; done.
  - by intros msg [= <-].
Qed.

(** What a turn of [recvLoop] may produce for what was read. *)
Record reply_ok (conf : pb_WsConf) (r : ws_read) (res : recv_result) : Prop := {
  rk_data : recv_ok res;
  rk_public : Forall public_error (rr_append res);
  rk_quiet : Forall announces_nothing (rr_append res);
  rk_route : rr_route res ≠ None → EnableClientMsg conf = true ∧ rr_append res = [];
  rk_return : rr_return res = true ↔
    match r with Frame true payload => is_Some (ClientMsg_Unmarshal payload).2 | _ => True end;
  rk_one : rr_return res = false → rr_route res = None →
    length (rr_append res) = 1 ∨
    (∃ payload, r = Frame true payload ∧ ClientMsg_Unmarshal payload = (ClientMsg_zero, None) ∧
       length (rr_append res) = 2)
}.

(** One reply to a message that could be decoded. *)
Lemma reply_ok_single conf payload res :
  (ClientMsg_Unmarshal payload).2 = None → recv_ok res → Forall public_error (rr_append res) →
  Forall announces_nothing (rr_append res) →
  rr_route res = None → rr_return res = false → length (rr_append res) = 1 →
  reply_ok conf (Frame true payload) res.
Proof.
  intros Hn Hd Hp Hq Ho Hr Hl. split; [done|done|done|by rewrite Ho| |by left].
  rewrite Hr, Hn. split; [done|]. by intros [? ?].
Qed.

Lemma reply_ok_api conf payload {A} (f : A → pb_ServerMsg) (a : result pb_Error A) :
  (ClientMsg_Unmarshal payload).2 = None → api_field f →
  reply_ok conf (Frame true payload) (api_reply f a).
Proof.
  intros Hn Hf. destruct (api_reply_ok f a Hf) as (?&?&?&?&?&?). by apply reply_ok_single.
Qed.

(** An argument error, and the value that makes [sendLoop] close the session. *)
Lemma bad_request_ok req errs :
  let l := [data_msg (ServerMsg_of_Error (newInvalidArgumentError req errs)); data_error BadRequest] in
  Forall data_ok l ∧ Forall public_error l ∧ Forall announces_nothing l.
Proof.
  split_and!; (constructor; [|apply Forall_singleton]).
  - by right.
  - by left.
  - by intros msg e [= <-] [= <-].
  - by intros msg e ?.
  - by intros msg [= <-].
  - by intros msg ?.
Qed.

Lemma recvLoop_body_reply_ok conf uid r st res st' :
  recvLoop_body conf uid r st = Ret (res, st') → reply_ok conf r res.
Proof.
  intros Hr. destruct api_fields as (Hf1 & Hf2 & Hf3 & Hf4). unfold recvLoop_body in Hr. destruct r as [|[] payload].
  - injection Hr as <- <-. split; simpl; try done; apply Forall_singleton; [by left|by intros msg e ?|by intros msg ?].
  - destruct (ClientMsg_Unmarshal payload) as [req [err|]] eqn:Hj.
    { injection Hr as <- <-. destruct (bad_request_ok (Some req) ["marshal error: " +:+ err]) as (? & ? & ?).
      split; simpl; try done. by rewrite Hj. }
    assert (Hn : (ClientMsg_Unmarshal payload).2 = None) by (by rewrite Hj).
    destruct (ClientMsg_Stats req) as [v|] eqn:E1.
    { destruct (EventApi_Stats conf uid v st). injection Hr as <- _. by apply reply_ok_api. }
    destruct (ClientMsg_GetEvents req) as [v|] eqn:E2.
    { destruct (EventApi_GetEvents conf uid v st). injection Hr as <- _. by apply reply_ok_api. }
    destruct (ClientMsg_SetRead req) as [v|] eqn:E3.
    { destruct (EventApi_SetRead uid v st). injection Hr as <- _. by apply reply_ok_api. }
    destruct (ClientMsg_GetReadStates req) as [v|] eqn:E4.
    { destruct (EventApi_GetReadStates conf uid v st) as [[a st1]|]; [|done]. injection Hr as <- _.
      by apply reply_ok_api. }
    destruct (ClientMsg_Im req) as [v|] eqn:E5.
    { destruct (EnableClientMsg conf) eqn:Hen; injection Hr as <- <-.
      - split; simpl; try done; [constructor|constructor..|]. rewrite Hn. split; [done|by intros [? ?]].
      - apply reply_ok_single; try done; apply Forall_singleton; [by right|by intros msg e [= <-] [= <-]|by intros msg [= <-]]. }
    injection Hr as <- <-. destruct (bad_request_ok (Some req) ["unsupported request"]) as (? & ? & ?).
    split; simpl; try done; [rewrite Hn; split; [done|by intros [? ?]]|]. intros _ _. right.
    exists payload. split_and!; [done| |done]. rewrite Hj. destruct req. simpl in *. by subst.
  - injection Hr as <- <-. destruct (bad_request_ok None ["websocket only supports TextMessage"]) as (? & ? & ?).
    split; simpl; done.
Qed.
(** C17: what a client gets back. Every turn of [recvLoop] produces values that
    [sendLoop] understands; a well-formed request is answered by exactly one
    message, or routed when client messages are enabled; no answer carries the
    text of a storage error, or announces a head or a kick-off; and the loop ends exactly on a failed read, a
    frame that is not text, or text that is not a message. *)
Theorem recvLoop_body_correct conf uid r st res st' :
  recvLoop_body conf uid r st = Ret (res, st') → reply_ok conf r res.
Proof. apply recvLoop_body_reply_ok. Qed.
End Replies.

(** * Examples *)

Section Examples.
#[local] Existing Instance canonical_range.

(** A hub that is online, with sessions "s1" of user 7 and "s2" of user 8. *)
Definition ex_hub0 : Hub := Online (hub_init conf25).
Definition ex_hub1 : Hub := (ServeHTTP (Some 7%Z) true "s1" "10.0.0.1" 100 ex_hub0).2.
Definition ex_hub2 : Hub := (ServeHTTP (Some 8%Z) true "s2" "10.0.0.2" 101 ex_hub1).2.

Definition ex_heads : pb_LeaderMsg := {|
  LeaderMsg_HeadSeq := {[7%Z := 3%Z]}; LeaderMsg_Kickoff := []; LeaderMsg_ServerShutdown := false |}.

Definition hub_or (d : Hub) (c : go (option Hub)) : Hub :=
  match c with Ret (Some h) => h | _ => d end.

(** The hub after a head for user 7 was queued. *)
Definition ex_hub3 : Hub := hub_or ex_hub2 (Hub_Run_msg ex_heads ex_hub2).

Lemma unused_sid_dec_true uuid h :
  uuid ≠ "" → bool_decide (map_Forall (λ _ sess, Sid sess ≠ uuid) (hsess h)) = true → unused_sid uuid h.
Proof. intros Hne Hall%bool_decide_eq_true. split; [done|]. intros l sess Hl. by apply (Hall l). Qed.

Lemma ex_reach2 : rtc hub_step (hub_init conf25) ex_hub2.
Proof.
  eapply rtc_l; [apply hs_online|]. fold ex_hub0.
  eapply rtc_l; [eapply (hs_serve (Some 7%Z) true "s1" "10.0.0.1" 100)|].
  { apply unused_sid_dec_true; [done|]. vm_compute. reflexivity. }
  { reflexivity. }
  fold ex_hub1. eapply rtc_l; [eapply (hs_serve (Some 8%Z) true "s2" "10.0.0.2" 101)|apply rtc_refl].
  { apply unused_sid_dec_true; [done|]. vm_compute. reflexivity. }
  { reflexivity. }
Qed.

Lemma ex_reach3 : rtc hub_step (hub_init conf25) ex_hub3.
Proof. eapply rtc_r; [apply ex_reach2|]. apply (hs_leader ex_heads). vm_compute. reflexivity. Qed.


Lemma offline_reported_once_witness :
  offline_count "s1" (peer_close 1%positive ex_hub3) = 1 ∧
  offline_count "s1" (peer_close 1%positive ex_hub3) ≤ 1.
Proof.
  split; [vm_compute; reflexivity|].
  apply (offline_reported_once conf25 (peer_close 1%positive ex_hub3) "s1"); [discriminate|].
  eapply rtc_r; [apply ex_reach3|].
  eapply (hs_peer 1%positive). reflexivity.
Defined.

Lemma kicked_never_reported_witness :
  let h1 := hub_or ex_hub3 (Hub_Kickoff "s1" ex_hub3) in
  let h2 := hub_or h1 (sendLoop_data true 1%positive h1) in
  offline_count "s1" h2 = offline_count "s1" ex_hub3 ∧ handlers h2 !! "s1" = None.
Proof.
  intros h1 h2.
  apply (kicked_never_reported "s1" 1%positive ex_hub3 h1 h2).
  - discriminate.
  - apply (hub_reach_ok conf25), ex_reach3.
  - reflexivity.
  - vm_compute. reflexivity.
  - apply rtc_once. eapply (hs_send true 1%positive); reflexivity.
Defined.

Lemma heads_delivered_witness :
  handlers ex_hub3 = handlers ex_hub2 ∧
  hobjs ex_hub3 !! 1%positive =
    Some (receive (data_msg (ServerMsg_of_HeadSeq 3)) (new_handler 1%positive)) ∧
  hobjs ex_hub3 !! 2%positive = Some (new_handler 2%positive).
Proof.
  destruct (heads_delivered ex_heads ex_hub2 ex_hub3) as (Hh & Hin & Hout).
  - apply (hub_reach_ok conf25), ex_reach2.
  - reflexivity.
  - vm_compute. reflexivity.
  - split; [exact Hh|]. split.
    + apply (Hin "s1"); reflexivity.
    + apply Hout; [reflexivity|]. right. reflexivity.
Defined.


Lemma Online_syncs_all_witness :
  ∃ batches, followerC (Online ex_hub2) = followerC ex_hub2 ++ (FollowerMsg_of_Sync <$> batches) ∧
    length (concat batches) = 2.
Proof.
  destruct (Online_syncs_all ex_hub2) as (_ & batches & Hf & _ & _ & Hlen).
  - apply (hub_reach_ok conf25), ex_reach2.
  - exists batches. split; [exact Hf|]. rewrite Hlen. vm_compute. reflexivity.
Defined.

(** A decoder that knows two requests. *)
Definition ex_client_json : ClientJson := {|
  ClientMsg_Unmarshal := λ s,
    if bool_decide (s = "set_read 2") then (ClientMsg_of_SetRead {| SetReadReq_Seq := 2 |}, None)
    else if bool_decide (s = "get_events 2 9")
    then (ClientMsg_of_GetEvents {| FromSeq := 2; ToSeq := 9 |}, None)
    else (ClientMsg_zero, Some "invalid character")
|}.
#[local] Existing Instance ex_client_json.
#[local] Existing Instance good_server.
#[local] Instance ex_hub_store : IEventStore conn sql_error := eventStore_IEventStore (λ t, t) 0 (λ _, "").

Lemma recvLoop_body_correct_witness :
  reply_ok conf25 (Frame true "set_read 2")
    (recv_reply (ServerMsg_of_SetRead {| SetReadResp_Seq := 2; Changed := true |})).
Proof.
  apply (recvLoop_body_correct conf25 1 (Frame true "set_read 2") conn1 _ (SetRead 1 2 conn1).2).
  vm_compute. reflexivity.
Defined.
End Examples.
