(* ===== verification/Cluster.v ===== *)
(** [cluster/cluster.go] and [cluster/client.go]: how a node of the cluster wires
    its goroutines together.

    A node has one channel [sendMsgChan] of leader messages.  On a leader the
    storage writes to it and [pushServer.run] reads from it; on a follower the
    client of the gRPC stream writes to it and [Hub.Run] reads from it.  A node
    that is both connects all four to the same channel. *)

From Stdlib Require Import ZArith Lia.
From stdpp Require Import base option list numbers gmap strings pretty relations.
From S2P Require Import Prelude Proto.

(** * Configuration *)

(** The fields that hold values; [Hub], [Mux] and [EventManager] are the
    components of [Hub.v] and [EventStore.v] themselves. *)
Record ClusterCfg := {
  Pid : Z;
  Addr : string;
  RunLeader : bool;
  RunFollower : bool;
  LeaderAddr : string;
  KafkaBrokers : list string;
  KafkaTopic : string;
  KafkaGroupId : string;
  Cfg_EnableClientMsg : bool;
  CleanEvents : bool;
  EventTTLDays : Z;
  EventPayloadMaxBytes : Z;
  SessionQuota : Z
}.

(** [fmt.Sprintf("%s_%d", conf.Addr, conf.Pid)] *)
Definition cluster_hubId (conf : ClusterCfg) : string := Addr conf +:+ "_" +:+ pretty (Pid conf).

(** The address that [runClient] connects to. *)
Definition client_leader (conf : ClusterCfg) : string :=
  if RunLeader conf then Addr conf else LeaderAddr conf.

Inductive http_route := ToGrpc | ToStatus (code : Z) | ToMux.

(** [Cluster.ServeHTTP] *)
Definition Cluster_ServeHTTP (conf : ClusterCfg) (ProtoMajor : Z) (contentType : string) : http_route :=
  if bool_decide (ProtoMajor = 2)%Z && String.prefix "application/grpc" contentType then
    if RunLeader conf then ToGrpc else ToStatus 503
  else ToMux.

(** * The channel of a node *)

(** [make(chan *pb.LeaderMsg, 8)] *)
Definition sendMsgChan_cap : nat := 8.

Record node := {
  n_chan : list pb_LeaderMsg;       (* [sendMsgChan] *)
  n_stream : list pb_LeaderMsg;     (* sent by the leader to this node's client, not yet received *)
  n_produced : list pb_LeaderMsg;   (* written by the storage of this node *)
  n_arrived : list pb_LeaderMsg;    (* sent by the leader to this node *)
  n_broadcast : list pb_LeaderMsg;  (* taken by [pushServer.run] and pushed to all hubs *)
  n_hub : list pb_LeaderMsg;        (* taken by [Hub.Run] *)
  n_client_running : bool           (* [client.start] is in its loop *)
}.

Definition node_init : node := {|
  n_chan := []; n_stream := []; n_produced := []; n_arrived := []; n_broadcast := []; n_hub := [];
  n_client_running := true |}.

(** The goroutines that use the channel; [send] on a full channel waits. *)
Inductive node_step (conf : ClusterCfg) : node → node → Prop :=
| ns_storage m c st p a b hb r :
    RunLeader conf = true → length c < sendMsgChan_cap →
    node_step conf
      {| n_chan := c; n_stream := st; n_produced := p; n_arrived := a; n_broadcast := b; n_hub := hb; n_client_running := r |}
      {| n_chan := c ++ [m]; n_stream := st; n_produced := p ++ [m]; n_arrived := a; n_broadcast := b; n_hub := hb; n_client_running := r |}
| ns_run m c st p a b hb r :
    (** [pushServer.run]; its own hub, if any, is one of the streams *)
    RunLeader conf = true →
    node_step conf
      {| n_chan := m :: c; n_stream := st; n_produced := p; n_arrived := a; n_broadcast := b; n_hub := hb; n_client_running := r |}
      {| n_chan := c;
         n_stream := if RunFollower conf then st ++ [m] else st; n_produced := p;
         n_arrived := if RunFollower conf then a ++ [m] else a;
         n_broadcast := b ++ [m]; n_hub := hb; n_client_running := r |}
| ns_arrive m c st p a b hb r :
    (** a message from the leader's server: broadcast elsewhere, or a kick-off *)
    RunFollower conf = true →
    node_step conf
      {| n_chan := c; n_stream := st; n_produced := p; n_arrived := a; n_broadcast := b; n_hub := hb; n_client_running := r |}
      {| n_chan := c; n_stream := st ++ [m]; n_produced := p; n_arrived := a ++ [m]; n_broadcast := b; n_hub := hb; n_client_running := r |}
| ns_client m c st p a b hb :
    (** [client.start] *)
    RunFollower conf = true → LeaderMsg_ServerShutdown m = false → length c < sendMsgChan_cap →
    node_step conf
      {| n_chan := c; n_stream := m :: st; n_produced := p; n_arrived := a; n_broadcast := b; n_hub := hb; n_client_running := true |}
      {| n_chan := c ++ [m]; n_stream := st; n_produced := p; n_arrived := a; n_broadcast := b; n_hub := hb; n_client_running := true |}
| ns_shutdown m c st p a b hb :
    RunFollower conf = true → LeaderMsg_ServerShutdown m = true →
    node_step conf
      {| n_chan := c; n_stream := m :: st; n_produced := p; n_arrived := a; n_broadcast := b; n_hub := hb; n_client_running := true |}
      {| n_chan := c; n_stream := m :: st; n_produced := p; n_arrived := a; n_broadcast := b; n_hub := hb; n_client_running := false |}
| ns_hub m c st p a b hb r :
    (** [Hub.Run] *)
    RunFollower conf = true →
    node_step conf
      {| n_chan := m :: c; n_stream := st; n_produced := p; n_arrived := a; n_broadcast := b; n_hub := hb; n_client_running := r |}
      {| n_chan := c; n_stream := st; n_produced := p; n_arrived := a; n_broadcast := b; n_hub := hb ++ [m]; n_client_running := r |}.

(** * Properties *)

(** An invariant of the channel graph holds in every reachable state. *)
Lemma node_invariant conf (I : node → Prop) n :
  I node_init → (∀ n1 n2, node_step conf n1 n2 → I n1 → I n2) →
  rtc (node_step conf) node_init n → I n.
Proof.
  intros H0 Hstep Hr. revert H0. generalize node_init Hr. clear Hr.
  induction 1 as [|n1 n2 n3 Hs _ IH]; [done|]. eauto.
Qed.

(** Nothing is lost or reordered between the producer of the node's role, the
    channel and its consumer. *)
Definition in_order (conf : ClusterCfg) (n : node) : Prop :=
  length (n_chan n) ≤ sendMsgChan_cap ∧
  if RunLeader conf then n_produced n = n_broadcast n ++ n_chan n ∧ n_hub n = []
  else n_arrived n = n_hub n ++ n_chan n ++ n_stream n ∧ n_broadcast n = [].

(** C34: a node with one role loses and reorders nothing. What the storage of a
    dedicated leader produced is what was broadcast followed by what is in the
    channel; what the leader sent to a dedicated follower is what its hub took
    followed by what is in the channel and on the stream. The channel never
    holds more than its capacity. *)
Theorem dedicated_node_in_order conf n :
  RunLeader conf ≠ RunFollower conf → rtc (node_step conf) node_init n → in_order conf n.
Proof.
  intros Hne. apply node_invariant; unfold in_order.
  - split; [simpl; lia|]. by destruct (RunLeader conf).
  - intros n1 n2 Hs [Hlen Hinv].
    destruct (RunLeader conf) eqn:El, (RunFollower conf) eqn:Ef; try done;
      destruct Hs; simpl in *; rewrite ?El, ?Ef in *; try done;
      destruct Hinv as [Hinv Hnil]; subst; rewrite ?length_app; simpl in *;
      (split; [lia|]); rewrite <-?app_assoc; done.
Qed.

(** C33: a node that is leader and follower misroutes messages. Its own hub can
    take a message from the shared channel before the push server does, so that
    no other hub ever gets it; and a message that was broadcast comes back
    through the node's own client into the same channel, so that it can be
    broadcast any number of times. *)
Theorem combined_node_misroutes conf m :
  RunLeader conf = true → RunFollower conf = true → LeaderMsg_ServerShutdown m = false →
  (∃ n, rtc (node_step conf) node_init n ∧ n_produced n = [m] ∧ n_broadcast n = [] ∧
     n_hub n = [m] ∧ n_chan n = [] ∧ n_stream n = []) ∧
  ∀ k, ∃ n, rtc (node_step conf) node_init n ∧ n_produced n = [m] ∧ n_broadcast n = replicate k m.
Proof.
  intros Hl Hf Hm. split.
  { eexists. split; [|].
    - eapply rtc_l; [apply (ns_storage conf m); [done|simpl; unfold sendMsgChan_cap; lia]|].
      eapply rtc_l; [by apply (ns_hub conf m)|]. apply rtc_refl.
    - done. }
  intros k.
  assert (Hgen : ∃ n, rtc (node_step conf) node_init n ∧ n_produced n = [m] ∧
    n_broadcast n = replicate k m ∧ n_chan n = [m] ∧ n_stream n = [] ∧ n_client_running n = true).
  { induction k as [|k IH].
    - eexists. split; [apply rtc_once, (ns_storage conf m); [done|simpl; unfold sendMsgChan_cap; lia]|]. done.
    - destruct IH as ([c st p a b hb r] & Hr & Hp & Hb & Hc & Hst & Hcl). simpl in *. subst.
      eexists. split.
      + eapply rtc_r; [eapply rtc_r; [exact Hr|by apply ns_run]|]. rewrite Hf. simpl.
        apply ns_client; [done|done|]. simpl. unfold sendMsgChan_cap. lia.
      + simpl. by rewrite replicate_cons_app. }
  destruct Hgen as (n & ? & ? & ? & _). eauto.
Qed.

(** * Examples *)

Definition ex_conf (leader follower : bool) : ClusterCfg := {|
  Pid := 42; Addr := "127.0.0.1:8000"; RunLeader := leader; RunFollower := follower;
  LeaderAddr := "127.0.0.1:8001"; KafkaBrokers := ["127.0.0.1:9092"];
  KafkaTopic := "minipush-events"; KafkaGroupId := "minipush"; Cfg_EnableClientMsg := false;
  CleanEvents := true; EventTTLDays := 30; EventPayloadMaxBytes := 4096; SessionQuota := 5 |}.

Definition ex_head : pb_LeaderMsg := {|
  LeaderMsg_HeadSeq := {[1%Z := 5%Z]}; LeaderMsg_Kickoff := []; LeaderMsg_ServerShutdown := false |}.

Example hubId_example : cluster_hubId (ex_conf true true) = "127.0.0.1:8000_42".
Proof. vm_compute. reflexivity. Qed.

Example routes_example :
  Cluster_ServeHTTP (ex_conf true true) 2 "application/grpc+proto" = ToGrpc ∧
  Cluster_ServeHTTP (ex_conf false true) 2 "application/grpc" = ToStatus 503 ∧
  Cluster_ServeHTTP (ex_conf true true) 1 "text/html" = ToMux.
Proof. vm_compute. split_and!; reflexivity. Qed.

Lemma dedicated_node_in_order_witness :
  ∃ n, n_broadcast n = [ex_head] ∧
    in_order (ex_conf true false) n.
Proof.
  eexists. split; [|apply (dedicated_node_in_order (ex_conf true false)); [done|]].
  2:{ eapply rtc_l; [apply (ns_storage (ex_conf true false) ex_head); [done|simpl; unfold sendMsgChan_cap; lia]|].
      eapply rtc_l; [by apply (ns_run (ex_conf true false) ex_head)|]. apply rtc_refl. }
  reflexivity.
Defined.

Lemma combined_node_misroutes_witness :
  ∃ n, rtc (node_step (ex_conf true true)) node_init n ∧ n_produced n = [ex_head] ∧
    n_broadcast n = replicate 3 ex_head.
Proof.
  destruct (combined_node_misroutes (ex_conf true true) ex_head) as [_ Hk]; [reflexivity..|].
  exact (Hk 3).
Defined.
