(* ===== verification/Delivery.v ===== *)
(** From the store to the browser: the storage consumer, the channel or stream of
    leader messages and the hub composed into one system; and how the sender of
    a closed session ends ([cluster/eventstore.go], [ws/hub.go], [ws/handler.go]).

    The messages for one hub are a queue: the buffer of [sendMsgChan] and, in a
    cluster, the gRPC stream and the follower's channel behind it.  Messages can
    be lost on the way (a failed [Send] of [pushToFollower], a follower without a
    stream), not reordered; [Cluster.v] shows this for nodes with one role. *)

From Stdlib Require Import ZArith Lia.
From stdpp Require Import base option list numbers gmap strings relations sorting.
From S2P Require Import Prelude Proto EventStore EventApi SessionStore Cache Storage Hub.

(** * The heads a session is told *)

(** The head that a message announces to the browser: 0 is the absent field. *)
Definition head_of (msg : pb_ServerMsg) : option Z :=
  if bool_decide (ServerMsg_HeadSeq msg = 0%Z) then None else Some (ServerMsg_HeadSeq msg).

(** What was written to the connection, and what waits to be written. *)
Definition told (x : Handler) : list Z := omap head_of (written x).
Definition data_head (v : SessionData) : option Z := sd_ServerMsg v ≫= head_of.
Definition waiting (x : Handler) : list Z := omap data_head (dataChan x).
Definition heads (x : Handler) : list Z := told x ++ waiting x.

(** ** Operations that announce nothing *)

Section Shrink.
Context `{GoRange}.
Implicit Types (h : Hub).

(** [h'] has the handlers of [h]; none of them is told a new head. *)
Record shrinks h h' : Prop := {
  sh_sess : hsess h' = hsess h;
  sh_heads : ∀ l x', hobjs h' !! l = Some x' →
    ∃ x, hobjs h !! l = Some x ∧ session x' = session x ∧ heads x' `sublist_of` heads x
}.

Definition shrinks_opt h (c : go (option Hub)) : Prop :=
  ∀ h', c = Ret (Some h') → shrinks h h'.

Lemma shrinks_same h h' : hsess h' = hsess h → hobjs h' = hobjs h → shrinks h h'.
Proof. intros Hs Ho. split; [done|]. intros l x. rewrite Ho. eauto. Qed.

#[global] Instance shrinks_preorder : PreOrder shrinks.
Proof.
  split.
  - intros h. by apply shrinks_same.
  - intros h1 h2 h3 [Hs1 Hh1] [Hs2 Hh2]. split; [congruence|]. intros l x3 Hx3.
    destruct (Hh2 l x3 Hx3) as (x2 & Hx2 & ? & ?). destruct (Hh1 l x2 Hx2) as (x1 & Hx1 & ? & ?).
    exists x1. split_and!; [done|congruence|by etrans].
Qed.

Lemma shrinks_bind h c k :
  shrinks_opt h c → (∀ h1, shrinks_opt h1 (k h1)) → shrinks_opt h (hub_bind c k).
Proof.
  intros Hc Hk h'. destruct c as [[h1|]|]; simpl; [|done|done]. intros Hh'.
  etrans; [by apply Hc|by eapply Hk].
Qed.

Lemma shrinks_each {A} (f : A → Hub → go (option Hub)) (l : list A) h :
  (∀ a h1, a ∈ l → shrinks_opt h1 (f a h1)) → shrinks_opt h (hub_each f l h).
Proof.
  revert h. induction l as [|a l IH]; intros h Hf; simpl; [by intros h' [= <-]|].
  apply shrinks_bind; [apply Hf; by left|]. intros h1. apply IH. intros b h2 Hb. apply Hf. by right.
Qed.

Lemma upd_handler_shrinks l f h :
  (∀ x, hobjs h !! l = Some x → session (f x) = session x ∧ heads (f x) `sublist_of` heads x) →
  shrinks h (upd_handler l f h).
Proof.
  intros Hf. split; [done|]. intros k x'. simpl. rewrite lookup_alter. case_decide as Hk; [|eauto].
  subst k. intros (x & Hx & ->)%fmap_Some. exists x. split; [done|]. by apply Hf.
Qed.

Lemma ret_shrinks h h1 : shrinks h h1 → shrinks_opt h (Ret (Some h1)).
Proof. by intros Hs h' [= <-]. Qed.

Lemma delHandler_shrinks sid h : shrinks h (delHandler sid h).
Proof. unfold delHandler, HandlerStore_del. destruct (handlers h !! sid); by apply shrinks_same. Qed.

Lemma HandlerStore_del_shrinks sid h : shrinks h (HandlerStore_del sid h).2.
Proof. unfold HandlerStore_del. destruct (handlers h !! sid); by apply shrinks_same. Qed.

Lemma Handler_close_shrinks cause l h : shrinks_opt h (Handler_close cause l h).
Proof.
  unfold Handler_close. destruct (hobjs h !! l) as [x|]; [|done].
  destruct (closing x); [by apply ret_shrinks|]. destruct (chan_closed x); [done|]. apply ret_shrinks.
  etrans; [by apply (upd_handler_shrinks l with_closed)|]. case_bool_decide; [done|apply delHandler_shrinks].
Qed.

Lemma announces_no_head v : announces_nothing v → data_head v = None.
Proof.
  intros Hv. unfold data_head. destruct (sd_ServerMsg v) as [msg|] eqn:E; [|done]. simpl.
  destruct (Hv msg E) as [Hz _]. unfold head_of. by rewrite bool_decide_eq_true_2.
Qed.

Lemma appendDataChan_shrinks v l h : data_head v = None → shrinks_opt h (appendDataChan v l h).
Proof.
  intros Hv. unfold appendDataChan. destruct (hobjs h !! l) as [x|] eqn:Hx; [|done].
  destruct (closing x); [by apply ret_shrinks|]. destruct (chan_closed x); [done|].
  case_bool_decide; [|done]. apply ret_shrinks, upd_handler_shrinks. intros y Hy. simplify_eq.
  split; [done|].
  unfold heads, waiting. simpl. rewrite omap_app. simpl. by rewrite Hv, app_nil_r.
Qed.

Lemma exit_shrinks l f h :
  (∀ x, session (f x) = session x ∧ heads (f x) = heads x) → shrinks_opt h (Ret (Some (upd_handler l f h))).
Proof.
  intros Hf. apply ret_shrinks, upd_handler_shrinks. intros x _. destruct (Hf x) as [? ->]. done.
Qed.

Lemma recvLoop_turn_shrinks l r h :
  Forall announces_nothing (rr_append r) → shrinks_opt h (recvLoop_turn l r h).
Proof.
  intros Hr. apply shrinks_bind.
  - apply shrinks_each. intros v h1 Hv. apply appendDataChan_shrinks, announces_no_head. by eapply Forall_forall.
  - intros h1. apply ret_shrinks. etrans; [|destruct (rr_return r); [|reflexivity]; by apply upd_handler_shrinks].
    destruct (rr_route r); by apply shrinks_same.
Qed.

Lemma sendLoop_ping_shrinks ok l h : shrinks_opt h (sendLoop_ping ok l h).
Proof.
  unfold sendLoop_ping. destruct ok; [by apply ret_shrinks|].
  apply shrinks_bind; [by apply appendDataChan_shrinks|].
  intros h1. by apply exit_shrinks.
Qed.

Lemma HandlerStore_close_shrinks h : shrinks_opt h (HandlerStore_close h).
Proof. apply shrinks_each. intros. apply Handler_close_shrinks. Qed.

(** Writing moves a head from the channel to the connection. *)
Lemma heads_write v msg rest x :
  dataChan x = v :: rest → sd_ServerMsg v = Some msg → heads (with_written msg (with_dataChan rest x)) = heads x.
Proof.
  intros Hd Hm. unfold heads, told, waiting. simpl. rewrite Hd, omap_app. simpl.
  unfold data_head at 2. rewrite Hm. simpl. destruct (head_of msg); simpl; [by rewrite <-app_assoc|by rewrite app_nil_r].
Qed.

Lemma waiting_drop v rest x : dataChan x = v :: rest → heads (with_dataChan rest x) `sublist_of` heads x.
Proof.
  intros Hd. unfold heads, told, waiting. simpl. rewrite Hd. apply sublist_app; [done|]. simpl.
  destruct (data_head v); [by apply sublist_cons|done].
Qed.

Lemma sendLoop_data_shrinks ok l h : shrinks_opt h (sendLoop_data ok l h).
Proof.
  unfold sendLoop_data. destruct (hobjs h !! l) as [x|] eqn:Hx; [|done].
  destruct (dataChan x) as [|v rest] eqn:Hd.
  { destruct (chan_closed x); [by apply exit_shrinks|done]. }
  assert (Hpop : shrinks h (upd_handler l (with_dataChan rest) h)).
  { apply upd_handler_shrinks. intros y Hy. simplify_eq. split; [done|by eapply waiting_drop]. }
  assert (Hthen : ∀ h1 c, shrinks h h1 → shrinks_opt h1 c → shrinks_opt h c).
  { intros h1 c H1' Hc h' Hh'. etrans; [done|by apply Hc]. }
  case_bool_decide.
  { eapply Hthen; [exact Hpop|]. apply shrinks_bind; [apply Handler_close_shrinks|].
    intros h1. by apply exit_shrinks. }
  destruct (sd_ServerMsg v) as [msg|] eqn:Hm; [|done]. destruct ok.
  - assert (Hw : shrinks h (upd_handler l (with_written msg) (upd_handler l (with_dataChan rest) h))).
    { split; [done|]. intros k y'. simpl.
      destruct (decide (l = k)) as [<-|Hne]; [|rewrite !lookup_alter_ne by done; eauto].
      rewrite !lookup_alter_eq, Hx. simpl. intros [= <-]. exists x. split_and!; [done|done|].
      simpl. by rewrite (heads_write v). }
    destruct (ServerMsg_Kickoff msg); [|by apply ret_shrinks].
    eapply Hthen; [exact Hw|apply Handler_close_shrinks].
  - eapply Hthen; [exact Hpop|]. apply shrinks_bind; [by apply appendDataChan_shrinks|].
    intros h1. by apply exit_shrinks.
Qed.

Lemma Hub_Kickoff_shrinks sid h : shrinks_opt h (Hub_Kickoff sid h).
Proof.
  unfold Hub_Kickoff. destruct (HandlerStore_get sid h); [|by apply ret_shrinks].
  apply shrinks_bind; [by apply appendDataChan_shrinks|]. intros h1. apply ret_shrinks, HandlerStore_del_shrinks.
Qed.

Lemma heads_receive q x :
  heads (receive (data_msg (ServerMsg_of_HeadSeq q)) x) `sublist_of` heads x ++ [q].
Proof.
  unfold receive. destruct (closing x); [by apply sublist_inserts_r|].
  unfold heads, waiting. simpl. rewrite omap_app, <-app_assoc. apply sublist_app; [done|].
  apply sublist_app; [done|]. simpl. unfold data_head, head_of. simpl. case_bool_decide; [|done]. apply sublist_nil_l.
Qed.

(** A message of the leader tells each handler at most the head of its user. *)
Lemma Hub_Run_msg_heads msg h h' :
  hub_ok h → Hub_Run_msg msg h = Ret (Some h') →
  hsess h' = hsess h ∧
  ∀ l x', hobjs h' !! l = Some x' → ∃ x, hobjs h !! l = Some x ∧ session x' = session x ∧
    heads x' `sublist_of` heads x ++ option_list (LeaderMsg_HeadSeq msg !! Uid (hsess h !!! session x)).
Proof.
  intros Hok Hr. destruct (decide (LeaderMsg_Kickoff msg = [])) as [Hk|Hk].
  - pose proof (Hub_Run_msg_safe msg h Hok) as Hsafe. rewrite Hr in Hsafe. destruct Hsafe as [_ [_ Hs Hg]].
    split; [done|]. intros l x' Hx'. destruct (Hg l x' Hx') as (x & Hx & Hses). exists x. split_and!; [done|done|].
    apply (Hub_Run_heads_spec msg h h' Hok Hk) in Hr as (_ & Hin & Hout).
    destruct (LeaderMsg_HeadSeq msg !! Uid (hsess h !!! session x)) as [q|] eqn:Hq.
    + destruct (decide (l ∈ HandlerStore_getByUid (Uid (handler_session l h)) h)) as [Hl|Hn].
      * apply getByUid_elem in Hl as [_ [sid Hl]]. rewrite (Hin sid l x q Hl Hx Hq) in Hx'. injection Hx' as <-.
        apply heads_receive.
      * rewrite (Hout l x Hx) in Hx'; [simplify_eq; by apply sublist_inserts_r|]. left. intros sid Hl.
        apply Hn, getByUid_elem. eauto.
    + rewrite (Hout l x Hx) in Hx' by auto. simplify_eq. by apply sublist_inserts_r.
  - unfold Hub_Run_msg in Hr. rewrite bool_decide_eq_true_2 in Hr by (by destruct (LeaderMsg_Kickoff msg); simpl; [|lia]).
    apply (shrinks_each Hub_Kickoff) in Hr as [Hs Hh]; [|intros; apply Hub_Kickoff_shrinks].
    split; [done|]. intros l x' Hx'. destruct (Hh l x' Hx') as (x & ? & ? & ?). exists x.
    split_and!; [done|done|by apply sublist_inserts_r].
Qed.
End Shrink.

(** * The whole path *)

Section System.
Context `{GoRange} `{Json} `{ClientJson} {S E : Type} `{NumberedStore S E}.
Context (canceled : E → bool) (s : storage).

(** The process with the storage, the messages on their way to one hub, and that
    hub; its handlers call the same store. *)
Record system := Sys {
  sy_world : world S;
  sy_queue : list pb_LeaderMsg;
  sy_hub : Hub
}.

Definition uid_of (x : Handler) (h : Hub) : Z := Uid (hsess h !!! session x).

Inductive sys_step : system → system → Prop :=
| sy_storage w w' new q h :
    storage_step canceled s w w' → w_pushed w' = w_pushed w ++ new →
    sys_step (Sys w q h) (Sys w' (q ++ new) h)
| sy_kickoff w q h msg :                        (* the session manager sends, too *)
    LeaderMsg_HeadSeq msg = ∅ → sys_step (Sys w q h) (Sys w (q ++ [msg]) h)
| sy_lost w q1 msg q2 h : sys_step (Sys w (q1 ++ msg :: q2) h) (Sys w (q1 ++ q2) h)
| sy_leader w msg q h h' :
    Hub_Run_msg msg h = Ret (Some h') → sys_step (Sys w (msg :: q) h) (Sys w q h')
| sy_serve auth upgrade uuid ip now r w q h h' :
    unused_sid uuid h → ServeHTTP auth upgrade uuid ip now h = (r, h') →
    sys_step (Sys w q h) (Sys w q h')
| sy_recv l x rd r st' w q h h' :
    hobjs h !! l = Some x → recv_exited x = false →
    recvLoop_body (wsConf h) (uid_of x h) rd (w_store w) = Ret (r, st') →
    recvLoop_turn l r h = Ret (Some h') →
    sys_step (Sys w q h) (Sys (with_store st' w) q h')
| sy_send ok l x w q h h' :
    hobjs h !! l = Some x → send_exited x = false →
    sendLoop_data ok l h = Ret (Some h') → sys_step (Sys w q h) (Sys w q h')
| sy_ping ok l x w q h h' :
    hobjs h !! l = Some x → send_exited x = false →
    sendLoop_ping ok l h = Ret (Some h') → sys_step (Sys w q h) (Sys w q h')
| sy_peer l x w q h : hobjs h !! l = Some x → sys_step (Sys w q h) (Sys w q (peer_close l h))
| sy_stop w q h h' : HandlerStore_close h = Ret (Some h') → sys_step (Sys w q h) (Sys w q h')
| sy_online w q h : sys_step (Sys w q h) (Sys w q (Online h))
| sy_offline w q h : sys_step (Sys w q h) (Sys w q (Offline h)).

Definition sys_init (st : S) (conf : pb_WsConf) : system := Sys (world_init st) [] (hub_init conf).

(** ** Handlers use the store only through its calls *)

Lemma recvLoop_body_calls conf uid rd st r st' :
  recvLoop_body conf uid rd st = Ret (r, st') → st' = st ∨ es_call st st'.
Proof.
  unfold recvLoop_body. destruct rd as [|[] payload]; [intros [= _ <-]; by left| |intros [= _ <-]; by left].
  destruct (ClientMsg_Unmarshal payload) as [req [err|]]; [intros [= _ <-]; by left|].
  destruct (ClientMsg_Stats req) as [v|].
  { pose proof (esc_Stats uid (EventTtlDays conf) v st) as Hc. unfold EventApi_Stats.
    destruct (es_Stats uid (EventTtlDays conf) v st) as [[|] st1]; intros [= _ <-]; by right. }
  destruct (ClientMsg_GetEvents req) as [v|].
  { pose proof (esc_GetEvents uid v st) as Hc. unfold EventApi_GetEvents. case_bool_decide; [intros [= _ <-]; by left|].
    destruct (es_GetEvents uid v st) as [[|] st1]; intros [= _ <-]; by right. }
  destruct (ClientMsg_SetRead req) as [v|].
  { pose proof (esc_SetRead uid (SetReadReq_Seq v) st) as Hc. unfold EventApi_SetRead. case_bool_decide; [intros [= _ <-]; by left|].
    destruct (es_SetRead uid (SetReadReq_Seq v) st) as [[|] st1]; intros [= _ <-]; by right. }
  destruct (ClientMsg_GetReadStates req) as [v|].
  { unfold EventApi_GetReadStates. case_bool_decide; [intros [= _ <-]; by left|].
    destruct (es_GetReadStates uid (EventTtlDays conf) v st) as [[[|] st1]|] eqn:Hg; [..|done];
      (intros [= _ <-]; right; by eapply esc_GetReadStates). }
  destruct (ClientMsg_Im req); [|intros [= _ <-]; by left].
  destruct (EnableClientMsg conf); intros [= _ <-]; by left.
Qed.

(** ** Projections of a step *)

Lemma sys_step_storage y y' :
  sys_step y y' → rtc (storage_step canceled s) (sy_world y) (sy_world y').
Proof.
  destruct 1 as [w w' new q h Hs _| | | | |l x rd r st' w q h h' _ _ Hb _| | | | | |]; simpl; try done.
  - by apply rtc_once.
  - apply recvLoop_body_calls in Hb as [->|Hc]; [by destruct w|]. by apply rtc_once, ss_other.
Qed.

Lemma sys_reach_storage y y' :
  rtc sys_step y y' → rtc (storage_step canceled s) (sy_world y) (sy_world y').
Proof. induction 1; [done|]. etrans; [by apply sys_step_storage|done]. Qed.

Lemma sys_step_hub y y' : sys_step y y' → rtc hub_step (sy_hub y) (sy_hub y').
Proof.
  destruct 1 as [| | | | |l x rd r st' w q h h' Hx Hex Hb Ht| | | | | |]; simpl; try done; apply rtc_once.
  - by eapply hs_leader.
  - by eapply hs_serve.
  - eapply hs_recv; [done|done| |done]. by eapply rk_data, recvLoop_body_reply_ok.
  - by eapply hs_send.
  - by eapply hs_ping.
  - by eapply hs_peer.
  - by eapply hs_stop.
  - apply hs_online.
  - apply hs_offline.
Qed.

Lemma sys_step_hub_ok y y' : sys_step y y' → hub_ok (sy_hub y) → hub_ok (sy_hub y').
Proof. intros Hs%sys_step_hub. induction Hs; eauto using hub_step_ok. Qed.

(** ** The invariant *)

(** What a handler was told or will be told, followed by what is on its way, is
    part of what was pushed for its user, in this order. *)
Record on_track (y : system) : Prop := {
  ot_hub : hub_ok (sy_hub y);
  ot_queue : ∀ u, pushed_to u (sy_queue y) `sublist_of` pushed_to u (w_pushed (sy_world y));
  ot_heads : ∀ l x, hobjs (sy_hub y) !! l = Some x →
    heads x ++ pushed_to (uid_of x (sy_hub y)) (sy_queue y)
      `sublist_of` pushed_to (uid_of x (sy_hub y)) (w_pushed (sy_world y))
}.

(** A step that tells nobody anything new, and may lose messages. *)
Lemma on_track_shrinks w w' q q' h h' :
  on_track (Sys w q h) → hub_ok h' → shrinks h h' → w_pushed w' = w_pushed w → q' `sublist_of` q →
  on_track (Sys w' q' h').
Proof.
  intros [Ho Hq Hh] Hok [Hs Hx] Hw Hsub.
  assert (Hp : ∀ u, pushed_to u q' `sublist_of` pushed_to u q) by (intros u; by apply omap_sublist).
  split; simpl in *; rewrite ?Hw; [done|intros u; etrans; [apply Hp|apply Hq]|]. intros l x' Hx'.
  destruct (Hx l x' Hx') as (x & Hl & Hses & Hsl). unfold uid_of in *. rewrite Hs, Hses.
  etrans; [|by apply (Hh l x)]. by apply sublist_app.
Qed.

Lemma pushed_to_app u q1 q2 : pushed_to u (q1 ++ q2) = pushed_to u q1 ++ pushed_to u q2.
Proof. apply omap_app. Qed.

Lemma on_track_push w w' q new h :
  on_track (Sys w q h) → w_pushed w' = w_pushed w ++ new → on_track (Sys w' (q ++ new) h).
Proof.
  intros [Ho Hq Hh] Hw. split; simpl in *; [done|..]; rewrite Hw; [intros u|intros l x Hx]; rewrite !pushed_to_app.
  - by apply sublist_app.
  - rewrite (assoc_L (++)). apply sublist_app; [by eapply Hh|done].
Qed.

Lemma on_track_kickoff w q h msg :
  on_track (Sys w q h) → LeaderMsg_HeadSeq msg = ∅ → on_track (Sys w (q ++ [msg]) h).
Proof.
  intros [Ho Hq Hh] Hm.
  assert (Hsame : ∀ u, pushed_to u (q ++ [msg]) = pushed_to u q).
  { intros u. rewrite pushed_to_app. unfold pushed_to at 2. simpl. by rewrite Hm, lookup_empty, app_nil_r. }
  split; simpl in *; [done|..]; intros; rewrite Hsame; [done|by eapply Hh].
Qed.


Lemma on_track_leader w msg q h h' :
  on_track (Sys w (msg :: q) h) → hub_ok h' → Hub_Run_msg msg h = Ret (Some h') → on_track (Sys w q h').
Proof.
  intros [Ho Hq Hh] Hok Hr. cbn [sy_hub sy_queue sy_world] in *.
  assert (Hcons : ∀ u, pushed_to u (msg :: q) = option_list (LeaderMsg_HeadSeq msg !! u) ++ pushed_to u q).
  { intros u. unfold pushed_to. simpl. by destruct (LeaderMsg_HeadSeq msg !! u). }
  destruct (Hub_Run_msg_heads msg h h' Ho Hr) as [Hs Hx]. split; simpl; [done|..].
  - intros u. etrans; [|apply Hq]. rewrite Hcons. by apply sublist_inserts_l.
  - intros l x' Hx'. destruct (Hx l x' Hx') as (x & Hl & Hses & Hsub). unfold uid_of in *. rewrite Hs, Hses.
    etrans; [|by apply (Hh l x)]. rewrite Hcons, (assoc_L (++)). by apply sublist_app.
Qed.

Lemma on_track_serve auth upgrade uuid ip now r w q h h' :
  on_track (Sys w q h) → hub_ok h' → ServeHTTP auth upgrade uuid ip now h = (r, h') → on_track (Sys w q h').
Proof.
  intros Ht Hok [->|(hl & sl & sess & Hhl & Hsl & <- & ->)]%ServeHTTP_spec; [done|].
  destruct Ht as [Ho Hq Hh]. split; [done|done|]. simpl in *. intros l x Hx.
  apply lookup_insert_Some in Hx as [[<- <-]|[Hne Hx]]; [apply Hq|]. specialize (Hh l x Hx).
  destruct (ho_session _ Ho l x Hx) as [s' Hs']. unfold uid_of in *. simpl.
  rewrite lookup_total_insert_ne by congruence. done.
Qed.

Lemma sys_step_on_track y y' : sys_step y y' → on_track y → on_track y'.
Proof.
  intros Hs Ht. pose proof (sys_step_hub_ok y y' Hs (ot_hub _ Ht)) as Hok. revert Ht Hok.
  destruct Hs as [w w' new q h _ Hp|w q h msg Hm|w q1 msg q2 h|w msg q h h' Hr|auth up uuid ip now r w q h h' _ Hr
    |l x rd r st' w q h h' _ _ Hb Hr|ok l x w q h h' _ _ Hr|ok l x w q h h' _ _ Hr|l x w q h Hx|w q h h' Hr|w q h|w q h];
    simpl; intros Ht Hok.
  - by eapply on_track_push.
  - by apply on_track_kickoff.
  - eapply on_track_shrinks; [exact Ht|done|done|done|]. apply sublist_app; [done|by apply sublist_cons].
  - by eapply on_track_leader.
  - by eapply on_track_serve.
  - apply recvLoop_body_reply_ok, rk_quiet in Hb.
    eapply on_track_shrinks; [exact Ht|done|by eapply recvLoop_turn_shrinks|done|done].
  - eapply on_track_shrinks; [exact Ht|done|by eapply sendLoop_data_shrinks|done|done].
  - eapply on_track_shrinks; [exact Ht|done|by eapply sendLoop_ping_shrinks|done|done].
  - eapply on_track_shrinks; [exact Ht|done|apply delHandler_shrinks|done|done].
  - eapply on_track_shrinks; [exact Ht|done|by eapply HandlerStore_close_shrinks|done|done].
  - destruct (Online_state h) as (? & ? & _). eapply on_track_shrinks; [exact Ht|done|by apply shrinks_same|done|done].
  - by eapply on_track_shrinks; [exact Ht|done|apply shrinks_same|..].
Qed.

Lemma sys_reach_on_track st conf y : rtc sys_step (sys_init st conf) y → on_track y.
Proof.
  assert (Hgen : ∀ y1 y2, rtc sys_step y1 y2 → on_track y1 → on_track y2).
  { induction 1; eauto using sys_step_on_track. }
  intros Hr. eapply Hgen; [exact Hr|]. split; [apply hub_init_ok|done|]. intros l x. simpl. by rewrite lookup_empty.
Qed.

(** Everything a handler is told was pushed for its user. *)
Lemma sys_heads_pushed st conf y l x :
  ns_ok st → rtc sys_step (sys_init st conf) y → hobjs (sy_hub y) !! l = Some x →
  storage_inv (sy_world y) ∧ heads x `sublist_of` pushed_to (uid_of x (sy_hub y)) (w_pushed (sy_world y)).
Proof.
  intros Hok Hr Hx. pose proof (sys_reach_on_track st conf y Hr) as Ht.
  apply sys_reach_storage in Hr. split; [by apply (storage_reach_inv canceled s st)|].
  etrans; [|by apply (ot_heads _ Ht l x)]. by apply sublist_inserts_r.
Qed.

(** * Properties *)

End System.

(** * The end of a sender *)

Section Sender.
Context `{GoRange}.
Implicit Types (h : Hub).

(** What the [select] of [sendLoop] takes, and whether the connection accepts
    the write. *)
Inductive send_event := SendData (ok : bool) | SendPing (ok : bool).

(** The loop of [sendLoop] over these events, until it returns. *)
Fixpoint sendLoop (evs : list send_event) (l : loc) h : go (option Hub) :=
  match hobjs h !! l with
  | None => Panic "invalid memory address or nil pointer dereference"
  | Some x =>
      if send_exited x then Ret (Some h)
      else match evs with
      | [] => Ret (Some h)
      | SendData ok :: rest => hub_bind (sendLoop_data ok l h) (sendLoop rest l)
      | SendPing ok :: rest => hub_bind (sendLoop_ping ok l h) (sendLoop rest l)
      end
  end.

Definition is_data (ev : send_event) : bool := match ev with SendData _ => true | SendPing _ => false end.

(** [h'] after some turns on the closed handler [x]: the loop has returned, or
    [n] values are left. *)
Definition drained (l : loc) (n : nat) h h' : Prop :=
  ∃ x', hobjs h' !! l = Some x' ∧ closing x' = true ∧ chan_closed x' = true ∧
    (send_exited x' = true ∨ Forall data_ok (dataChan x') ∧ length (dataChan x') ≤ n) ∧
    handlers h' = handlers h ∧ followerC h' = followerC h.

Lemma Handler_close_again cause l x h :
  hobjs h !! l = Some x → closing x = true → Handler_close cause l h = Ret (Some h).
Proof. intros Hx Hc. unfold Handler_close. by rewrite Hx, Hc. Qed.

Lemma appendDataChan_closed v l x h :
  hobjs h !! l = Some x → closing x = true → appendDataChan v l h = Ret (Some h).
Proof. intros Hx Hc. unfold appendDataChan. by rewrite Hx, Hc. Qed.

Lemma drained_upd l n f x h :
  hobjs h !! l = Some x → closing (f x) = true → chan_closed (f x) = true →
  (send_exited (f x) = true ∨ Forall data_ok (dataChan (f x)) ∧ length (dataChan (f x)) ≤ n) →
  drained l n h (upd_handler l f h).
Proof. intros Hx Hc Hcc Hor. exists (f x). simpl. by rewrite lookup_alter_eq, Hx. Qed.

Lemma sendLoop_ping_drained ok l n x h :
  hobjs h !! l = Some x → closing x = true → chan_closed x = true →
  Forall data_ok (dataChan x) → length (dataChan x) ≤ n →
  ∃ h', sendLoop_ping ok l h = Ret (Some h') ∧ drained l n h h'.
Proof.
  intros Hx Hc Hcc Hd Hn. unfold sendLoop_ping. destruct ok.
  - exists h. split; [done|]. exists x. split_and!; auto.
  - rewrite (appendDataChan_closed _ _ x) by done. simpl. eexists. split; [done|].
    apply (drained_upd _ _ _ x); auto.
Qed.

Lemma sendLoop_data_drained ok l n x h :
  hobjs h !! l = Some x → closing x = true → chan_closed x = true →
  Forall data_ok (dataChan x) → length (dataChan x) ≤ n →
  ∃ h', sendLoop_data ok l h = Ret (Some h') ∧ drained l (pred n) h h' ∧
    (n = 0 → ∃ x', hobjs h' !! l = Some x' ∧ send_exited x' = true).
Proof.
  intros Hx Hc Hcc Hd Hn. unfold sendLoop_data. rewrite Hx.
  destruct (dataChan x) as [|v rest] eqn:Hdata; [rewrite Hcc|].
  { eexists. split; [done|]. split; [by apply (drained_upd _ _ _ x); auto|].
    intros _. exists (with_send_exited x). simpl. by rewrite lookup_alter_eq, Hx. }
  apply Forall_cons in Hd as [Hv Hrest]. simpl in Hn. destruct n as [|n]; [lia|].
  set (h1 := upd_handler l (with_dataChan rest) h).
  assert (Hx1 : hobjs h1 !! l = Some (with_dataChan rest x)) by (simpl; by rewrite lookup_alter_eq, Hx).
  assert (Hexit : drained l n h (upd_handler l with_send_exited h1)).
  { exists (with_send_exited (with_dataChan rest x)). simpl in *. rewrite lookup_alter_eq, Hx1. split_and!; auto. }
  case_bool_decide as He.
  { rewrite (Handler_close_again _ _ _ _ Hx1) by done. eexists. split_and!; [done|exact Hexit|done]. }
  destruct (sd_ServerMsg v) as [msg|] eqn:Hm; [|destruct Hv as [|[? Hv]]; [done|congruence]].
  destruct ok.
  2:{ rewrite (appendDataChan_closed _ _ _ _ Hx1) by done. eexists. split_and!; [done|exact Hexit|done]. }
  set (h2 := upd_handler l (with_written msg) h1).
  assert (Hx2 : hobjs h2 !! l = Some (with_written msg (with_dataChan rest x))).
  { simpl in *. by rewrite lookup_alter_eq, Hx1. }
  exists h2. split; [destruct (ServerMsg_Kickoff msg); [by apply (Handler_close_again _ _ _ _ Hx2)|done]|].
  split; [|done]. eexists. split; [exact Hx2|]. simpl. split_and!; [done|done|right; split; [done|lia]|done|done].
Qed.

Lemma drained_ends evs l h n h1 :
  drained l n h h1 → n < length (filter is_data evs) →
  ∃ h' x', sendLoop evs l h1 = Ret (Some h') ∧ hobjs h' !! l = Some x' ∧ send_exited x' = true ∧
    handlers h' = handlers h ∧ followerC h' = followerC h.
Proof.
  revert n h1. induction evs as [|ev evs IH]; intros n h1 (x & Hx & Hc & Hcc & Hor & Hh & Hf) Hlen; [simpl in Hlen; lia|].
  simpl. rewrite Hx. destruct (send_exited x) eqn:Hex; [by exists h1, x|].
  destruct Hor as [|[Hd Hn]]; [congruence|].
  assert (Hnext : ∀ n' h2, drained l n' h1 h2 → drained l n' h h2).
  { intros n' h2 (y & ? & ? & ? & ? & ? & ?). exists y. split_and!; congruence || done. }
  destruct ev as [ok|ok].
  - destruct (sendLoop_data_drained ok l n x h1) as (h2 & -> & Hdr & Hz); [done..|]. simpl.
    destruct n as [|n]; [|apply (IH n); [by apply Hnext|simpl in Hlen; lia]].
    destruct (Hz eq_refl) as (y & Hy & Hey). destruct Hdr as (y' & Hy' & _ & _ & _ & ? & ?).
    exists h2, y. split_and!; [by destruct evs; simpl; rewrite Hy, Hey|done|done|congruence|congruence].
  - destruct (sendLoop_ping_drained ok l n x h1) as (h2 & -> & Hdr); [done..|]. simpl.
    apply (IH n); [by apply Hnext|done].
Qed.

(** C39: the sender of a closed session ends. Once a handler is closed, its
    [sendLoop] returns after at most as many turns as values wait in the channel,
    plus the one that finds the channel closed, whatever pings come in between
    and whichever writes fail; it never waits or panics on the way, and it
    changes neither the registered handlers nor what was reported to the leader. *)
Theorem closed_sender_ends evs l x h :
  hub_ok h → hobjs h !! l = Some x → closing x = true →
  length (dataChan x) < length (filter is_data evs) →
  ∃ h' x', sendLoop evs l h = Ret (Some h') ∧ hobjs h' !! l = Some x' ∧ send_exited x' = true ∧
    handlers h' = handlers h ∧ followerC h' = followerC h.
Proof.
  intros Hok Hx Hc Hlen. destruct (ho_chan _ Hok l x Hx) as (Hcc & Hd & _).
  apply (drained_ends evs l h (length (dataChan x)) h); [|done]. exists x. split_and!; auto. congruence.
Qed.
End Sender.

(** * Examples *)

Section Examples.
#[local] Existing Instance canonical_range.
#[local] Existing Instance ex_json.
#[local] Existing Instance ex_client_json.
#[local] Existing Instance good_server.
#[local] Existing Instance ex_es.
#[local] Existing Instance ex_ns.

Lemma consume_step_pushed (i : input) (w : world conn) :
  w_pushed (consume_step is_canceled ex_storage i w) = w_pushed w.
Proof.
  unfold consume_step, consume_fetch, consume_save, consume_put, consume_commit, retry.
  repeat (case_match; try done).
Qed.

(** A hub with a session of user 1. *)
Definition one_session : Hub := (ServeHTTP (Some 1%Z) true "s1" "10.0.0.1" 100 (Online (hub_init conf25))).2.

(** The storage saves an event and pushes the heads; the hub takes the message and
    the sender writes it. *)
Definition hub_told : Hub :=
  hub_or one_session (hub_bind (hub_each Hub_Run_msg (w_pushed ex_pushed) one_session) (sendLoop_data true 1)).

Lemma ex_sys_consume q h l w :
  rtc (sys_step is_canceled ex_storage) (Sys w q h)
    (Sys (foldl (λ w i, consume_step is_canceled ex_storage i w) w l) q h).
Proof.
  revert w. induction l as [|i l IH]; intros w; simpl; [done|]. eapply rtc_l; [|apply IH].
  rewrite <-(app_nil_r q) at 2. apply sy_storage; [apply ss_consume|]. by rewrite consume_step_pushed, app_nil_r.
Qed.

Definition first_push : pb_LeaderMsg := List.hd LeaderMsg_zero (w_pushed ex_pushed).

Lemma ex_queue : [] ++ w_pushed ex_pushed = [first_push].
Proof. vm_compute. reflexivity. Qed.

Definition ex_sys : system := Sys ex_pushed [] hub_told.

Lemma ex_sys_reach : rtc (sys_step is_canceled ex_storage) (sys_init conn0 conf25) ex_sys.
Proof.
  eapply rtc_l; [apply sy_online|]. eapply rtc_l.
  { apply (sy_serve _ _ (Some 1%Z) true "s1" "10.0.0.1" 100 (Serving 1)). 2:{ vm_compute. reflexivity. }
    apply unused_sid_dec_true; [done|]. vm_compute. reflexivity. }
  etrans; [apply (ex_sys_consume _ _ ex_inputs)|].
  eapply rtc_l; [apply (sy_storage _ _ _ ex_pushed (w_pushed ex_pushed)); [apply ss_send|vm_compute; reflexivity]|].
  rewrite ex_queue. eapply rtc_l; [apply sy_leader; vm_compute; reflexivity|].
  apply rtc_once. eapply (sy_send _ _ true 1); vm_compute; reflexivity.
Qed.


(** The hub stops while the session has two messages to write. *)
Definition hub_closed : Hub :=
  hub_or one_session (hub_bind (hub_each Hub_Run_msg [first_push; first_push] one_session) HandlerStore_close).

Lemma one_session_ok : hub_ok one_session.
Proof.
  unfold one_session. destruct (ServeHTTP _ _ _ _ _ _) as [r h'] eqn:Hs. apply (ServeHTTP_ok _ _ _ _ _ _ _ _ Hs).
  apply (hub_step_ok (hub_init conf25)); [apply hs_online|apply hub_init_ok].
Qed.

Lemma hub_closed_ok : hub_ok hub_closed.
Proof.
  assert (Hs : safe one_session (hub_bind (hub_each Hub_Run_msg [first_push; first_push] one_session) HandlerStore_close)).
  { apply safe_bind; [apply safe_each; [apply one_session_ok|intros; by apply Hub_Run_msg_safe]|].
    intros. by apply HandlerStore_close_safe. }
  unfold hub_closed. destruct (hub_bind _ _) as [[h|]|]; [apply Hs|apply one_session_ok..].
Qed.

Lemma closed_sender_ends_witness :
  ∃ h' x', sendLoop [SendPing true; SendData true; SendData true; SendPing true; SendData false] 1 hub_closed
      = Ret (Some h') ∧ hobjs h' !! 1%positive = Some x' ∧ send_exited x' = true ∧
    handlers h' = handlers hub_closed ∧ followerC h' = followerC hub_closed.
Proof.
  eapply (closed_sender_ends _ 1 _ hub_closed hub_closed_ok); vm_compute; reflexivity.
Defined.
End Examples.
