(* ===== verification/Flow.v ===== *)
(** Heads flow to the browsers: the liveness of the composed system of
    [Delivery.v].

    [flow_step] are the steps that the program takes by itself when nothing fails:
    the consumer puts what it saved into the cache, the cache is checked, the hub
    takes the next message, a sender writes a value.  From every reachable state
    in which no sender was lost to a write error, they bring a head that is on its
    way to every session of its user. *)

From Stdlib Require Import ZArith Lia.
From stdpp Require Import base option list numbers gmap strings relations sorting.
From S2P Require Import Prelude Proto EventStore EventApi SessionStore Cache Storage PushServer Hub Delivery.

(** * A hub whose senders run *)

Section FlowHub.
Context `{GoRange}.
Implicit Types (h : Hub).

(** The sender of every registered open handler runs; [Hub.v] shows what happens
    otherwise ([write_error_blocks_hub]). *)
Definition healthy h : Prop := ∀ sid l x,
  handlers h !! sid = Some l → hobjs h !! l = Some x → closing x = false → send_exited x = false.

(** A value that does not end the session. *)
Definition calm (v : SessionData) : Prop :=
  (sd_Error v ≤ 0)%Z ∧ ∃ msg, sd_ServerMsg v = Some msg ∧ ServerMsg_Kickoff msg = false.

(** An open session of [u], nobody is ending it, and the heads [Q] were written
    or wait to be written. *)
Record target (sid : string) (l : loc) (u : Z) (Q : list Z) h : Prop := {
  tg_reg : handlers h !! sid = Some l;
  tg_obj : ∃ x, hobjs h !! l = Some x ∧ closing x = false ∧ Uid (hsess h !!! session x) = u ∧
    Forall calm (dataChan x) ∧ Q ⊆ heads x
}.

Definition drained h (l : loc) : Prop := ∀ x, hobjs h !! l = Some x → closing x = true ∨ dataChan x = [].

(** A turn of a sender whose write succeeds. *)
Inductive send_ok : Hub → Hub → Prop :=
| send_ok_turn l x h h' :
    hobjs h !! l = Some x → send_exited x = false → sendLoop_data true l h = Ret (Some h') → send_ok h h'.

(** ** Turns of the senders *)

Record sends h h' : Prop := {
  sn_run : rtc send_ok h h';
  sn_handlers : handlers h' ⊆ handlers h;
  sn_drained : ∀ l, drained h l → drained h' l;
  sn_healthy : healthy h → healthy h';
  sn_target : ∀ sid l u Q, target sid l u Q h → target sid l u Q h'
}.

#[local] Instance sends_preorder : PreOrder sends.
Proof.
  split; [intros h; split; [apply rtc_refl|done|done|done|done]|].
  intros h1 h2 h3 [Hr1 Hh1 Hd1 Hy1 Ht1] [Hr2 Hh2 Hd2 Hy2 Ht2].
  split; [by etrans|by etrans|auto|auto|intros; by apply Ht2, Ht1].
Qed.

Lemma delHandler_state sid h :
  handlers (delHandler sid h) = delete sid (handlers h) ∧ hobjs (delHandler sid h) = hobjs h ∧
  hsess (delHandler sid h) = hsess h.
Proof.
  unfold delHandler, HandlerStore_del. destruct (handlers h !! sid) as [l|] eqn:Hl; [done|].
  by rewrite delete_id.
Qed.

(** What a turn does: the other handlers are left alone, and the session goes on
    with the rest of its channel or is closed. *)
Lemma send_turn l x v rest h :
  hub_ok h → hobjs h !! l = Some x → closing x = false → dataChan x = v :: rest →
  ∃ h' x', sendLoop_data true l h = Ret (Some h') ∧ hsess h' = hsess h ∧ hobjs h' = <[l := x']> (hobjs h) ∧
    ((closing x' = true ∧ ¬ calm v ∧
      (handlers h' = handlers h ∨ handlers h' = delete (Sid (hsess h !!! session x)) (handlers h))) ∨
     (∃ msg, sd_ServerMsg v = Some msg ∧ x' = with_written msg (with_dataChan rest x) ∧ handlers h' = handlers h)).
Proof.
  intros Hok Hx Hc Hd. destruct (ho_chan _ Hok l x Hx) as (Hcc & Hdata & _). rewrite Hd in Hdata.
  apply Forall_cons in Hdata as [Hv _].
  assert (Hupd : ∀ f (g : Hub) y, hobjs g = <[l := y]> (hobjs h) → hobjs (upd_handler l f g) = <[l := f y]> (hobjs h)).
  { intros f g y Hg. simpl. rewrite Hg. apply map_eq. intros k. rewrite lookup_alter.
    destruct (decide (k = l)) as [->|]; [by rewrite decide_True, !lookup_insert_eq|].
    by rewrite decide_False, !lookup_insert_ne by congruence. }
  assert (Hpop : hobjs (upd_handler l (with_dataChan rest) h) = <[l := with_dataChan rest x]> (hobjs h)).
  { apply Hupd. by rewrite insert_id. }
  assert (Hclose : ∀ cause g y, hobjs g = <[l := y]> (hobjs h) → closing y = false → chan_closed y = false →
    session y = session x → hsess g = hsess h → handlers g = handlers h →
    ∃ g', Handler_close cause l g = Ret (Some g') ∧ hsess g' = hsess h ∧ hobjs g' = <[l := with_closed y]> (hobjs h) ∧
      (handlers g' = handlers h ∨ handlers g' = delete (Sid (hsess h !!! session x)) (handlers h))).
  { intros cause g y Hg Hy Hyc Hys Hgs Hgh. unfold Handler_close. rewrite Hg, lookup_insert_eq, Hy, Hyc.
    destruct (delHandler_state (Sid (hsess h !!! session x)) (upd_handler l with_closed g)) as (Hdh & Hdo & Hds).
    change (hsess (upd_handler l with_closed g)) with (hsess g) in *. rewrite Hgs, Hys in *. case_bool_decide; eexists; (split; [done|]).
    - split_and!; [done|by apply Hupd|by left].
    - rewrite Hdh, Hdo, Hds. split_and!; [done|by apply Hupd|right; simpl; by rewrite Hgh]. }
  unfold sendLoop_data. rewrite Hx, Hd. case_bool_decide as He.
  - destruct (Hclose (sd_Error v) _ _ Hpop) as (g & -> & Hs & Ho & Hh); [done|simpl; congruence|done..|]. simpl.
    eexists _, _. split_and!; [done|done|by apply Hupd|]. left. split_and!; [done|unfold calm; intros [? _]; lia|done].
  - destruct Hv as [|[msg Hmsg]]; [done|]. rewrite Hmsg.
    pose proof (Hupd (with_written msg) _ _ Hpop) as Hw. destruct (ServerMsg_Kickoff msg) eqn:Hk.
    + destruct (Hclose KickedOff _ _ Hw) as (g & -> & Hs & Ho & Hh); [done|simpl; congruence|done..|].
      eexists _, _. split_and!; [done|done|done|]. left. split_and!; [done| |done].
      intros [_ (msg' & Hm & Hk')]. congruence.
    + eexists _, _. split_and!; [done|done|done|]. right. eauto.
Qed.

Lemma send_turn_sends sk k x v rest h :
  hub_ok h → healthy h → handlers h !! sk = Some k → hobjs h !! k = Some x → closing x = false →
  dataChan x = v :: rest →
  ∃ h' x', sends h h' ∧ hub_ok h' ∧ hobjs h' !! k = Some x' ∧ (closing x' = true ∨ dataChan x' = rest ∧ handlers h' = handlers h).
Proof.
  intros Hok Hhe Hreg Hx Hc Hd. destruct (send_turn k x v rest h Hok Hx Hc Hd) as (h' & x' & Hrun & Hs & Ho & Hcase).
  pose proof (Hhe _ _ _ Hreg Hx Hc) as Hex.
  destruct (ho_filed _ Hok _ _ Hreg) as (y & sess & Hy & Hsess & Hsid). rewrite Hx in Hy. injection Hy as <-.
  assert (Hsub : handlers h' ⊆ handlers h).
  { destruct Hcase as [(_ & _ & [->| ->])|(msg & _ & _ & ->)]; [done|apply delete_subseteq|done]. }
  exists h', x'. split_and!; [|pose proof (sendLoop_data_safe true k h Hok ltac:(by eapply elem_of_dom_2)) as Hsafe;
    rewrite Hrun in Hsafe; apply Hsafe|by rewrite Ho, lookup_insert_eq|destruct Hcase as [[? _]|(msg & _ & -> & ?)]; auto].
  split; [by eapply rtc_once, send_ok_turn|done|..].
  - intros l Hl z. rewrite Ho. intros [[<- <-]|[_ Hz]]%lookup_insert_Some; [|by apply Hl].
    destruct Hcase as [[? _]|(msg & _ & -> & _)]; [by left|]. destruct (Hl x Hx); congruence.
  - intros _ sid l z Hl. rewrite Ho. intros [[<- <-]|[_ Hz]]%lookup_insert_Some Hcz.
    + destruct Hcase as [[? _]|(msg & _ & -> & _)]; [congruence|done].
    + eapply Hhe; [by eapply lookup_weaken|done|done].
  - intros sid l u Q [Htr (z & Hz & Hcz & Hu & Hcalm & HQ)]. destruct (decide (l = k)) as [->|Hne].
    + simplify_eq. rewrite Hd in Hcalm. apply Forall_cons in Hcalm as [Hv Hrest].
      destruct Hcase as [(_ & Hn & _)|(msg & Hm & -> & Hh)]; [done|].
      split; [by rewrite Hh|]. eexists. rewrite Ho, lookup_insert_eq. split_and!; [done|done|by rewrite Hs|done|].
      by rewrite (heads_write v).
    + split.
      * destruct Hcase as [(_ & _ & [->| ->])|(msg & _ & _ & ->)]; [done| |done].
        rewrite lookup_delete_ne; [done|]. intros Heq.
        rewrite (lookup_total_correct _ _ _ Hsess), Hsid in Heq. subst sk. congruence.
      * exists z. rewrite Ho, lookup_insert_ne by congruence. split_and!; [done|done|by rewrite Hs|done|done].
Qed.

Lemma drain_one sk k h :
  hub_ok h → healthy h → handlers h !! sk = Some k → ∃ h', sends h h' ∧ hub_ok h' ∧ drained h' k.
Proof.
  intros Hok Hhe Hreg. destruct (ho_filed _ Hok _ _ Hreg) as (x & _ & Hx & _).
  remember (dataChan x) as d eqn:Hd. revert h x Hok Hhe Hreg Hx Hd.
  induction d as [|v d IH]; intros h x Hok Hhe Hreg Hx Hd.
  { exists h. split_and!; [done|done|]. intros y Hy. simplify_eq. by right. }
  destruct (closing x) eqn:Hc; [exists h; split_and!; [done|done|]; intros y Hy; simplify_eq; by left|].
  destruct (send_turn_sends sk k x v d h) as (h1 & x1 & Hs & Hok1 & Hx1 & Hcase); [done..|].
  destruct Hcase as [Hc1|[Hd1 Hh1]].
  - exists h1. split_and!; [done|done|]. intros y Hy. simplify_eq. by left.
  - destruct (IH h1 x1) as (h' & Hs' & Hok' & Hdr); [done|by apply (sn_healthy _ _ Hs)|by rewrite Hh1|done|done|].
    exists h'. split_and!; [by etrans|done|done].
Qed.

Lemma drain_list (ks : list (string * loc)) h :
  hub_ok h → healthy h →
  ∃ h', sends h h' ∧ hub_ok h' ∧ ∀ sk k, (sk, k) ∈ ks → handlers h' !! sk = Some k → drained h' k.
Proof.
  revert h. induction ks as [|[sk k] ks IH]; intros h Hok Hhe.
  { exists h. split_and!; [done|done|set_solver]. }
  assert (∃ h1, sends h h1 ∧ hub_ok h1 ∧ (handlers h1 !! sk = Some k → drained h1 k)) as (h1 & Hs1 & Hok1 & Hd1).
  { destruct (decide (handlers h !! sk = Some k)) as [Hreg|Hno].
    - destruct (drain_one sk k h Hok Hhe Hreg) as (h1 & ? & ? & ?). eauto.
    - exists h. split_and!; [done|done|done]. }
  destruct (IH h1 Hok1 (sn_healthy _ _ Hs1 Hhe)) as (h' & Hs & Hok' & Hd). exists h'. split_and!; [by etrans|done|].
  intros sk' k' [[= -> ->]|Hin]%elem_of_cons Hreg; [|by eapply Hd].
  apply (sn_drained _ _ Hs), Hd1. eapply lookup_weaken; [done|apply (sn_handlers _ _ Hs)].
Qed.

Lemma drain_all h :
  hub_ok h → healthy h → ∃ h', sends h h' ∧ hub_ok h' ∧ ∀ sk k, handlers h' !! sk = Some k → drained h' k.
Proof.
  intros Hok Hhe. destruct (drain_list (map_to_list (handlers h)) h Hok Hhe) as (h' & Hs & Hok' & Hd).
  exists h'. split_and!; [done|done|]. intros sk k Hreg. eapply Hd; [|done]. apply elem_of_map_to_list.
  eapply lookup_weaken; [done|apply (sn_handlers _ _ Hs)].
Qed.

(** ** The next message of the leader *)

(** A value for this handler does not block. *)
Definition roomy h (l : loc) : Prop := ∃ x, hobjs h !! l = Some x ∧
  (closing x = true ∨ chan_closed x = false ∧ length (dataChan x) < dataChan_cap).

Lemma append_roomy v l h : roomy h l → ∃ h', appendDataChan v l h = Ret (Some h').
Proof.
  intros (x & Hx & Hr). unfold appendDataChan. rewrite Hx. destruct (closing x); [eauto|].
  destruct Hr as [|[-> Hlen]]; [done|]. rewrite bool_decide_eq_true_2 by done. eauto.
Qed.

Lemma append_keeps_roomy v l h h' k :
  appendDataChan v l h = Ret (Some h') → k ≠ l → roomy h k → roomy h' k.
Proof.
  intros Ha Hne (x & Hx & Hr). apply appendDataChan_spec in Ha as [_ Ho]. exists x. by rewrite Ho, decide_False.
Qed.

Lemma append_each_roomy v (ls : list loc) h :
  NoDup ls → (∀ l, l ∈ ls → roomy h l) → ∃ h', hub_each (appendDataChan v) ls h = Ret (Some h').
Proof.
  revert h. induction ls as [|l ls IH]; intros h Hnd Hr; [by eexists|]. apply NoDup_cons in Hnd as [Hl Hnd]. simpl.
  destruct (append_roomy v l h) as [h1 Ha]; [apply Hr; by left|]. rewrite Ha. simpl. apply IH; [done|].
  intros k Hk. eapply append_keeps_roomy; [done|set_solver|]. apply Hr. by right.
Qed.

Lemma heads_each_roomy (entries : list (Z * Z)) h :
  NoDup entries.*1 → hub_ok h → (∀ sid l, handlers h !! sid = Some l → Uid (handler_session l h) ∈ entries.*1 → roomy h l) →
  ∃ h', hub_each (λ us h, hub_each (appendDataChan (data_msg (ServerMsg_of_HeadSeq us.2)))
                             (HandlerStore_getByUid us.1 h) h) entries h = Ret (Some h').
Proof.
  revert h. induction entries as [|[uid q] entries IH]; intros h Hnd Hok Hr; [by eexists|].
  cbn [fmap list_fmap fst] in Hnd, Hr. apply NoDup_cons in Hnd as [Hu Hnd]. simpl hub_each.
  destruct (append_each_roomy (data_msg (ServerMsg_of_HeadSeq q)) (HandlerStore_getByUid uid h) h) as [h1 Ha].
  { by apply getByUid_NoDup. }
  { intros l [Hul [sid Hl]]%getByUid_elem. eapply Hr; [done|]. rewrite Hul. by left. }
  pose proof (safe_each (appendDataChan (data_msg (ServerMsg_of_HeadSeq q))) (HandlerStore_getByUid uid h) h Hok) as Hsafe.
  rewrite Ha in *. simpl. destruct Hsafe as [Hok1 _].
  { intros l h2 Hin Hok2 Hg2. apply appendDataChan_safe; [done|by right|]. apply (hg_objs _ _ Hg2). by eapply getByUid_dom. }
  apply append_each_spec in Ha as [Hs Ho]; [|by apply getByUid_NoDup]. apply IH; [done|done|].
  intros sid l. rewrite (sbd_handlers _ _ Hs), (same_but_data_session h h1) by done. intros Hl Hin.
  destruct (Hr sid l Hl) as (x & Hx & Hrx); [by right|]. exists x. split; [|done]. rewrite Ho, decide_False; [done|].
  intros [Hul _]%getByUid_elem. congruence.
Qed.

Lemma Hub_Kickoff_roomy sids h :
  hub_ok h → (∀ sid l, handlers h !! sid = Some l → roomy h l) → ∃ h', hub_each Hub_Kickoff sids h = Ret (Some h').
Proof.
  revert h. induction sids as [|sid sids IH]; intros h Hok Hr; [by eexists|]. simpl.
  pose proof (Hub_Kickoff_safe sid h Hok) as Hsafe. unfold Hub_Kickoff, HandlerStore_get in *.
  destruct (handlers h !! sid) as [l|] eqn:Hl; [|simpl; by apply IH].
  destruct (append_roomy (data_msg ServerMsg_of_Kickoff) l h) as [h1 Ha]; [by eapply Hr|].
  rewrite Ha in *. simpl in *. apply IH; [apply Hsafe|]. pose proof (appendDataChan_spec _ _ _ _ Ha) as [Hs _].
  unfold HandlerStore_del. rewrite (sbd_handlers _ _ Hs), Hl. simpl. intros sid' k [Hne Hk]%lookup_delete_Some.
  eapply (append_keeps_roomy _ _ _ _ k Ha); [|by eapply Hr].
  intros ->. destruct (ho_filed _ Hok _ _ Hl) as (x & sx & Hx & Hsx & <-).
  destruct (ho_filed _ Hok _ _ Hk) as (y & sy & Hy & Hsy & <-). simplify_eq.
Qed.

Lemma Hub_Run_msg_proceeds msg h :
  hub_ok h → (∀ sid l, handlers h !! sid = Some l → drained h l) → ∃ h', Hub_Run_msg msg h = Ret (Some h').
Proof.
  intros Hok Hd. assert (Hr : ∀ sid l, handlers h !! sid = Some l → roomy h l).
  { intros sid l Hl. destruct (ho_filed _ Hok _ _ Hl) as (x & _ & Hx & _). exists x. split; [done|].
    destruct (ho_chan _ Hok _ _ Hx) as (Hcc & _ & _). destruct (closing x) eqn:Hc; [by left|right].
    destruct (Hd sid l Hl x Hx) as [|Hnil]; [congruence|]. rewrite Hnil. split; [done|]. unfold dataChan_cap. simpl. lia. }
  unfold Hub_Run_msg. case_bool_decide; [by apply Hub_Kickoff_roomy|]. case_bool_decide; [|by eexists].
  apply heads_each_roomy; [apply range_NoDup_fst|done|eauto].
Qed.

(** What the hub does with a message, for the sessions that it does not kick off. *)
Record takes (Ks : list string) h h' : Prop := {
  tk_healthy : healthy h → healthy h';
  tk_target : ∀ sid l u Q, sid ∉ Ks → target sid l u Q h → target sid l u Q h'
}.

#[local] Instance takes_preorder Ks : PreOrder (takes Ks).
Proof. split; [intros h; by split|]. intros h1 h2 h3 [Hh1 Ht1] [Hh2 Ht2]. split; [auto|intros; by apply Ht2, Ht1]. Qed.

Lemma receive_flags v x :
  closing (receive v x) = closing x ∧ send_exited (receive v x) = send_exited x ∧ session (receive v x) = session x.
Proof. unfold receive. destruct (closing x) eqn:Hc; split_and!; done. Qed.

Lemma append_takes Ks v k h h' :
  appendDataChan v k h = Ret (Some h') → (∀ sid, handlers h !! sid = Some k → calm v ∨ sid ∈ Ks) → takes Ks h h'.
Proof.
  intros [Hs Ho]%appendDataChan_spec Hv.
  assert (Hobj : ∀ l x', hobjs h' !! l = Some x' → ∃ x, hobjs h !! l = Some x ∧ (x' = x ∨ l = k ∧ x' = receive v x)).
  { intros l x'. rewrite Ho. case_decide; [|eauto]. intros (x & Hx & ->)%fmap_Some. eauto. }
  split.
  - intros Hhe sid l x'. rewrite (sbd_handlers _ _ Hs). intros Hl (x & Hx & [->|[-> ->]])%Hobj; [by eapply Hhe|].
    destruct (receive_flags v x) as (-> & -> & _). by eapply Hhe.
  - intros sid l u Q Hsid [Hreg (x & Hx & Hc & Hu & Hcalm & HQ)]. split; [by rewrite (sbd_handlers _ _ Hs)|].
    rewrite (sbd_sess _ _ Hs), Ho. case_decide as Hl; [subst l|by exists x].
    rewrite Hx. simpl. eexists. split; [done|]. destruct (receive_flags v x) as (-> & _ & ->).
    destruct (Hv sid Hreg) as [Hcv|]; [|done]. unfold receive. rewrite Hc. split_and!; [done|done| |].
    + simpl. apply Forall_app. split; [done|]. by apply Forall_singleton.
    + etrans; [exact HQ|]. unfold heads, waiting. simpl. rewrite omap_app. set_solver.
Qed.

Lemma Hub_Kickoff_takes Ks sid h h' : hub_ok h → sid ∈ Ks → Hub_Kickoff sid h = Ret (Some h') → takes Ks h h'.
Proof.
  intros Hok Hin. unfold Hub_Kickoff, HandlerStore_get. destruct (handlers h !! sid) as [k|] eqn:Hk; [|by intros [= <-]].
  destruct (appendDataChan _ k h) as [[h1|]|] eqn:Ha; [|done|done]. simpl. intros [= <-].
  assert (Ht : takes Ks h h1).
  { eapply append_takes; [exact Ha|]. intros sid' Hk'. right. destruct (ho_filed _ Hok _ _ Hk) as (x & sx & Hx & Hsx & <-).
    destruct (ho_filed _ Hok _ _ Hk') as (y & sy & Hy & Hsy & <-). by simplify_eq. }
  etrans; [exact Ht|]. unfold HandlerStore_del. destruct (handlers h1 !! sid) as [l1|]; [|done]. split.
  - intros Hhe sid' l x. simpl. intros [_ Hl]%lookup_delete_Some. by apply (Hhe sid').
  - intros sid' l u Q Hn [Hreg Hobj]. split; [|done]. simpl. rewrite lookup_delete_ne by (intros ->; done). done.
Qed.

Lemma takes_each {A} Ks (f : A → Hub → go (option Hub)) (l : list A) h h' :
  (∀ a h1 h2, a ∈ l → hub_ok h1 → f a h1 = Ret (Some h2) → takes Ks h1 h2 ∧ hub_ok h2) → hub_ok h →
  hub_each f l h = Ret (Some h') → takes Ks h h' ∧ hub_ok h'.
Proof.
  revert h. induction l as [|a l IH]; intros h Hf Hok; simpl; [by intros [= <-]|].
  destruct (f a h) as [[h1|]|] eqn:Ha; [|done|done]. simpl. intros Hr.
  destruct (Hf a h h1) as [Ht1 Hok1]; [by left|done|done|].
  destruct (IH h1) as [Ht Hok']; [intros; eapply Hf; [by right|done|done]|done|done|]. split; [by etrans|done].
Qed.

Lemma append_ok v l h h' : hub_ok h → data_ok v → appendDataChan v l h = Ret (Some h') → hub_ok h'.
Proof.
  intros Hok Hv Ha. destruct (hobjs h !! l) as [x|] eqn:Hx; [|unfold appendDataChan in Ha; by rewrite Hx in Ha].
  pose proof (appendDataChan_safe v l h Hok Hv) as Hs. rewrite Ha in Hs. apply Hs. by eapply elem_of_dom_2.
Qed.

Lemma Hub_Run_msg_takes msg h h' :
  hub_ok h → Hub_Run_msg msg h = Ret (Some h') → takes (LeaderMsg_Kickoff msg) h h' ∧ hub_ok h'.
Proof.
  intros Hok. unfold Hub_Run_msg. case_bool_decide; [|case_bool_decide; [|by intros [= <-]]].
  - apply takes_each; [|done]. intros sid h1 h2 Hin Hok1 Hk. split; [by eapply Hub_Kickoff_takes|].
    pose proof (Hub_Kickoff_safe sid h1 Hok1) as Hs. rewrite Hk in Hs. apply Hs.
  - apply takes_each; [|done]. intros [uid q] h1 h2 _ Hok1. apply takes_each; [|done]. intros l h3 h4 _ Hok3 Ha.
    split; [|by eapply append_ok; [..|exact Ha]; [done|right; by eexists]].
    eapply append_takes; [exact Ha|]. intros. left. split; [done|by eexists].
Qed.

(** The senders make room, then the hub takes the message; a session of the user
    gets the head. *)
Lemma take_message msg sid l u Q h :
  hub_ok h → healthy h → sid ∉ LeaderMsg_Kickoff msg → (LeaderMsg_HeadSeq msg = ∅ ∨ LeaderMsg_Kickoff msg = []) →
  (∀ n, LeaderMsg_HeadSeq msg !! u = Some n → n ≠ 0%Z) → target sid l u Q h →
  ∃ h1 h', sends h h1 ∧ Hub_Run_msg msg h1 = Ret (Some h') ∧ hub_ok h' ∧ healthy h' ∧
    target sid l u (Q ++ option_list (LeaderMsg_HeadSeq msg !! u)) h'.
Proof.
  intros Hok Hhe Hsid Hpure Hpos Ht. destruct (drain_all h Hok Hhe) as (h1 & Hs & Hok1 & Hd).
  destruct (Hub_Run_msg_proceeds msg h1 Hok1 Hd) as [h' Hr].
  destruct (Hub_Run_msg_takes msg h1 h' Hok1 Hr) as [[Hhe' Ht'] Hok'].
  exists h1, h'. split_and!; [done|done|done|by apply Hhe', (sn_healthy _ _ Hs)|].
  pose proof (sn_target _ _ Hs _ _ _ _ Ht) as Ht1. pose proof (Ht' _ _ _ _ Hsid Ht1) as [Hreg (x' & Hx' & Hc' & Hu' & Hcalm & HQ)].
  destruct (LeaderMsg_HeadSeq msg !! u) as [n|] eqn:Hn; simpl; [|rewrite app_nil_r; by split; eauto 10].
  destruct Hpure as [He|Hk]; [by rewrite He, lookup_empty in Hn|].
  destruct Ht1 as [Hreg1 (x1 & Hx1 & Hc1 & Hu1 & _)].
  destruct (Hub_Run_heads_spec msg h1 h' Hok1 Hk Hr) as (_ & Hin & _).
  rewrite (Hin sid l x1 n Hreg1 Hx1) in Hx' by (by rewrite Hu1). injection Hx' as <-.
  split; [done|]. eexists. split; [apply (Hin sid l x1 n Hreg1 Hx1); by rewrite Hu1|]. split_and!; [done|done|done|].
  intros q [Hq|Hq]%elem_of_app; [by apply HQ|]. apply list_elem_of_singleton in Hq as ->.
  unfold receive. rewrite Hc1. unfold heads, waiting. simpl. rewrite omap_app, !elem_of_app. right; right. simpl.
  unfold data_head, head_of. simpl. rewrite bool_decide_eq_false_2 by (by apply Hpos). by left.
Qed.
End FlowHub.

(** * The system *)

Section FlowSystem.
Context `{GoRange} `{Json} `{ClientJson} {S E : Type} `{NumberedStore S E}.
Context (canceled : E → bool) (s : storage).

(** Steps of the program in which nothing fails. *)
Inductive flow_step : system (S := S) → system → Prop :=
| fl_put i msg res w q h :
    w_pc w = Putting msg res → flow_step (Sys w q h) (Sys (consume_step canceled s i w) q h)
| fl_tick now new w q h :
    w_pushed (sendLoop_tick now w) = w_pushed w ++ new → flow_step (Sys w q h) (Sys (sendLoop_tick now w) (q ++ new) h)
| fl_leader msg w q h h' :
    Hub_Run_msg msg h = Ret (Some h') → flow_step (Sys w (msg :: q) h) (Sys w q h')
| fl_send w q h h' : send_ok h h' → flow_step (Sys w q h) (Sys w q h').

Lemma consume_pushed i (w : world S) : w_pushed (consume_step canceled s i w) = w_pushed w.
Proof.
  unfold consume_step, consume_fetch, consume_save, consume_put, consume_commit, retry. repeat (case_match; try done).
Qed.

Lemma flow_step_sys y y' : flow_step y y' → sys_step canceled s y y'.
Proof.
  destruct 1 as [i msg res w q h _|now new w q h Hp|msg w q h h' Hr|w q h h' [l x h0 h1 Hx Hex Hr]].
  - rewrite <-(app_nil_r q) at 2. apply sy_storage; [apply ss_consume|by rewrite consume_pushed, app_nil_r].
  - by apply sy_storage; [apply ss_send|].
  - by apply sy_leader.
  - by eapply sy_send.
Qed.

(** What is pushed carries no kick-off. *)
Lemma storage_step_new w w' new msg :
  storage_step canceled s w w' → w_pushed w' = w_pushed w ++ new → msg ∈ new → LeaderMsg_Kickoff msg = [].
Proof.
  assert (Hnone : ∀ l : list pb_LeaderMsg, l = l ++ new → msg ∉ new).
  { intros l Hl. rewrite <-(app_nil_r l) in Hl at 1. apply app_inv_head in Hl as <-. apply not_elem_of_nil. }
  destruct 1 as [i w|now w|w _|st' w _]; simpl; intros Hp Hin; [|..|by apply Hnone in Hp|by apply Hnone in Hp].
  - rewrite consume_pushed in Hp. by apply Hnone in Hp.
  - unfold sendLoop_tick, cache_check in Hp. destruct (sending (w_cache w)).
    { simpl in Hp. rewrite app_nil_r in Hp. by apply Hnone in Hp. }
    destruct (check_loop _ _ _ _) as [kv out]. simpl in Hp. apply app_inv_head in Hp as <-.
    case_bool_decide; [|by apply elem_of_nil in Hin]. by apply list_elem_of_singleton in Hin as ->.
Qed.

(** A message has heads or kick-offs, not both. *)
Definition pure (y : system (S := S)) : Prop :=
  ∀ msg, msg ∈ sy_queue y → LeaderMsg_HeadSeq msg = ∅ ∨ LeaderMsg_Kickoff msg = [].

Lemma sys_reach_pure st conf y : rtc (sys_step canceled s) (sys_init st conf) y → pure y.
Proof.
  assert (Hgen : ∀ y1 y2, rtc (sys_step canceled s) y1 y2 → pure y1 → pure y2).
  { induction 1 as [|y1 y2 y3 Hs _ IH]; [done|]. intros Hp. apply IH. clear IH. revert Hp.
    destruct Hs as [w w' new q h Hst Hw|w q h msg Hm|w q1 msg q2 h| | | | | | | | |]; unfold pure; simpl; try done.
    - intros Hp m [Hin|Hin]%elem_of_app; [by apply Hp|]. right. by eapply storage_step_new.
    - intros Hp m [Hin|Hin%list_elem_of_singleton]%elem_of_app; [by apply Hp|subst; by left].
    - intros Hp m Hin. apply Hp. set_solver.
    - intros Hp m Hin. apply Hp. by right. }
  intros Hr. eapply Hgen; [exact Hr|]. by intros msg Hin%elem_of_nil.
Qed.

Lemma sends_flow w q h h' : sends h h' → rtc flow_step (Sys w q h) (Sys w q h').
Proof. intros [Hr _ _ _ _]. induction Hr; [done|]. eapply rtc_l; [by apply fl_send|done]. Qed.

(** The hub works off the queue. *)
Lemma queue_delivered w q sid l u Q h :
  hub_ok h → healthy h → (∀ msg, msg ∈ q → sid ∉ LeaderMsg_Kickoff msg) → pure (Sys w q h) →
  (∀ n, n ∈ pushed_to u q → n ≠ 0%Z) → target sid l u Q h →
  ∃ h', rtc flow_step (Sys w q h) (Sys w [] h') ∧ hub_ok h' ∧ healthy h' ∧ target sid l u (Q ++ pushed_to u q) h'.
Proof.
  revert h Q. induction q as [|msg q IH]; intros h Q Hok Hhe Hk Hp Hpos Ht.
  { exists h. rewrite app_nil_r. by split_and!. }
  assert (Hcons : pushed_to u (msg :: q) = option_list (LeaderMsg_HeadSeq msg !! u) ++ pushed_to u q).
  { unfold pushed_to. simpl. by destruct (LeaderMsg_HeadSeq msg !! u). }
  destruct (take_message msg sid l u Q h) as (h1 & h2 & Hs & Hr & Hok2 & Hhe2 & Ht2); [done|done|apply Hk; by left|apply Hp; by left| |done|].
  { intros n Hn. apply Hpos. rewrite Hcons, Hn. by left. }
  destruct (IH h2 (Q ++ option_list (LeaderMsg_HeadSeq msg !! u))) as (h' & Hrun & Hok' & Hhe' & Ht'); [done|done|..|done|].
  { intros m Hm. apply Hk. by right. }
  { intros m Hm. apply Hp. by right. }
  { intros n Hn. apply Hpos. rewrite Hcons. apply elem_of_app. by right. }
  exists h'. split_and!; [|done|done|by rewrite Hcons, app_assoc].
  etrans; [by apply sends_flow|]. eapply rtc_l; [by apply fl_leader|done].
Qed.

(** A head of [u] from number [n] on is on its way: in the queue of the hub, in
    the cache, or about to be put there. *)
Definition on_its_way (y : system (S := S)) (u n : Z) : Prop :=
  ∃ n', (n ≤ n')%Z ∧
    (n' ∈ pushed_to u (sy_queue y) ∨ headSeq <$> cache_kv (w_cache (sy_world y)) !! u = Some n' ∨
     ∃ msg res, w_pc (sy_world y) = Putting msg res ∧ res !! u = Some n').

Lemma cached_flows w q h u n' :
  sending (w_cache w) = false → headSeq <$> cache_kv (w_cache w) !! u = Some n' →
  ∃ w' new, flow_step (Sys w q h) (Sys w' (q ++ new) h) ∧ n' ∈ pushed_to u new ∧
    Forall (λ msg, LeaderMsg_Kickoff msg = []) new.
Proof.
  intros Hidle (v & Hv & ->)%fmap_Some. set (now := λ _ : Z, (cacheTime v + storeCacheTTL + 1)%Z).
  pose proof (cache_check_spec now (w_cache w) Hidle) as Hspec.
  assert (Hnew : w_pushed (sendLoop_tick now w) = w_pushed w ++ option_list (cache_check now (w_cache w)).2)
    by (unfold sendLoop_tick; by destruct (cache_check now (w_cache w))).
  exists (sendLoop_tick now w), (option_list (cache_check now (w_cache w)).2). split; [by apply fl_tick|]. split.
  - destruct (cache_check now (w_cache w)) as [c' o]. destruct Hspec as [_ Hspec]. specialize (Hspec u).
    rewrite Hv, due_after_ttl in Hspec by (unfold now; lia). destruct Hspec as [_ Hsent]. simpl.
    pose proof (pushed_to_snoc u [] o) as Hsn. simpl in Hsn. rewrite Hsn, Hsent. by left.
  - apply Forall_forall. intros msg Hin. eapply storage_step_new; [apply (ss_send canceled s now)|exact Hnew|exact Hin].
Qed.

Lemma on_its_way_queued y u n :
  storage_inv (sy_world y) → on_its_way y u n →
  ∃ w' new, rtc flow_step y (Sys w' (sy_queue y ++ new) (sy_hub y)) ∧
    (∃ n', (n ≤ n')%Z ∧ n' ∈ pushed_to u (sy_queue y ++ new)) ∧ Forall (λ msg, LeaderMsg_Kickoff msg = []) new.
Proof.
  destruct y as [w q h]. simpl. intros Hg (n' & Hle & [Hq|[Hc|(msg & res & Hpc & Hres)]]); simpl in *.
  - exists w, []. rewrite app_nil_r. split_and!; [apply rtc_refl|eauto|constructor].
  - destruct (cached_flows w q h u n' (g_idle _ _ _ _ Hg) Hc) as (w' & new & Hs & Hin & Hk). exists w', new.
    split_and!; [by apply rtc_once|exists n'; split; [done|rewrite pushed_to_app; apply elem_of_app; by right]|done].
  - set (i := {| in_fetch := Err Canceled; in_commit := None; in_done := false; in_now := 0; in_put := λ _, 0%Z |}).
    pose proof Hg as Hg0. unfold storage_inv in Hg0. rewrite Hpc in Hg0.
    destruct (good_put (in_put i) _ _ _ _ _ Hg0) as (c' & Hput & Hg' & Hnew & _).
    assert (Hstep : consume_step canceled s i w = with_pc (Committing msg) (with_cache c' w)).
    { unfold consume_step. rewrite Hpc. unfold consume_put. by rewrite Hput. }
    destruct (cached_flows (with_pc (Committing msg) (with_cache c' w)) q h u n') as (w' & new & Hs & Hin & Hk);
      [apply (g_idle _ _ _ _ Hg')|by apply Hnew|].
    exists w', new. split_and!; [|exists n'; split; [done|rewrite pushed_to_app; apply elem_of_app; by right]|done].
    eapply rtc_l; [by apply (fl_put i msg res)|]. rewrite Hstep. by apply rtc_once.
Qed.

(** * Properties *)

End FlowSystem.

(** * Examples *)

Section Examples.
#[local] Existing Instance canonical_range.
#[local] Existing Instance ex_json.
#[local] Existing Instance ex_client_json.
#[local] Existing Instance good_server.
#[local] Existing Instance ex_es.
#[local] Existing Instance ex_ns.

(** User 1 is connected; an event for the user was saved and put into the cache. *)
Definition ex_waiting : system := Sys (ex_run 3) [] one_session.

Lemma ex_waiting_reach : rtc (sys_step is_canceled ex_storage) (sys_init conn0 conf25) ex_waiting.
Proof.
  eapply rtc_l; [apply sy_online|]. eapply rtc_l.
  { apply (sy_serve _ _ (Some 1%Z) true "s1" "10.0.0.1" 100 (Serving 1)). 2:{ vm_compute. reflexivity. }
    apply unused_sid_dec_true; [done|]. vm_compute. reflexivity. }
  apply (ex_sys_consume [] one_session (take 3 ex_inputs)).
Qed.

Lemma one_session_healthy : healthy one_session.
Proof.
  intros sid l x _ Hx _. assert (Hall : map_Forall (λ _ y, send_exited y = false) (hobjs one_session)).
  { apply (bool_decide_unpack _). vm_compute. exact I. }
  by eapply Hall.
Qed.

End Examples.
