(* ===== verification/Logs.v ===== *)
(** The abstract specification of the event store: every user has a log.

    Saving an event appends it to the logs of its recipients, a read mark changes
    one entry, the clean-up blanks the entries of old events and never shortens a
    log, and a query reads a range of one log backwards.  [log_of] computes the
    logs from the tables of [EventStore.v]; the methods of [store/event.go] refine
    the operations on logs.  Together with [Delivery.v]: what a browser was told
    it can read. *)

From Stdlib Require Import ZArith Lia.
From stdpp Require Import base option list numbers gmap strings relations sorting.
From S2P Require Import Prelude Proto ReadStates EventStore EventApi SessionStore Cache Storage Hub Delivery.

Local Open Scope Z_scope.

(** * Logs *)

Record entry := { en_offset : Z; en_payload : string; en_time : Z; en_read : bool }.

(** Number [q] is at position [q - 1]; [None] is an entry that was cleaned up. *)
Abbreviation log := (list (option entry)).

Definition logs : Type := Z → log.

Inductive log_op :=
| Append (to : list Z) (en : entry)
| MarkRead (uid q : Z)
| Forget (gone : Z → bool)
| Skip.

Definition mark (en : entry) : entry := {|
  en_offset := en_offset en; en_payload := en_payload en; en_time := en_time en; en_read := true |}.

Definition forget (gone : Z → bool) (o : option entry) : option entry :=
  en ← o; if gone (en_offset en) then None else Some en.

Definition log_apply (op : log_op) (L : logs) : logs := λ u,
  match op with
  | Append to en => L u ++ replicate (length (filter (λ x, x = u) to)) (Some en)
  | MarkRead uid q => if bool_decide (u = uid ∧ 1 ≤ q) then alter (fmap mark) (Z.to_nat (q - 1)) (L u) else L u
  | Forget gone => forget gone <$> L u
  | Skip => L u
  end.

Definition head_of_log (l : log) : Z := Z.of_nat (length l).

(** The event with number [q], as a client sees it. *)
Definition event_at (uid : Z) (l : log) (q : Z) : option pb_Event :=
  en ← l !! Z.to_nat (q - 1) ≫= id;
  Some {| Event_Uid := uid; Event_Seq := q; Event_CreateTime := unix (en_time en);
          Event_Payload := en_payload en; Event_ReadState := en_read en |}.

Definition read_log (uid from to : Z) (l : log) : list pb_Event :=
  omap (event_at uid l) (filter (λ q, from ≤ q ≤ to) (reverse (seqZ 1 (head_of_log l)))).

(** * The logs in the tables *)

Definition entry_at (d : db) (uid q : Z) : option entry :=
  r ← user_events d !! (uid, q);
  er ← events d !! ue_topic_offset r;
  Some {| en_offset := ue_topic_offset r; en_payload := er_payload er; en_time := ue_create_time r;
          en_read := bool_decide (ue_read_state r = 1) |}.

Definition log_of (d : db) : logs := λ u, entry_at d u <$> seqZ 1 (head_seq d u).

(** * Lemmas *)

Lemma log_of_length d u : db_ok d → head_of_log (log_of d u) = head_seq d u.
Proof.
  intros Hok. unfold head_of_log, log_of. rewrite length_fmap, length_seqZ.
  pose proof (head_seq_bounds d u Hok). lia.
Qed.

Lemma log_of_lookup d u q :
  1 ≤ q ≤ head_seq d u → log_of d u !! Z.to_nat (q - 1) = Some (entry_at d u q).
Proof.
  intros Hq. unfold log_of. rewrite list_lookup_fmap, lookup_seqZ_lt by lia. simpl. do 2 f_equal. lia.
Qed.

(** Two states with the same heads whose entries are related pointwise. *)
Lemma log_of_fmap d d' u f :
  head_seq d' u = head_seq d u → (∀ q, 1 ≤ q ≤ head_seq d u → entry_at d' u q = f (entry_at d u q)) →
  log_of d' u = f <$> log_of d u.
Proof.
  intros Hh He. unfold log_of. rewrite Hh, <-list_fmap_compose. apply list_fmap_ext.
  intros i q [-> Hi]%lookup_seqZ. apply He. lia.
Qed.

Section Refinement.
Context `{MySQL}.

Definition new_entry (e : store_Event) : entry := {|
  en_offset := Offset e; en_payload := Payload e; en_time := datetime3 (Event_CreateTime_ns e); en_read := false |}.

Lemma apply_event_log e d u :
  db_ok d → events d !! Offset e = None →
  log_of (apply_event e d) u = log_apply (Append (To e) (new_entry e)) (log_of d) u.
Proof.
  intros Hok Hnew. pose proof (head_seq_bounds d u Hok) as Hb.
  destruct (foldl_deliver_numbers e (add_event_row e d) (To e) u) as [Hh Hrows].
  fold (apply_event e d) in Hh, Hrows. change (head_seq (add_event_row e d) u) with (head_seq d u) in *.
  change (user_events (add_event_row e d)) with (user_events d) in Hrows.
  assert (Hev : events (apply_event e d) = events (add_event_row e d)) by apply events_foldl_deliver.
  unfold occurrences in *. set (n := length (filter (λ x, x = u) (To e))) in *.
  unfold log_of, log_apply. rewrite Hh, seqZ_app, fmap_app by lia. f_equal.
  - apply list_fmap_ext. intros i q [-> Hi]%lookup_seqZ. unfold entry_at. rewrite Hrows, decide_False by lia.
    destruct (user_events d !! _) as [r|] eqn:Hr; [|done]. simpl. rewrite Hev. simpl.
    rewrite lookup_insert_ne; [done|]. intros Heq. destruct (ok_fk _ Hok _ _ Hr) as [er Her]. congruence.
  - apply list_eq_same_length with n; [by rewrite length_replicate| |].
    + rewrite length_fmap, length_seqZ. lia.
    + intros i x y Hi Hx Hy. apply lookup_replicate in Hy as [-> _].
      rewrite list_lookup_fmap in Hx. rewrite lookup_seqZ_lt in Hx by lia. injection Hx as <-.
      unfold entry_at. rewrite Hrows, decide_True by lia. simpl. rewrite Hev. simpl. by rewrite lookup_insert_eq.
Qed.

(** The read mark of a row that exists. *)
Lemma setReadSQL_log uid q d u :
  db_ok d → log_of (setReadSQL uid q d).2 u = log_apply (MarkRead uid q) (log_of d) u.
Proof.
  intros Hok. pose proof (head_seq_bounds d u Hok) as Hb. unfold log_apply.
  assert (Hsame : ∀ k, (k ≠ (uid, q) → user_events (setReadSQL uid q d).2 !! k = user_events d !! k)).
  { intros k Hk. unfold setReadSQL. destruct (user_events d !! (uid, q)); [|done].
    case_bool_decide; simpl; [|done]. by rewrite lookup_insert_ne by done. }
  assert (Hhit : entry_at (setReadSQL uid q d).2 uid q = mark <$> entry_at d uid q).
  { unfold setReadSQL, entry_at. destruct (user_events d !! (uid, q)) as [r|] eqn:Hr; simpl.
    - case_bool_decide as H0; simpl; rewrite ?lookup_insert_eq, ?Hr; simpl;
        destruct (events d !! ue_topic_offset r); simpl; try done.
      do 2 f_equal. unfold mark. simpl. f_equal. destruct (ok_rows _ Hok _ _ _ Hr) as [_ [? | -> ]]; done.
    - by rewrite Hr. }
  assert (Hev : events (setReadSQL uid q d).2 = events d)
    by (unfold setReadSQL; repeat case_match; try case_bool_decide; done).
  assert (Hhd : head_seq (setReadSQL uid q d).2 u = head_seq d u)
    by (unfold setReadSQL; repeat case_match; try case_bool_decide; done).
  assert (Hmiss : ∀ x, (u, x) ≠ (uid, q) → entry_at (setReadSQL uid q d).2 u x = entry_at d u x).
  { intros x Hx. unfold entry_at. rewrite Hsame, Hev by done. done. }
  case_bool_decide as Hu.
  - destruct Hu as [-> Hq]. apply list_eq. intros i.
    destruct (decide (i = Z.to_nat (q - 1))) as [->|Hi].
    + rewrite list_lookup_alter_eq. destruct (decide (q ≤ head_seq d uid)).
      * rewrite !log_of_lookup by lia. simpl. by rewrite Hhit.
      * rewrite !lookup_ge_None_2; [done|..]; unfold log_of; rewrite length_fmap, length_seqZ; lia.
    + rewrite list_lookup_alter_ne by done. unfold log_of. rewrite Hhd, !list_lookup_fmap.
      destruct (seqZ _ _ !! i) as [x|] eqn:Hx; [|done]. apply lookup_seqZ in Hx as [-> ?]. simpl.
      f_equal. apply Hmiss. intros [= ?]. lia.
  - rewrite <-(list_fmap_id (log_of d u)). apply log_of_fmap; [done|]. intros x Hx. apply Hmiss.
    intros [= -> ->]. apply Hu. lia.
Qed.

(** The events a clean-up with this cut-off removes. *)
Definition outdated (cutoff : Z) (d : db) (offset : Z) : bool :=
  match events d !! offset with
  | Some r => datetime_le (er_create_time r) cutoff
  | None => true
  end.

Lemma cleanEventsSQL_log cutoff d u :
  log_of (cleanEventsSQL cutoff d).2 u = log_apply (Forget (outdated cutoff d)) (log_of d) u.
Proof.
  apply log_of_fmap; [done|]. intros q _. unfold entry_at, forget, outdated. simpl.
  rewrite map_lookup_filter. destruct (user_events d !! (u, q)) as [r|]; simpl; [|done].
  rewrite map_lookup_filter. destruct (events d !! ue_topic_offset r) as [er|] eqn:Her; simpl.
  - rewrite Her. destruct (datetime_le _ _) eqn:Hle.
    + by rewrite (option_guard_False (¬ Is_true true)) by naive_solver.
    + rewrite (option_guard_True (¬ Is_true false)) by naive_solver.
      simpl. rewrite map_lookup_filter, Her. simpl. rewrite Hle. by rewrite option_guard_True by naive_solver.
  - done.
Qed.

(** * Reading a log *)

Lemma event_at_Some uid l q ev : event_at uid l q = Some ev → Event_Seq ev = q.
Proof. unfold event_at. intros Hev. destruct (l !! _ ≫= id); simplify_eq/=. done. Qed.

Lemma read_log_desc uid from to l : StronglySorted (λ a b, Event_Seq a > Event_Seq b) (read_log uid from to l).
Proof.
  apply (StronglySorted_omap Z.gt); [by intros ??; apply event_at_Some|].
  eapply StronglySorted_sublist; [apply sublist_filter|].
  eapply StronglySorted_weaken; [|apply StronglySorted_reverse, seqZ_ascending].
  unfold flip. intros. lia.
Qed.

Lemma read_log_elem uid from to d ev :
  db_ok d →
  ev ∈ read_log uid from to (log_of d uid) ↔
  from ≤ Event_Seq ev ≤ to ∧ 1 ≤ Event_Seq ev ≤ head_seq d uid ∧ event_at uid (log_of d uid) (Event_Seq ev) = Some ev.
Proof.
  intros Hok. unfold read_log. rewrite list_elem_of_omap. split.
  - intros (q & Hq & Hev). apply list_elem_of_filter in Hq as [Hr Hq].
    rewrite elem_of_reverse, log_of_length in Hq by done. apply elem_of_seqZ in Hq.
    rewrite (event_at_Some _ _ _ _ Hev). split_and!; try done; lia.
  - intros (Hr & Hh & Hev). exists (Event_Seq ev). split; [|done].
    apply list_elem_of_filter. split; [done|]. rewrite elem_of_reverse, log_of_length by done.
    apply elem_of_seqZ. lia.
Qed.

Lemma getEventsSQL_log uid from to d :
  db_ok d → event_of uid <$> getEventsSQL uid from to d = read_log uid from to (log_of d uid).
Proof.
  intros Hok. apply (StronglySorted_ext (λ a b, Event_Seq a > Event_Seq b)); [lia| |apply read_log_desc|].
  - apply (StronglySorted_key Z.gt). rewrite <-list_fmap_compose.
    erewrite list_fmap_ext; [rewrite getEventsSQL_seqs by done; apply user_rows_desc|].
    by intros ? [[[??]?]?] _.
  - intros ev. rewrite read_log_elem by done. rewrite list_elem_of_fmap. unfold event_at. split.
    + intros ([[[s t] rs] p] & -> & Hin). apply getEventsSQL_elem in Hin as (r & er & Hr & Hq & Her & -> & -> & ->).
      simpl. destruct (ok_rows _ Hok _ _ _ Hr) as [Hh _]. split_and!; try lia.
      rewrite log_of_lookup by done. unfold entry_at. rewrite Hr. simpl. by rewrite Her.
    + intros (Hq & Hh & Hev). rewrite log_of_lookup in Hev by done. unfold entry_at in Hev. simpl in Hev.
      destruct (user_events d !! _) as [r|] eqn:Hr; [|done]. simpl in Hev.
      destruct (events d !! _) as [er|] eqn:Her; [|done]. simpl in Hev. injection Hev as Hev.
      exists (Event_Seq ev, ue_create_time r, ue_read_state r, er_payload er). split; [by rewrite <-Hev|].
      apply getEventsSQL_elem. eauto 10.
Qed.

(** * Properties *)

(** The step from [c] to [c'] does [op] to the logs. *)
Definition does (op : log_op) (c c' : conn) : Prop :=
  ∀ u, log_of (tables c') u = log_apply op (log_of (tables c)) u.

Lemma does_Skip c c' : tables c' = tables c → does Skip c c'.
Proof. by intros Ht u; rewrite Ht. Qed.

(** The statement of a transaction is carried out or, after an error, not at all. *)
Lemma single_does {A B} (body : db → result sql_error A * db) (f : A → B) op c :
  (∀ u, log_of (body (tables c)).2 u = log_apply op (log_of (tables c)) u) →
  let '(r, c') := withTx (let? n := sql_call body in tx_ret (f n)) c in
  does op c c' ∨ does Skip c c' ∧ ∃ e, r = Err e.
Proof.
  intros Hop. destruct (withTx _ c) as [[b|e] c'] eqn:Hw.
  - left. apply withTx_Ok in Hw as (c1 & Hrun & Ht). apply sql_then_ret_Ok in Hrun as (a & Hrun & _).
    intros u. rewrite Ht, <-Hop. simpl in Hrun. by rewrite Hrun.
  - pose proof (withTx_single body f c) as Hs. rewrite Hw in Hs. simpl in Hs.
    destruct Hs as [Hs|Hs]; [right; split; [by apply does_Skip|by eexists]|]. left. intros u. by rewrite Hs.
Qed.

Lemma Save_does e r c c' :
  db_ok (tables c) → Save e c = (r, c') →
  match r with
  | Ok m => (does (Append (To e) (new_entry e)) c c' ∧
             ∀ u, m !! u = if decide (u ∈ To e) then Some (head_of_log (log_of (tables c') u)) else None) ∨
            (does Skip c c' ∧ m = ∅ ∧ is_Some (events (tables c) !! Offset e))
  | Err _ => does (Append (To e) (new_entry e)) c c' ∨ does Skip c c'
  end.
Proof.
  intros Hok Hs.
  destruct (Save_cases e c r c' Hok Hs) as [(Hn & Ht & Hok' & Hr)|[(row & Hr & _ & Ht & ->)|(Ht & err & ->)]].
  - assert (Hd : does (Append (To e) (new_entry e)) c c') by (intros u; rewrite Ht; by apply apply_event_log).
    destruct r as [m|err]; [|by left]. left. split; [done|]. intros u.
    rewrite log_of_length, Hr by done. apply new_heads_lookup.
  - right. split_and!; [by apply does_Skip|done|by eexists].
  - right. by apply does_Skip.
Qed.

Lemma SetRead_does uid q r c c' :
  db_ok (tables c) → SetRead uid q c = (r, c') →
  match r with
  | Ok resp => does (MarkRead uid q) c c' ∧ Changed resp = bool_decide (en_read <$> entry_at (tables c) uid q = Some false)
  | Err _ => does (MarkRead uid q) c c' ∨ does Skip c c'
  end.
Proof.
  intros Hok Hs. destruct r as [resp|e].
  - apply SetRead_Ok in Hs as (n & Hn & ->). simpl. split.
    + intros u. rewrite <-setReadSQL_log by done. by rewrite Hn.
    + unfold setReadSQL in Hn. unfold entry_at. destruct (user_events (tables c) !! (uid, q)) as [r|] eqn:Hr;
        [|injection Hn as <- _; done].
      destruct (ok_fk _ Hok _ _ Hr) as [er Her]. simpl. rewrite Her. simpl.
      destruct (ok_rows _ Hok _ _ _ Hr) as [_ [H0|H0]]; rewrite H0 in *; simpl in Hn; by injection Hn as <- _.
  - pose proof (single_does (setReadSQL uid q) (λ n, bool_decide (n = 1)) (MarkRead uid q) c) as Hop.
    specialize (Hop (λ u, setReadSQL_log uid q (tables c) u Hok)).
    apply (f_equal snd) in Hs. unfold SetRead in Hs. rewrite tx_bind_ret_snd in Hs. simpl in Hs. subst c'.
    destruct (withTx _ c) as [r c']. naive_solver.
Qed.

(** C27: the event store refines the logs. A successful [Save] of a new event
    appends it once for every mention of a recipient and reports the new lengths;
    of a stored event it changes nothing. [SetRead] marks one entry and reports
    whether that changed it, the clean-up blanks the entries of outdated events
    and keeps every number, and a call that fails did its operation or nothing.
    [GetEvents] reads a range of the log backwards, [Stats] returns its length. *)
Theorem store_refines_logs c :
  db_ok (tables c) →
  let L := log_of (tables c) in
  (∀ e r c', Save e c = (r, c') →
    match r with
    | Ok m => (does (Append (To e) (new_entry e)) c c' ∧
               ∀ u, m !! u = if decide (u ∈ To e) then Some (head_of_log (log_of (tables c') u)) else None) ∨
              (does Skip c c' ∧ m = ∅ ∧ is_Some (events (tables c) !! Offset e))
    | Err _ => does (Append (To e) (new_entry e)) c c' ∨ does Skip c c'
    end) ∧
  (∀ uid q r c', SetRead uid q c = (r, c') →
    match r with
    | Ok resp => does (MarkRead uid q) c c' ∧ Changed resp = bool_decide (en_read <$> entry_at (tables c) uid q = Some false)
    | Err _ => does (MarkRead uid q) c c' ∨ does Skip c c'
    end) ∧
  (∀ midnight now days r c', DeleteOutdatedEvents midnight now days c = (r, c') →
    let op := Forget (outdated (unix (GetDayBefore midnight now days)) (tables c)) in
    match r with Ok _ => does op c c' | Err _ => does op c c' ∨ does Skip c c' end) ∧
  (∀ uid req resp c', GetEvents uid req c = (Ok resp, c') →
    does Skip c c' ∧ Events resp `prefix_of` read_log uid (FromSeq req) (ToSeq req) (L uid) ∧
    (rows_cut (S (calls c)) = None → Events resp = read_log uid (FromSeq req) (ToSeq req) (L uid))) ∧
  (∀ midnight now uid days req resp c', Stats midnight now uid days req c = (Ok resp, c') →
    does Skip c c' ∧ StatsResp_HeadSeq resp = head_of_log (L uid)).
Proof.
  intros Hok L. split_and!.
  - intros e r c' Hs. by apply Save_does.
  - intros uid q r c' Hs. by apply SetRead_does.
  - intros mid now days r c' Hd op.
    pose proof (single_does (cleanEventsSQL _) wrap32 op c (cleanEventsSQL_log _ _)) as Hop.
    unfold DeleteOutdatedEvents in Hd. rewrite Hd in Hop. destruct r; naive_solver.
  - intros uid req resp c' Hg. destruct (GetEvents_Ok uid req c resp c' Hok Hg) as (rows & Hpre & Hcut & Hev).
    split; [by eapply does_Skip, GetEvents_tables|]. unfold L. rewrite <-getEventsSQL_log, Hev by done.
    split; [destruct Hpre as [k ->]; rewrite fmap_app; by eexists|]. by intros ->%Hcut.
  - intros mid now uid days req resp c' Hs. split; [by eapply does_Skip, Stats_tables|].
    destruct (Stats_correct _ _ _ _ _ _ _ _ Hs) as [-> _]. unfold L. by rewrite log_of_length.
Qed.
End Refinement.

(** * From the head to the event *)

Section Readable.
Context `{GoRange} `{Json} `{ClientJson} `{MySQL} (midnight : Z → Z) (now : Z) (text : sql_error → string).
Context (canceled : sql_error → bool) (s : storage).
#[local] Instance log_es : IEventStore conn sql_error := eventStore_IEventStore midnight now text.
#[local] Instance log_ns : NumberedStore conn sql_error := eventStore_NumberedStore midnight now text.

Lemma event_in_range uid from to l q :
  from ≤ q ≤ to → 1 ≤ q ≤ head_of_log l → ∀ ev, event_at uid l q = Some ev → ev ∈ read_log uid from to l.
Proof.
  intros Hr Hq ev Hev. unfold read_log. apply list_elem_of_omap. exists q. split; [|done].
  apply list_elem_of_filter. split; [done|]. rewrite elem_of_reverse. apply elem_of_seqZ. lia.
Qed.

End Readable.

(** * Examples *)

Section Examples.
#[local] Existing Instance canonical_range.
#[local] Existing Instance ex_json.
#[local] Existing Instance ex_client_json.
#[local] Existing Instance good_server.

(** The log of user 1 after an event that lists it twice. *)
Lemma log_of_conn1 : en_payload <$> omap id (log_of (tables conn1) 1) = ["hello"; "hello"].
Proof. vm_compute. reflexivity. Qed.

Lemma store_refines_logs_witness :
  Changed {| SetReadResp_Seq := 2; Changed := true |} = bool_decide (en_read <$> entry_at (tables conn1) 1 2 = Some false).
Proof.
  destruct (store_refines_logs conn1 conn1_db_ok) as (_ & Hs & _).
  apply (Hs 1 2 (Ok {| SetReadResp_Seq := 2; Changed := true |}) (SetRead 1 2 conn1).2). vm_compute. reflexivity.
Defined.

End Examples.
