(* ===== verification/Roster.v ===== *)
(** The leader's view of a hub: [ws/hub.go] and [cluster/pushserver.go] composed.

    A hub reports every session that opens or ends on [followerC], and all of
    them when it connects; the leader's [Route] keeps them in its session store.
    The reports are a queue: the channel, the stream and the leader's [Recv]; the
    client logs a failed [SendMsg] and goes on, so reports can be lost.
    [roster_step] interleaves the goroutines of the hub, the reports and the other
    goroutines of the leader; the invariant relates the handlers of the hub, the
    reports on their way and the leader's store. *)

From Stdlib Require Import ZArith Lia.
From stdpp Require Import base option list numbers gmap strings relations sorting.
From S2P Require Import Prelude Proto EventApi SessionStore Storage PushServer Hub.

(** * Reports *)

(** gRPC sends the sessions a report points to. *)
Definition wire (h : Hub) (msg : pb_FollowerMsg loc) : pb_FollowerMsg pb_Session := {|
  SessionOnline := (λ l, hsess h !!! l) <$> SessionOnline msg;
  SessionOffline := SessionOffline msg;
  SyncSessions := (λ l, hsess h !!! l) <$> SyncSessions msg;
  FollowerMsg_ServerShutdown := FollowerMsg_ServerShutdown msg;
  FollowerMsg_E2EMsg := FollowerMsg_E2EMsg msg
|}.

(** What a report says about the open sessions. *)
Definition roster_apply (r : gset string) (msg : pb_FollowerMsg pb_Session) : gset string :=
  match SessionOnline msg with
  | Some v => {[Sid v]} ∪ r
  | None =>
      if negb (bool_decide (SessionOffline msg = "")) then r ∖ {[SessionOffline msg]}
      else list_to_set (Sid <$> SyncSessions msg) ∪ r
  end.

Definition roster_after (msgs : list (pb_FollowerMsg pb_Session)) (r : gset string) : gset string :=
  foldl roster_apply r msgs.

Lemma roster_apply_mono msg (A B W : gset string) :
  A ⊆ B ∪ W → roster_apply A msg ⊆ roster_apply B msg ∪ W.
Proof.
  intros HAB. unfold roster_apply. destruct (SessionOnline msg); [set_solver|].
  destruct (bool_decide _); simpl; set_solver.
Qed.

Lemma roster_after_mono msgs (A B W : gset string) :
  A ⊆ B ∪ W → roster_after msgs A ⊆ roster_after msgs B ∪ W.
Proof.
  revert A B. induction msgs as [|msg msgs IH]; intros A B HAB; [done|].
  apply IH. by apply roster_apply_mono.
Qed.

(** The sessions that a report opens and ends. *)
Definition opens (msg : pb_FollowerMsg pb_Session) : gset string :=
  roster_apply ∅ msg.
Definition ends (msg : pb_FollowerMsg pb_Session) : gset string := {[SessionOffline msg]}.

Lemma roster_apply_opens r msg : roster_apply r msg ⊆ r ∪ opens msg.
Proof.
  unfold opens, roster_apply. destruct (SessionOnline msg); [set_solver|]. destruct (bool_decide _); simpl; set_solver.
Qed.

Lemma roster_apply_ends r msg : r ⊆ roster_apply r msg ∪ ends msg.
Proof.
  unfold ends, roster_apply. destruct (SessionOnline msg); [set_solver|]. destruct (bool_decide _); simpl; [set_solver|].
  intros sid Hs. destruct (decide (sid = SessionOffline msg)); set_solver.
Qed.

Lemma roster_after_app m1 m2 r : roster_after (m1 ++ m2) r = roster_after m2 (roster_after m1 r).
Proof. apply foldl_app. Qed.

(** * The hub reports what it does *)

Section HubReports.
Context `{GoRange}.
Implicit Types (h : Hub) (Ks : gset string).

(** [h'] has the sessions of [h] without those that were reported and those of
    [Ks], which were told to go. *)
Record tracked Ks h h' : Prop := {
  tr_sess : hsess h' = hsess h;
  tr_sub : handlers h' ⊆ handlers h;
  tr_new : dom (handlers h) ## {[""]} →
    ∃ new, followerC h' = followerC h ++ new ∧
      dom (handlers h') ⊆ roster_after (wire h <$> new) (dom (handlers h)) ∧
      roster_after (wire h <$> new) (dom (handlers h)) ⊆ dom (handlers h') ∪ Ks
}.

Definition tracked_opt Ks h (c : go (option Hub)) : Prop := ∀ h', c = Ret (Some h') → tracked Ks h h'.

Lemma tracked_same Ks h h' :
  hsess h' = hsess h → handlers h' = handlers h → followerC h' = followerC h → tracked Ks h h'.
Proof.
  intros Hs Hh Hf. split; rewrite ?Hh; [done|done|]. intros _. exists []. rewrite Hf, app_nil_r.
  unfold roster_after. simpl. set_solver.
Qed.

#[local] Instance tracked_preorder Ks : PreOrder (tracked Ks).
Proof.
  split; [intros h; by apply tracked_same|]. intros h1 h2 h3 [Hs1 Hu1 Hn1] [Hs2 Hu2 Hn2].
  split; [congruence|by etrans|]. intros Hne. destruct (Hn1 Hne) as (n1 & Hf1 & Ha1 & Hb1).
  destruct Hn2 as (n2 & Hf2 & Ha2 & Hb2); [apply subseteq_dom in Hu1; set_solver|].
  exists (n1 ++ n2). rewrite Hf2, Hf1, <-app_assoc. split; [done|].
  assert (Hw : wire h2 <$> n2 = wire h1 <$> n2) by (apply list_fmap_ext; intros ? m _; unfold wire; by rewrite Hs1).
  rewrite Hw in Ha2, Hb2. rewrite fmap_app, roster_after_app. split.
  - etrans; [exact Ha2|]. rewrite <-(union_empty_r_L (roster_after _ (roster_after _ _))).
    apply roster_after_mono. set_solver.
  - etrans; [apply (roster_after_mono _ _ _ Ks Hb1)|]. set_solver.
Qed.

Lemma tracked_bind Ks h c k :
  tracked_opt Ks h c → (∀ h1, tracked_opt Ks h1 (k h1)) → tracked_opt Ks h (hub_bind c k).
Proof.
  intros Hc Hk h'. destruct c as [[h1|]|]; simpl; [|done|done]. intros Hh'. etrans; [by apply Hc|by eapply Hk].
Qed.

Lemma tracked_each {A} Ks (f : A → Hub → go (option Hub)) (l : list A) h :
  (∀ a h1, a ∈ l → tracked_opt Ks h1 (f a h1)) → tracked_opt Ks h (hub_each f l h).
Proof.
  revert h. induction l as [|a l IH]; intros h Hf; simpl; [by intros h' [= <-]|].
  apply tracked_bind; [apply Hf; by left|]. intros h1. apply IH. intros b h2 Hb. apply Hf. by right.
Qed.

Lemma tracked_ret Ks h h1 : tracked Ks h h1 → tracked_opt Ks h (Ret (Some h1)).
Proof. by intros Ht h' [= <-]. Qed.

Lemma tracked_upd Ks l f h : tracked Ks h (upd_handler l f h).
Proof. by apply tracked_same. Qed.

Lemma delHandler_tracked Ks sid h : tracked Ks h (delHandler sid h).
Proof.
  unfold delHandler, HandlerStore_del. destruct (handlers h !! sid) as [l|] eqn:Hl; [|done].
  split; simpl; [done|apply delete_subseteq|]. intros Hne. eexists. split; [done|].
  assert (Hsid : sid ≠ "") by (apply elem_of_dom_2 in Hl; set_solver).
  unfold roster_after. simpl. unfold roster_apply. simpl. rewrite bool_decide_eq_false_2 by done. simpl.
  rewrite dom_delete_L. set_solver.
Qed.

Lemma Handler_close_tracked Ks cause l h : tracked_opt Ks h (Handler_close cause l h).
Proof.
  unfold Handler_close. destruct (hobjs h !! l) as [x|]; [|done].
  destruct (closing x); [by apply tracked_ret|]. destruct (chan_closed x); [done|]. apply tracked_ret.
  etrans; [apply (tracked_upd _ l with_closed)|]. case_bool_decide; [done|apply delHandler_tracked].
Qed.

Lemma appendDataChan_tracked Ks v l h : tracked_opt Ks h (appendDataChan v l h).
Proof.
  unfold appendDataChan. destruct (hobjs h !! l) as [x|]; [|done].
  destruct (closing x); [by apply tracked_ret|]. destruct (chan_closed x); [done|].
  case_bool_decide; [|done]. apply tracked_ret, tracked_upd.
Qed.

(** A report that is not about sessions. *)
Lemma routeClientMsg_tracked Ks m h : tracked Ks h (routeClientMsg m h).
Proof.
  split; simpl; [done|done|]. intros _. eexists. split; [done|]. unfold roster_after, roster_apply. simpl. set_solver.
Qed.

Lemma recvLoop_turn_tracked Ks l r h : tracked_opt Ks h (recvLoop_turn l r h).
Proof.
  apply tracked_bind; [apply tracked_each; intros; apply appendDataChan_tracked|].
  intros h1. apply tracked_ret. etrans; [|destruct (rr_return r); [apply tracked_upd|reflexivity]].
  destruct (rr_route r); [apply routeClientMsg_tracked|reflexivity].
Qed.

Lemma sendLoop_ping_tracked Ks ok l h : tracked_opt Ks h (sendLoop_ping ok l h).
Proof.
  unfold sendLoop_ping. destruct ok; [by apply tracked_ret|].
  apply tracked_bind; [apply appendDataChan_tracked|]. intros h1. apply tracked_ret, tracked_upd.
Qed.

Lemma sendLoop_data_tracked Ks ok l h : tracked_opt Ks h (sendLoop_data ok l h).
Proof.
  unfold sendLoop_data. destruct (hobjs h !! l) as [x|]; [|done].
  destruct (dataChan x) as [|v rest].
  { destruct (chan_closed x); [apply tracked_ret, tracked_upd|done]. }
  assert (Hpop : ∀ c, tracked_opt Ks (upd_handler l (with_dataChan rest) h) c → tracked_opt Ks h c).
  { intros c Hc h' Hh'. etrans; [apply (tracked_upd _ l (with_dataChan rest))|by apply Hc]. }
  case_bool_decide.
  { apply Hpop, tracked_bind; [apply Handler_close_tracked|]. intros h1. apply tracked_ret, tracked_upd. }
  destruct (sd_ServerMsg v) as [msg|]; [|done]. apply Hpop. destruct ok.
  - destruct (ServerMsg_Kickoff msg); [|apply tracked_ret, tracked_upd].
    intros h' Hh'. etrans; [apply (tracked_upd _ l (with_written msg))|by eapply Handler_close_tracked].
  - apply tracked_bind; [apply appendDataChan_tracked|]. intros h1. apply tracked_ret, tracked_upd.
Qed.

(** A kick-off drops the handler without a report: the leader knows. *)
Lemma Hub_Kickoff_tracked Ks sid h : sid ∈ Ks → tracked_opt Ks h (Hub_Kickoff sid h).
Proof.
  intros Hsid. unfold Hub_Kickoff. destruct (HandlerStore_get sid h); [|by apply tracked_ret].
  apply tracked_bind; [apply appendDataChan_tracked|]. intros h1. apply tracked_ret.
  unfold HandlerStore_del. destruct (handlers h1 !! sid); [|done]. split; simpl; [done|apply delete_subseteq|].
  intros _. exists []. rewrite app_nil_r. unfold roster_after. simpl. rewrite dom_delete_L.
  split; [done|]. split; [set_solver|]. intros x Hx. destruct (decide (x = sid)); set_solver.
Qed.

Lemma Hub_Run_msg_tracked msg h : tracked_opt (list_to_set (LeaderMsg_Kickoff msg)) h (Hub_Run_msg msg h).
Proof.
  unfold Hub_Run_msg. case_bool_decide; [|case_bool_decide; [|by apply tracked_ret]].
  - apply tracked_each. intros sid h1 Hs. apply Hub_Kickoff_tracked. by rewrite elem_of_list_to_set.
  - apply tracked_each. intros us h1 _. apply tracked_each. intros l h2 _. apply appendDataChan_tracked.
Qed.

(** The goroutines of the hub other than [Run]. *)
Inductive hub_turn : Hub → Hub → Prop :=
| ht_recv l x r h h' :
    hobjs h !! l = Some x → recv_exited x = false → recv_ok r → recvLoop_turn l r h = Ret (Some h') → hub_turn h h'
| ht_send ok l x h h' :
    hobjs h !! l = Some x → send_exited x = false → sendLoop_data ok l h = Ret (Some h') → hub_turn h h'
| ht_ping ok l x h h' :
    hobjs h !! l = Some x → send_exited x = false → sendLoop_ping ok l h = Ret (Some h') → hub_turn h h'
| ht_peer l x h : hobjs h !! l = Some x → hub_turn h (peer_close l h)
| ht_stop h h' : HandlerStore_close h = Ret (Some h') → hub_turn h h'
| ht_offline h : hub_turn h (Offline h).

Lemma hub_turn_tracked Ks h h' : hub_turn h h' → tracked Ks h h'.
Proof.
  destruct 1 as [l x r h h' _ _ _ Hr|ok l x h h' _ _ Hr|ok l x h h' _ _ Hr|l x h _|h h' Hr|h].
  - by eapply recvLoop_turn_tracked.
  - by eapply sendLoop_data_tracked.
  - by eapply sendLoop_ping_tracked.
  - apply delHandler_tracked.
  - eapply tracked_each; [|exact Hr]. intros. apply Handler_close_tracked.
  - by apply tracked_same.
Qed.

Lemma hub_turn_step h h' : hub_turn h h' → hub_step h h'.
Proof. destruct 1; [eapply hs_recv|eapply hs_send|eapply hs_ping|eapply hs_peer|eapply hs_stop|apply hs_offline]; done. Qed.
End HubReports.

(** * The leader keeps what it is told *)

Section LeaderRoster.
Context `{GoRange} `{GrpcStreams} `{Json} {K : Type} `{IKafkaWriter K}.
Implicit Types (s : pushServer K).

(** The sessions that the leader's store has for a hub. *)
Definition known (hub : string) s : gset string := dom (default ∅ (kv (sessionStore s) !! hub)).

Lemma known_stored hub s sid : sid ∈ known hub s ↔ ∃ l, stored (sessionStore s) hub sid l.
Proof. unfold known. rewrite elem_of_dom. unfold is_Some. by setoid_rewrite stored_default. Qed.

Lemma known_store hub s s' : sessionStore s' = sessionStore s → known hub s' = known hub s.
Proof. unfold known. by intros ->. Qed.

Lemma kickoff_if_any_store now sessions s s' :
  kickoff_if_any now sessions s = Ret s' → sessionStore s' = sessionStore s.
Proof. unfold kickoff_if_any. case_bool_decide; [by intros [-> _]%kickoff_loop_places|by intros [= <-]]. Qed.

(** Decoding a slice allocates its sessions. *)
Lemma receive_sessions_values slice h :
  let '(ls, h') := receive_sessions slice h in (λ l, h' !!! l) <$> ls = slice.
Proof.
  revert h. induction slice as [|sess slice IH]; intros h; cbn [receive_sessions]; [done|].
  destruct (receive_session_spec sess h) as [Hf Hh].
  destruct (receive_session sess h) as [l h1]. simpl in Hf, Hh. subst h1. specialize (IH (<[l := sess]> h)).
  pose proof (receive_sessions_spec slice (<[l := sess]> h)) as Hs.
  destruct (receive_sessions slice _) as [ls h']. destruct Hs as (_ & _ & Hsub & _). rewrite fmap_cons, IH. f_equal.
  apply lookup_total_correct. eapply lookup_weaken; [|exact Hsub]. apply lookup_insert_eq.
Qed.

(** Setting the hub of a session leaves its id. *)
Lemma set_HubId_Sid hub (l k : loc) (h : heap) : Sid (alter (set_HubId hub) l h !!! k) = Sid (h !!! k).
Proof.
  rewrite !lookup_total_alt, lookup_alter. case_decide; [subst|done]. by destruct (h !! k).
Qed.

Lemma addMany_loop_dom hub slice (h : heap) v :
  dom (addMany_loop hub slice h v).2 = list_to_set ((λ l, Sid (h !!! l)) <$> slice) ∪ dom v.
Proof.
  revert h v. induction slice as [|sess slice IH]; intros h v; simpl; [set_solver|].
  rewrite IH, dom_insert_L, set_HubId_Sid.
  assert (Heq : (λ l, Sid (alter (set_HubId hub) sess h !!! l)) <$> slice = (λ l, Sid (h !!! l)) <$> slice).
  { apply list_fmap_ext. intros ? k _. apply set_HubId_Sid. }
  rewrite Heq. set_solver.
Qed.

(** [Route] does to the leader's store what a report says. *)
Lemma Route_msg_known now hub msg b s s' :
  Route_msg now hub msg s = Ret (b, s') →
  known hub s' = roster_apply (known hub s) msg ∧ ∀ hub', hub' ≠ hub → known hub' s' = known hub' s.
Proof.
  unfold Route_msg, roster_apply. destruct (SessionOnline msg) as [v|].
  { destruct (receive_session_spec v (ps_heap s)) as [_ Hh]. destruct (receive_session v (ps_heap s)) as [l h].
    simpl in Hh. subst h. destruct (SessionStore_getUserSessionsToKickoff _ _ _ _) as [m|]; [|done]. simpl.
    destruct (kickoff_if_any _ _ _) as [s1|] eqn:Hk; [|done]. intros [= _ <-].
    apply kickoff_if_any_store in Hk. unfold SessionStore_add in Hk. simpl in Hk. split.
    - unfold known. rewrite Hk. simpl. rewrite lookup_insert_eq. simpl.
      by rewrite dom_insert_L, set_HubId_Sid, lookup_total_insert_eq.
    - intros hub' Hne. unfold known. rewrite Hk. simpl. by rewrite lookup_insert_ne. }
  destruct (negb _) eqn:Hoff.
  { intros [= _ <-]. unfold SessionStore_del. split.
    - unfold known; simpl. destruct (kv (sessionStore s) !! hub) as [v|] eqn:Hv; simpl.
      + rewrite lookup_insert_eq. simpl. by rewrite dom_delete_L.
      + rewrite Hv. simpl. set_solver.
    - intros hub' Hne. unfold known; simpl.
      destruct (kv (sessionStore s) !! hub); simpl; [by rewrite lookup_insert_ne|done]. }
  clear Hoff. case_bool_decide as Hlen.
  - pose proof (receive_sessions_values (SyncSessions msg) (ps_heap s)) as Hval.
    destruct (receive_sessions (SyncSessions msg) (ps_heap s)) as [ls h]. intros [= _ <-].
    pose proof (addMany_loop_dom hub ls h (default ∅ (kv (sessionStore s) !! hub))) as Hdom.
    unfold SessionStore_addMany. destruct (addMany_loop _ _ _ _) as [h' v']. unfold known; simpl in *. split.
    + rewrite lookup_insert_eq. simpl. rewrite Hdom, <-Hval. by rewrite <-list_fmap_compose.
    + intros hub' Hne. by rewrite lookup_insert_ne.
  - intros Hr. assert (Hs : sessionStore s' = sessionStore s).
    { destruct (FollowerMsg_E2EMsg msg) as [v|]; [destruct (saveE2eMsg _ _ _) as [r|]; [|done]; by injection Hr as _ <-|].
      destruct (FollowerMsg_ServerShutdown msg); [|done]. by injection Hr as _ <-. }
    split; [|intros; by apply known_store]. rewrite (known_store _ _ _ Hs).
    destruct (SyncSessions msg); [simpl; set_solver|simpl in Hlen; lia].
Qed.

(** What else the leader does: it never adds a session of the hub. *)
Inductive other_step (hub : string) : pushServer K → pushServer K → Prop :=
| os_open md stream hub' s s' : Route_open md stream s = Ret (hub', s') → other_step hub s s'
| os_msg now hub' msg b s s' : hub' ≠ hub → Route_msg now hub' msg s = Ret (b, s') → other_step hub s s'
| os_close hub' s : other_step hub s (removeStream hub' s)
| os_push msg s : other_step hub s (run_push msg s)
| os_tick t now s s' : cleanSession_tick t now s = Ret s' → other_step hub s s'
| os_done s : other_step hub s (cleanSession_done s).

Lemma other_step_known hub s s' : other_step hub s s' → known hub s' ⊆ known hub s.
Proof.
  destruct 1 as [md stream hub' s s' Hr|now hub' msg b s s' Hne Hr|hub' s|msg s|t now s s' Hr|s].
  - unfold Route_open in Hr. case_bool_decide; [done|]. by injection Hr as _ <-.
  - apply Route_msg_known in Hr as [_ Hr]. by rewrite Hr.
  - done.
  - unfold run_push. destruct (pushes_spec msg (range 25 (copyStreams s)) s) as (new & Hs & _ & _).
    by rewrite (known_store _ _ _ (sa_store _ _ _ Hs)).
  - apply cleanSession_tick_store in Hr. intros sid. rewrite !known_stored, Hr.
    intros [l [Hl _]%gc_sweep_stored]. eauto.
  - intros sid. rewrite known_stored. intros [l (v & Hv & _)]. simpl in Hv. by rewrite lookup_empty in Hv.
Qed.

(** * The hub and its leader *)

(** The hub, its reports on their way, the leader; the sessions that the leader
    may still have (the hub was told to kick them off, or the report of their end
    was lost), and those it may lack (it dropped them on its own, or the report
    that named them was lost). *)
Record roster := Ro {
  ro_hub : Hub;
  ro_queue : list (pb_FollowerMsg pb_Session);
  ro_server : pushServer K;
  ro_stale : gset string;
  ro_missing : gset string
}.

Inductive roster_step (hub : string) : roster → roster → Prop :=
| ro_turn h h' new q s k d :
    hub_turn h h' → followerC h' = followerC h ++ new →
    roster_step hub (Ro h q s k d) (Ro h' (q ++ (wire h' <$> new)) s k d)
| ro_serve auth upgrade uuid ip now r h h' new q s k d :
    unused_sid uuid h → ServeHTTP auth upgrade uuid ip now h = (r, h') → followerC h' = followerC h ++ new →
    roster_step hub (Ro h q s k d) (Ro h' (q ++ (wire h' <$> new)) s k d)
| ro_online h new q s k d :                      (* the hub connects to the leader *)
    followerC (Online h) = followerC h ++ new →
    roster_step hub (Ro h q s k d) (Ro (Online h) (q ++ (wire h <$> new)) s k d)
| ro_leader msg h h' new q s k d :               (* a message of the leader *)
    Hub_Run_msg msg h = Ret (Some h') → followerC h' = followerC h ++ new →
    roster_step hub (Ro h q s k d)
      (Ro h' (q ++ (wire h' <$> new)) s (k ∪ list_to_set (LeaderMsg_Kickoff msg)) d)
| ro_report now msg b h q s s' k d :             (* the leader takes a report *)
    Route_msg now hub msg s = Ret (b, s') → roster_step hub (Ro h (msg :: q) s k d) (Ro h q s' k d)
| ro_lost msg h q1 q2 s k d :                    (* [SendMsg] fails: the error is logged *)
    roster_step hub (Ro h (q1 ++ msg :: q2) s k d) (Ro h (q1 ++ q2) s (k ∪ ends msg) (d ∪ opens msg))
| ro_other h q s s' k d :
    other_step hub s s' → roster_step hub (Ro h q s k d) (Ro h q s' k (d ∪ known hub s ∖ known hub s')).

(** What the leader will know of the hub. *)
Definition will_know (hub : string) (y : roster) : gset string :=
  roster_after (ro_queue y) (known hub (ro_server y)).

Record roster_ok (hub : string) (y : roster) : Prop := {
  rk_hub : hub_ok (ro_hub y);
  rk_sids : ∀ l sess, hsess (ro_hub y) !! l = Some sess → Sid sess ≠ "";
  rk_lower : dom (handlers (ro_hub y)) ⊆ will_know hub y ∪ ro_missing y;
  rk_upper : will_know hub y ⊆ dom (handlers (ro_hub y)) ∪ ro_stale y
}.

Lemma named_handlers h :
  hub_ok h → (∀ l sess, hsess h !! l = Some sess → Sid sess ≠ "") → dom (handlers h) ## {[""]}.
Proof.
  intros Hok Hs. apply elem_of_disjoint. intros sid Hd Hsid%elem_of_singleton. subst sid.
  apply elem_of_dom in Hd as [l Hl]. destruct (ho_filed _ Hok _ _ Hl) as (x & sess & _ & Hsess & Heq). by eapply Hs.
Qed.

(** New reports of the hub, and the sessions it dropped in silence. *)
Lemma roster_ok_hub hub h h' msgs q s k k' d :
  roster_ok hub (Ro h q s k d) → hub_ok h' → (∀ l sess, hsess h' !! l = Some sess → Sid sess ≠ "") → k ⊆ k' →
  dom (handlers h') ⊆ roster_after msgs (dom (handlers h)) →
  roster_after msgs (dom (handlers h)) ⊆ dom (handlers h') ∪ k' →
  roster_ok hub (Ro h' (q ++ msgs) s k' d).
Proof.
  intros [_ _ Hl Hu] Hok Hs Hk Hlo Hup. unfold will_know in *. simpl in *.
  split; simpl; [done|done|..]; unfold will_know; simpl; rewrite roster_after_app.
  - etrans; [exact Hlo|by apply roster_after_mono].
  - etrans; [apply (roster_after_mono _ _ _ _ Hu)|]. set_solver.
Qed.

(** The copy that [Online] sends holds registered sessions only. *)
Lemma shallowCopySessions_sids h l :
  hub_ok h → l ∈ shallowCopySessions h → Sid (hsess h !!! l) ∈ dom (handlers h).
Proof.
  intros Hok (hl & Hin & Hl)%list_elem_of_omap. apply list_elem_of_fmap in Hin as ([sid hl'] & -> & Hin%range_elem).
  destruct (ho_filed _ Hok _ _ Hin) as (x & sess & Hx & Hs & <-). simpl in Hl. rewrite Hx in Hl. injection Hl as <-.
  rewrite (lookup_total_correct _ _ _ Hs). by eapply elem_of_dom_2.
Qed.

Lemma roster_after_sync h bs r :
  (∀ l, l ∈ concat bs → Sid (hsess h !!! l) ∈ r) →
  roster_after (wire h <$> (FollowerMsg_of_Sync <$> bs)) r = r.
Proof.
  induction bs as [|b bs IH]; intros Hin; [done|]. simpl.
  assert (Hb : roster_apply r (wire h (FollowerMsg_of_Sync b)) = r).
  { unfold roster_apply. simpl. apply leibniz_equiv. intros sid. rewrite elem_of_union, elem_of_list_to_set.
    split; [|by right]. intros [Hs|]; [|done]. rewrite <-list_fmap_compose in Hs.
    apply list_elem_of_fmap in Hs as (l & -> & Hl). apply Hin. simpl. apply elem_of_app. by left. }
  rewrite Hb. apply IH. intros l Hl. apply Hin. simpl. apply elem_of_app. by right.
Qed.

(** A turn of the hub. *)
Lemma tracked_roster_ok hub Ks h h' new q s k d :
  roster_ok hub (Ro h q s k d) → hub_ok h' → tracked Ks h h' → followerC h' = followerC h ++ new →
  roster_ok hub (Ro h' (q ++ (wire h' <$> new)) s (k ∪ Ks) d).
Proof.
  intros Hy Hok [Hs Hsub Hn] Hf. pose proof (rk_sids _ _ Hy) as Hsids.
  destruct Hn as (new' & Hf' & Hlo & Hup); [by apply named_handlers; [apply (rk_hub _ _ Hy)|]|].
  assert (new' = new) as -> by (rewrite Hf in Hf'; by apply app_inv_head in Hf').
  assert (Hw : wire h' <$> new = wire h <$> new) by (apply list_fmap_ext; intros ? m _; unfold wire; by rewrite Hs).
  rewrite Hw. eapply roster_ok_hub; [exact Hy|done|by rewrite Hs|set_solver|done|set_solver].
Qed.

Lemma roster_step_ok hub y y' : roster_step hub y y' → roster_ok hub y → roster_ok hub y'.
Proof.
  destruct 1 as [h h' new q s k d Ht Hf|auth up uuid ip now r h h' new q s k d Hu Hr Hf|h new q s k d Hf
    |msg h h' new q s k d Hr Hf|now msg b h q s s' k d Hr|msg h q1 q2 s k d|h q s s' k d Hs]; intros Hy; pose proof (rk_hub _ _ Hy) as Hok; simpl in Hok.
  - rewrite <-(union_empty_r_L k). eapply tracked_roster_ok; [done| |by apply hub_turn_tracked|done].
    by eapply hub_step_ok; [apply hub_turn_step|].
  - pose proof (ServeHTTP_ok _ _ _ _ _ _ _ _ Hr Hok) as Hok'. pose proof (rk_sids _ _ Hy) as Hsids. simpl in Hsids.
    apply ServeHTTP_spec in Hr as [->|(hl & sl & sess & Hhl & Hsl & Hsid & ->)].
    { assert (new = []) as -> by (apply (app_inv_head (followerC h)); by rewrite app_nil_r). by rewrite app_nil_r. }
    simpl in Hf. apply app_inv_head in Hf as <-.
    eapply roster_ok_hub; [exact Hy|done| |done|..]; simpl; rewrite ?dom_insert_L.
    + intros l sess' [[<- <-]|[_ Hl]]%lookup_insert_Some; [rewrite Hsid; apply Hu|by eapply Hsids].
    + unfold roster_after, roster_apply. simpl. rewrite lookup_total_insert_eq, Hsid. done.
    + unfold roster_after, roster_apply. simpl. rewrite lookup_total_insert_eq, Hsid. set_solver.
  - destruct (Online_state h) as (_ & Hs & Hh & Hf'). rewrite Hf in Hf'. apply app_inv_head in Hf' as ->.
    destruct (sync_batches_spec (length (shallowCopySessions h)) (shallowCopySessions h)) as [Hc _]; [done|].
    eapply roster_ok_hub; [exact Hy|by eapply hub_step_ok; [apply hs_online|]|rewrite Hs; apply (rk_sids _ _ Hy)|done|..];
      rewrite roster_after_sync, Hh by (rewrite Hc; intros; by apply shallowCopySessions_sids); set_solver.
  - eapply tracked_roster_ok; [done| |by apply Hub_Run_msg_tracked|done]. by eapply hub_step_ok; [by eapply hs_leader|].
  - apply Route_msg_known in Hr as [Hk _]. destruct Hy as [_ Hsids Hl Hup]. unfold will_know in *. simpl in *.
    rewrite <-Hk in *. by split.
  - destruct Hy as [_ Hsids Hl Hup]. unfold will_know in *. simpl in *. rewrite roster_after_app in Hl, Hup. simpl in *.
    pose proof (roster_after_mono q2 _ _ _ (roster_apply_opens (roster_after q1 (known hub s)) msg)) as Ho.
    pose proof (roster_after_mono q2 _ _ _ (roster_apply_ends (roster_after q1 (known hub s)) msg)) as He.
    split; simpl; [done|done|..]; unfold will_know; simpl; rewrite roster_after_app; set_solver.
  - apply other_step_known in Hs. destruct Hy as [_ Hsids Hl Hup]. split; simpl; [done|done|..]; unfold will_know in *; simpl in *.
    + etrans; [exact Hl|]. pose proof (roster_after_mono q (known hub s) (known hub s') (known hub s ∖ known hub s')) as Hm.
      assert (Hsplit : known hub s ⊆ known hub s' ∪ known hub s ∖ known hub s').
      { intros sid Hsid. destruct (decide (sid ∈ known hub s')); set_solver. }
      specialize (Hm Hsplit). set_solver.
    + etrans; [|exact Hup]. rewrite <-(union_empty_r_L (roster_after q (known hub s))). apply roster_after_mono. set_solver.
Qed.

Definition roster_init (conf : pb_WsConf) s : roster := Ro (hub_init conf) [] s ∅ ∅.

Lemma roster_reach_ok hub conf s y :
  known hub s = ∅ → rtc (roster_step hub) (roster_init conf s) y → roster_ok hub y.
Proof.
  intros Hk Hr.
  assert (Hgen : ∀ y1 y2, rtc (roster_step hub) y1 y2 → roster_ok hub y1 → roster_ok hub y2).
  { induction 1; eauto using roster_step_ok. }
  eapply Hgen; [exact Hr|]. split; simpl; [apply hub_init_ok|by intros ??; rewrite lookup_empty|..];
    unfold will_know, roster_after; simpl; rewrite ?Hk; set_solver.
Qed.

(** * Properties *)

End LeaderRoster.

(** * Examples *)

Section Examples.
#[local] Existing Instance canonical_range.
#[local] Existing Instance ex_json.
#[local] Existing Instance ex_writer.
#[local] Existing Instance ex_streams.

(** Two sessions of a hub "a" are reported; then the hub is told to kick off one. *)
Definition ro_server0 : pushServer (list string) := newPushServer (Some []) 2 1024.
Definition ro_msg (h : Hub) (n : nat) : pb_FollowerMsg pb_Session :=
  wire h (default FollowerMsg_zero (followerC h !! n)).
Definition ro_route (msg : pb_FollowerMsg pb_Session) (s : pushServer (list string)) : pushServer (list string) :=
  (ret_or (false, s) (Route_msg (λ _, 60%Z) "a" msg s)).2.
Definition ro_server1 : pushServer (list string) := ro_route (ro_msg ex_hub1 0) ro_server0.
Definition ro_server2 : pushServer (list string) := ro_route (ro_msg ex_hub2 1) ro_server1.
Definition ro_hub3 : Hub := hub_or ex_hub2 (Hub_Run_msg (LeaderMsg_of_Kickoff ["s1"]) ex_hub2).
Definition ex_roster : roster := Ro ro_hub3 [] ro_server2 (∅ ∪ list_to_set ["s1"]) ∅.

Lemma ex_two_reach : rtc (roster_step "a") (roster_init conf25 ro_server0) (Ro ex_hub2 [] ro_server2 ∅ ∅).
Proof.
  eapply rtc_l; [apply (ro_online _ _ []); vm_compute; reflexivity|]. fold ex_hub0.
  eapply rtc_l; [eapply (ro_serve _ (Some 7%Z) true "s1" "10.0.0.1" 100 _ ex_hub0 ex_hub1 [default FollowerMsg_zero (followerC ex_hub1 !! 0)])|].
  { apply unused_sid_dec_true; [done|]. vm_compute. reflexivity. }
  { reflexivity. }
  { vm_compute. reflexivity. }
  eapply rtc_l; [apply (ro_report _ (λ _, 60%Z) (ro_msg ex_hub1 0) false _ [] ro_server0 ro_server1); vm_compute; reflexivity|].
  eapply rtc_l; [eapply (ro_serve _ (Some 8%Z) true "s2" "10.0.0.2" 101 _ ex_hub1 ex_hub2 [default FollowerMsg_zero (followerC ex_hub2 !! 1)])|].
  { apply unused_sid_dec_true; [done|]. vm_compute. reflexivity. }
  { reflexivity. }
  { vm_compute. reflexivity. }
  eapply rtc_l; [apply (ro_report _ (λ _, 60%Z) (ro_msg ex_hub2 1) false _ [] ro_server1 ro_server2); vm_compute; reflexivity|].
  apply rtc_refl.
Qed.

Lemma ex_roster_reach : rtc (roster_step "a") (roster_init conf25 ro_server0) ex_roster.
Proof.
  etrans; [apply ex_two_reach|]. apply rtc_once.
  apply (ro_leader _ (LeaderMsg_of_Kickoff ["s1"]) ex_hub2 ro_hub3 [] []); vm_compute; reflexivity.
Qed.

(** The browser of "s1" leaves and [SendMsg] fails once: the leader goes on
    counting the session. *)
Lemma lost_report_stays :
  ∃ y, rtc (roster_step "a") (roster_init conf25 ro_server0) y ∧ ro_queue y = [] ∧
    elements (dom (handlers (ro_hub y))) = ["s2"] ∧ elements (known "a" (ro_server y)) = ["s1"; "s2"].
Proof.
  set (h := peer_close 1 ex_hub2). set (msg := wire h (FollowerMsg_of_Offline "s1")).
  exists (Ro h [] ro_server2 (∅ ∪ ends msg) (∅ ∪ opens msg)). split_and!; [|done|vm_compute; reflexivity..].
  etrans; [apply ex_two_reach|]. eapply rtc_l.
  - eapply (ro_turn _ ex_hub2 h [FollowerMsg_of_Offline "s1"]); [eapply (ht_peer 1)|]; vm_compute; reflexivity.
  - apply rtc_once. apply (ro_lost _ msg h [] []).
Qed.

End Examples.
