(* ===== verification/Keepalive.v ===== *)
(** The keep-alive of a websocket session: the timing constants of
    [ws/handler.go], the read deadline that [recvLoop] sets and its pong handler
    moves, and the ping ticker of [sendLoop].

    Time is in nanoseconds, as in [time.Duration].  The two goroutines start at
    their own instants; the sender needs some time to take a tick, and a pong is
    handled some time after its ping was written (the way to the browser and back
    and the time [recvLoop] is busy, since the handler runs inside
    [ReadMessage]). *)

From Stdlib Require Import ZArith Lia.
From stdpp Require Import base option list numbers gmap strings.
From S2P Require Import Prelude Hub.

Local Open Scope Z_scope.

(** * The constants *)

Definition second : Z := 1000000000.
Definition writeWait : Z := 3 * second.
Definition pingPeriod : Z := 20 * second.
Definition pongWait : Z := 25 * second.
Definition readLimit : Z := 4096.

(** * The connection *)

Record keepalive := {
  ka_now : Z;
  ka_deadline : Z;          (* [SetReadDeadline] *)
  ka_next_ping : Z;         (* the next tick of [pingTicker] *)
  ka_unanswered : list Z    (* when the pings without a pong were written *)
}.

(** [recvLoop] sets the deadline at [tr]; [sendLoop] makes its ticker at [ts]. *)
Definition ka_start (tr ts : Z) : keepalive := {|
  ka_now := Z.max tr ts; ka_deadline := tr + pongWait; ka_next_ping := ts + pingPeriod; ka_unanswered := [] |}.

Inductive ka_event :=
| KaWait (d : Z)   (* time passes *)
| KaPing           (* the sender takes a tick and writes a ping *)
| KaPong           (* [ReadMessage] runs the pong handler *)
| KaText.          (* [ReadMessage] returns a message *)

Definition ka_advance (d : Z) (k : keepalive) : keepalive := {|
  ka_now := ka_now k + d; ka_deadline := ka_deadline k; ka_next_ping := ka_next_ping k; ka_unanswered := ka_unanswered k |}.

Definition ka_ping (k : keepalive) : keepalive := {|
  ka_now := ka_now k; ka_deadline := ka_deadline k; ka_next_ping := ka_next_ping k + pingPeriod;
  ka_unanswered := ka_unanswered k ++ [ka_now k] |}.

(** [h.conn.SetReadDeadline(time.Now().Add(pongWait))] *)
Definition ka_pong (rest : list Z) (k : keepalive) : keepalive := {|
  ka_now := ka_now k; ka_deadline := ka_now k + pongWait; ka_next_ping := ka_next_ping k; ka_unanswered := rest |}.

(** A read from the connection fails from the deadline on. *)
Definition ka_expired (k : keepalive) : bool := bool_decide (ka_deadline k ≤ ka_now k).

(** The bytes of a message. *)
Definition frame_size (f : ws_read) : Z :=
  match f with Frame _ payload => Z.of_nat (String.length payload) | ReadFailed => 0 end.

(** What [ReadMessage] returns when the next frame is [f]: [SetReadLimit] makes a
    longer message an error. *)
Definition ka_read (f : ws_read) (k : keepalive) : ws_read :=
  if ka_expired k then ReadFailed
  else if bool_decide (readLimit < frame_size f) then ReadFailed
  else f.

(** One event; [None] when it cannot happen now. *)
Definition ka_step (ev : ka_event) (k : keepalive) : option keepalive :=
  match ev with
  | KaWait d => if bool_decide (0 ≤ d) then Some (ka_advance d k) else None
  | KaPing => if bool_decide (ka_next_ping k ≤ ka_now k) then Some (ka_ping k) else None
  | KaPong =>
      match ka_unanswered k with
      | _ :: rest => if ka_expired k then None else Some (ka_pong rest k)
      | [] => None
      end
  | KaText => if ka_expired k then None else Some k
  end.

(** The sender takes a tick within [delta], a pong is handled within [rho]. *)
Definition ka_timely (delta rho : Z) (k : keepalive) : bool :=
  bool_decide (ka_now k ≤ ka_next_ping k + delta) &&
  forallb (λ p, bool_decide (ka_now k ≤ p + rho)) (ka_unanswered k).

(** The states along a run all satisfy [p]. *)
Fixpoint ka_run (p : keepalive → bool) (evs : list ka_event) (k : keepalive) : option keepalive :=
  if p k then
    match evs with
    | [] => Some k
    | ev :: rest => ka_step ev k ≫= ka_run p rest
    end
  else None.

(** * Lemmas *)

Section Invariant.
Context (sigma delta rho : Z) (Hs : 0 ≤ sigma) (Hd : 0 ≤ delta) (Hr : 0 ≤ rho).

(** The next pong comes soon enough after the last one. *)
Record ka_ok (k : keepalive) : Prop := {
  ko_tick : ka_next_ping k ≤ ka_now k + pingPeriod;
  ko_past : Forall (λ p, p ≤ ka_now k) (ka_unanswered k);
  ko_due : match ka_unanswered k with
           | [] => ka_next_ping k + pongWait ≤ ka_deadline k + pingPeriod + sigma
           | p :: _ => p + pongWait ≤ ka_deadline k + pingPeriod + sigma + delta
           end
}.

Lemma ka_timely_spec k :
  ka_timely delta rho k = true →
  ka_now k ≤ ka_next_ping k + delta ∧ Forall (λ p, ka_now k ≤ p + rho) (ka_unanswered k).
Proof.
  unfold ka_timely. intros [H1%bool_decide_eq_true H2]%andb_true_iff. split; [done|].
  rewrite forallb_forall in H2. apply Forall_forall. intros p Hp. apply (bool_decide_eq_true_1 _), H2.
  by apply list_elem_of_In.
Qed.

Lemma ka_step_ok ev k k' :
  ka_ok k → ka_timely delta rho k = true → ka_step ev k = Some k' → ka_ok k'.
Proof.
  intros [Ht Hp Hdue] [Htick Hansw]%ka_timely_spec. destruct ev as [d| | |]; simpl.
  - case_bool_decide; [|done]. intros [= <-]. split; simpl; [lia| |done].
    eapply Forall_impl; [exact Hp|]. simpl. lia.
  - case_bool_decide; [|done]. intros [= <-]. split; simpl; [lia| |].
    + apply Forall_app. split; [done|]. by constructor.
    + destruct (ka_unanswered k); simpl; [lia|done].
  - destruct (ka_unanswered k) as [|p rest] eqn:Hu; [done|]. destruct (ka_expired k); [done|]. intros [= <-].
    apply Forall_cons in Hp as [_ Hp]. split; simpl; [done|done|].
    destruct rest as [|p' rest]; [lia|]. apply Forall_cons in Hp as [Hp _]. unfold pingPeriod, second. lia.
  - destruct (ka_expired k); [done|]. by intros [= <-].
Qed.

Lemma ka_run_ok evs k k' : ka_ok k → ka_run (ka_timely delta rho) evs k = Some k' → ka_ok k' ∧ ka_timely delta rho k' = true.
Proof.
  revert k. induction evs as [|ev evs IH]; intros k Hk; simpl; (destruct (ka_timely delta rho k) eqn:Ht; [|done]).
  - by intros [= <-].
  - intros (k1 & Hk1 & Hrun)%bind_Some. eapply IH; [by eapply ka_step_ok|done].
Qed.

(** In time, with room to spare between two pongs. *)
Lemma ka_ok_alive k :
  sigma + delta + rho < pongWait - pingPeriod → ka_ok k → ka_timely delta rho k = true → ka_expired k = false.
Proof.
  intros Hlt [_ _ Hdue] [Htick Hansw]%ka_timely_spec. apply bool_decide_eq_false_2.
  destruct (ka_unanswered k) as [|p rest]; [lia|]. apply Forall_cons in Hansw as [Hp _]. lia.
Qed.
End Invariant.

(** Only a pong moves the deadline. *)
Lemma ka_run_silent p evs k k' :
  KaPong ∉ evs → ka_run p evs k = Some k' → ka_deadline k' = ka_deadline k.
Proof.
  revert k. induction evs as [|ev evs IH]; intros k Hn; simpl; (destruct (p k); [|done]); [by intros [= <-]|].
  apply not_elem_of_cons in Hn as [Hne Hn]. intros (k1 & Hk1 & Hrun)%bind_Some.
  rewrite (IH k1 Hn Hrun). destruct ev as [d| | |]; simpl in Hk1; [..|done|];
    [case_bool_decide|case_bool_decide|destruct (ka_expired k)]; by simplify_eq.
Qed.

(** * Properties *)


(** * Examples *)

(** Pings every 20 s, one of them late by a write that takes as long as it may;
    each is answered after 1 s. *)
Definition ex_minute : list ka_event :=
  [KaWait (20 * second); KaPing; KaWait second; KaPong; KaText;
   KaWait (19 * second + writeWait); KaPing; KaWait second; KaPong;
   KaWait (16 * second); KaPing; KaWait second; KaPong].

Definition ex_kept : option keepalive := ka_run (ka_timely writeWait second) ex_minute (ka_start 0 0).


(** A round trip of 5 s is too long: the first pong comes at the deadline. *)
Lemma ex_too_slow :
  ka_run (λ _, true) [KaWait (20 * second); KaPing; KaWait (5 * second); KaPong] (ka_start 0 0) = None.
Proof. vm_compute. reflexivity. Qed.
