(* ===== verification/GoLib.v ===== *)
(** The parts of Go's standard library that the start-up code, the mock
    authentication and the access log of the hub use: [strconv.Atoi],
    [strconv.ParseInt], [strconv.Itoa], [net.SplitHostPort], [net.ParseIP],
    [IP.IsLoopback] and [IP.IsPrivate].

    A Go string is a [string] of bytes; a slice expression on it is a [take] or
    [drop] on its list of bytes. *)

From Stdlib Require Import Ascii ZArith Lia.
From Stdlib.Strings Require String.
From stdpp Require Import base option list numbers strings pretty.
From S2P Require Import Prelude.

Local Open Scope Z_scope.

(** * Bytes *)

Abbreviation bytes := (list ascii) (only parsing).
Abbreviation to_bytes := Stdlib.Strings.String.list_ascii_of_string.
Abbreviation of_bytes := Stdlib.Strings.String.string_of_list_ascii.

Definition digit (c : ascii) : option Z :=
  let n := Z.of_nat (nat_of_ascii c) in
  if bool_decide (48 ≤ n ≤ 57) then Some (n - 48) else None.

Definition xdigit (c : ascii) : option Z :=
  let n := Z.of_nat (nat_of_ascii c) in
  if bool_decide (48 ≤ n ≤ 57) then Some (n - 48)
  else if bool_decide (97 ≤ n ≤ 102) then Some (n - 97 + 10)
  else if bool_decide (65 ≤ n ≤ 70) then Some (n - 65 + 10)
  else None.

(** [bytealg.IndexByteString] *)
Fixpoint index_byte (c : ascii) (s : bytes) : option nat :=
  match s with
  | [] => None
  | x :: s => if decide (x = c) then Some 0%nat else S <$> index_byte c s
  end.

(** [net.last]: the last index of a byte. *)
Definition last_byte (c : ascii) (s : bytes) : option nat :=
  (λ i, (length s - 1 - i)%nat) <$> index_byte c (reverse s).

(** * strconv *)

(** The digits of an unsigned decimal number; [None] on any other byte. *)
Fixpoint decimal (acc : Z) (s : bytes) : option Z :=
  match s with
  | [] => Some acc
  | c :: s => match digit c with Some d => decimal (acc * 10 + d) s | None => None end
  end.

(** [strconv.ParseInt(s, 10, bits)]; [None] is an error, of syntax or range. *)
Definition ParseInt (bits : Z) (s : string) : option Z :=
  let parse (neg : bool) (ds : bytes) :=
    if bool_decide (ds = []) then None
    else match decimal 0 ds with
         | None => None
         | Some un =>
             if neg then if bool_decide (un ≤ 2 ^ (bits - 1)) then Some (- un) else None
             else if bool_decide (un < 2 ^ (bits - 1)) then Some un else None
         end in
  match to_bytes s with
  | "+"%char :: ds => parse false ds
  | "-"%char :: ds => parse true ds
  | ds => parse false ds
  end.

(** [strconv.Atoi] and [strconv.Itoa], on a platform with 64-bit [int] *)
Definition Atoi : string → option Z := ParseInt 64.
Definition Itoa (z : Z) : string := pretty z.

(** * net *)

Definition IPv4len : nat := 4.
Definition IPv6len : nat := 16.

(** [dtoi] and [xtoi]: the value of the leading digits and how many bytes they
    take; [None] when there is none or the value reaches [0xFFFFFF]. *)
Fixpoint ntoi_go (dig : ascii → option Z) (base n : Z) (i : nat) (s : bytes) : option (Z * nat) :=
  match s with
  | [] => Some (n, i)
  | c :: s' =>
      match dig c with
      | None => Some (n, i)
      | Some d =>
          let n := n * base + d in
          if bool_decide (16777215 ≤ n) then None else ntoi_go dig base n (S i) s'
      end
  end.

Definition ntoi (dig : ascii → option Z) (base : Z) (s : bytes) : option (Z * nat) :=
  match ntoi_go dig base 0 0 s with
  | Some (_, O) | None => None
  | Some r => Some r
  end.

Definition dtoi : bytes → option (Z * nat) := ntoi digit 10.
Definition xtoi : bytes → option (Z * nat) := ntoi xdigit 16.

(** [parseIPv4]: the four octets. [k] octets are still to be read. *)
Fixpoint parseIPv4_go (k : nat) (first : bool) (s : bytes) : option (list Z) :=
  match k with
  | O => if bool_decide (s = []) then Some [] else None
  | S k =>
      match (if first then Some s
             else match s with "."%char :: s => Some s | _ => None end) with
      | None => None
      | Some s =>
          match dtoi s with
          | None => None
          | Some (n, c) =>
              if bool_decide (255 < n) then None
              else if bool_decide ((1 < c)%nat ∧ head s = Some "0"%char) then None
              else (λ p, n :: p) <$> parseIPv4_go k false (drop c s)
          end
      end
  end.

Definition parseIPv4 (s : bytes) : option (list Z) :=
  if bool_decide (s = []) then None else parseIPv4_go IPv4len true s.

(** [IPv4(a, b, c, d)]: the 16-byte form. *)
Definition IPv4 (p : list Z) : list Z := replicate 10 0 ++ [255; 255] ++ p.

(** The loop of [parseIPv6]: [ip] holds the bytes written so far, so that the
    index [i] of the source is its length. Every round writes two bytes or ends
    the loop, so eight rounds are enough. The result is what is left of the
    string, the bytes and the position of the ellipsis. *)
Fixpoint parseIPv6_loop (fuel : nat) (s : bytes) (ip : list Z) (ellipsis : option nat) :
    option (bytes * list Z * option nat) :=
  match fuel with
  | O => Some (s, ip, ellipsis)
  | S fuel =>
      match xtoi s with
      | None => None
      | Some (n, c) =>
          if bool_decide (65535 < n) then None
          else if bool_decide (s !! c = Some "."%char) then
            if bool_decide (ellipsis = None ∧ length ip ≠ (IPv6len - IPv4len)%nat) then None
            else if bool_decide (IPv6len < length ip + IPv4len)%nat then None
            else match parseIPv4 s with
                 | None => None
                 | Some p => Some ([], ip ++ p, ellipsis)
                 end
          else
            let ip := ip ++ [Z.shiftr n 8; Z.land n 255] in
            match drop c s with
            | [] => Some ([], ip, ellipsis)
            | ":"%char :: (x :: rest) as s =>
                if decide (x = ":"%char) then
                  match ellipsis with
                  | Some _ => None
                  | None =>
                      if bool_decide (rest = []) then Some ([], ip, Some (length ip))
                      else parseIPv6_loop fuel rest ip (Some (length ip))
                  end
                else parseIPv6_loop fuel (x :: rest) ip ellipsis
            | _ => None
            end
      end
  end.

Definition parseIPv6 (s : bytes) : option (list Z) :=
  let finish (r : option (bytes * list Z * option nat)) : option (list Z) :=
    match r with
    | None => None
    | Some (s, ip, ellipsis) =>
        if bool_decide (s ≠ []) then None
        else if bool_decide (length ip < IPv6len)%nat then
          match ellipsis with
          | None => None
          | Some e => Some (take e ip ++ replicate (IPv6len - length ip) 0 ++ drop e ip)
          end
        else match ellipsis with Some _ => None | None => Some ip end
    end in
  match s with
  | ":"%char :: ":"%char :: [] => Some (replicate IPv6len 0)
  | ":"%char :: ":"%char :: s => finish (parseIPv6_loop 8 s [] (Some 0%nat))
  | _ => finish (parseIPv6_loop 8 s [] None)
  end.

(** [net.ParseIP]: the first dot or colon decides the family. *)
Definition ParseIP (str : string) : option (list Z) :=
  let s := to_bytes str in
  match list_find (λ c, c = "."%char ∨ c = ":"%char) s with
  | Some (_, "."%char) => IPv4 <$> parseIPv4 s
  | Some _ => parseIPv6 s
  | None => None
  end.

(** [IP.To4] of a 16-byte address *)
Definition To4 (ip : list Z) : option (list Z) :=
  if bool_decide (take 12 ip = replicate 10 0 ++ [255; 255]) then Some (drop 12 ip) else None.

Definition IsLoopback (ip : list Z) : bool :=
  match To4 ip with
  | Some ip4 => bool_decide (head ip4 = Some 127)
  | None => bool_decide (ip = replicate 15 0 ++ [1])
  end.

Definition IsPrivate (ip : list Z) : bool :=
  match To4 ip with
  | Some ip4 =>
      match ip4 with
      | a :: b :: _ =>
          bool_decide (a = 10) || bool_decide (a = 172 ∧ Z.land b 240 = 16) || bool_decide (a = 192 ∧ b = 168)
      | _ => false
      end
  | None => match ip with a :: _ => bool_decide (Z.land a 254 = 252) | [] => false end
  end.

(** [net.SplitHostPort] *)
Definition SplitHostPort (hostport : string) : result string (string * string) :=
  let hp := to_bytes hostport in
  let missingPort := "missing port in address" in
  let tooManyColons := "too many colons in address" in
  let finish (host : bytes) (i j k : nat) :=
    if bool_decide ("["%char ∈ drop j hp) then Err "unexpected '[' in address"
    else if bool_decide ("]"%char ∈ drop k hp) then Err "unexpected ']' in address"
    else Ok (of_bytes host, of_bytes (drop (S i) hp)) in
  match last_byte ":" hp with
  | None => Err missingPort
  | Some i =>
      if bool_decide (head hp = Some "["%char) then
        match index_byte "]" hp with
        | None => Err "missing ']' in address"
        | Some stop =>
            if bool_decide (S stop = length hp) then Err missingPort
            else if bool_decide (S stop = i) then finish (drop 1 (take stop hp)) i 1%nat (S stop)
            else if bool_decide (hp !! S stop = Some ":"%char) then Err tooManyColons
            else Err missingPort
        end
      else
        let host := take i hp in
        if bool_decide (":"%char ∈ host) then Err tooManyColons else finish host i 0%nat 0%nat
  end.

(** * Lemmas *)

Lemma digit_pretty_N_char (n : N) : (n < 10)%N → digit (pretty_N_char n) = Some (Z.of_N n).
Proof.
  intros Hn. assert (Hc : n = 0%N ∨ n = 1%N ∨ n = 2%N ∨ n = 3%N ∨ n = 4%N ∨ n = 5%N ∨ n = 6%N ∨
    n = 7%N ∨ n = 8%N ∨ n = 9%N) by lia.
  destruct_or! Hc; subst; vm_compute; reflexivity.
Qed.

(** The digits that [pretty_N_go] puts in front of a suffix are read back as the
    number, before the suffix is. *)
Lemma decimal_pretty_N_go (x : N) s acc :
  (0 < x)%N → ∃ k, decimal acc (to_bytes (pretty_N_go x s)) =
    decimal (acc * 10 ^ Z.of_nat k + Z.of_N x) (to_bytes s).
Proof.
  revert s acc. induction (N.lt_wf_0 x) as [x _ IH]. intros s acc Hx.
  rewrite pretty_N_go_step by done.
  assert (Hm : digit (pretty_N_char (x `mod` 10)) = Some (Z.of_N x mod 10)).
  { rewrite digit_pretty_N_char by (apply N.mod_lt; lia). by rewrite N2Z.inj_mod. }
  destruct (decide (x `div` 10 = 0)%N) as [E|E].
  - exists 1%nat. rewrite E, pretty_N_go_0. simpl. rewrite Hm. f_equal.
    assert (x < 10)%N by (apply N.div_small_iff; [lia|done]). rewrite Z.mod_small by lia. lia.
  - destruct (IH (x `div` 10)%N) with (s := String (pretty_N_char (x `mod` 10)) s) (acc := acc) as [k Hk];
      [apply N.div_lt; lia|apply N.neq_0_lt_0, E|].
    exists (S k). rewrite Hk. simpl. rewrite Hm. f_equal.
    rewrite N2Z.inj_div, Nat2Z.inj_succ, Z.pow_succ_r by lia. simpl.
    pose proof (Z.div_mod (Z.of_N x) 10). lia.
Qed.

Lemma decimal_pretty_pos (p : positive) :
  decimal 0 (to_bytes (pretty p)) = Some (Zpos p).
Proof.
  change (pretty p) with (pretty (Npos p)). unfold pretty, pretty_N. rewrite decide_False by done.
  destruct (decimal_pretty_N_go (Npos p) "" 0) as [k ->]; [lia|]. simpl. f_equal; lia.
Qed.

(** The first byte of a non-negative number is a digit, so [ParseInt] sees no sign. *)
Lemma decimal_head acc c s v : decimal acc (c :: s) = Some v → digit c ≠ None.
Proof. simpl. by destruct (digit c). Qed.

Lemma ParseInt_digits bits ds v :
  ds ≠ [] → decimal 0 ds = Some v → 0 ≤ v < 2 ^ (bits - 1) →
  ParseInt bits (of_bytes ds) = Some v.
Proof.
  intros Hne Hd Hv. unfold ParseInt. rewrite Stdlib.Strings.String.list_ascii_of_string_of_list_ascii.
  destruct ds as [|c ds]; [done|]. pose proof (decimal_head _ _ _ _ Hd) as Hc.
  assert (Hgo : (if bool_decide (c :: ds = []) then None else
    match decimal 0 (c :: ds) with
    | Some un => if bool_decide (un < 2 ^ (bits - 1)) then Some un else None
    | None => None
    end) = Some v).
  { rewrite bool_decide_eq_false_2, Hd, bool_decide_eq_true_2 by (done || lia). done. }
  destruct (decide (c = "+"%char)) as [->|]; [by vm_compute in Hc|].
  destruct (decide (c = "-"%char)) as [->|]; [by vm_compute in Hc|].
  destruct c as [[] [] [] [] [] [] [] []]; try exact Hgo; exfalso; congruence.
Qed.

(** [Atoi(Itoa(z))] is [z] for every [int]. *)
Lemma Atoi_Itoa z : in_int64 z → Atoi (Itoa z) = Some z.
Proof.
  unfold in_int64, Atoi, Itoa. intros Hz. destruct z as [|p|p]; [done| |].
  - change (pretty (Zpos p)) with (pretty p).
    rewrite <-(Stdlib.Strings.String.string_of_list_ascii_of_string (pretty p)).
    apply ParseInt_digits; [|by apply decimal_pretty_pos|simpl; lia].
    intros Hn. pose proof (decimal_pretty_pos p) as Hd. rewrite Hn in Hd. done.
  - change (pretty (Zneg p)) with ("-" +:+ pretty p). unfold ParseInt. simpl. change ("" +:+ pretty p) with (pretty p).
    rewrite decimal_pretty_pos. rewrite bool_decide_eq_false_2, bool_decide_eq_true_2; [done|lia|].
    intros Hn. pose proof (decimal_pretty_pos p) as Hd. rewrite Hn in Hd. done.
Qed.

Lemma decimal_nonneg acc s v : 0 ≤ acc → decimal acc s = Some v → 0 ≤ v.
Proof.
  revert acc. induction s as [|c s IH]; intros acc Ha; simpl; [by intros [= <-]|].
  unfold digit. case_bool_decide; [|done]. apply IH. lia.
Qed.

(** Every number that [ParseInt] returns fits in the requested width. *)
Lemma ParseInt_range bits s v :
  0 < bits → ParseInt bits s = Some v → - 2 ^ (bits - 1) ≤ v < 2 ^ (bits - 1).
Proof.
  intros Hb. pose proof (Z.pow_pos_nonneg 2 (bits - 1)) as Hpow.
  assert (Hparse : ∀ neg ds, (if bool_decide (ds = []) then None
    else match decimal 0 ds with
         | None => None
         | Some un =>
             if neg : bool then if bool_decide (un ≤ 2 ^ (bits - 1)) then Some (- un) else None
             else if bool_decide (un < 2 ^ (bits - 1)) then Some un else None
         end) = Some v → - 2 ^ (bits - 1) ≤ v < 2 ^ (bits - 1)).
  { intros neg ds. case_bool_decide; [done|].
    destruct (decimal 0 ds) as [un|] eqn:E; [|done]. apply decimal_nonneg in E; [|done].
    destruct neg; case_bool_decide; intros [= <-]; lia. }
  unfold ParseInt. intros Hp. destruct (to_bytes s) as [|c ds]; [done|].
  destruct (decide (c = "+"%char)) as [->|]; [by apply (Hparse false ds)|].
  destruct (decide (c = "-"%char)) as [->|]; [by apply (Hparse true ds)|].
  apply (Hparse false (c :: ds)). by destruct c as [[] [] [] [] [] [] [] []].
Qed.

(** * Examples *)

Example ParseIP_examples :
  ParseIP "127.0.0.1" = Some (IPv4 [127; 0; 0; 1]) ∧
  ParseIP "127.0.0.01" = None ∧ ParseIP "127.0.0" = None ∧ ParseIP "300.1.1.1" = None ∧
  ParseIP "::1" = Some (replicate 15 0 ++ [1]) ∧
  ParseIP "::ffff:10.1.2.3" = Some (IPv4 [10; 1; 2; 3]) ∧
  ParseIP "fd00::12:0" = Some ([253; 0] ++ replicate 10 0 ++ [0; 18; 0; 0]) ∧
  ParseIP "1::2::3" = None ∧ ParseIP "localhost" = None ∧
  ParseIP "1:2:3:4:5:6:7:8" = Some [0; 1; 0; 2; 0; 3; 0; 4; 0; 5; 0; 6; 0; 7; 0; 8] ∧
  ParseIP "1:2:3:4:5:6:7:8:9" = None.
Proof. vm_compute. split_and!; reflexivity. Qed.

Example SplitHostPort_examples :
  SplitHostPort "127.0.0.1:8000" = Ok ("127.0.0.1", "8000") ∧
  SplitHostPort "[::1]:80" = Ok ("::1", "80") ∧
  SplitHostPort "::1:80" = Err "too many colons in address" ∧
  SplitHostPort "localhost" = Err "missing port in address" ∧
  SplitHostPort "[::1]" = Err "missing port in address" ∧
  SplitHostPort ":" = Ok ("", "").
Proof. vm_compute. split_and!; reflexivity. Qed.

Example ParseInt_examples :
  ParseInt 32 "2147483647" = Some 2147483647 ∧ ParseInt 32 "2147483648" = None ∧
  ParseInt 32 "-2147483648" = Some (-2147483648) ∧ ParseInt 32 "+7" = Some 7 ∧
  ParseInt 32 "" = None ∧ ParseInt 32 "-" = None ∧ ParseInt 32 "1_0" = None.
Proof. vm_compute. split_and!; reflexivity. Qed.
