(* ===== verification/Json.v ===== *)
(** [encoding/json] as the program uses it: [json.Marshal] of a [pb.E2EMsg] and
    [json.Unmarshal] into a [pb.E2EMsg] or a [pb.ClientMsg].

    The package first checks the syntax of the whole input; the model parses it
    into a value of type [json] and then stores that value in the Go structure.
    Strings are byte sequences, with the package's treatment of invalid UTF-8.
    The limit of 10000 on the nesting depth is left out: both callers read at
    most 4096 bytes. *)

From Stdlib Require Import Ascii ZArith NArith Lia.
From stdpp Require Import base option list numbers gmap strings pretty sorting.
From S2P Require Import Prelude Proto GoLib.

Local Open Scope N_scope.

(** * UTF-8 *)

Definition code (c : ascii) : N := N_of_ascii c.
Definition chr (n : N) : ascii := ascii_of_N n.
Definition within (lo hi : N) (c : ascii) : bool := (lo <=? code c) && (code c <=? hi).
Definition eqc (n : N) (c : ascii) : bool := code c =? n.

(** A continuation byte. *)
Definition cont : ascii → bool := within 128 191.

(** The number of bytes of the rune that the input starts with, 0 when they are
    not a valid encoding ([utf8.DecodeRune] returns [RuneError] and width 1). *)
Definition rune_size (s : list ascii) : nat :=
  match s with
  | [] => 0%nat
  | c1 :: t =>
      if code c1 <? 128 then 1%nat
      else match t with
      | [] => 0%nat
      | c2 :: t =>
          if within 194 223 c1 then if cont c2 then 2%nat else 0%nat
          else match t with
          | [] => 0%nat
          | c3 :: t =>
              if (eqc 224 c1 && within 160 191 c2) || (within 225 236 c1 && cont c2) ||
                 (eqc 237 c1 && within 128 159 c2) || (within 238 239 c1 && cont c2)
              then if cont c3 then 3%nat else 0%nat
              else match t with
              | [] => 0%nat
              | c4 :: _ =>
                  if ((eqc 240 c1 && within 144 191 c2) || (within 241 243 c1 && cont c2) ||
                      (eqc 244 c1 && within 128 143 c2)) && cont c3 && cont c4
                  then 4%nat else 0%nat
              end
          end
      end
  end.

(** [utf8.EncodeRune] of a code point that is not a surrogate. *)
Definition encode_rune (r : N) : list ascii :=
  if r <? 128 then [chr r]
  else if r <? 2048 then [chr (192 + r / 64); chr (128 + r mod 64)]
  else if r <? 65536 then [chr (224 + r / 4096); chr (128 + r / 64 mod 64); chr (128 + r mod 64)]
  else [chr (240 + r / 262144); chr (128 + r / 4096 mod 64); chr (128 + r / 64 mod 64); chr (128 + r mod 64)].

(** [utf8.RuneError], U+FFFD *)
Definition rune_error : list ascii := encode_rune 65533.

(** The runes of a string; [None] for a byte that is not part of one. *)
Fixpoint runes (fuel : nat) (s : list ascii) : list (option (list ascii)) :=
  match fuel, s with
  | O, _ | _, [] => []
  | S fuel, _ :: t =>
      match rune_size s with
      | O => None :: runes fuel t
      | n => Some (take n s) :: runes fuel (drop n s)
      end
  end.

(** * Values *)

Unset Elimination Schemes.
Inductive json :=
| JNull
| JBool (b : bool)
| JNum (literal : list ascii)
| JStr (s : list ascii)
| JArr (l : list json)
| JObj (l : list (list ascii * json)).
Set Elimination Schemes.

Section JsonInd.
Variable P : json → Prop.
Hypothesis Pnull : P JNull.
Hypothesis Pbool : ∀ b, P (JBool b).
Hypothesis Pnum : ∀ l, P (JNum l).
Hypothesis Pstr : ∀ s, P (JStr s).
Hypothesis Parr : ∀ l, Forall P l → P (JArr l).
Hypothesis Pobj : ∀ l, Forall (λ kv, P kv.2) l → P (JObj l).

Fixpoint json_ind (j : json) : P j :=
  match j with
  | JNull => Pnull
  | JBool b => Pbool b
  | JNum l => Pnum l
  | JStr s => Pstr s
  | JArr l => Parr l ((fix go l : Forall P l :=
      match l with [] => Forall_nil_2 _ | x :: l => Forall_cons_2 _ _ _ (json_ind x) (go l) end) l)
  | JObj l => Pobj l ((fix go l : Forall (λ kv, P kv.2) l :=
      match l with [] => Forall_nil_2 _ | x :: l => Forall_cons_2 _ _ _ (json_ind x.2) (go l) end) l)
  end.
End JsonInd.

(** * Printing *)

Definition quote : ascii := chr 34.
Definition backslash : ascii := chr 92.

Definition hex (n : N) : ascii := if n <? 10 then chr (48 + n) else chr (87 + n).

(** One rune inside a string literal, with [escapeHTML] set. *)
Definition escape (r : option (list ascii)) : list ascii :=
  match r with
  | None => [backslash; "u"; "f"; "f"; "f"; "d"]%char
  | Some [c] =>
      if eqc 34 c || eqc 92 c then [backslash; c]
      else if eqc 10 c then [backslash; "n"%char]
      else if eqc 13 c then [backslash; "r"%char]
      else if eqc 9 c then [backslash; "t"%char]
      else if (code c <? 32) || eqc 60 c || eqc 62 c || eqc 38 c
      then [backslash; "u"; "0"; "0"]%char ++ [hex (code c / 16); hex (code c mod 16)]
      else [c]
  | Some rune =>
      if bool_decide (rune = encode_rune 8232) then [backslash; "u"; "2"; "0"; "2"; "8"]%char
      else if bool_decide (rune = encode_rune 8233) then [backslash; "u"; "2"; "0"; "2"; "9"]%char
      else rune
  end.

Definition print_string (s : list ascii) : list ascii :=
  quote :: concat (escape <$> runes (length s) s) ++ [quote].

Fixpoint commas (l : list (list ascii)) : list ascii :=
  match l with
  | [] => []
  | [x] => x
  | x :: l => x ++ ","%char :: commas l
  end.

Fixpoint print (j : json) : list ascii :=
  match j with
  | JNull => to_bytes "null"
  | JBool b => to_bytes (if b then "true" else "false")
  | JNum l => l
  | JStr s => print_string s
  | JArr l => "["%char :: commas (map print l) ++ ["]"%char]
  | JObj l => "{"%char :: commas (map (λ kv, print_string (fst kv) ++ ":"%char :: print (snd kv)) l) ++ ["}"%char]
  end.

(** * Parsing *)

Fixpoint skip_ws (s : list ascii) : list ascii :=
  match s with
  | c :: t => if eqc 32 c || eqc 9 c || eqc 10 c || eqc 13 c then skip_ws t else s
  | [] => []
  end.

Definition hex_value (c : ascii) : option N := Z.to_N <$> xdigit c.

Definition hex4 (s : list ascii) : option (N * list ascii) :=
  match s with
  | a :: b :: c :: d :: t =>
      match hex_value a, hex_value b, hex_value c, hex_value d with
      | Some a, Some b, Some c, Some d => Some (a * 4096 + b * 256 + c * 16 + d, t)
      | _, _, _, _ => None
      end
  | _ => None
  end.

(** The rune of a [\uXXXX] escape whose value is [r], and the rest of the input:
    a surrogate must be followed by the other half, or it stands for U+FFFD. *)
Definition escaped_rune (r : N) (t : list ascii) : list ascii * list ascii :=
  if (55296 <=? r) && (r <? 57344) then
    match (if r <? 56320 then
             match t with
             | c :: d :: t =>
                 if eqc 92 c && eqc 117 d then
                   match hex4 t with
                   | Some (r2, t) =>
                       if (56320 <=? r2) && (r2 <? 57344)
                       then Some (encode_rune (65536 + (r - 55296) * 1024 + (r2 - 56320)), t)
                       else None
                   | None => None
                   end
                 else None
             | _ => None
             end
           else None) with
    | Some rt => rt
    | None => (rune_error, t)
    end
  else (encode_rune r, t).

(** The byte that a one-letter escape stands for. *)
Definition simple_escape (c : ascii) : option ascii :=
  if eqc 34 c || eqc 92 c || eqc 47 c then Some c
  else if eqc 98 c then Some (chr 8)
  else if eqc 102 c then Some (chr 12)
  else if eqc 110 c then Some (chr 10)
  else if eqc 114 c then Some (chr 13)
  else if eqc 116 c then Some (chr 9)
  else None.

(** The rest of a string literal after the opening quote. *)
Fixpoint parse_string (fuel : nat) (s : list ascii) : option (list ascii * list ascii) :=
  match fuel, s with
  | O, _ | _, [] => None
  | S fuel, c :: t =>
      if eqc 34 c then Some ([], t)
      else if eqc 92 c then
        match t with
        | [] => None
        | e :: t =>
            if eqc 117 e then
              match hex4 t with
              | None => None
              | Some (r, t) =>
                  let '(rune, t) := escaped_rune r t in
                  match parse_string fuel t with Some (s, t) => Some (rune ++ s, t) | None => None end
              end
            else match simple_escape e with
            | None => None
            | Some b => match parse_string fuel t with Some (s, t) => Some (b :: s, t) | None => None end
            end
        end
      else if code c <? 32 then None
      else match rune_size s with
      | O => match parse_string fuel t with Some (s, t) => Some (rune_error ++ s, t) | None => None end
      | n => match parse_string fuel (drop n s) with
             | Some (s', t) => Some (take n s ++ s', t)
             | None => None
             end
      end
  end.

Definition is_digit (c : ascii) : bool := within 48 57 c.

Fixpoint span_digits (s : list ascii) : list ascii * list ascii :=
  match s with
  | c :: t => if is_digit c then let '(ds, r) := span_digits t in (c :: ds, r) else ([], s)
  | [] => ([], [])
  end.

(** The integer part, the fraction and the exponent of a number. *)
Definition parse_int_part (s : list ascii) : option (list ascii * list ascii) :=
  match s with
  | c :: t => if eqc 48 c then Some ([c], t)
              else if is_digit c then let '(ds, r) := span_digits t in Some (c :: ds, r)
              else None
  | [] => None
  end.

Definition parse_frac (s : list ascii) : option (list ascii * list ascii) :=
  match s with
  | c :: t =>
      if eqc 46 c then
        match span_digits t with
        | ([], _) => None
        | (ds, r) => Some (c :: ds, r)
        end
      else Some ([], s)
  | [] => Some ([], [])
  end.

Definition parse_exp (s : list ascii) : option (list ascii * list ascii) :=
  match s with
  | c :: t =>
      if eqc 101 c || eqc 69 c then
        let '(sign, t) := match t with
          | d :: t' => if eqc 43 d || eqc 45 d then ([d], t') else ([], t)
          | [] => ([], [])
          end in
        match span_digits t with
        | ([], _) => None
        | (ds, r) => Some (c :: sign ++ ds, r)
        end
      else Some ([], s)
  | [] => Some ([], [])
  end.

Definition parse_number (s : list ascii) : option (json * list ascii) :=
  let '(sign, s) := match s with c :: t => if eqc 45 c then ([c], t) else ([], s) | [] => ([], []) end in
  match parse_int_part s with
  | None => None
  | Some (i, s) =>
      match parse_frac s with
      | None => None
      | Some (f, s) =>
          match parse_exp s with
          | None => None
          | Some (e, s) => Some (JNum (sign ++ i ++ f ++ e), s)
          end
      end
  end.

Fixpoint strip (p s : list ascii) : option (list ascii) :=
  match p, s with
  | [], _ => Some s
  | a :: p, b :: s => if Ascii.eqb a b then strip p s else None
  | _, [] => None
  end.

Definition parse_word (w : string) (j : json) (s : list ascii) : option (json * list ascii) :=
  (λ t, (j, t)) <$> strip (to_bytes w) s.

(** Values, the elements of an array after its bracket, and the members of an
    object after its brace; both are not empty. *)
Fixpoint parse_value (fuel : nat) (s : list ascii) : option (json * list ascii) :=
  match fuel with
  | O => None
  | S fuel =>
      match skip_ws s with
      | [] => None
      | c :: t =>
          if eqc 34 c then
            match parse_string (S (length t)) t with Some (s, t) => Some (JStr s, t) | None => None end
          else if eqc 91 c then
            match skip_ws t with
            | [] => None
            | d :: t' =>
                if eqc 93 d then Some (JArr [], t')
                else match parse_elems fuel (d :: t') with Some (l, t) => Some (JArr l, t) | None => None end
            end
          else if eqc 123 c then
            match skip_ws t with
            | [] => None
            | d :: t' =>
                if eqc 125 d then Some (JObj [], t')
                else match parse_members fuel (d :: t') with Some (l, t) => Some (JObj l, t) | None => None end
            end
          else if eqc 110 c then parse_word "null" JNull (c :: t)
          else if eqc 116 c then parse_word "true" (JBool true) (c :: t)
          else if eqc 102 c then parse_word "false" (JBool false) (c :: t)
          else parse_number (c :: t)
      end
  end
with parse_elems (fuel : nat) (s : list ascii) : option (list json * list ascii) :=
  match fuel with
  | O => None
  | S fuel =>
      match parse_value fuel s with
      | None => None
      | Some (j, s) =>
          match skip_ws s with
          | [] => None
          | c :: t =>
              if eqc 93 c then Some ([j], t)
              else if eqc 44 c then
                match parse_elems fuel t with Some (l, t) => Some (j :: l, t) | None => None end
              else None
          end
      end
  end
with parse_members (fuel : nat) (s : list ascii) : option (list (list ascii * json) * list ascii) :=
  match fuel with
  | O => None
  | S fuel =>
      match skip_ws s with
      | [] => None
      | c :: t =>
          if eqc 34 c then
            match parse_string (S (length t)) t with
            | None => None
            | Some (k, t) =>
                match skip_ws t with
                | [] => None
                | c :: t =>
                    if eqc 58 c then
                      match parse_value fuel t with
                      | None => None
                      | Some (j, t) =>
                          match skip_ws t with
                          | [] => None
                          | c :: t =>
                              if eqc 125 c then Some ([(k, j)], t)
                              else if eqc 44 c then
                                match parse_members fuel t with
                                | Some (l, t) => Some ((k, j) :: l, t)
                                | None => None
                                end
                              else None
                          end
                      end
                    else None
                end
            end
          else None
      end
  end.

(** Every level of recursion below the value takes at least one byte for two
    levels of fuel. *)
Definition parse (s : list ascii) : option json :=
  match parse_value (2 * length s + 2)%nat s with
  | Some (j, t) => if bool_decide (skip_ws t = []) then Some j else None
  | None => None
  end.

(** * Storing a value in a Go structure

    A value of the wrong type is an error, after which the decoder goes on with
    the next member; [Unmarshal] then returns the first error.  The decoders
    return the structure and whether there was no error. *)

(** The field names are matched exactly or else up to case, where the long s
    (U+017F) and the Kelvin sign (U+212A) fold to "s" and "k". *)
Fixpoint equal_fold (name key : list ascii) : bool :=
  match name, key with
  | [], [] => true
  | n :: name, c :: key =>
      if code c <? 128 then
        ((code n =? code c) ||
         (within 97 122 n && (code c =? code n - 32))) && equal_fold name key
      else match key with
      | d :: key =>
          if eqc 115 n && eqc 197 c && eqc 191 d then equal_fold name key
          else match key with
          | e :: key => eqc 107 n && eqc 226 c && eqc 132 d && eqc 170 e && equal_fold name key
          | [] => false
          end
      | [] => false
      end
  | _, _ => false
  end.

(** The first field of the list with exactly the name, or else the first that is
    equal up to case. *)
Definition find_field (names : list string) (key : list ascii) : option string :=
  match find (λ n, bool_decide (to_bytes n = key)) names with
  | Some n => Some n
  | None => find (λ n, equal_fold (to_bytes n) key) names
  end.

Definition decode_string (old : string) (j : json) : string * bool :=
  match j with
  | JStr s => (of_bytes s, true)
  | JNull => (old, true)
  | _ => (old, false)
  end.

Definition decode_bool (old : bool) (j : json) : bool * bool :=
  match j with
  | JBool b => (b, true)
  | JNull => (old, true)
  | _ => (old, false)
  end.

Definition decode_int32 (old : Z) (j : json) : Z * bool :=
  match j with
  | JNum l =>
      match ParseInt 64 (of_bytes l) with
      | Some z => if bool_decide (in_int32 z) then (z, true) else (old, false)
      | None => (old, false)
      end
  | JNull => (old, true)
  | _ => (old, false)
  end.

(** [[]int32]: the decoder reuses the elements of the slice, then the spare
    capacity behind them, then grows the slice by half, to at least 4. [n] counts
    the elements stored so far. *)
Fixpoint decode_elems (items : list json) (n : nat) (old spare : list Z) : list Z * list Z * bool :=
  match items with
  | [] => ([], old ++ spare, true)
  | j :: items =>
      let '(x, old, spare) :=
        match old, spare with
        | x :: old, _ => (x, old, spare)
        | [], x :: spare => (x, [], spare)
        | [], [] => (0%Z, [], replicate (Nat.max 4 (n + n / 2) - n - 1) 0%Z)
        end in
      let '(x, ok) := decode_int32 x j in
      let '(l, spare, ok') := decode_elems items (S n) old spare in
      (x :: l, spare, ok && ok')
  end.

(** The slice, the spare capacity behind it, and the error flag. *)
Definition decode_int32s (old spare : list Z) (j : json) : list Z * list Z * bool :=
  match j with
  | JArr [] => ([], [], true)
  | JArr items => decode_elems items 0 old spare
  | JNull => ([], [], true)
  | _ => (old, spare, false)
  end.

Definition decode_map (old : gmap string string) (j : json) : gmap string string * bool :=
  match j with
  | JObj l => fold_left (λ acc kv,
      let '(v, ok) := decode_string "" (snd kv) in
      (<[of_bytes (fst kv) := v]> (fst acc), snd acc && ok)) l (old, true)
  | JNull => (∅, true)
  | _ => (old, false)
  end.

(** The members of an object are stored one after the other. *)
Definition decode_members {A} (f : A → string → json → A * bool) (names : list string)
    (l : list (list ascii * json)) (a : A) : A * bool :=
  fold_left (λ acc kv,
    match find_field names (fst kv) with
    | Some n => let '(a, ok) := f (fst acc) n (snd kv) in (a, snd acc && ok)
    | None => acc
    end) l (a, true).

(** ** pb.E2EMsg *)

Definition E2EMsg_zero : pb_E2EMsg :=
  {| E2EMsg_Type := ""; E2EMsg_From := 0; E2EMsg_To := []; E2EMsg_Props := ∅; E2EMsg_Body := "" |}.

Definition E2EMsg_names : list string := ["type"; "from"; "to"; "props"; "body"].

(** A message and the spare capacity of its slice. *)
Definition decode_E2EMsg_field (st : pb_E2EMsg * list Z) (name : string) (j : json)
    : (pb_E2EMsg * list Z) * bool :=
  let '(m, spare) := st in
  if bool_decide (name = "type") then
    let '(v, ok) := decode_string (E2EMsg_Type m) j in
    ({| E2EMsg_Type := v; E2EMsg_From := E2EMsg_From m; E2EMsg_To := E2EMsg_To m;
        E2EMsg_Props := E2EMsg_Props m; E2EMsg_Body := E2EMsg_Body m |}, spare, ok)
  else if bool_decide (name = "from") then
    let '(v, ok) := decode_int32 (E2EMsg_From m) j in
    ({| E2EMsg_Type := E2EMsg_Type m; E2EMsg_From := v; E2EMsg_To := E2EMsg_To m;
        E2EMsg_Props := E2EMsg_Props m; E2EMsg_Body := E2EMsg_Body m |}, spare, ok)
  else if bool_decide (name = "to") then
    let '(v, spare, ok) := decode_int32s (E2EMsg_To m) spare j in
    ({| E2EMsg_Type := E2EMsg_Type m; E2EMsg_From := E2EMsg_From m; E2EMsg_To := v;
        E2EMsg_Props := E2EMsg_Props m; E2EMsg_Body := E2EMsg_Body m |}, spare, ok)
  else if bool_decide (name = "props") then
    let '(v, ok) := decode_map (E2EMsg_Props m) j in
    ({| E2EMsg_Type := E2EMsg_Type m; E2EMsg_From := E2EMsg_From m; E2EMsg_To := E2EMsg_To m;
        E2EMsg_Props := v; E2EMsg_Body := E2EMsg_Body m |}, spare, ok)
  else
    let '(v, ok) := decode_string (E2EMsg_Body m) j in
    ({| E2EMsg_Type := E2EMsg_Type m; E2EMsg_From := E2EMsg_From m; E2EMsg_To := E2EMsg_To m;
        E2EMsg_Props := E2EMsg_Props m; E2EMsg_Body := v |}, spare, ok).

Definition decode_E2EMsg (j : json) (st : pb_E2EMsg * list Z) : (pb_E2EMsg * list Z) * bool :=
  match j with
  | JObj l => decode_members decode_E2EMsg_field E2EMsg_names l st
  | JNull => (st, true)
  | _ => (st, false)
  end.

(** [json.Unmarshal(data, &v)] for a fresh [pb.E2EMsg]; [None] is an error. *)
Definition E2EMsg_of_json (s : string) : option pb_E2EMsg :=
  match parse (to_bytes s) with
  | None => None
  | Some j =>
      let '(m, _, ok) := decode_E2EMsg j (E2EMsg_zero, []) in
      if ok : bool then Some m else None
  end.

(** [json.Marshal] sorts the keys of a map; [omitempty] drops empty fields. *)
Fixpoint bytes_leb (a b : list ascii) : bool :=
  match a, b with
  | [], _ => true
  | _ :: _, [] => false
  | x :: a, y :: b => (code x <? code y) || ((code x =? code y) && bytes_leb a b)
  end.

Definition prop_le (a b : string * string) : Prop := bytes_leb (to_bytes a.1) (to_bytes b.1) = true.

#[export] Instance prop_le_dec a b : Decision (prop_le a b).
Proof. unfold prop_le. apply _. Defined.

Definition omitempty (empty : bool) (name : string) (j : json) : list (list ascii * json) :=
  if empty then [] else [(to_bytes name, j)].

Definition JInt (z : Z) : json := JNum (to_bytes (Itoa z)).

Definition json_of_E2EMsg (m : pb_E2EMsg) : json :=
  JObj (omitempty (bool_decide (E2EMsg_Type m = "")) "type" (JStr (to_bytes (E2EMsg_Type m))) ++
        omitempty (bool_decide (E2EMsg_From m = 0%Z)) "from" (JInt (E2EMsg_From m)) ++
        omitempty (bool_decide (E2EMsg_To m = [])) "to" (JArr (JInt <$> E2EMsg_To m)) ++
        omitempty (bool_decide (E2EMsg_Props m = ∅)) "props"
          (JObj ((λ kv : string * string, (to_bytes kv.1, JStr (to_bytes kv.2))) <$>
                 merge_sort prop_le (map_to_list (E2EMsg_Props m)))) ++
        omitempty (bool_decide (E2EMsg_Body m = "")) "body" (JStr (to_bytes (E2EMsg_Body m)))).

Definition E2EMsg_to_json (m : pb_E2EMsg) : string := of_bytes (print (json_of_E2EMsg m)).

(** ** pb.ClientMsg *)

Definition StatsReq_field (r : pb_StatsReq) (name : string) (j : json) : pb_StatsReq * bool :=
  let '(v, ok) := decode_bool (CountUnread r) j in ({| CountUnread := v |}, ok).

Definition GetEventsReq_field (r : pb_GetEventsReq) (name : string) (j : json) : pb_GetEventsReq * bool :=
  if bool_decide (name = "from_seq") then
    let '(v, ok) := decode_int32 (FromSeq r) j in ({| FromSeq := v; ToSeq := ToSeq r |}, ok)
  else
    let '(v, ok) := decode_int32 (ToSeq r) j in ({| FromSeq := FromSeq r; ToSeq := v |}, ok).

Definition SetReadReq_field (r : pb_SetReadReq) (name : string) (j : json) : pb_SetReadReq * bool :=
  let '(v, ok) := decode_int32 (SetReadReq_Seq r) j in ({| SetReadReq_Seq := v |}, ok).

Definition GetReadStatesReq_field (r : pb_GetReadStatesReq) (name : string) (j : json) : pb_GetReadStatesReq * bool :=
  let '(v, ok) := decode_int32 (GetReadStatesReq_HeadSeq r) j in ({| GetReadStatesReq_HeadSeq := v |}, ok).

(** A pointer to a structure: [null] makes it nil; for any other value it is
    allocated first when it is nil. *)
Definition decode_pointer {A} (zero : A) (f : A → string → json → A * bool) (names : list string)
    (old : option A) (j : json) : option A * bool :=
  match j with
  | JNull => (None, true)
  | JObj l => let '(a, ok) := decode_members f names l (default zero old) in (Some a, ok)
  | _ => (Some (default zero old), false)
  end.

Definition ClientMsg_names : list string := ["stats"; "get_events"; "set_read"; "get_read_states"; "im"].

(** The message, with the spare capacity of the slice inside [Im]. *)
Definition decode_ClientMsg_field (st : pb_ClientMsg * list Z) (name : string) (j : json)
    : (pb_ClientMsg * list Z) * bool :=
  let '(m, spare) := st in
  if bool_decide (name = "stats") then
    let '(v, ok) := decode_pointer {| CountUnread := false |} StatsReq_field ["count_unread"] (ClientMsg_Stats m) j in
    ({| ClientMsg_Stats := v; ClientMsg_GetEvents := ClientMsg_GetEvents m; ClientMsg_SetRead := ClientMsg_SetRead m;
        ClientMsg_GetReadStates := ClientMsg_GetReadStates m; ClientMsg_Im := ClientMsg_Im m |}, spare, ok)
  else if bool_decide (name = "get_events") then
    let '(v, ok) := decode_pointer {| FromSeq := 0; ToSeq := 0 |} GetEventsReq_field ["from_seq"; "to_seq"]
                      (ClientMsg_GetEvents m) j in
    ({| ClientMsg_Stats := ClientMsg_Stats m; ClientMsg_GetEvents := v; ClientMsg_SetRead := ClientMsg_SetRead m;
        ClientMsg_GetReadStates := ClientMsg_GetReadStates m; ClientMsg_Im := ClientMsg_Im m |}, spare, ok)
  else if bool_decide (name = "set_read") then
    let '(v, ok) := decode_pointer {| SetReadReq_Seq := 0 |} SetReadReq_field ["seq"] (ClientMsg_SetRead m) j in
    ({| ClientMsg_Stats := ClientMsg_Stats m; ClientMsg_GetEvents := ClientMsg_GetEvents m; ClientMsg_SetRead := v;
        ClientMsg_GetReadStates := ClientMsg_GetReadStates m; ClientMsg_Im := ClientMsg_Im m |}, spare, ok)
  else if bool_decide (name = "get_read_states") then
    let '(v, ok) := decode_pointer {| GetReadStatesReq_HeadSeq := 0 |} GetReadStatesReq_field ["head_seq"]
                      (ClientMsg_GetReadStates m) j in
    ({| ClientMsg_Stats := ClientMsg_Stats m; ClientMsg_GetEvents := ClientMsg_GetEvents m;
        ClientMsg_SetRead := ClientMsg_SetRead m; ClientMsg_GetReadStates := v; ClientMsg_Im := ClientMsg_Im m |}, spare, ok)
  else
    let '(v, ok) := decode_pointer (E2EMsg_zero, []) decode_E2EMsg_field E2EMsg_names
                      ((λ im, (im, spare)) <$> ClientMsg_Im m) j in
    ({| ClientMsg_Stats := ClientMsg_Stats m; ClientMsg_GetEvents := ClientMsg_GetEvents m;
        ClientMsg_SetRead := ClientMsg_SetRead m; ClientMsg_GetReadStates := ClientMsg_GetReadStates m;
        ClientMsg_Im := fst <$> v |}, default [] (snd <$> v), ok).

(** How [json.Unmarshal] into a fresh [pb.ClientMsg] ends. *)
Inductive unmarshal_outcome := Decoded | SyntaxError | TypeError.

Definition ClientMsg_of_json (s : string) : pb_ClientMsg * unmarshal_outcome :=
  match parse (to_bytes s) with
  | None => (ClientMsg_zero, SyntaxError)
  | Some (JObj l) =>
      let '(m, _, ok) := decode_members decode_ClientMsg_field ClientMsg_names l (ClientMsg_zero, []) in
      (m, if ok : bool then Decoded else TypeError)
  | Some JNull => (ClientMsg_zero, Decoded)
  | Some _ => (ClientMsg_zero, TypeError)
  end.

(** What a client sends for a request: one member, whose name says which. *)
Definition json_of_request (name : string) (fields : list (string * json)) : json :=
  JObj [(to_bytes name, JObj ((λ kv, (to_bytes kv.1, kv.2)) <$> fields))].

(** * Lemmas *)

(** ** Strings *)

(** A chunk of bytes that the decoder recognises as one rune, whatever follows. *)
Definition rune (c : list ascii) : Prop := c ≠ [] ∧ ∀ t, rune_size (c ++ t) = length c.

Definition valid_utf8 (s : list ascii) : Prop := ∃ cs, Forall rune cs ∧ s = concat cs.

Lemma rune_size_take s n : rune_size s = n → n ≠ 0%nat → rune (take n s).
Proof.
  intros Hn H0. destruct s as [|c1 [|c2 [|c3 [|c4 s]]]]; simpl in Hn; repeat case_match; subst; try done;
    (split; [done|]); intros t; simpl; repeat (case_match; try congruence); try done.
Qed.

Lemma runes_concat cs fuel :
  Forall rune cs → (length cs ≤ fuel)%nat → runes fuel (concat cs) = Some <$> cs.
Proof.
  intros Hcs. revert fuel. induction Hcs as [|c cs [Hne Hc] _ IH]; intros fuel Hf; simpl; [by destruct fuel|].
  destruct fuel as [|fuel]; simpl in Hf; [lia|]. destruct c as [|x c]; [done|]. simpl in *.
  change (x :: c ++ concat cs) with ((x :: c) ++ concat cs). rewrite Hc. simpl.
  rewrite take_app_length, drop_app_length. by rewrite IH by lia.
Qed.

Lemma concat_length_ge cs : Forall rune cs → (length cs ≤ length (concat cs))%nat.
Proof.
  induction 1 as [|c cs [Hne _] _ IH]; simpl; [done|]. rewrite length_app.
  destruct c; [done|]. simpl. lia.
Qed.

(** An ASCII character, escaped and read back. *)
Lemma parse_escape_ascii c fuel t :
  code c < 128 →
  parse_string (S fuel) (escape (Some [c]) ++ t) =
  match parse_string fuel t with Some (s, t) => Some (c :: s, t) | None => None end.
Proof.
  intros Hc. destruct c as [[] [] [] [] [] [] [] []]; vm_compute in Hc; try done; reflexivity.
Qed.

Lemma code_ge_eqc c n : 128 ≤ code c → n < 128 → eqc n c = false.
Proof. intros ? ?. unfold eqc. apply N.eqb_neq. lia. Qed.

(** A rune of several bytes is copied, but for the two line separators. *)
Lemma parse_escape_multi x y c fuel t :
  rune (x :: y :: c) →
  parse_string (S fuel) (escape (Some (x :: y :: c)) ++ t) =
  match parse_string fuel t with Some (s, t) => Some (x :: y :: c ++ s, t) | None => None end.
Proof.
  intros [_ Hr]. assert (Hx : 128 ≤ code x).
  { specialize (Hr t). simpl in Hr. destruct (code x <? 128) eqn:E; [done|]. by apply N.ltb_ge in E. }
  unfold escape. case_bool_decide as E1; [clear -E1; vm_compute in E1; simplify_eq; reflexivity|].
  case_bool_decide as E2; [clear -E2; vm_compute in E2; simplify_eq; reflexivity|].
  specialize (Hr t). simpl app in *. unfold parse_string; fold parse_string.
  rewrite !code_ge_eqc by lia. rewrite (proj2 (N.ltb_ge (code x) 32)) by lia. rewrite Hr.
  simpl. rewrite take_app_length, drop_app_length. done.
Qed.

Lemma parse_escape c fuel t :
  rune c →
  parse_string (S fuel) (escape (Some c) ++ t) =
  match parse_string fuel t with Some (s, t) => Some (c ++ s, t) | None => None end.
Proof.
  intros Hr. destruct c as [|x [|y c]]; [by destruct Hr| |by apply parse_escape_multi].
  apply parse_escape_ascii. destruct Hr as [_ Hr]. specialize (Hr []). simpl in Hr.
  destruct (code x <? 128) eqn:E; [by apply N.ltb_lt|done].
Qed.

Lemma parse_string_runes cs fuel t :
  Forall rune cs → (length cs < fuel)%nat →
  parse_string fuel (concat (escape <$> (Some <$> cs)) ++ quote :: t) = Some (concat cs, t).
Proof.
  intros Hcs. revert fuel. induction Hcs as [|c cs Hc _ IH]; intros [|fuel] Hf; try (simpl in Hf; lia).
  - reflexivity.
  - rewrite !fmap_cons. cbn [concat]. rewrite <-app_assoc, parse_escape by done.
    rewrite IH by (simpl in Hf; lia). done.
Qed.

Lemma escape_nonempty c : c ≠ [] → escape (Some c) ≠ [].
Proof. destruct c as [|c [|d r]]; [done|..]; intros _; simpl; repeat case_match; done. Qed.

Lemma escapes_length cs :
  Forall rune cs → (length cs ≤ length (concat (escape <$> (Some <$> cs))))%nat.
Proof.
  induction 1 as [|c cs [Hne _] _ IH]; [done|]. rewrite !fmap_cons. cbn [concat]. rewrite length_app.
  pose proof (escape_nonempty c Hne). destruct (escape (Some c)); [done|]. simpl in *. lia.
Qed.

(** A printed string is read back, whatever follows the closing quote. *)
Lemma parse_print_string s t :
  valid_utf8 s →
  ∃ body, print_string s ++ t = quote :: body ∧ parse_string (S (length body)) body = Some (s, t).
Proof.
  intros (cs & Hcs & ->). unfold print_string.
  rewrite runes_concat by (done || by apply concat_length_ge).
  eexists. split; [simpl; rewrite <-app_assoc; simpl; reflexivity|].
  apply parse_string_runes; [done|]. rewrite length_app.
  pose proof (escapes_length cs Hcs). simpl. lia.
Qed.

(** ** Numbers *)

(** What follows a number must not continue it. *)
Definition stops (t : list ascii) : Prop :=
  match t with
  | [] => True
  | c :: _ => is_digit c = false ∧ eqc 46 c = false ∧ eqc 101 c = false ∧ eqc 69 c = false
  end.

(** A digit string as [strconv] prints it: no leading zero. *)
Definition canonical (ds : list ascii) : Prop :=
  match ds with
  | [] => False
  | c :: ds => is_digit c = true ∧ Forall (λ c, is_digit c = true) ds ∧ (eqc 48 c = true → ds = [])
  end.

Lemma span_digits_app ds t :
  Forall (λ c, is_digit c = true) ds → stops t → span_digits (ds ++ t) = (ds, t).
Proof.
  intros Hds Ht. induction Hds as [|c ds Hc _ IH]; simpl.
  - destruct t as [|c t]; [done|]. destruct Ht as [Hd _]. simpl. by rewrite Hd.
  - by rewrite Hc, IH.
Qed.

Lemma stops_frac t : stops t → parse_frac t = Some ([], t).
Proof. destruct t as [|c t]; [done|]. intros (_ & H & _). simpl. by rewrite H. Qed.

Lemma stops_exp t : stops t → parse_exp t = Some ([], t).
Proof. destruct t as [|c t]; [done|]. intros (_ & _ & H1 & H2). simpl. by rewrite H1, H2. Qed.

Lemma digit_not_minus c : is_digit c = true → eqc 45 c = false.
Proof. by destruct c as [[] [] [] [] [] [] [] []]. Qed.

Lemma parse_int_part_canonical ds t :
  canonical ds → stops t → parse_int_part (ds ++ t) = Some (ds, t).
Proof.
  destruct ds as [|c ds]; [done|]. intros (Hc & Hds & H0) Ht. simpl.
  destruct (eqc 48 c) eqn:E; [by rewrite H0|]. by rewrite Hc, span_digits_app.
Qed.

Lemma parse_number_canonical ds t :
  canonical ds → stops t → parse_number (ds ++ t) = Some (JNum ds, t).
Proof.
  intros Hds Ht. unfold parse_number. pose proof (parse_int_part_canonical ds t Hds Ht) as Hi.
  destruct ds as [|c ds]; [done|]. destruct Hds as (Hc & _). simpl in Hi |- *.
  rewrite (digit_not_minus c Hc). simpl. rewrite Hi, stops_frac, stops_exp by done. by rewrite !app_nil_r.
Qed.

Lemma parse_number_negative ds t :
  canonical ds → stops t → parse_number ("-"%char :: ds ++ t) = Some (JNum ("-"%char :: ds), t).
Proof.
  intros Hds Ht. unfold parse_number. change (eqc 45 "-") with true. cbv iota beta.
  rewrite parse_int_part_canonical, stops_frac, stops_exp by done. by rewrite !app_nil_r.
Qed.

Lemma is_digit_pretty n : n < 10 → is_digit (pretty_N_char n) = true ∧ (0 < n → eqc 48 (pretty_N_char n) = false).
Proof.
  intros Hn. assert (Hc : n = 0 ∨ n = 1 ∨ n = 2 ∨ n = 3 ∨ n = 4 ∨ n = 5 ∨ n = 6 ∨ n = 7 ∨ n = 8 ∨ n = 9) by lia.
  destruct_or! Hc; subst; vm_compute; done.
Qed.

(** The digits that are put in front of a suffix of digits. *)
Lemma pretty_N_go_canonical (x : N) s :
  0 < x → Forall (λ c, is_digit c = true) (to_bytes s) →
  canonical (to_bytes (pretty_N_go x s)).
Proof.
  revert s. induction (N.lt_wf_0 x) as [x _ IH]. intros s Hx Hs. rewrite pretty_N_go_step by done.
  destruct (is_digit_pretty (x `mod` 10)) as [Hd Hnz]; [apply N.mod_lt; lia|].
  destruct (decide (x `div` 10 = 0)) as [E|E].
  - rewrite E, pretty_N_go_0. simpl. split_and!; [done|done|]. intros H0.
    rewrite Hnz in H0; [done|]. apply N.div_small_iff in E; [|lia]. rewrite N.mod_small; lia.
  - apply IH; [apply N.div_lt; lia|by apply N.neq_0_lt_0|]. simpl. by constructor.
Qed.

Lemma canonical_pretty_pos (p : positive) : canonical (to_bytes (pretty p)).
Proof.
  change (pretty p) with (pretty (Npos p)). unfold pretty, pretty_N. rewrite decide_False by done.
  by apply pretty_N_go_canonical.
Qed.

Lemma parse_number_Itoa z t :
  stops t → parse_number (to_bytes (Itoa z) ++ t) = Some (JInt z, t).
Proof.
  intros Ht. unfold JInt, Itoa. destruct z as [|p|p].
  - apply (parse_number_canonical ["0"%char]); [|done]. simpl. done.
  - change (pretty (Zpos p)) with (pretty p). apply parse_number_canonical; [apply canonical_pretty_pos|done].
  - change (pretty (Zneg p)) with ("-" +:+ pretty p). simpl. change ("" +:+ pretty p) with (pretty p).
    apply parse_number_negative; [apply canonical_pretty_pos|done].
Qed.

(** ** Values *)

(** Values whose text is read back: valid strings, and integers as they are printed. *)
Fixpoint printable (j : json) : Prop :=
  match j with
  | JNull | JBool _ => True
  | JNum l => ∃ z, l = to_bytes (Itoa z)
  | JStr s => valid_utf8 s
  | JArr l => foldr (λ x P, printable x ∧ P) True l
  | JObj l => foldr (λ kv P, (valid_utf8 kv.1 ∧ printable kv.2) ∧ P) True l
  end.

(** Fuel that is enough to read a printed value. *)
Fixpoint need (j : json) : nat :=
  match j with
  | JArr l => (2 + foldr (λ x n, S (need x) + n) 0 l)%nat
  | JObj l => (2 + foldr (λ kv n, S (need kv.2) + n) 0 l)%nat
  | _ => 1%nat
  end.

(** The first byte of a printed value. *)
Definition value_start (c : ascii) : bool :=
  eqc 34 c || eqc 91 c || eqc 123 c || eqc 110 c || eqc 116 c || eqc 102 c || eqc 45 c || is_digit c.

Lemma canonical_start ds t :
  canonical ds → ∃ c s, ds ++ t = c :: s ∧ is_digit c = true.
Proof. destruct ds as [|c ds]; [done|]. intros (Hc & _). by exists c, (ds ++ t). Qed.

Lemma Itoa_start z t : ∃ c s, to_bytes (Itoa z) ++ t = c :: s ∧ (eqc 45 c = true ∨ is_digit c = true).
Proof.
  unfold Itoa. destruct z as [|p|p].
  - by exists "0"%char, t; split; [|right].
  - change (pretty (Zpos p)) with (pretty p).
    destruct (canonical_start _ t (canonical_pretty_pos p)) as (c & s & Hs & Hc). eauto.
  - change (pretty (Zneg p)) with ("-" +:+ pretty p). simpl. eexists _, _. split; [reflexivity|]. by left.
Qed.

Lemma print_start j t :
  printable j → ∃ c s, print j ++ t = c :: s ∧ value_start c = true ∧ eqc 93 c = false ∧ skip_ws (c :: s) = c :: s.
Proof.
  assert (Hs : ∀ c s, value_start c = true → eqc 93 c = false ∧ skip_ws (c :: s) = c :: s).
  { intros c s. destruct c as [[] [] [] [] [] [] [] []]; vm_compute; try done. }
  intros Hj. destruct j as [|[]|l|s|l|l]; simpl in *;
    try (eexists _, _; split; [reflexivity|]; split; [reflexivity|apply Hs; reflexivity]).
  destruct Hj as [z ->]. destruct (Itoa_start z t) as (c & s & -> & Hc).
  assert (value_start c = true) by (unfold value_start; destruct Hc as [-> | ->]; by rewrite ?orb_true_r).
  exists c, s. split; [done|]. split; [done|]. by apply Hs.
Qed.

Definition parses (j : json) : Prop :=
  ∀ fuel t, (need j ≤ fuel)%nat → stops t → parse_value fuel (print j ++ t) = Some (j, t).

Lemma number_dispatch c s fuel :
  (eqc 45 c = true ∨ is_digit c = true) → parse_value (S fuel) (c :: s) = parse_number (c :: s).
Proof. by destruct c as [[] [] [] [] [] [] [] []]; intros [H|H]; vm_compute in H. Qed.

(** The elements of an array, up to the bracket. *)
Lemma parse_elems_print l x fuel t :
  printable x → Forall printable l → parses x → Forall parses l →
  (foldr (λ x n, S (need x) + n) 0 (x :: l) ≤ fuel)%nat →
  parse_elems fuel (commas (map print (x :: l)) ++ "]"%char :: t) = Some (x :: l, t).
Proof.
  revert x fuel. induction l as [|y l IH]; intros x fuel Px Pl Hx Hl Hf; simpl in Hf;
    (destruct fuel as [|fuel]; [lia|]).
  - simpl. rewrite Hx by (try lia; done). done.
  - change (commas (map print (x :: y :: l))) with (print x ++ ","%char :: commas (map print (y :: l))).
    inversion_clear Pl. inversion_clear Hl.
    assert (IH' : parse_elems fuel (commas (map print (y :: l)) ++ "]"%char :: t) = Some (y :: l, t)).
    { apply IH; [done..|]. simpl. lia. }
    revert IH'. generalize (commas (map print (y :: l))). intros rest IH'.
    rewrite <-app_assoc. simpl app. unfold parse_elems; fold parse_elems.
    rewrite Hx by (try lia; done). simpl. by rewrite IH'.
Qed.

(** The members of an object, up to the brace. *)
Definition print_member (kv : list ascii * json) : list ascii := print_string kv.1 ++ ":"%char :: print kv.2.

Lemma parse_member k j fuel t (k' : list ascii → json → list ascii → option (list (list ascii * json) * list ascii)) :
  valid_utf8 k → parses j → (need j ≤ fuel)%nat → stops t →
  ∃ body, print_member (k, j) ++ t = quote :: body ∧
    match parse_string (S (length body)) body with
    | None => None
    | Some (k, t) =>
        match skip_ws t with
        | [] => None
        | c :: t =>
            if eqc 58 c then
              match parse_value fuel t with None => None | Some (j, t) => k' k j t end
            else None
        end
    end = k' k j t.
Proof.
  intros Hk Hj Hf Ht. unfold print_member. cbn [fst snd].
  destruct (parse_print_string k (":"%char :: print j ++ t) Hk) as (body & Hb & Hp).
  exists body. rewrite <-app_assoc. split; [exact Hb|]. rewrite Hp.
  change (skip_ws (":"%char :: print j ++ t)) with (":"%char :: print j ++ t). cbv iota beta.
  change (eqc 58 ":") with true. cbv iota. by rewrite Hj.
Qed.

Lemma parse_members_print l kv fuel t :
  valid_utf8 kv.1 → parses kv.2 → Forall (λ kv, valid_utf8 kv.1 ∧ parses kv.2) l →
  (foldr (λ kv n, S (need kv.2) + n) 0 (kv :: l) ≤ fuel)%nat →
  parse_members fuel (commas (map print_member (kv :: l)) ++ "}"%char :: t) = Some (kv :: l, t).
Proof.
  revert kv fuel. induction l as [|kv' l IH]; intros [k j] fuel Hk Hj Hl Hf; simpl in Hf;
    (destruct fuel as [|fuel]; [lia|]); simpl in Hk, Hj.
  - destruct (parse_member k j fuel ("}"%char :: t) (λ k j t,
      match skip_ws t with
      | [] => None
      | c :: t => if eqc 125 c then Some ([(k, j)], t)
                  else if eqc 44 c then
                    match parse_members fuel t with Some (l, t) => Some ((k, j) :: l, t) | None => None end
                  else None
      end)) as (body & Hb & Hp); [done|done|lia|done|].
    cbn [map commas]. rewrite Hb. exact Hp.
  - inversion_clear Hl as [|? ? [Hk' Hj'] Hl'].
    assert (IH' : parse_members fuel (commas (map print_member (kv' :: l)) ++ "}"%char :: t) = Some (kv' :: l, t)).
    { apply IH; [done..|]. simpl. lia. }
    change (commas (map print_member ((k, j) :: kv' :: l)))
      with (print_member (k, j) ++ ","%char :: commas (map print_member (kv' :: l))).
    revert IH'. generalize (commas (map print_member (kv' :: l))). intros rest IH'.
    destruct (parse_member k j fuel (","%char :: rest ++ "}"%char :: t) (λ k j t,
      match skip_ws t with
      | [] => None
      | c :: t => if eqc 125 c then Some ([(k, j)], t)
                  else if eqc 44 c then
                    match parse_members fuel t with Some (l, t) => Some ((k, j) :: l, t) | None => None end
                  else None
      end)) as (body & Hb & Hp); [done|done|lia|done|].
    rewrite <-app_assoc. change ((","%char :: rest) ++ "}"%char :: t) with (","%char :: rest ++ "}"%char :: t).
    rewrite Hb. etransitivity; [exact Hp|]. simpl. by rewrite IH'.
Qed.

Lemma printable_arr l : printable (JArr l) → Forall printable l.
Proof. induction l as [|x l IH]; simpl; [done|]. intros [? ?]. constructor; [done|]. by apply IH. Qed.

Lemma printable_obj l : printable (JObj l) → Forall (λ kv, valid_utf8 kv.1 ∧ printable kv.2) l.
Proof. induction l as [|x l IH]; simpl; [done|]. intros [? ?]. constructor; [done|]. by apply IH. Qed.

(** What comes after the bracket of an array that is not empty. *)
Lemma elems_start x l t :
  printable x → ∃ c s, commas (map print (x :: l)) ++ t = c :: s ∧ eqc 93 c = false ∧ skip_ws (c :: s) = c :: s.
Proof.
  intros Hx. destruct l as [|y l].
  - destruct (print_start x t Hx) as (c & s & ? & _ & ? & ?). by exists c, s.
  - destruct (print_start x ((","%char :: commas (map print (y :: l))) ++ t) Hx) as (c & s & Hs & _ & ? & ?).
    exists c, s. split; [|done]. rewrite <-Hs, app_assoc. done.
Qed.

Lemma members_start kv l t :
  ∃ s, commas (map print_member (kv :: l)) ++ t = quote :: s.
Proof. destruct l; eexists; reflexivity. Qed.

(** Reading an array or an object that is not empty. *)
Lemma parse_value_arr fuel c r :
  eqc 93 c = false → skip_ws (c :: r) = c :: r →
  parse_value (S fuel) ("["%char :: c :: r) =
  match parse_elems fuel (c :: r) with Some (l, t) => Some (JArr l, t) | None => None end.
Proof.
  intros Hc Hw. transitivity (match skip_ws (c :: r) with
    | [] => None
    | d :: t' => if eqc 93 d then Some (JArr [], t')
                 else match parse_elems fuel (d :: t') with Some (l, t) => Some (JArr l, t) | None => None end
    end); [reflexivity|]. by rewrite Hw, Hc.
Qed.

Lemma parse_value_obj fuel r :
  parse_value (S fuel) ("{"%char :: quote :: r) =
  match parse_members fuel (quote :: r) with Some (l, t) => Some (JObj l, t) | None => None end.
Proof. reflexivity. Qed.

Lemma Forall_imp_2 {A} (P Q : A → Prop) l : Forall (λ x, P x → Q x) l → Forall P l → Forall Q l.
Proof. intros H HP. induction HP; inversion_clear H; constructor; auto. Qed.

(** Every printable value is read back from its text. *)
Lemma parse_print j : printable j → parses j.
Proof.
  induction j as [|b|l|s|l IH|l IH] using json_ind; intros Hj fuel t Hf Ht; simpl in Hf;
    (destruct fuel as [|fuel]; [lia|]).
  - done.
  - by destruct b.
  - destruct Hj as [z ->]. destruct (Itoa_start z t) as (c & r & Hs & Hc).
    change (print (JNum (to_bytes (Itoa z)))) with (to_bytes (Itoa z)).
    rewrite Hs, number_dispatch by done. rewrite <-Hs. by apply parse_number_Itoa.
  - destruct (parse_print_string s t Hj) as (body & Hb & Hp). change (print (JStr s)) with (print_string s).
    rewrite Hb. unfold parse_value; fold parse_value. simpl skip_ws. cbv iota. change (eqc 34 quote) with true.
    cbv iota. by rewrite Hp.
  - apply printable_arr in Hj. pose proof (Forall_imp_2 _ _ _ IH Hj) as Hl. destruct l as [|x l]; [done|].
    inversion_clear Hj as [|? ? Px Pl]. inversion_clear Hl as [|? ? Rx Rl].
    transitivity (parse_value (S fuel) ("["%char :: commas (map print (x :: l)) ++ "]"%char :: t)).
    { f_equal. change (print (JArr (x :: l))) with ("["%char :: commas (map print (x :: l)) ++ ["]"%char]).
      generalize (commas (map print (x :: l))). intros s. simpl. by rewrite <-app_assoc. }
    pose proof (parse_elems_print l x fuel t Px Pl Rx Rl) as He.
    destruct (elems_start x l ("]"%char :: t) Px) as (c & r & Hs & Hc & Hw). rewrite Hs in He |- *.
    rewrite parse_value_arr by done. rewrite He; [done|]. simpl in Hf |- *. lia.
  - apply printable_obj in Hj. destruct l as [|kv l]; [done|].
    assert (Hl : Forall (λ kv, valid_utf8 kv.1 ∧ parses kv.2) (kv :: l)).
    { eapply Forall_imp_2; [|exact Hj]. eapply Forall_impl; [exact IH|]. simpl. naive_solver. }
    inversion_clear Hl as [|? ? [Hk Rx] Rl].
    transitivity (parse_value (S fuel) ("{"%char :: commas (map print_member (kv :: l)) ++ "}"%char :: t)).
    { f_equal. change (print (JObj (kv :: l))) with ("{"%char :: commas (map print_member (kv :: l)) ++ ["}"%char]).
      generalize (commas (map print_member (kv :: l))). intros s. simpl. by rewrite <-app_assoc. }
    pose proof (parse_members_print l kv fuel t Hk Rx Rl) as He.
    destruct (members_start kv l ("}"%char :: t)) as (r & Hs). rewrite Hs in He |- *.
    rewrite parse_value_obj, He; [done|]. simpl in Hf |- *. lia.
Qed.

(** The fuel that [parse] uses is enough. *)
Lemma commas_need {A} (f : A → nat) (g : A → list ascii) (l : list A) :
  Forall (λ x, f x ≤ 2 * length (g x))%nat l →
  (foldr (λ x n, S (f x) + n) 0 l ≤ 2 * length (commas (map g l)) + 1)%nat.
Proof.
  induction 1 as [|x l Hx Hl IH]; [simpl; lia|]. destruct l as [|y l]; [simpl; lia|].
  change (commas (map g (x :: y :: l))) with (g x ++ ","%char :: commas (map g (y :: l))).
  revert IH. generalize (commas (map g (y :: l))). intros r IH.
  rewrite length_app. simpl in *. lia.
Qed.

Lemma need_print j : printable j → (need j ≤ 2 * length (print j))%nat.
Proof.
  induction j as [|b|l|s|l IH|l IH] using json_ind; intros Hj.
  - simpl. lia.
  - destruct b; simpl; lia.
  - destruct Hj as [z ->]. destruct (Itoa_start z []) as (c & r & Hs & _). rewrite app_nil_r in Hs. simpl.
    rewrite Hs. simpl. lia.
  - simpl. lia.
  - apply printable_arr in Hj. pose proof (commas_need need print l (Forall_imp_2 _ _ _ IH Hj)) as Hl.
    change (print (JArr l)) with ("["%char :: commas (map print l) ++ ["]"%char]).
    cbn [need length]. rewrite length_app. cbn [length]. lia.
  - apply printable_obj in Hj.
    assert (Hl : Forall (λ kv : list ascii * json, need kv.2 ≤ 2 * length (print_member kv))%nat l).
    { eapply Forall_imp_2; [|exact Hj]. eapply Forall_impl; [exact IH|]. intros [k v]. simpl. intros Hv [_ Hp].
      specialize (Hv Hp). unfold print_member. rewrite length_app. simpl. lia. }
    apply (commas_need (λ kv, need kv.2)) in Hl. change (print (JObj l)) with ("{"%char :: commas (map print_member l) ++ ["}"%char]).
    cbn [need length]. rewrite length_app. cbn [length]. lia.
Qed.

(** The printer and the parser are inverse on printable values. *)
Lemma parse_print_value j : printable j → parse (print j) = Some j.
Proof.
  intros Hj. unfold parse. rewrite <-(app_nil_r (print j)) at 2.
  rewrite parse_print; [done|done| |done]. pose proof (need_print j Hj). lia.
Qed.

(** ** Structures *)

(** A message that can be sent: valid UTF-8 and 32-bit numbers. *)
Record sendable (m : pb_E2EMsg) : Prop := {
  send_type : valid_utf8 (to_bytes (E2EMsg_Type m));
  send_from : in_int32 (E2EMsg_From m);
  send_to : Forall in_int32 (E2EMsg_To m);
  send_props : map_Forall (λ k v, valid_utf8 (to_bytes k) ∧ valid_utf8 (to_bytes v)) (E2EMsg_Props m);
  send_body : valid_utf8 (to_bytes (E2EMsg_Body m))
}.

Lemma decode_members_app {A} f names l1 l2 (a : A) :
  decode_members f names (l1 ++ l2) a =
  fold_left (λ acc kv,
    match find_field names (fst kv) with
    | Some n => let '(a, ok) := f (fst acc) n (snd kv) in (a, snd acc && ok)
    | None => acc
    end) l2 (decode_members f names l1 a).
Proof. unfold decode_members. by rewrite fold_left_app. Qed.

(** One field of the structure that was printed with [omitempty]. *)
Lemma decode_omitempty {A} (f : A → string → json → A * bool) names (empty : bool) name j l (a a' : A) :
  find_field names (to_bytes name) = Some name →
  (empty = true → a' = a) → (empty = false → f a name j = (a', true)) →
  decode_members f names (omitempty empty name j ++ l) a = decode_members f names l a'.
Proof.
  intros Hn He Hf. unfold decode_members, omitempty. destruct empty; simpl.
  - by rewrite He.
  - rewrite Hn. simpl. by rewrite Hf.
Qed.

Lemma decode_int32_JInt old z : in_int32 z → decode_int32 old (JInt z) = (z, true).
Proof.
  intros Hz. unfold JInt, decode_int32. rewrite Stdlib.Strings.String.string_of_list_ascii_of_string.
  change (ParseInt 64 (Itoa z)) with (Atoi (Itoa z)). rewrite Atoi_Itoa by (unfold in_int32, in_int64 in *; lia).
  by rewrite bool_decide_eq_true_2.
Qed.

Lemma decode_elems_JInt l n old spare :
  Forall in_int32 l → ∃ spare', decode_elems (JInt <$> l) n old spare = (l, spare', true).
Proof.
  intros Hl. revert n old spare. induction Hl as [|z l Hz _ IH]; intros n old spare; simpl; [eauto|].
  assert (Hstep : ∀ x old spare, ∃ spare',
    (let '(x, ok) := decode_int32 x (JInt z) in
     let '(l, spare, ok') := decode_elems (JInt <$> l) (S n) old spare in (x :: l, spare, ok && ok')) =
    (z :: l, spare', true)).
  { intros x old' spare'. rewrite decode_int32_JInt by done.
    destruct (IH (S n) old' spare') as [sp ->]. eauto. }
  destruct old as [|x old]; [destruct spare as [|x spare]|]; apply Hstep.
Qed.

Lemma decode_string_bytes old s : decode_string old (JStr (to_bytes s)) = (s, true).
Proof. simpl. by rewrite Stdlib.Strings.String.string_of_list_ascii_of_string. Qed.

Lemma decode_map_list (l : list (string * string)) acc :
  NoDup l.*1 → (∀ k, k ∈ l.*1 → acc !! k = None) →
  decode_map acc (JObj ((λ kv : string * string, (to_bytes kv.1, JStr (to_bytes kv.2))) <$> l)) =
  (list_to_map l ∪ acc, true).
Proof.
  unfold decode_map. revert acc. induction l as [|[k v] l IH]; intros acc Hnd Hnew.
  - simpl. by rewrite map_empty_union.
  - inversion_clear Hnd as [|? ? Hk Hnd']. rewrite fmap_cons. cbn [fold_left fst snd].
    rewrite decode_string_bytes, Stdlib.Strings.String.string_of_list_ascii_of_string.
    cbn [andb]. rewrite IH; [|done|].
    + f_equal. simpl. rewrite <-insert_union_l. rewrite <-insert_union_r; [done|].
      by apply not_elem_of_list_to_map_1.
    + intros k' Hk'. rewrite lookup_insert_ne by set_solver. apply Hnew. by right.
Qed.

Lemma sorted_props_perm (m : gmap string string) : merge_sort prop_le (map_to_list m) ≡ₚ map_to_list m.
Proof. apply merge_sort_Permutation. Qed.

Lemma decode_map_props (m : gmap string string) :
  decode_map ∅ (JObj ((λ kv : string * string, (to_bytes kv.1, JStr (to_bytes kv.2))) <$>
    merge_sort prop_le (map_to_list m))) = (m, true).
Proof.
  assert (Hnd : NoDup (merge_sort prop_le (map_to_list m)).*1).
  { rewrite sorted_props_perm. apply NoDup_fst_map_to_list. }
  rewrite decode_map_list by (done || intros; apply lookup_empty).
  rewrite map_union_empty. f_equal.
  rewrite (list_to_map_proper _ (map_to_list m)); [apply list_to_map_to_list|done|apply sorted_props_perm].
Qed.

Lemma decode_encode_E2EMsg m :
  sendable m → ∃ spare, decode_E2EMsg (json_of_E2EMsg m) (E2EMsg_zero, []) = (m, spare, true).
Proof.
  intros [_ Hfrom Hto _ _]. destruct m as [ty from to props body]. simpl in *.
  destruct (decode_elems_JInt to 0 [] [] Hto) as [sp Hsp].
  exists (if bool_decide (to = []) then [] else sp). unfold decode_E2EMsg, json_of_E2EMsg.
  set (M ty from to props body := {| E2EMsg_Type := ty; E2EMsg_From := from; E2EMsg_To := to;
    E2EMsg_Props := props; E2EMsg_Body := body |}).
  cbn [E2EMsg_Type E2EMsg_From E2EMsg_To E2EMsg_Props E2EMsg_Body].
  rewrite <-(app_nil_r (omitempty _ "body" _)).
  rewrite (decode_omitempty _ _ _ "type" _ _ _ (M ty 0%Z [] ∅ "", [])), (decode_omitempty _ _ _ "from" _ _ _ (M ty from [] ∅ "", [])),
    (decode_omitempty _ _ _ "to" _ _ _ (M ty from to ∅ "", if bool_decide (to = []) then [] else sp)),
    (decode_omitempty _ _ _ "props" _ _ _ (M ty from to props "", if bool_decide (to = []) then [] else sp)),
    (decode_omitempty _ _ _ "body" _ _ _ (M ty from to props body, if bool_decide (to = []) then [] else sp));
    try reflexivity; try (intros ->%bool_decide_eq_true; done).
  - intros _. unfold decode_E2EMsg_field. simpl. by rewrite Stdlib.Strings.String.string_of_list_ascii_of_string.
  - intros _. unfold decode_E2EMsg_field. cbn -[decode_map merge_sort map_to_list]. by rewrite decode_map_props.
  - intros Hne. rewrite Hne. apply bool_decide_eq_false in Hne. destruct to as [|z to]; [done|].
    unfold decode_E2EMsg_field. cbn -[decode_elems JInt]. rewrite fmap_cons in Hsp. by rewrite Hsp.
  - intros _. unfold decode_E2EMsg_field. cbn -[decode_int32 JInt]. by rewrite decode_int32_JInt.
  - intros _. unfold decode_E2EMsg_field. simpl. by rewrite Stdlib.Strings.String.string_of_list_ascii_of_string.
Qed.

Lemma printable_JInts l : printable (JArr (JInt <$> l)).
Proof. induction l as [|z l IH]; simpl; [done|]. split; [by exists z|exact IH]. Qed.

Lemma printable_strings (l : list (string * string)) :
  Forall (λ kv, valid_utf8 (to_bytes kv.1) ∧ valid_utf8 (to_bytes kv.2)) l →
  printable (JObj ((λ kv : string * string, (to_bytes kv.1, JStr (to_bytes kv.2))) <$> l)).
Proof. induction 1 as [|kv l Hkv _ IH]; simpl; [done|]. split; [done|exact IH]. Qed.

Lemma ascii_valid (s : string) : Forall (λ c, (code c <? 128) = true) (to_bytes s) → valid_utf8 (to_bytes s).
Proof.
  intros Hs. exists ((λ c, [c]) <$> to_bytes s). split.
  - rewrite Forall_fmap. eapply Forall_impl; [exact Hs|]. intros c Hc. split; [done|]. intros t. simpl in *. by rewrite Hc.
  - clear Hs. induction (to_bytes s) as [|c l IH]; [done|]. rewrite fmap_cons. simpl. by f_equal.
Qed.

Lemma printable_omitempty (empty : bool) name j l :
  valid_utf8 (to_bytes name) → printable j → printable (JObj l) → printable (JObj (omitempty empty name j ++ l)).
Proof. intros Hn Hj Hl. unfold omitempty. destruct empty; [done|]. simpl. done. Qed.

Lemma printable_E2EMsg m : sendable m → printable (json_of_E2EMsg m).
Proof.
  intros [Ht _ _ Hp Hb]. unfold json_of_E2EMsg. rewrite <-(app_nil_r (omitempty _ "body" _)).
  repeat apply printable_omitempty; try (apply ascii_valid; by repeat constructor); try done.
  - by exists (E2EMsg_From m).
  - apply printable_JInts.
  - apply printable_strings. rewrite sorted_props_perm. apply Forall_forall. intros [k v] Hkv.
    apply elem_of_map_to_list in Hkv. by apply Hp in Hkv.
Qed.

(** * Properties *)

(** A message comes back from its own JSON text, whatever characters its strings
    hold and whatever order Go's map iteration would have. *)
Lemma E2EMsg_json_roundtrip m :
  sendable m → E2EMsg_of_json (E2EMsg_to_json m) = Some m.
Proof.
  intros Hm. unfold E2EMsg_of_json, E2EMsg_to_json.
  rewrite Stdlib.Strings.String.list_ascii_of_string_of_list_ascii.
  rewrite parse_print_value by by apply printable_E2EMsg.
  destruct (decode_encode_E2EMsg m Hm) as [spare ->]. done.
Qed.
