(* ===== verification/JsonFacts.v ===== *)
(** More about [Json.v]: the fuel of the parser never runs out, every string it
    returns is valid UTF-8, and so every decoded message can be sent again. *)

From Stdlib Require Import Ascii ZArith NArith ZifyBool Lia.
From stdpp Require Import base option list numbers gmap strings.
From S2P Require Import Prelude Proto EventApi GoLib Json.

Local Open Scope nat_scope.

(** * The parser consumes its input *)

Lemma skip_ws_length s : length (skip_ws s) ≤ length s.
Proof. induction s as [|c s IH]; simpl; [done|]. case_match; simpl; lia. Qed.

Lemma hex4_length s r t : hex4 s = Some (r, t) → length t < length s.
Proof.
  destruct s as [|a [|b [|c [|d s]]]]; simpl; try done. repeat case_match; try done.
  intros [= _ <-]. lia.
Qed.

Lemma escaped_rune_length r t : length (escaped_rune r t).2 ≤ length t.
Proof.
  unfold escaped_rune. destruct (_ && _)%bool; [|done].
  destruct (r <? 56320)%N; [|done]. destruct t as [|a [|b t]]; try done.
  destruct (_ && _)%bool; [|done]. destruct (hex4 t) as [[r2 t2]|] eqn:E; [|done].
  apply hex4_length in E. destruct (_ && _)%bool; [|done]. simpl. lia.
Qed.

Lemma parse_string_length fuel s r t : parse_string fuel s = Some (r, t) → length t < length s.
Proof.
  revert s r t. induction fuel as [|fuel IH]; intros [|c s] r t; try done.
  unfold parse_string; fold parse_string. intros Hp.
  destruct (eqc 34 c); [simplify_eq; simpl; lia|]. destruct (eqc 92 c).
  - destruct s as [|e s]; [done|]. destruct (eqc 117 e).
    + destruct (hex4 s) as [[x u]|] eqn:E; [|done]. apply hex4_length in E.
      pose proof (escaped_rune_length x u). destruct (escaped_rune x u) as [rn u'].
      destruct (parse_string fuel u') as [[r' t']|] eqn:E2; [|done]. apply IH in E2. simplify_eq/=. lia.
    + destruct (simple_escape e); [|done].
      destruct (parse_string fuel s) as [[r' t']|] eqn:E2; [|done]. apply IH in E2. simplify_eq/=. lia.
  - case_match; [done|]. destruct (rune_size (c :: s)) as [|n].
    + destruct (parse_string fuel s) as [[r' t']|] eqn:E2; [|done]. apply IH in E2. simplify_eq/=. lia.
    + destruct (parse_string fuel (drop (S n) (c :: s))) as [[r' t']|] eqn:E2; [|done].
      apply IH in E2. rewrite length_drop in E2. simplify_eq/=. lia.
Qed.

Lemma span_digits_length s : length (span_digits s).2 ≤ length s.
Proof. induction s as [|c s IH]; simpl; [done|]. case_match; [|done]. destruct (span_digits s). simpl in *. lia. Qed.

Lemma parse_number_length s j t : parse_number s = Some (j, t) → length t < length s.
Proof.
  assert (Hi : ∀ s i t, parse_int_part s = Some (i, t) → length t < length s).
  { intros [|c u] i v; simpl; [done|]. case_match; [intros [= _ <-]; simpl; lia|].
    case_match; [|done]. pose proof (span_digits_length u). destruct (span_digits u). intros [= _ <-]. simpl in *. lia. }
  assert (Hf : ∀ s i t, parse_frac s = Some (i, t) → length t ≤ length s).
  { intros [|c u] i v; simpl; [by intros [= _ <-]|]. case_match; [|by intros [= _ <-]].
    pose proof (span_digits_length u). destruct (span_digits u) as [[|] ?]; [done|]. intros [= _ <-]. simpl in *. lia. }
  assert (He : ∀ s i t, parse_exp s = Some (i, t) → length t ≤ length s).
  { intros [|c u] i v; simpl; [by intros [= _ <-]|]. case_match; [|by intros [= _ <-]].
    destruct u as [|d u]; [done|]. destruct (eqc 43 d || eqc 45 d).
    - pose proof (span_digits_length u). destruct (span_digits u) as [[|] ?]; [done|]. intros [= _ <-]. simpl in *. lia.
    - pose proof (span_digits_length (d :: u)). destruct (span_digits (d :: u)) as [[|] ?]; [done|].
      intros [= _ <-]. simpl in *. lia. }
  unfold parse_number. intros Hp.
  assert (Hsign : ∃ sign u, length u ≤ length s ∧ match parse_int_part u with
    | None => None
    | Some (i, s) => match parse_frac s with
      | None => None
      | Some (f, s) => match parse_exp s with None => None | Some (e, s) => Some (JNum (sign ++ i ++ f ++ e), s) end
      end
    end = Some (j, t)).
  { destruct s as [|c s]; [by exists [], []|]. destruct (eqc 45 c); [exists [c], s|exists [], (c :: s)]; split; [simpl; lia|done..]. }
  destruct Hsign as (sign & u & Hu & Hp').
  destruct (parse_int_part u) as [[i u1]|] eqn:E1; [|done].
  destruct (parse_frac u1) as [[f u2]|] eqn:E2; [|done].
  destruct (parse_exp u2) as [[e u3]|] eqn:E3; [|done]. simplify_eq.
  apply Hi in E1. apply Hf in E2. apply He in E3. lia.
Qed.

Lemma strip_length p s t : strip p s = Some t → length t + length p = length s.
Proof.
  revert s. induction p as [|a p IH]; intros s; simpl; [intros [= ->]; lia|].
  destruct s as [|b s]; [done|]. case_match; [|done]. intros Hs%IH. simpl. lia.
Qed.

Lemma parse_word_length w j s j' t :
  w ≠ "" → parse_word w j s = Some (j', t) → length t < length s.
Proof.
  intros Hw. unfold parse_word. destruct (strip _ s) as [u|] eqn:E; [|done]. intros [= _ <-].
  apply strip_length in E. destruct w; [done|]. simpl in E. lia.
Qed.

(** What each of the three parsers leaves is shorter than its input. *)
Lemma parse_length fuel :
  (∀ s j t, parse_value fuel s = Some (j, t) → length t < length s) ∧
  (∀ s l t, parse_elems fuel s = Some (l, t) → length t < length s) ∧
  (∀ s l t, parse_members fuel s = Some (l, t) → length t < length s).
Proof.
  induction fuel as [|fuel (IHv & IHe & IHm)]; [done|]. split_and!; intros s r t.
  - unfold parse_value; fold parse_value parse_elems parse_members.
    pose proof (skip_ws_length s) as Hs. destruct (skip_ws s) as [|c u]; [done|]. simpl in Hs.
    destruct (eqc 34 c).
    { destruct (parse_string _ u) as [[x v]|] eqn:E; [|done]. apply parse_string_length in E. intros [= _ <-]. lia. }
    destruct (eqc 91 c).
    { pose proof (skip_ws_length u). destruct (skip_ws u) as [|d v]; [done|]. destruct (eqc 93 d).
      - intros [= _ <-]. simpl in *. lia.
      - destruct (parse_elems fuel _) as [[l v']|] eqn:E; [|done]. apply IHe in E. intros [= _ <-]. simpl in *. lia. }
    destruct (eqc 123 c).
    { pose proof (skip_ws_length u). destruct (skip_ws u) as [|d v]; [done|]. destruct (eqc 125 d).
      - intros [= _ <-]. simpl in *. lia.
      - destruct (parse_members fuel _) as [[l v']|] eqn:E; [|done]. apply IHm in E. intros [= _ <-]. simpl in *. lia. }
    repeat case_match; intros Hp; first [apply parse_word_length in Hp; [simpl in Hp; lia|done]
      | apply parse_number_length in Hp; simpl in Hp; lia].
  - unfold parse_elems; fold parse_value parse_elems parse_members.
    destruct (parse_value fuel s) as [[j u]|] eqn:E; [|done]. apply IHv in E.
    pose proof (skip_ws_length u). destruct (skip_ws u) as [|c v]; [done|].
    destruct (eqc 93 c); [intros [= _ <-]; simpl in *; lia|]. destruct (eqc 44 c); [|done].
    destruct (parse_elems fuel v) as [[l w]|] eqn:E2; [|done]. apply IHe in E2. intros [= _ <-]. simpl in *. lia.
  - unfold parse_members; fold parse_value parse_elems parse_members.
    pose proof (skip_ws_length s). destruct (skip_ws s) as [|c u]; [done|]. destruct (eqc 34 c); [|done].
    destruct (parse_string _ u) as [[k v]|] eqn:E; [|done]. apply parse_string_length in E.
    pose proof (skip_ws_length v). destruct (skip_ws v) as [|d w]; [done|]. destruct (eqc 58 d); [|done].
    destruct (parse_value fuel w) as [[j x]|] eqn:E2; [|done]. apply IHv in E2.
    pose proof (skip_ws_length x). destruct (skip_ws x) as [|e y]; [done|].
    destruct (eqc 125 e); [intros [= _ <-]; simpl in *; lia|]. destruct (eqc 44 e); [|done].
    destruct (parse_members fuel y) as [[l z]|] eqn:E3; [|done]. apply IHm in E3. intros [= _ <-]. simpl in *. lia.
Qed.

Definition enough (fuel fuel' : nat) (s : list ascii) (slack : nat) : Prop :=
  2 * length s + slack ≤ fuel ∧ 2 * length s + slack ≤ fuel'.

(** With fuel for two levels per byte the result does not depend on the fuel. *)
Lemma parse_fuel fuel :
  (∀ fuel' s, enough fuel fuel' s 1 → parse_value fuel s = parse_value fuel' s) ∧
  (∀ fuel' s, enough fuel fuel' s 2 → parse_elems fuel s = parse_elems fuel' s) ∧
  (∀ fuel' s, enough fuel fuel' s 2 → parse_members fuel s = parse_members fuel' s).
Proof.
  unfold enough. induction fuel as [|fuel (IHv & IHe & IHm)]; [split_and!; intros; lia|].
  split_and!; intros [|fuel'] s [H1 H2]; try lia.
  - unfold parse_value; fold parse_value parse_elems parse_members.
    pose proof (skip_ws_length s) as Hs. destruct (skip_ws s) as [|c u]; [done|]. simpl in Hs.
    destruct (eqc 34 c); [done|]. destruct (eqc 91 c).
    { pose proof (skip_ws_length u). destruct (skip_ws u) as [|d v]; [done|]. destruct (eqc 93 d); [done|].
      rewrite (IHe fuel') by lia. done. }
    destruct (eqc 123 c); [|done].
    pose proof (skip_ws_length u). destruct (skip_ws u) as [|d v]; [done|]. destruct (eqc 125 d); [done|].
    rewrite (IHm fuel') by lia. done.
  - unfold parse_elems; fold parse_value parse_elems parse_members.
    rewrite (IHv fuel') by lia. destruct (parse_value fuel' s) as [[j u]|] eqn:E; [|done].
    apply (parse_length fuel') in E. pose proof (skip_ws_length u). destruct (skip_ws u) as [|c v]; [done|].
    destruct (eqc 93 c); [done|]. destruct (eqc 44 c); [|done]. simpl in *. rewrite (IHe fuel') by lia. done.
  - unfold parse_members; fold parse_value parse_elems parse_members.
    pose proof (skip_ws_length s). destruct (skip_ws s) as [|c u]; [done|]. destruct (eqc 34 c); [|done].
    destruct (parse_string _ u) as [[k v]|] eqn:E; [|done]. apply parse_string_length in E.
    pose proof (skip_ws_length v). destruct (skip_ws v) as [|d w]; [done|]. destruct (eqc 58 d); [|done].
    simpl in *. rewrite (IHv fuel') by lia.
    destruct (parse_value fuel' w) as [[j x]|] eqn:E2; [|done]. apply (parse_length fuel') in E2.
    pose proof (skip_ws_length x). destruct (skip_ws x) as [|e y]; [done|].
    destruct (eqc 125 e); [done|]. destruct (eqc 44 e); [|done]. simpl in *. rewrite (IHm fuel') by lia. done.
Qed.

Lemma parse_string_fuel fuel fuel' s :
  length s < fuel → length s < fuel' → parse_string fuel s = parse_string fuel' s.
Proof.
  revert fuel' s. induction fuel as [|fuel IH]; intros [|fuel'] s H1 H2; try lia.
  destruct s as [|c s]; [done|]. simpl in H1, H2. unfold parse_string; fold parse_string.
  destruct (eqc 34 c); [done|]. destruct (eqc 92 c).
  - destruct s as [|e s]; [done|]. simpl in *. destruct (eqc 117 e).
    + destruct (hex4 s) as [[x u]|] eqn:E; [|done]. apply hex4_length in E.
      pose proof (escaped_rune_length x u). destruct (escaped_rune x u) as [rn u']. simpl in *.
      by rewrite (IH fuel') by lia.
    + destruct (simple_escape e); [|done]. by rewrite (IH fuel') by lia.
  - case_match; [done|]. destruct (rune_size (c :: s)) as [|n]; [by rewrite (IH fuel') by lia|].
    rewrite (IH fuel'); [done|..]; rewrite length_drop; simpl; lia.
Qed.

(** * Decoded strings are valid *)

Lemma valid_nil : valid_utf8 [].
Proof. by exists []. Qed.

Lemma valid_cons c s : rune c → valid_utf8 s → valid_utf8 (c ++ s).
Proof. intros Hc (cs & Hcs & ->). exists (c :: cs). split; [by constructor|done]. Qed.

Lemma code_chr n : (n < 256)%N → code (chr n) = n.
Proof. apply N_ascii_embedding. Qed.

Lemma rune_ascii c : (code c < 128)%N → rune [c].
Proof. intros Hc. split; [done|]. intros t. simpl. by rewrite (proj2 (N.ltb_lt _ _) Hc). Qed.

Lemma within_chr lo hi n : (n < 256)%N → within lo hi (chr n) = ((lo <=? n) && (n <=? hi))%N.
Proof. intros Hn. unfold within. by rewrite code_chr. Qed.

Lemma eqc_chr m n : (n < 256)%N → eqc m (chr n) = (n =? m)%N.
Proof. intros Hn. unfold eqc. by rewrite code_chr. Qed.

Lemma cont_chr n : (n < 64)%N → cont (chr (128 + n)) = true.
Proof.
  intros Hn. unfold cont. rewrite within_chr by lia. apply andb_true_intro.
  split; apply N.leb_le; lia.
Qed.

(** Every code point that is no surrogate is encoded as a rune. *)
Lemma encode_rune_valid r :
  (r < 55296 ∨ 57344 ≤ r)%N → (r < 1114112)%N → rune (encode_rune r).
Proof.
  intros Hsur Hmax. unfold encode_rune.
  destruct (N.ltb_spec r 128); [apply rune_ascii; rewrite code_chr; lia|].
  assert (H64 : (r mod 64 < 64)%N) by (apply N.mod_lt; lia).
  assert (H64' : (r / 64 mod 64 < 64)%N) by (apply N.mod_lt; lia).
  assert (H64'' : (r / 4096 mod 64 < 64)%N) by (apply N.mod_lt; lia).
  pose proof (N.div_mod r 64 ltac:(done)) as E1. pose proof (N.div_mod (r / 64) 64 ltac:(done)) as E2.
  pose proof (N.div_mod (r / 4096) 64 ltac:(done)) as E3.
  rewrite N.Div0.div_div in E2, E3. change (64 * 64)%N with 4096%N in *. change (4096 * 64)%N with 262144%N in *.
  generalize dependent (r mod 64)%N. generalize dependent (r / 64 mod 64)%N. generalize dependent (r / 4096 mod 64)%N.
  generalize dependent (r / 64)%N. generalize dependent (r / 4096)%N. generalize dependent (r / 262144)%N.
  intros q3 q2 q1 m2 Hm2 E3 m1 Hm1 E2 m0 Hm0 E1.
  destruct (N.ltb_spec r 2048).
  { assert (Hq : (2 ≤ q1 < 32)%N) by lia. clear -Hq Hm0. split; [done|]. intros t. simpl.
    rewrite code_chr, within_chr, cont_chr by lia. repeat (case_match; try lia). }
  destruct (N.ltb_spec r 65536).
  { assert (Hq : (q2 < 16 ∧ (q2 = 0 → 32 ≤ m1) ∧ (q2 = 13 → m1 < 32))%N) by lia.
    clear -Hq Hm0 Hm1. split; [done|]. intros t. simpl.
    rewrite code_chr, !within_chr, !eqc_chr, !cont_chr by lia. repeat (case_match; try lia). }
  assert (Hq : (q3 ≤ 4 ∧ (q3 = 0 → 16 ≤ m2) ∧ (q3 = 4 → m2 < 16))%N) by lia.
  clear -Hq Hm0 Hm1 Hm2. split; [done|]. intros t. simpl.
  rewrite code_chr, !within_chr, !eqc_chr, !cont_chr by lia. repeat (case_match; try lia).
Qed.

Lemma rune_error_valid : rune rune_error.
Proof. apply encode_rune_valid; lia. Qed.

Lemma hex_value_lt c v : hex_value c = Some v → (v < 16)%N.
Proof.
  unfold hex_value, xdigit. destruct (_ : option Z) as [z|] eqn:E; [|done]. simpl. intros [= <-].
  repeat case_bool_decide; simplify_eq; lia.
Qed.

Lemma hex4_lt s r t : hex4 s = Some (r, t) → (r < 65536)%N.
Proof.
  destruct s as [|a [|b [|c [|d s]]]]; simpl; try done.
  destruct (hex_value a) eqn:E1, (hex_value b) eqn:E2, (hex_value c) eqn:E3, (hex_value d) eqn:E4; try done.
  apply hex_value_lt in E1, E2, E3, E4. intros [= <- _]. lia.
Qed.

Lemma escaped_rune_valid r t : (r < 65536)%N → rune (escaped_rune r t).1.
Proof.
  intros Hr. unfold escaped_rune. destruct ((55296 <=? r)%N && (r <? 57344)%N) eqn:Es.
  - destruct (r <? 56320)%N eqn:E1; [|apply rune_error_valid]. destruct t as [|a [|b t]]; try apply rune_error_valid.
    destruct (eqc 92 a && eqc 117 b); [|apply rune_error_valid].
    destruct (hex4 t) as [[r2 t2]|] eqn:E; [|apply rune_error_valid].
    destruct ((56320 <=? r2)%N && (r2 <? 57344)%N) eqn:E2; [|apply rune_error_valid].
    simpl. apply encode_rune_valid; lia.
  - simpl. apply encode_rune_valid; lia.
Qed.

Lemma simple_escape_ascii e b : simple_escape e = Some b → (code b < 128)%N.
Proof.
  unfold simple_escape. destruct (eqc 34 e || eqc 92 e || eqc 47 e) eqn:E.
  - intros [= <-]. unfold eqc in E. lia.
  - repeat case_match; intros; simplify_eq; rewrite code_chr; lia.
Qed.

Lemma parse_string_valid fuel s r t : parse_string fuel s = Some (r, t) → valid_utf8 r.
Proof.
  revert s r t. induction fuel as [|fuel IH]; intros [|c s] r t; try done.
  unfold parse_string; fold parse_string. destruct (eqc 34 c); [intros [= <- _]; apply valid_nil|].
  assert (Hcons : ∀ x u, rune x →
    match parse_string fuel u with Some (s, t) => Some (x ++ s, t) | None => None end = Some (r, t) → valid_utf8 r).
  { intros x u Hx. destruct (parse_string fuel u) as [[y v]|] eqn:E; [|done]. intros [= <- _].
    apply valid_cons; [done|]. by eapply IH. }
  destruct (eqc 92 c).
  - destruct s as [|e s]; [done|]. destruct (eqc 117 e).
    + destruct (hex4 s) as [[x u]|] eqn:E; [|done]. apply hex4_lt in E. pose proof (escaped_rune_valid x u E) as Hv.
      destruct (escaped_rune x u) as [rn u']. by apply Hcons.
    + destruct (simple_escape e) as [b|] eqn:E; [|done]. apply simple_escape_ascii in E.
      apply (Hcons [b]). by apply rune_ascii.
  - case_match; [done|]. destruct (rune_size (c :: s)) as [|n] eqn:E; [apply Hcons, rune_error_valid|].
    apply Hcons. by apply rune_size_take.
Qed.

(** All strings and keys of a value are valid. *)
Fixpoint valid_json (j : json) : Prop :=
  match j with
  | JStr s => valid_utf8 s
  | JArr l => foldr (λ x P, valid_json x ∧ P) True l
  | JObj l => foldr (λ kv P, (valid_utf8 kv.1 ∧ valid_json kv.2) ∧ P) True l
  | _ => True
  end.

Lemma parse_word_result w j s j' t : parse_word w j s = Some (j', t) → j' = j.
Proof. unfold parse_word. destruct (strip _ s); [|done]. by intros [= <- _]. Qed.

Lemma parse_number_result s j t : parse_number s = Some (j, t) → ∃ l, j = JNum l.
Proof.
  unfold parse_number. set (x := match s with [] => _ | _ => _ end). destruct x as [sign u].
  destruct (parse_int_part u) as [[]|]; [|done]. destruct (parse_frac _) as [[]|]; [|done].
  destruct (parse_exp _) as [[]|]; [|done]. intros [= <- _]. eauto.
Qed.

Lemma parse_valid fuel :
  (∀ s j t, parse_value fuel s = Some (j, t) → valid_json j) ∧
  (∀ s l t, parse_elems fuel s = Some (l, t) → valid_json (JArr l)) ∧
  (∀ s l t, parse_members fuel s = Some (l, t) → valid_json (JObj l)).
Proof.
  induction fuel as [|fuel (IHv & IHe & IHm)]; [done|]. split_and!; intros s r t.
  - unfold parse_value; fold parse_value parse_elems parse_members.
    destruct (skip_ws s) as [|c u]; [done|]. destruct (eqc 34 c).
    { destruct (parse_string _ u) as [[x v]|] eqn:E; [|done]. apply parse_string_valid in E. by intros [= <- _]. }
    destruct (eqc 91 c).
    { destruct (skip_ws u) as [|d v]; [done|]. destruct (eqc 93 d); [by intros [= <- _]|].
      destruct (parse_elems fuel _) as [[l v']|] eqn:E; [|done]. apply IHe in E. by intros [= <- _]. }
    destruct (eqc 123 c).
    { destruct (skip_ws u) as [|d v]; [done|]. destruct (eqc 125 d); [by intros [= <- _]|].
      destruct (parse_members fuel _) as [[l v']|] eqn:E; [|done]. apply IHm in E. by intros [= <- _]. }
    repeat case_match; intros Hp; first [by apply parse_word_result in Hp as -> | by apply parse_number_result in Hp as [? ->]].
  - unfold parse_elems; fold parse_value parse_elems parse_members.
    destruct (parse_value fuel s) as [[j u]|] eqn:E; [|done]. apply IHv in E.
    destruct (skip_ws u) as [|c v]; [done|]. destruct (eqc 93 c); [by intros [= <- _]|]. destruct (eqc 44 c); [|done].
    destruct (parse_elems fuel v) as [[l w]|] eqn:E2; [|done]. apply IHe in E2. by intros [= <- _].
  - unfold parse_members; fold parse_value parse_elems parse_members.
    destruct (skip_ws s) as [|c u]; [done|]. destruct (eqc 34 c); [|done].
    destruct (parse_string _ u) as [[k v]|] eqn:E; [|done]. apply parse_string_valid in E.
    destruct (skip_ws v) as [|d w]; [done|]. destruct (eqc 58 d); [|done].
    destruct (parse_value fuel w) as [[j x]|] eqn:E2; [|done]. apply IHv in E2.
    destruct (skip_ws x) as [|e y]; [done|]. destruct (eqc 125 e); [by intros [= <- _]|]. destruct (eqc 44 e); [|done].
    destruct (parse_members fuel y) as [[l z]|] eqn:E3; [|done]. apply IHm in E3. by intros [= <- _].
Qed.

Lemma parse_valid_json s j : parse s = Some j → valid_json j.
Proof.
  unfold parse. destruct (parse_value _ s) as [[j' t]|] eqn:E; [|done]. apply parse_valid in E.
  case_bool_decide; [|done]. by intros [= <-].
Qed.

(** * Decoded messages can be sent *)

Lemma valid_obj_Forall l : valid_json (JObj l) → Forall (λ kv, valid_utf8 kv.1 ∧ valid_json kv.2) l.
Proof. induction l as [|x l IH]; simpl; [done|]. intros [? ?]. constructor; [done|]. by apply IH. Qed.

(** The members keep an invariant of the structure. *)
Lemma decode_members_inv {A} (I : A → Prop) f names l a :
  (∀ a n j, I a → valid_json j → I (f a n j).1) →
  Forall (λ kv, valid_utf8 kv.1 ∧ valid_json kv.2) l → I a → I (decode_members f names l a).1.
Proof.
  intros Hf Hl Ha. unfold decode_members. generalize true. revert a Ha.
  induction Hl as [|[k j] l [_ Hj] _ IH]; intros a Ha b; simpl; [done|].
  destruct (find_field names k) as [n|]; [|by apply IH].
  specialize (Hf a n j Ha Hj). destruct (f a n j) as [a' ok]. by apply IH.
Qed.

Lemma decode_string_valid old j :
  valid_utf8 (to_bytes old) → valid_json j → valid_utf8 (to_bytes (decode_string old j).1).
Proof. destruct j; simpl; try done. by rewrite Stdlib.Strings.String.list_ascii_of_string_of_list_ascii. Qed.

Lemma decode_int32_range old j : in_int32 old → in_int32 (decode_int32 old j).1.
Proof. destruct j; simpl; try done. destruct (ParseInt _ _); [|done]. by case_bool_decide. Qed.

Lemma in_int32_0 : in_int32 0.
Proof. unfold in_int32. lia. Qed.

Lemma decode_elems_range items n old spare :
  Forall in_int32 old → Forall in_int32 spare →
  Forall in_int32 (decode_elems items n old spare).1.1 ∧ Forall in_int32 (decode_elems items n old spare).1.2.
Proof.
  revert n old spare. induction items as [|j items IH]; intros n old spare Ho Hs; simpl.
  - split; [constructor|by apply Forall_app].
  - assert (Hstep : ∀ x old spare, in_int32 x → Forall in_int32 old → Forall in_int32 spare →
      let r := (let '(x, ok) := decode_int32 x j in
        let '(l, spare, ok') := decode_elems items (S n) old spare in (x :: l, spare, ok && ok')) in
      Forall in_int32 r.1.1 ∧ Forall in_int32 r.1.2).
    { intros x o sp Hx Ho' Hs'. pose proof (decode_int32_range x j Hx) as Hz. destruct (decode_int32 x j) as [z ok].
      destruct (IH (S n) o sp Ho' Hs') as [H1 H2]. destruct (decode_elems items (S n) o sp) as [[l sp'] ok'].
      simpl in *. split; [by constructor|done]. }
    destruct Ho as [|x old]; [destruct Hs as [|x spare]|]; apply Hstep; auto using in_int32_0.
    apply Forall_replicate, in_int32_0.
Qed.

Definition sendable_state (st : pb_E2EMsg * list Z) : Prop := sendable st.1 ∧ Forall in_int32 st.2.

Lemma decode_map_valid old j :
  map_Forall (λ k v, valid_utf8 (to_bytes k) ∧ valid_utf8 (to_bytes v)) old → valid_json j →
  map_Forall (λ k v, valid_utf8 (to_bytes k) ∧ valid_utf8 (to_bytes v)) (decode_map old j).1.
Proof.
  intros Ho Hj. destruct j as [|b|z|s|l|l]; simpl; try done.
  apply valid_obj_Forall in Hj. generalize true. revert old Ho.
  induction Hj as [|[k v] l [Hk Hv] _ IH]; intros old Ho b; simpl; [done|].
  pose proof (decode_string_valid "" v valid_nil Hv) as Hs. destruct (decode_string "" v) as [x ok]. simpl in *.
  apply IH. apply map_Forall_insert_2; [|done].
  by rewrite Stdlib.Strings.String.list_ascii_of_string_of_list_ascii.
Qed.

Lemma decode_E2EMsg_field_sendable st n j :
  sendable_state st → valid_json j → sendable_state (decode_E2EMsg_field st n j).1.
Proof.
  destruct st as [m spare]. intros [Hm Hs] Hj. destruct Hm as [H1 H2 H3 H4 H5]. simpl in Hs.
  unfold decode_E2EMsg_field. repeat case_bool_decide.
  - pose proof (decode_string_valid _ _ H1 Hj). destruct (decode_string _ _). by split; [constructor|].
  - pose proof (decode_int32_range _ j H2). destruct (decode_int32 _ _). by split; [constructor|].
  - assert (Hr : Forall in_int32 (decode_int32s (E2EMsg_To m) spare j).1.1 ∧
      Forall in_int32 (decode_int32s (E2EMsg_To m) spare j).1.2).
    { destruct j as [|b|z|s|[|x l]|l]; try (by split; [|]); by apply (decode_elems_range (x :: l)). }
    destruct (decode_int32s _ _ _) as [[v sp] ok]. simpl in Hr. destruct Hr. by split; [constructor|].
  - pose proof (decode_map_valid _ _ H4 Hj). destruct (decode_map _ _). by split; [constructor|].
  - pose proof (decode_string_valid _ _ H5 Hj). destruct (decode_string _ _). by split; [constructor|].
Qed.

Lemma sendable_zero : sendable_state (E2EMsg_zero, []).
Proof. split; [|done]. constructor; simpl; auto using valid_nil, in_int32_0. apply map_Forall_empty. Qed.

Lemma decode_pointer_inv {A} (I : A → Prop) zero f names old j a :
  (∀ a n j, I a → valid_json j → I (f a n j).1) → I zero → (∀ a, old = Some a → I a) → valid_json j →
  (decode_pointer zero f names old j).1 = Some a → I a.
Proof.
  intros Hf Hz Ho Hj. assert (Hd : I (default zero old)) by (destruct old; simpl; auto).
  destruct j as [|b|z|x|l|l]; simpl; try (by intros [= <-]).
  apply valid_obj_Forall in Hj. pose proof (decode_members_inv I f names l _ Hf Hj Hd) as Hr.
  destruct (decode_members f names l (default zero old)). by intros [= <-].
Qed.

(** A request whose numbers have 32 bits and whose message can be sent. *)
Record request_typed (m : pb_ClientMsg) : Prop := {
  rt_get_events : ∀ r, ClientMsg_GetEvents m = Some r → in_int32 (FromSeq r) ∧ in_int32 (ToSeq r);
  rt_set_read : ∀ r, ClientMsg_SetRead m = Some r → in_int32 (SetReadReq_Seq r);
  rt_read_states : ∀ r, ClientMsg_GetReadStates m = Some r → in_int32 (GetReadStatesReq_HeadSeq r);
  rt_im : ∀ im, ClientMsg_Im m = Some im → sendable im
}.

Definition request_state (st : pb_ClientMsg * list Z) : Prop :=
  request_typed st.1 ∧ Forall in_int32 st.2.

Lemma decode_ClientMsg_field_typed st n j :
  request_state st → valid_json j → request_state (decode_ClientMsg_field st n j).1.
Proof.
  destruct st as [m spare]. intros [[He Hr Hs Hi] Hsp] Hj. simpl in *. unfold decode_ClientMsg_field.
  case_bool_decide; [by destruct (decode_pointer _ _ _ _ _)|].
  case_bool_decide.
  { pose proof (λ r, decode_pointer_inv (λ r, in_int32 (FromSeq r) ∧ in_int32 (ToSeq r)) {| FromSeq := 0; ToSeq := 0 |}
      GetEventsReq_field ["from_seq"; "to_seq"] (ClientMsg_GetEvents m) j r) as Hp.
    destruct (decode_pointer _ _ _ _ _) as [v ok]. do 2 (split; [|done..]). simpl. intros r.
    apply Hp; [|auto using in_int32_0|done|done]. clear. intros a n j [Ha Hb] _. unfold GetEventsReq_field. case_bool_decide.
    - pose proof (decode_int32_range _ j Ha). by destruct (decode_int32 _ _).
    - pose proof (decode_int32_range _ j Hb). by destruct (decode_int32 _ _). }
  case_bool_decide.
  { pose proof (λ r, decode_pointer_inv (λ r, in_int32 (SetReadReq_Seq r)) {| SetReadReq_Seq := 0 |}
      SetReadReq_field ["seq"] (ClientMsg_SetRead m) j r) as Hp.
    destruct (decode_pointer _ _ _ _ _) as [v ok]. split; [split; [done| |done..]|done]. simpl. intros r.
    apply Hp; [|auto using in_int32_0|done|done]. clear. intros a n j Ha _. unfold SetReadReq_field.
    pose proof (decode_int32_range _ j Ha). by destruct (decode_int32 _ _). }
  case_bool_decide.
  { pose proof (λ r, decode_pointer_inv (λ r, in_int32 (GetReadStatesReq_HeadSeq r)) {| GetReadStatesReq_HeadSeq := 0 |}
      GetReadStatesReq_field ["head_seq"] (ClientMsg_GetReadStates m) j r) as Hp.
    destruct (decode_pointer _ _ _ _ _) as [v ok]. split; [split; [done|done| |done]|done]. simpl. intros r.
    apply Hp; [|auto using in_int32_0|done|done]. clear. intros a n j Ha _. unfold GetReadStatesReq_field.
    pose proof (decode_int32_range _ j Ha). by destruct (decode_int32 _ _). }
  pose proof (λ r, decode_pointer_inv sendable_state (E2EMsg_zero, []) decode_E2EMsg_field E2EMsg_names
    ((λ im, (im, spare)) <$> ClientMsg_Im m) j r decode_E2EMsg_field_sendable sendable_zero) as Hp.
  destruct (decode_pointer _ _ _ _ _) as [v ok]. simpl in *.
  assert (Hv : ∀ r, v = Some r → sendable_state r).
  { intros r. apply Hp; [|done]. intros r' (im & Him & ->)%fmap_Some. split; [by apply Hi|done]. }
  destruct v as [[im sp]|]; (split; [split; [done..|]|]); simpl; try done.
  - intros im' [= <-]. by apply (Hv (im, sp)).
  - by apply (Hv (im, sp)).
Qed.

(** A decoded message, of a client or of the topic, has only valid UTF-8 and
    32-bit numbers, whatever the input was. *)
Lemma E2EMsg_of_json_sendable s m : E2EMsg_of_json s = Some m → sendable m.
Proof.
  unfold E2EMsg_of_json. destruct (parse (to_bytes s)) as [j|] eqn:E; [|done]. apply parse_valid_json in E.
  assert (Hs : sendable_state (decode_E2EMsg j (E2EMsg_zero, [])).1).
  { destruct j; simpl; try apply sendable_zero.
    apply (decode_members_inv sendable_state); [apply decode_E2EMsg_field_sendable|by apply valid_obj_Forall|apply sendable_zero]. }
  destruct (decode_E2EMsg _ _) as [[m' sp] ok]. destruct ok; [|done]. intros [= <-]. by destruct Hs.
Qed.

Lemma ClientMsg_of_json_typed s req o : ClientMsg_of_json s = (req, o) → request_typed req.
Proof.
  assert (Hz : request_state (ClientMsg_zero, [])) by done.
  unfold ClientMsg_of_json. destruct (parse (to_bytes s)) as [j|] eqn:E; [|by intros [= <- _]].
  apply parse_valid_json in E. destruct j as [|b|z|x|l|l]; try by intros [= <- _].
  pose proof (decode_members_inv request_state decode_ClientMsg_field ClientMsg_names l _
    decode_ClientMsg_field_typed (valid_obj_Forall l E) Hz) as Hr.
  destruct (decode_members _ _ _ _) as [[m sp] ok]. intros [= <- _]. apply Hr.
Qed.

(** With more fuel than [parse] uses the result is the same: running out of fuel
    is never the reason for a syntax error. *)
Lemma parse_enough_fuel fuel s :
  2 * length s + 2 ≤ fuel →
  match parse_value fuel s with
  | Some (j, t) => if bool_decide (skip_ws t = []) then Some j else None
  | None => None
  end = parse s.
Proof.
  intros Hf. unfold parse. destruct (parse_fuel fuel) as (Hv & _). rewrite (Hv (2 * length s + 2)); [done|].
  unfold enough. lia.
Qed.

(** * Properties *)


(** A request for events with a number that is too big for [to_seq]. *)
Definition ex_request : string :=
  of_bytes (print (json_of_request "get_events" [("from_seq", JInt 7); ("to_seq", JInt 4294967296)])).

Definition ex_decoded : pb_ClientMsg := ClientMsg_of_GetEvents {| FromSeq := 7; ToSeq := 0 |}.

