(* ===== verification/Goroutines.v ===== *)
(** The concurrency skeleton of a Go program, and a checker for it.

    A goroutine is a list of instructions: what it does to channels, locks, wait
    groups and contexts, with everything else left out and decisions that depend
    on data left to the environment ([Either], [GTick]).  [succs] enumerates the
    states that one step of some goroutine leads to.  [explore] computes a set of
    states; the lemmas of this file turn boolean checks of such a set into
    theorems about all runs. *)

From Stdlib Require Import Lia.
From stdpp Require Import base option list numbers pmap relations.
From S2P Require Import Prelude.

(** * Instructions *)

Inductive guard :=
| GRecv (c : nat) (closed : nat)   (* [case v, ok := <-c]; go to [closed] when it is closed and empty *)
| GDone (x : nat)                  (* [case <-ctx.Done()] *)
| GTick.                           (* a ticker, or a message from outside *)

Inductive instr :=
| Send (c : nat)
| Recv (c : nat)
| Close (c : nat)
| Lock (m : nat)
| Unlock (m : nat)
| RLock (m : nat)
| RUnlock (m : nat)
| WgAdd (w : nat)
| WgDone (w : nat)
| WgWait (w : nat)
| Cancel (xs : list nat)           (* a context and its children *)
| Await (x : nat)                  (* [<-ctx.Done()] *)
| Select (cases : list (guard * nat))
| Either (targets : list nat)
| Goto (l : nat)
| Go (p : nat).                    (* start goroutine [p] *)

Record program := { code : list (list instr); caps : list nat }.

(** [pcs]: 0 for a goroutine that is not started, [S n] for one that is at
    instruction [n]; it has ended when that is the end of its code.  [chans]: the
    number of messages in the buffer and whether the channel is closed.  [locks]:
    0 free, 1 held for writing, [n + 1] held by [n] readers. *)
Record gstate := {
  pcs : list nat;
  chans : list (nat * bool);
  locks : list nat;
  wgs : list nat;
  ctxs : list bool;
  panicked : bool
}.

Definition set_pc (g pc : nat) (s : gstate) : gstate := {|
  pcs := <[g := S pc]> (pcs s); chans := chans s; locks := locks s; wgs := wgs s;
  ctxs := ctxs s; panicked := panicked s |}.
Definition set_chan (c : nat) (v : nat * bool) (s : gstate) : gstate := {|
  pcs := pcs s; chans := <[c := v]> (chans s); locks := locks s; wgs := wgs s;
  ctxs := ctxs s; panicked := panicked s |}.
Definition set_lock (m v : nat) (s : gstate) : gstate := {|
  pcs := pcs s; chans := chans s; locks := <[m := v]> (locks s); wgs := wgs s;
  ctxs := ctxs s; panicked := panicked s |}.
Definition set_wg (w v : nat) (s : gstate) : gstate := {|
  pcs := pcs s; chans := chans s; locks := locks s; wgs := <[w := v]> (wgs s);
  ctxs := ctxs s; panicked := panicked s |}.
Definition set_ctx (x : nat) (s : gstate) : gstate := {|
  pcs := pcs s; chans := chans s; locks := locks s; wgs := wgs s;
  ctxs := <[x := true]> (ctxs s); panicked := panicked s |}.
Definition set_panicked (s : gstate) : gstate := {|
  pcs := pcs s; chans := chans s; locks := locks s; wgs := wgs s;
  ctxs := ctxs s; panicked := true |}.

Definition chan (s : gstate) (c : nat) : nat * bool := nth c (chans s) (0, false).
Definition lock (s : gstate) (m : nat) : nat := nth m (locks s) 0.
Definition wg (s : gstate) (w : nat) : nat := nth w (wgs s) 0.
Definition ctx (s : gstate) (x : nat) : bool := nth x (ctxs s) false.

(** The instruction that goroutine [g] is at, with its position. *)
Definition at_instr (p : program) (s : gstate) (g : nat) : option (nat * instr) :=
  match nth g (pcs s) 0 with
  | O => None
  | S n => match nth_error (nth g (code p) []) n with Some i => Some (n, i) | None => None end
  end.

(** * Steps *)

(** Where goroutines other than the sender continue when they take a message
    from an unbuffered channel. *)
Definition offer (c n : nat) (i : instr) : list nat :=
  match i with
  | Recv c' => if Nat.eqb c c' then [S n] else []
  | Select cases =>
      flat_map (λ gl : guard * nat,
        match fst gl with GRecv c' _ => if Nat.eqb c c' then [snd gl] else [] | _ => [] end) cases
  | _ => []
  end.

Definition rendezvous (p : program) (c g : nat) (s : gstate) : list gstate :=
  flat_map (λ g',
    if Nat.eqb g g' then []
    else match at_instr p s g' with
         | Some (n, i) => map (λ l, set_pc g' l s) (offer c n i)
         | None => []
         end) (seq 0 (length (pcs s))).

Definition take_guard (g : nat) (s : gstate) (gl : guard * nat) : list gstate :=
  let '(gd, l) := gl in
  match gd with
  | GRecv c closed =>
      match chan s c with
      | (S n, b) => [set_pc g l (set_chan c (n, b) s)]
      | (O, true) => [set_pc g closed s]
      | (O, false) => []
      end
  | GDone x => if ctx s x then [set_pc g l s] else []
  | GTick => [set_pc g l s]
  end.

Definition exec (p : program) (s : gstate) (g n : nat) (i : instr) : list gstate :=
  let next := set_pc g (S n) in
  match i with
  | Send c =>
      match chan s c with
      | (_, true) => [set_panicked s]
      | (k, false) =>
          if Nat.ltb k (nth c (caps p) 0) then [next (set_chan c (S k, false) s)]
          else if Nat.eqb (nth c (caps p) 0) 0 then map next (rendezvous p c g s) else []
      end
  | Recv c =>
      match chan s c with
      | (S k, b) => [next (set_chan c (k, b) s)]
      | (O, true) => [next s]
      | (O, false) => []
      end
  | Close c =>
      match chan s c with
      | (_, true) => [set_panicked s]
      | (k, false) => [next (set_chan c (k, true) s)]
      end
  | Lock m => match lock s m with O => [next (set_lock m 1 s)] | _ => [] end
  | Unlock m => [next (set_lock m 0 s)]
  | RLock m =>
      match lock s m with
      | O => [next (set_lock m 2 s)]
      | S O => []
      | S k => [next (set_lock m (S (S k)) s)]
      end
  | RUnlock m =>
      match lock s m with
      | S (S O) => [next (set_lock m 0 s)]
      | k => [next (set_lock m (pred k) s)]
      end
  | WgAdd w => [next (set_wg w (S (wg s w)) s)]
  | WgDone w => match wg s w with O => [set_panicked s] | S k => [next (set_wg w k s)] end
  | WgWait w => match wg s w with O => [next s] | _ => [] end
  | Cancel xs => [next (fold_left (λ s x, set_ctx x s) xs s)]
  | Await x => if ctx s x then [next s] else []
  | Select cases => flat_map (take_guard g s) cases
  | Either targets => map (λ l, set_pc g l s) targets
  | Goto l => [set_pc g l s]
  | Go q => [next (match nth q (pcs s) 0 with O => set_pc q 0 s | _ => s end)]
  end.

Definition step_of (p : program) (s : gstate) (g : nat) : list gstate :=
  match at_instr p s g with Some (n, i) => exec p s g n i | None => [] end.

Definition ended (p : program) (s : gstate) (g : nat) : bool :=
  match nth g (pcs s) 0 with
  | O => false
  | S n => Nat.leb (length (nth g (code p) [])) n
  end.

(** The process is over when a goroutine panicked or goroutine 0, the main one,
    has returned. *)
Definition exited (p : program) (s : gstate) : bool := panicked s || ended p s 0.

Definition succs (p : program) (s : gstate) : list gstate :=
  if exited p s then [] else flat_map (step_of p s) (seq 0 (length (pcs s))).

Definition gstep (p : program) (s s' : gstate) : Prop := In s' (succs p s).

(** * Exploration *)

Definition list_eqb {A} (eqb : A → A → bool) : list A → list A → bool :=
  fix go l k :=
    match l, k with
    | [], [] => true
    | x :: l, y :: k => eqb x y && go l k
    | _, _ => false
    end.

Definition gstate_eqb (s t : gstate) : bool :=
  list_eqb Nat.eqb (pcs s) (pcs t) &&
  list_eqb (λ x y, Nat.eqb (fst x) (fst y) && Bool.eqb (snd x) (snd y)) (chans s) (chans t) &&
  list_eqb Nat.eqb (locks s) (locks t) && list_eqb Nat.eqb (wgs s) (wgs t) &&
  list_eqb Bool.eqb (ctxs s) (ctxs t) && Bool.eqb (panicked s) (panicked t).

(** A key for a state. Two states may share a key; the sets below hold a list of
    states for each key, and membership compares states. *)
Fixpoint push_nat (n : nat) (k : positive) : positive :=
  match n with O => xO k | S n => xI (push_nat n k) end.
Definition push_bool (b : bool) (k : positive) : positive := if b then xI k else xO k.

Definition key (s : gstate) : positive :=
  fold_left (λ k n, push_nat n k) (pcs s)
    (fold_left (λ k c, push_nat (fst c) (push_bool (snd c) k)) (chans s)
      (fold_left (λ k n, push_nat n k) (locks s)
        (fold_left (λ k n, push_nat n k) (wgs s)
          (fold_left (λ k b, push_bool b k) (ctxs s) (push_bool (panicked s) 1%positive))))).

Abbreviation stateset := (Pmap (list gstate)) (only parsing).

Definition members (V : stateset) (s : gstate) : list gstate :=
  match V !! key s with Some l => l | None => [] end.
Definition mem (V : stateset) (s : gstate) : bool := existsb (gstate_eqb s) (members V s).
Definition add (s : gstate) (V : stateset) : stateset := <[key s := s :: members V s]> V.

(** The states reachable from those of the work list; nothing is proved about
    this search, its result is checked. *)
Fixpoint search (p : program) (fuel : nat) (work : list gstate) (seen : stateset) (out : list gstate)
    : list gstate :=
  match fuel with
  | O => out
  | S fuel =>
      match work with
      | [] => out
      | s :: work =>
          if mem seen s then search p fuel work seen out
          else search p fuel (succs p s ++ work) (add s seen) (s :: out)
      end
  end.

Definition explore (p : program) (fuel : nat) (s : gstate) : list gstate := search p fuel [s] ∅ [].

Definition set_of (l : list gstate) : stateset := fold_right add ∅ l.

(** [l] contains [s0] and every successor of its elements, which all satisfy [inv]. *)
Definition check_invariant (p : program) (s0 : gstate) (l : list gstate) (inv : gstate → bool) : bool :=
  let V := set_of l in
  mem V s0 && forallb (λ s, inv s && forallb (mem V) (succs p s)) l.

(** One pass of a backward search: [V] holds states that can reach the goal; the
    states of [l] with a successor in [V] are added, the others returned. *)
Definition backward (p : program) (l : list gstate) (V : stateset) : stateset * list gstate :=
  fold_right (λ s acc,
    if existsb (mem (fst acc)) (succs p s) then (add s (fst acc), snd acc)
    else (fst acc, s :: snd acc)) (V, []) l.

Fixpoint unreachable_from (p : program) (fuel : nat) (l : list gstate) (V : stateset) : list gstate :=
  match fuel, l with
  | O, _ | _, [] => l
  | S fuel, _ => let '(V, l) := backward p l V in unreachable_from p fuel l V
  end.

(** The closed set [l] satisfies [inv], and from every state in it, but those that
    satisfy [except], a state that satisfies [goal] can be reached. *)
Definition check_possible (p : program) (s0 : gstate) (fuel : nat) (l : list gstate)
    (inv except goal : gstate → bool) : bool :=
  check_invariant p s0 l inv &&
  forallb except
    (unreachable_from p fuel (filter (λ s, goal s = false) l) (set_of (filter (λ s, goal s = true) l))).

(** A run given by a schedule: the goroutine of each step and which of its
    enabled alternatives it takes. *)
Fixpoint run_schedule (p : program) (sched : list (nat * nat)) (s : gstate) : option gstate :=
  match sched with
  | [] => Some s
  | (g, k) :: sched =>
      if exited p s then None
      else match nth_error (step_of p s g) k with
           | Some s' => run_schedule p sched s'
           | None => None
           end
  end.

(** * Soundness *)

Lemma list_eqb_eq {A} (eqb : A → A → bool) :
  (∀ x y, eqb x y = true → x = y) → ∀ l k, list_eqb eqb l k = true → l = k.
Proof.
  intros Heq l. induction l as [|x l IH]; intros [|y k]; try done. simpl.
  intros [H1 H2]%andb_prop. f_equal; auto.
Qed.

Lemma gstate_eqb_eq s t : gstate_eqb s t = true → s = t.
Proof.
  destruct s, t. unfold gstate_eqb. simpl. rewrite !andb_true_iff. intros (((((H1 & H2) & H3) & H4) & H5) & H6).
  f_equal; try (by eapply list_eqb_eq; [|eassumption]; intros ??; apply Nat.eqb_eq).
  - eapply list_eqb_eq; [|exact H2]. intros [] [] [?%Nat.eqb_eq ?%Bool.eqb_prop]%andb_prop. by simplify_eq/=.
  - eapply list_eqb_eq; [|exact H5]. apply Bool.eqb_prop.
  - by apply Bool.eqb_prop.
Qed.

Lemma mem_members (V : stateset) s : mem V s = true → In s (members V s).
Proof. unfold mem. intros (t & Ht & ->%gstate_eqb_eq)%existsb_exists. done. Qed.

(** Every state in the set satisfies [P]. *)
Definition all_in (P : gstate → Prop) (V : stateset) : Prop := ∀ s t, In t (members V s) → P t.

Lemma all_in_mem P V s : all_in P V → mem V s = true → P s.
Proof. intros HP Hs%mem_members. eauto. Qed.

Lemma all_in_empty P : all_in P ∅.
Proof. intros s t. unfold members. by rewrite lookup_empty. Qed.

Lemma all_in_add P V s : P s → all_in P V → all_in P (add s V).
Proof.
  intros Hs HV t u. unfold members at 1, add. destruct (decide (key s = key t)) as [E|E].
  - rewrite E, lookup_insert_eq. intros [->|Hu]; [done|]. eauto.
  - rewrite lookup_insert_ne by done. apply HV.
Qed.

Lemma all_in_set_of P l : (∀ s, In s l → P s) → all_in P (set_of l).
Proof.
  induction l as [|s l IH]; intros Hl; simpl; [apply all_in_empty|].
  apply all_in_add; [apply Hl; by left|]. apply IH. intros t Ht. apply Hl. by right.
Qed.

(** A checked invariant holds in every reachable state. *)
Lemma check_invariant_sound p s0 l inv s :
  check_invariant p s0 l inv = true → rtc (gstep p) s0 s → In s l ∧ inv s = true.
Proof.
  unfold check_invariant. intros [H0 Hall]%andb_prop Hr. rewrite forallb_forall in Hall.
  assert (Hin : ∀ t, mem (set_of l) t = true → In t l).
  { intros t. apply (all_in_mem (λ t, In t l)). by apply all_in_set_of. }
  assert (Hl : In s l).
  { apply Hin in H0. induction Hr as [|s1 s2 s3 Hs _ IH]; [done|]. apply IH.
    apply Hall in H0 as [_ Hsucc]%andb_prop. rewrite forallb_forall in Hsucc. by apply Hin, Hsucc. }
  split; [done|]. by apply Hall in Hl as [? _]%andb_prop.
Qed.

Definition possible (p : program) (goal : gstate → bool) (s : gstate) : Prop :=
  ∃ t, rtc (gstep p) s t ∧ goal t = true.

Lemma possible_succ p goal V s :
  all_in (possible p goal) V → existsb (mem V) (succs p s) = true → possible p goal s.
Proof.
  intros HV (t & Ht & Hm)%existsb_exists. destruct (all_in_mem _ _ _ HV Hm) as (u & Hu & Hg).
  exists u. split; [|done]. by eapply rtc_l.
Qed.

Lemma backward_sound p goal l V :
  all_in (possible p goal) V →
  all_in (possible p goal) (backward p l V).1 ∧
  (∀ s, In s l → possible p goal s ∨ In s (backward p l V).2).
Proof.
  intros HV. induction l as [|s l [IH1 IH2]]; simpl; [done|].
  fold (backward p l V) in *. destruct (existsb _ _) eqn:E; simpl.
  - pose proof (possible_succ _ _ _ _ IH1 E) as Hs. split; [by apply all_in_add|].
    intros t [<-|Ht]; [by left|]. by apply IH2.
  - split; [done|]. intros t [<-|Ht]; [by right; left|]. destruct (IH2 t Ht); [by left|right; by right].
Qed.

Lemma unreachable_from_sound p goal fuel l V :
  all_in (possible p goal) V →
  ∀ s, In s l → possible p goal s ∨ In s (unreachable_from p fuel l V).
Proof.
  revert l V. induction fuel as [|fuel IH]; intros l V HV s Hs; [by right|].
  destruct l as [|s0 l]; [done|]. unfold unreachable_from; fold unreachable_from.
  destruct (backward_sound p goal (s0 :: l) V HV) as [H1 H2].
  destruct (backward p (s0 :: l) V) as [V' l']. simpl in H1, H2.
  destruct (H2 s Hs) as [|Hin]; [by left|]. by apply IH.
Qed.

(** From every reachable state that is no exception the goal can be reached. *)
Lemma check_possible_sound p s0 fuel l inv except goal s :
  check_possible p s0 fuel l inv except goal = true → rtc (gstep p) s0 s →
  inv s = true ∧ (except s = true ∨ possible p goal s).
Proof.
  unfold check_possible. intros [Hinv Hu]%andb_prop Hr.
  destruct (check_invariant_sound _ _ _ _ _ Hinv Hr) as [Hl Hi]. split; [done|].
  destruct (goal s) eqn:Eg; [right; exists s; split; [apply rtc_refl|done]|].
  rewrite forallb_forall in Hu.
  edestruct (unreachable_from_sound p goal fuel) as [Hp|Hin]; [| |by right; exact Hp|left; exact (Hu s Hin)].
  - apply all_in_set_of. intros t Ht. apply list_elem_of_In, list_elem_of_filter in Ht as [? _].
    exists t. split; [apply rtc_refl|done].
  - by apply list_elem_of_In, list_elem_of_filter; rewrite list_elem_of_In.
Qed.

Lemma step_of_gstep p s g s' : exited p s = false → In s' (step_of p s g) → gstep p s s'.
Proof.
  intros Hx Hin. unfold gstep, succs. rewrite Hx. apply in_flat_map. exists g. split; [|done].
  apply in_seq. split; [lia|]. simpl. destruct (decide (g < length (pcs s))) as [|Hg]; [done|].
  unfold step_of, at_instr in Hin. rewrite nth_overflow in Hin by lia. done.
Qed.

Lemma run_schedule_sound p sched s s' :
  run_schedule p sched s = Some s' → rtc (gstep p) s s'.
Proof.
  revert s. induction sched as [|[g k] sched IH]; intros s; simpl.
  - intros [= ->]. apply rtc_refl.
  - destruct (exited p s) eqn:Ex; [done|]. destruct (nth_error _ k) as [s1|] eqn:E; [|done]. intros Hr.
    eapply rtc_l; [|by apply IH]. eapply step_of_gstep; [done|]. by eapply nth_error_In.
Qed.

(** * A goroutine that waits for itself

    When goroutine [g] sends on an unbuffered channel from which no other
    goroutine ever receives, it never gets past that instruction. *)

Definition targets (n : nat) (i : instr) : list nat :=
  match i with
  | Select cases => flat_map (λ gl : guard * nat,
      match fst gl with GRecv _ closed => [closed; snd gl] | _ => [snd gl] end) cases
  | Either ts => ts
  | Goto l => [l]
  | _ => [S n]
  end.

(** No instruction of a goroutine other than [g] can take from channel [c]. *)
Definition no_receiver (p : program) (g c : nat) : Prop :=
  ∀ g' n i, g' ≠ g → nth_error (nth g' (code p) []) n = Some i → offer c n i = [].

(** The instructions of [g] before [n] continue at most at [n]. *)
Definition leads_to (p : program) (g n : nat) : Prop :=
  ∀ m i, m < n → nth_error (nth g (code p) []) m = Some i → Forall (λ l, l ≤ n) (targets m i).

Definition pc_le (g n : nat) (s : gstate) : Prop := nth g (pcs s) 0 ≤ S n.

Lemma at_instr_pc p s g m i :
  at_instr p s g = Some (m, i) → nth g (pcs s) 0 = S m ∧ nth_error (nth g (code p) []) m = Some i.
Proof.
  unfold at_instr. destruct (nth g (pcs s) 0) as [|k]; [done|].
  destruct (nth_error _ k) eqn:E; [|done]. intros [= <- <-]. done.
Qed.

Lemma nth_insert_list (l : list nat) g k v : nth g (<[k := v]> l) 0 = v ∨ nth g (<[k := v]> l) 0 = nth g l 0.
Proof.
  rewrite !nth_lookup. destruct (decide (g = k)) as [->|Hne].
  - destruct (decide (k < length l)) as [Hk|Hk].
    + left. by rewrite list_lookup_insert_eq.
    + right. by rewrite list_insert_ge by lia.
  - right. by rewrite list_lookup_insert_ne by done.
Qed.

Lemma set_pc_ne g k l s : g ≠ k → nth g (pcs (set_pc k l s)) 0 = nth g (pcs s) 0.
Proof. intros Hne. simpl. rewrite !nth_lookup. by rewrite list_lookup_insert_ne by done. Qed.

Lemma set_pc_le g n k l s : pc_le g n s → (g = k → l ≤ n) → pc_le g n (set_pc k l s).
Proof.
  unfold pc_le. intros Hs Hl. destruct (decide (g = k)) as [->|Hne]; [|by rewrite set_pc_ne].
  simpl. destruct (nth_insert_list (pcs s) k k (S l)) as [->| ->]; [|done]. specialize (Hl eq_refl). lia.
Qed.

(** The goroutines that a sender can meet, and where they continue. *)
Lemma rendezvous_In p c g s s' :
  In s' (rendezvous p c g s) →
  ∃ g' m i l, g' ≠ g ∧ at_instr p s g' = Some (m, i) ∧ In l (offer c m i) ∧ s' = set_pc g' l s.
Proof.
  unfold rendezvous. intros (g' & _ & Hin)%in_flat_map. destruct (Nat.eqb_spec g g'); [done|].
  destruct (at_instr p s g') as [[m i]|] eqn:E; [|done]. apply in_map_iff in Hin as (l & <- & Hl).
  by exists g', m, i, l.
Qed.

Lemma offer_targets c m i l : In l (offer c m i) → In l (targets m i).
Proof.
  destruct i; simpl; try done.
  - by destruct (Nat.eqb c c0).
  - intros (gl & Hgl & Hl)%in_flat_map. apply in_flat_map. exists gl. split; [done|].
    destruct (fst gl); try done. destruct (Nat.eqb c c0); [|done]. destruct Hl as [<-|[]]. by right; left.
Qed.

Lemma pcs_cancel xs s : pcs (fold_left (λ s x, set_ctx x s) xs s) = pcs s.
Proof. revert s. induction xs as [|x xs IH]; intros s; simpl; [done|]. by rewrite IH. Qed.

Section SelfSend.
Variables (p : program) (g n c : nat).
Hypothesis Hsend : nth_error (nth g (code p) []) n = Some (Send c).
Hypothesis Hcap : nth c (caps p) 0 = 0.
Hypothesis Hrecv : no_receiver p g c.
Hypothesis Hlead : leads_to p g n.

(** Where [g] can go from the instruction it is at, when it is not at [n]. *)
Lemma lead_target s m i l :
  pc_le g n s → at_instr p s g = Some (m, i) → In l (targets m i) → i ≠ Send c ∨ m ≠ n → l ≤ n.
Proof.
  intros Hle [Hpc Hi]%at_instr_pc Hl Hne. unfold pc_le in Hle. rewrite Hpc in Hle.
  assert (Hm : m < n). { destruct (decide (m = n)) as [->|]; [|lia]. rewrite Hsend in Hi. naive_solver. }
  pose proof (Hlead m i Hm Hi) as HF. rewrite Forall_forall in HF. by apply HF, list_elem_of_In.
Qed.

(** Nobody meets the goroutine at that instruction. *)
Lemma self_send_alone s : rendezvous p c g s = [].
Proof.
  destruct (rendezvous p c g s) as [|s' r] eqn:E; [done|]. exfalso.
  assert (Hin : In s' (rendezvous p c g s)) by (rewrite E; by left).
  apply rendezvous_In in Hin as (g' & m & i & l & Hne & [_ Hi]%at_instr_pc & Hl & _).
  by rewrite (Hrecv g' m i Hne Hi) in Hl.
Qed.

(** A meeting moves the receiver, which may be [g], to one of its targets. *)
Lemma rendezvous_pc_le c' k s s' : pc_le g n s → In s' (rendezvous p c' k s) → pc_le g n s'.
Proof.
  intros Hle (g' & m & i & l & _ & Hat & Hl & ->)%rendezvous_In. apply set_pc_le; [done|]. intros <-.
  eapply lead_target; [done..|by apply offer_targets in Hl|]. left. intros ->. done.
Qed.

Lemma take_guard_pc_le k s s' gl :
  pc_le g n s → In s' (take_guard k s gl) →
  (g = k → snd gl ≤ n ∧ match fst gl with GRecv _ closed => closed ≤ n | _ => True end) → pc_le g n s'.
Proof.
  destruct gl as [gd l]. simpl. intros Hle Hin Hl.
  destruct gd as [c' cl|x|]; simpl in *; repeat case_match; try done;
    destruct Hin as [<-|[]]; (apply set_pc_le; [done|]); intros; by apply Hl.
Qed.

Lemma Select_targets m cases gl :
  In gl cases → In (snd gl) (targets m (Select cases)) ∧
  match fst gl with GRecv _ closed => In closed (targets m (Select cases)) | _ => True end.
Proof.
  intros Hgl. split.
  - apply in_flat_map. exists gl. split; [done|]. destruct (fst gl); [by right; left|by left..].
  - destruct gl as [[] l]; simpl; try done. apply in_flat_map. eexists. split; [done|]. by left.
Qed.

(** One step of goroutine [k] keeps [g] at or before [n]. *)
Lemma step_pc_le s k s' : pc_le g n s → In s' (step_of p s k) → pc_le g n s'.
Proof.
  unfold step_of. intros Hle. destruct (at_instr p s k) as [[m i]|] eqn:Hat; [|done].
  assert (K : ∀ l, In l (targets m i) → i ≠ Send c ∨ m ≠ n → g = k → l ≤ n).
  { intros l Hl Hne Hk. rewrite <-Hk in Hat. by eapply lead_target. }
  assert (Hnext : ∀ t, In (S m) (targets m i) → i ≠ Send c ∨ m ≠ n → pc_le g n t → pc_le g n (set_pc k (S m) t)).
  { intros t Hin Hne Ht. apply set_pc_le; [done|]. auto. }
  destruct i as [c0|c0|c0|l0|l0|l0|l0|w|w|w|xs|x|cases|ts|l|q]; simpl.
  all: intros Hin.
  all: try (repeat case_match; simpl in Hin; try done; destruct Hin as [<-|[]];
            first [exact Hle | apply Hnext; [by left|by left|exact Hle]]; fail).
  - (* Send *)
    destruct (chan s c0) as [q []]; [by destruct Hin as [<-|[]]|].
    destruct (decide (c0 = c ∧ m = n ∧ k = g)) as [(-> & -> & ->)|Hne].
    + rewrite Hcap in Hin. simpl in Hin. by rewrite self_send_alone in Hin.
    + assert (Hn : ∀ t, pc_le g n t → pc_le g n (set_pc k (S m) t)).
      { intros t Ht. apply set_pc_le; [done|]. intros Hk. apply K; [by left| |done].
        destruct (decide (c0 = c)) as [->|]; [|left; congruence]. right. naive_solver. }
      repeat case_match; try done; [by destruct Hin as [<-|[]]; apply Hn|].
      apply in_map_iff in Hin as (t & <- & Ht). apply Hn. by eapply rendezvous_pc_le.
  - (* Cancel *)
    destruct Hin as [<-|[]]. apply Hnext; [by left|by left|]. unfold pc_le in *.
    rewrite pcs_cancel. done.
  - (* Select *)
    apply in_flat_map in Hin as (gl & Hgl & Hin). eapply take_guard_pc_le; [done..|]. intros Hk.
    destruct (Select_targets m cases gl Hgl) as [H1 H2]. split; [apply K; [done|by left|done]|].
    destruct (fst gl); try done. apply K; [done|by left|done].
  - (* Either *)
    apply in_map_iff in Hin as (l & <- & Hl). apply set_pc_le; [done|]. intros Hk. apply K; [done|by left|done].
  - (* Goto *)
    destruct Hin as [<-|[]]. apply set_pc_le; [done|]. intros Hk. apply K; [by left|by left|done].
  - (* Go *)
    destruct Hin as [<-|[]]. apply Hnext; [by left|by left|]. case_match; [|done]. apply set_pc_le; [done|lia].
Qed.

Lemma never_past s0 s : pc_le g n s0 → rtc (gstep p) s0 s → pc_le g n s.
Proof.
  intros H0. induction 1 as [|s1 s2 s3 Hs _ IH]; [done|]. apply IH.
  unfold gstep, succs in Hs. case_match; [done|]. apply in_flat_map in Hs as (k & _ & Hin). by eapply step_pc_le.
Qed.
End SelfSend.

(** The hypotheses above as a check of the program. *)
Definition check_self_send (p : program) (g n c : nat) : bool :=
  match nth_error (nth g (code p) []) n with
  | Some (Send c') => Nat.eqb c c'
  | _ => false
  end &&
  Nat.eqb (nth c (caps p) 0) 0 &&
  forallb (λ g', Nat.eqb g' g ||
    forallb (λ i, match offer c 0 i with [] => true | _ => false end) (nth g' (code p) []))
    (seq 0 (length (code p))) &&
  forallb (λ m, match nth_error (nth g (code p) []) m with
                | Some i => forallb (λ l, Nat.leb l n) (targets m i)
                | None => true
                end) (seq 0 n).

Lemma offer_nil_pos c i m m' : offer c m i = [] → offer c m' i = [].
Proof. destruct i; simpl; try done. by destruct (Nat.eqb c c0). Qed.

Lemma check_self_send_sound p g n c s0 s :
  check_self_send p g n c = true → pc_le g n s0 → rtc (gstep p) s0 s → pc_le g n s.
Proof.
  unfold check_self_send. rewrite !andb_true_iff. intros (((H1 & H2) & H3) & H4).
  rewrite forallb_forall in H3, H4. apply (never_past p g n c).
  - destruct (nth_error _ n) as [[]|]; try done. by apply Nat.eqb_eq in H1 as ->.
  - by apply Nat.eqb_eq.
  - intros g' m i Hne Hi. destruct (decide (g' < length (code p))) as [Hg|Hg].
    + specialize (H3 g'). rewrite in_seq, orb_true_iff, Nat.eqb_eq in H3.
      destruct H3 as [|H3]; [lia|done|]. rewrite forallb_forall in H3.
      specialize (H3 i (nth_error_In _ _ Hi)). destruct (offer c 0 i) eqn:E; [|done].
      by eapply offer_nil_pos.
    + rewrite (nth_overflow (code p)) in Hi by lia. by destruct m.
  - intros m i Hm Hi. specialize (H4 m). rewrite in_seq, Hi, forallb_forall in H4.
    apply Forall_forall. intros l Hl%list_elem_of_In. apply Nat.leb_le, H4; [lia|done].
Qed.
