(* ===== verification/Shutdown.v ===== *)
(** How the processes stop: the goroutines of [main.go], [cluster/cluster.go],
    [cluster/client.go], [cluster/server.go], [cluster/eventstore.go],
    [cluster/standalone.go] and [ws/hub.go], [ws/handler.go] as programs of
    [Goroutines.v].

    Every list below is one goroutine; the comment on an instruction names the
    statement it stands for.  What a goroutine computes between two instructions
    is in the other files. *)

From Stdlib Require Import Lia.
From stdpp Require Import base option list numbers pmap relations.
From S2P Require Import Prelude Goroutines.

(** * Parts shared by the systems *)

(** The goroutine that the first [SIGTERM] starts in [main.run]; channel 0 is
    [stopNotifyChan]. Context 0 is the one of [run], the others derive from it. *)
Definition main_stop (ctxs : list nat) : list instr :=
  [ Cancel ctxs;      (* cancel() *)
    Recv 0;           (* <-stopNotifyChan *)
    Close 0 ].        (* close(stopNotifyChan); db.Close(); close(sigCh) ends [run] *)

(** [storage.consumeLoop] and [storage.deleteLoop], as far as the shutdown sees
    them: fetching, saving and committing return when the context is cancelled. *)
Definition storage_worker (wg : nat) : list instr :=
  [ WgAdd wg;                            (* s.wg.Add(1) *)
    Select [(GDone 0, 2); (GTick, 1)];   (* the loop *)
    WgDone wg ].                         (* defer s.wg.Done() *)

(** [storage.sendLoop] with [cache.check]; [push] is the channel of the heads. *)
Definition storage_sendLoop (wg push : nat) : list instr :=
  [ WgAdd wg;                            (* s.wg.Add(1) *)
    Select [(GDone 0, 5); (GTick, 2)];   (* ctx.Done() or the ticker *)
    Either [3; 1];                       (* len(out) > 0 *)
    Send push;                           (* c.pushChan <- ... *)
    Goto 1;
    WgDone wg ].                         (* defer s.wg.Done() *)

(** [storage.run]: [consume], [send] and [delete] are the goroutines it starts;
    its first instruction is at position [base] of the goroutine that calls it. *)
Definition storage_run (base wg stop consume send delete : nat) : list instr :=
  [ Go consume; Go send;                 (* go s.consumeLoop(ctx); go s.sendLoop(ctx) *)
    Either [base + 3; base + 4];         (* if s.cleanEvents *)
    Go delete;                           (* go s.deleteLoop(ctx) *)
    Await 0;                             (* <-ctx.Done() *)
    WgWait wg;                           (* kafkaReader.Close(); s.wg.Wait() *)
    Send stop ].                         (* stopDoneNotifyC <- struct{}{} *)

(** * A dedicated follower, without sessions *)

(** Channels: 0 [stopNotifyChan], 1 [hubStopDoneC], 2 [sendMsgChan],
    3 [recvMsgChan].
    Wait groups: 0 [Cluster.wg], 1 [client.wg]. Context 1 is the client's. *)

Definition follower_Cluster_Run : list instr :=
  [ Go 2;             (* go m.runClient(ctx) *)
    WgWait 0;         (* m.wg.Wait() *)
    Send 0 ].         (* stopNotifyCh <- struct{}{} *)

Definition runClient : list instr :=
  [ WgAdd 0;                             (*  0 m.wg.Add(1) *)
    Go 3;                                (*  1 go m.conf.Hub.Run(...) *)
    WgAdd 1;                             (*  2 start(): m.wg.Add(1) *)
    Go 4;                                (*  3 go m.sendLoop() *)
    Select [(GTick, 5);                  (*  4 m.routeClient.Recv(): a message, *)
            (GDone 1, 8);                (*    cancelled, *)
            (GTick, 7); (GTick, 8);      (*    ServerShutdown, the end of the stream, *)
            (GTick, 4)];                 (*    or another error: time.Sleep(time.Second) *)
    Send 2;                              (*  5 m.sendMsgChan <- msg *)
    Goto 4;                              (*  6 *)
    Go 5;                                (*  7 go m.stop() *)
    WgDone 1;                            (*  8 defer m.wg.Done() *)
    Cancel [1];                          (*  9 Offline(); client.stop(): m.ctx_cancel() *)
    WgWait 1;                            (* 10 m.wg.Wait() *)
    Recv 1;                              (* 11 <-hubStopDoneC *)
    Close 1;                             (* 12 close(hubStopDoneC) *)
    WgDone 0 ].                          (* 13 m.wg.Done() *)

Definition follower_Hub_Run : list instr :=
  [ Select [(GDone 0, 2); (GRecv 2 3, 1)];
    Goto 0;
    Send 1 ].                            (* hstore.close(); stopDoneNotifyC <- struct{}{} *)

Definition client_sendLoop : list instr :=
  [ WgAdd 1;                             (* m.wg.Add(1) *)
    Select [(GDone 1, 3); (GRecv 3 3, 2)];
    Goto 1;                              (* m.routeClient.SendMsg(msg) *)
    WgDone 1 ].

Definition client_stop : list instr :=
  [ Cancel [1]; WgWait 1 ].

Definition follower_system : program := {|
  code := [main_stop [0; 1]; follower_Cluster_Run; runClient; follower_Hub_Run; client_sendLoop; client_stop];
  caps := [0; 0; 8; 8] |}.

Definition follower_init : gstate := {|
  pcs := [1; 1; 0; 0; 0; 0];
  chans := [(0, false); (0, false); (0, false); (0, false)];
  locks := []; wgs := [0; 0]; ctxs := [false; false]; panicked := false |}.

(** * A dedicated leader *)

(** Channels: 0 [stopNotifyChan], 1 [storageStopDoneC], 2 [serverStopDoneC],
    3 [sendMsgChan], 4 [recvMsgChan]. Wait groups: 0 [Cluster.wg], 1 [storage.wg],
    2 [pushServer.wg]. *)

Definition leader_Cluster_Run : list instr :=
  [ Go 2;             (* go m.runLeader(ctx) *)
    WgWait 0;         (* m.wg.Wait() *)
    Send 0 ].         (* stopNotifyCh <- struct{}{} *)

(** [runLeader]: [s.run] is an ordinary call, so its instructions are part of
    this goroutine; the deferred function follows. *)
Definition runLeader : list instr :=
  [ WgAdd 0;          (* m.wg.Add(1) *)
    Go 3 ] ++         (* go m.pushGrpcServer.run(ctx, serverStopDoneC) *)
  storage_run 2 1 1 5 6 7 ++
  [ Send 3;           (* m.sendMsgChan <- &pb.LeaderMsg{ServerShutdown: true} *)
    Recv 1;           (* <-storageStopDoneC *)
    Close 1;          (* close(storageStopDoneC) *)
    Recv 2;           (* <-serverStopDoneC; GracefulStop(); Shutdown() *)
    Close 3;          (* close(m.sendMsgChan) *)
    Close 4;          (* close(m.recvMsgChan) *)
    WgDone 0 ].       (* m.wg.Done() *)

Definition pushServer_run : list instr :=
  [ Go 4;                                     (* go s.cleanSessionLoop(ctx) *)
    Select [(GRecv 3 3, 2); (GDone 0, 3)];
    Goto 1;                                   (* pushToFollower ... *)
    WgWait 2;                                 (* defer: s.wg.Wait() *)
    Send 2 ].                                 (* stopDoneNotifyC <- struct{}{} *)

Definition cleanSessionLoop : list instr :=
  [ WgAdd 2; Select [(GDone 0, 2); (GTick, 1)]; WgDone 2 ].

Definition leader_system : program := {|
  code := [main_stop [0]; leader_Cluster_Run; runLeader; pushServer_run; cleanSessionLoop;
           storage_worker 1; storage_sendLoop 1 3; storage_worker 1];
  caps := [0; 0; 0; 8; 8] |}.

Definition leader_init : gstate := {|
  pcs := [1; 1; 0; 0; 0; 0; 0; 0];
  chans := [(0, false); (0, false); (0, false); (0, false); (0, false)];
  locks := []; wgs := [0; 0; 0]; ctxs := [false]; panicked := false |}.

(** * A standalone server *)

(** Channels: 0 [stopNotifyChan], 1 [storageStopDoneC], 2 [hubStopDoneC],
    3 [sendMsgChan], 4 [recvMsgChan], all unbuffered. Lock 0 is the one of the
    [HandlerStore], lock 1 that of one [Handler]. Wait group 0 is [storage.wg].
    [busy]: there can be heads to push and sessions to kick off. *)
Section Busy.
Variable busy : bool.

Definition Standalone_Run : list instr :=
  [ Go 2;                                      (*  0 go s.storage.run(...) *)
    Go 5;                                      (*  1 go s.conf.Hub.Run(...); Online() *)
    Select [(GDone 0, 6); (GTick, 3);          (*  2 ctx.Done(), ticker.C, *)
            (GRecv 4 6, 3)];                   (*    recvMsgChan *)
    Either (if busy then [4; 2] else [2]);     (*  3 sessions to kick off? *)
    Send 3;                                    (*  4 kickoff: s.sendMsgChan <- msg *)
    Goto 2;                                    (*  5 *)
    Recv 1; Close 1;                           (*  6 <-storageStopDoneC; close *)
    Recv 2; Close 2;                           (*  8 <-hubStopDoneC; close *)
    Close 3; Close 4;                          (* 10 close(s.sendMsgChan); close(s.recvMsgChan) *)
    Send 0 ].                                  (* 12 stopNotifyCh <- struct{}{} *)

Definition alone_sendLoop : list instr :=
  if busy then storage_sendLoop 0 3 else storage_worker 0.

(** [Hub.Run]: a message of the leader can concern the handler of lock 1. *)
Definition alone_Hub_Run : list instr :=
  [ Select [(GDone 0, 10); (GRecv 3 16, 1)];   (*  0 ctx.Done(), leaderC *)
    RLock 0; RUnlock 0;                        (*  1 hstore.get(sid), getByUid(uid) *)
    Either [4; 0];                             (*  3 is it the handler? *)
    Lock 1; Unlock 1;                          (*  4 appendDataChan *)
    Either [7; 0];                             (*  6 a kick-off? *)
    Lock 0; Unlock 0;                          (*  7 hstore.del(sid) *)
    Goto 0;                                    (*  9 *)
    RLock 0;                                   (* 10 hstore.close(): hs.RLock() *)
    Either [12; 14];                           (* 11 is the handler in the map? *)
    Lock 1; Unlock 1;                          (* 12 h.close(ServerStop) *)
    RUnlock 0;                                 (* 14 *)
    Send 2 ].                                  (* 15 stopDoneNotifyC <- struct{}{} *)

(** [Handler.close] of a session whose connection broke. *)
Definition alone_Handler_close : list instr :=
  [ Lock 1;                                    (* h.Lock(); closing = true; close(h.dataChan) *)
    Lock 0; Unlock 0;                          (* hub.delHandler: hstore.del(sid) *)
    Either [4; 5];                             (* was it still there? *)
    Send 4;                                    (* h.followerC <- SessionOffline *)
    Unlock 1 ].

Definition alone_system : program := {|
  code := [main_stop [0]; Standalone_Run; storage_run 0 0 1 3 4 7; storage_worker 0; alone_sendLoop;
           alone_Hub_Run; alone_Handler_close; storage_worker 0];
  caps := [0; 0; 0; 0; 0] |}.

(** [broken]: the connection of the handler breaks at some point. *)
Definition alone_init (broken : bool) : gstate := {|
  pcs := [1; 1; 0; 0; 0; 0; if broken then 1 else 0; 0];
  chans := [(0, false); (0, false); (0, false); (0, false); (0, false)];
  locks := [0; 0]; wgs := [0]; ctxs := [false]; panicked := false |}.
End Busy.

(** * Properties *)

(** The number of states a search may visit; the checks below fail when the set
    that the search returns is not closed, so the bound is only an upper limit. *)
Definition fuel : nat := 300 * 200.

(** The client of a follower is at its send, the channel to the hub is full and
    the hub has left its loop. *)
Definition client_blocked (s : gstate) : bool :=
  Nat.eqb (nth 2 (pcs s) 0) 6 && Nat.eqb (fst (chan s 2)) 8 && Nat.ltb 2 (nth 3 (pcs s) 0).

Definition not_panicked (s : gstate) : bool := negb (panicked s).

Lemma follower_checked :
  check_possible follower_system follower_init 400 (explore follower_system fuel follower_init)
    not_panicked client_blocked (λ s, ended follower_system s 0) = true.
Proof. vm_compute. reflexivity. Qed.

Lemma standalone_checked :
  check_possible (alone_system false) (alone_init false) 400
    (explore (alone_system false) fuel (alone_init false))
    not_panicked (λ _, false) (λ s, ended (alone_system false) s 0) = true.
Proof. vm_compute. reflexivity. Qed.


Lemma leader_stuck s :
  rtc (gstep leader_system) leader_init s →
  at_instr leader_system s 2 ≠ Some (9, Send 3) ∧ ended leader_system s 2 = false.
Proof.
  intros Hr. apply (check_self_send_sound _ 2 8 1) in Hr; [|reflexivity|unfold pc_le; simpl; lia].
  unfold pc_le in Hr. unfold at_instr, ended. generalize (nth 2 (pcs s) 0) Hr. intros k Hk.
  do 10 (destruct k as [|k]; [by split|]). lia.
Qed.

(** * Schedules *)

(** Running: the hub is handling a message for a handler whose connection broke;
    the handler's [close] holds its lock and waits for [Standalone.Run] to take
    the offline report; [Standalone.Run] waits for the hub to take a kick-off. *)
Definition cycle_schedule : list (nat * nat) :=
  [(1, 0); (1, 0); (2, 0); (2, 0);       (* start storage, hub and its send loop *)
   (4, 0); (4, 0); (4, 0);               (* the send loop has a head to push *)
   (4, 0);                               (* the hub takes it *)
   (6, 0); (6, 0); (6, 0); (6, 0);       (* Handler.close: lock, delete, about to report *)
   (5, 0); (5, 0); (5, 0);               (* the hub looks the handler up, wants its lock *)
   (1, 0); (1, 0)].                      (* Run has a session to kick off *)

(** Stopping: the send loop of the storage is about to push a head when the hub
    leaves its loop. *)
Definition push_schedule : list (nat * nat) :=
  [(1, 0); (1, 0); (2, 0); (2, 0);
   (4, 0); (4, 0); (4, 0);               (* the send loop is at its send *)
   (0, 0);                               (* cancel() *)
   (5, 0)].                              (* the hub takes ctx.Done() *)

(** Stopping: the hub holds the lock of the handler map and wants that of a
    handler, whose [close] holds it and wants the map. *)
Definition lock_schedule : list (nat * nat) :=
  [(1, 0); (1, 0); (6, 0); (0, 0); (5, 0); (5, 0); (5, 0)].

Definition state_after (p : program) (s0 : gstate) (sched : list (nat * nat)) : gstate :=
  default s0 (run_schedule p sched s0).

Lemma state_after_reachable p s0 sched : rtc (gstep p) s0 (state_after p s0 sched).
Proof.
  unfold state_after. destruct (run_schedule p sched s0) eqn:E; [by eapply run_schedule_sound|apply rtc_refl].
Qed.

(** No continuation of [s] ends the process. *)
Definition hangs (p : program) (s : gstate) : Prop :=
  ∀ t, rtc (gstep p) s t → exited p t = false.

Lemma hangs_checked p s :
  check_invariant p s (explore p fuel s) (λ t, negb (exited p t)) = true → hangs p s.
Proof.
  intros Hc t Ht. apply (check_invariant_sound _ _ _ _ _ Hc) in Ht as [_ Ht]. by apply negb_true_iff.
Qed.

(** C31: stopping a standalone server. An idle one (no heads to push, no sessions
    to kick off, no connection that breaks) never panics and can always be
    stopped. A busy one can hang for ever: while it runs, when the hub waits for a
    handler whose [close] waits for [Run] to take its report, while [Run] waits for
    the hub to take a kick-off; and while it stops, when the storage has a head to
    push to a hub that has left its loop, or when the hub and a closing handler
    take the locks of handler map and handler in opposite orders. *)
Theorem standalone_stop :
  (∀ s, rtc (gstep (alone_system false)) (alone_init false) s →
     panicked s = false ∧ ∃ t, rtc (gstep (alone_system false)) s t ∧ ended (alone_system false) t 0 = true) ∧
  ∃ s1 s2 s3,
    (rtc (gstep (alone_system true)) (alone_init true) s1 ∧ ctx s1 0 = false ∧ hangs (alone_system true) s1) ∧
    (rtc (gstep (alone_system true)) (alone_init false) s2 ∧ ctx s2 0 = true ∧ hangs (alone_system true) s2) ∧
    (rtc (gstep (alone_system false)) (alone_init true) s3 ∧ ctx s3 0 = true ∧ hangs (alone_system false) s3).
Proof.
  split.
  - intros s Hr. apply (check_possible_sound _ _ _ _ _ _ _ _ standalone_checked) in Hr as [Hp [|Hr]]; [done|].
    split; [by apply negb_true_iff|exact Hr].
  - exists (state_after (alone_system true) (alone_init true) cycle_schedule),
      (state_after (alone_system true) (alone_init false) push_schedule),
      (state_after (alone_system false) (alone_init true) lock_schedule).
    split_and!; first [apply state_after_reachable | vm_compute; reflexivity | apply hangs_checked; vm_compute; reflexivity].
Qed.

(** C29: stopping a cluster node. The leader never gets through its own shutdown:
    [storage.run], which [runLeader] calls directly, sends its stop notification
    to a channel that only the same goroutine reads later, so the followers are
    never told and [runLeader] never ends. The process can exit all the same: the
    goroutines of leader and follower register with the wait group themselves, so
    that [Run] can find it empty and let the process end with the storage, or the
    client and the hub, still running. *)
Theorem cluster_stop_incomplete :
  (∀ s, rtc (gstep leader_system) leader_init s →
     at_instr leader_system s 2 ≠ Some (9, Send 3) ∧ ended leader_system s 2 = false) ∧
  (∃ s, rtc (gstep leader_system) leader_init s ∧ ended leader_system s 0 = true ∧
     ended leader_system s 2 = false) ∧
  (∃ s, rtc (gstep follower_system) follower_init s ∧ ended follower_system s 0 = true ∧
     ended follower_system s 2 = false ∧ ended follower_system s 3 = false).
Proof.
  split; [exact leader_stuck|].
  split; eexists; (split; [apply (run_schedule_sound _ [(1, 0); (1, 0); (2, 0); (2, 0); (0, 0); (1, 0); (0, 0)]);
    vm_compute; reflexivity|]); vm_compute; auto.
Qed.

(** * Examples *)

(** A follower whose hub got a message, and that was then told to stop. *)
Definition follower_schedule : list (nat * nat) :=
  [(1, 0); (2, 0); (2, 0); (2, 0); (2, 0); (2, 0); (2, 0); (0, 0)].

