(* ===== verification/Main.v ===== *)
(** [main.go] and [auth/mock.go]: command line validation, the pid file, the
    start-up of [run] up to the choice of the cluster implementation, and the
    authentication of a websocket request by cookie. *)

From Stdlib Require Import Ascii ZArith Lia.
From stdpp Require Import base option list numbers gmap strings pretty.
From S2P Require Import Prelude Proto ReadStates EventApi Cache Storage Cluster GoLib.

(** * Flags *)

Definition eventPayloadMaxBytes : Z := 4096.
Definition kafkaTopic : string := "minipush-events".
Definition kafkaGroupId : string := "minipush".

(** The values of the flags after [flag.Parse]; a [uint] flag is in [0, 2^64). *)
Record Flags := {
  flagAddr : string;
  flagPidFile : string;
  flagMysqlDsn : string;
  flagKafkaBrokers : string;
  flagSessionQuota : Z;
  flagEventTTLDays : Z;
  flagGetEventsLimit : Z;
  flagCleanEvents : bool;
  flagEnableClientMsg : bool;
  flagPprofDir : string;
  flagDisableMetrics : bool;
  flagStandalone : bool;
  flagLeader : bool;
  flagFollower : bool;
  flagJoin : string;
  flagEnableDemo : bool;
  flagDemoStaticDir : string
}.

Definition default_flags : Flags := {|
  flagAddr := "127.0.0.1:8000";
  flagPidFile := "minipush.pid";
  flagMysqlDsn := "root:@tcp(127.0.0.1:3306)/minipush?parseTime=true&charset=utf8mb4&collation=utf8mb4_unicode_ci";
  flagKafkaBrokers := "127.0.0.1:9092";
  flagSessionQuota := 5;
  flagEventTTLDays := 30;
  flagGetEventsLimit := 100;
  flagCleanEvents := true;
  flagEnableClientMsg := false;
  flagPprofDir := "pprof";
  flagDisableMetrics := false;
  flagStandalone := true;
  flagLeader := false;
  flagFollower := false;
  flagJoin := "";
  flagEnableDemo := false;
  flagDemoStaticDir := "../dev/demo/static"
|}.

(** [validateAddr(s)]: the body reads [*flagAddr] and never its argument. *)
Definition validateAddr (f : Flags) (s : string) : option string :=
  match SplitHostPort (flagAddr f) with
  | Err e => Some ("error split host port from `" +:+ flagAddr f +:+ "`: " +:+ e)
  | Ok (ips, _) =>
      match ParseIP ips with
      | None => Some ("error parse IP from host `" +:+ ips +:+ "`")
      | Some ip =>
          if negb (IsLoopback ip) && negb (IsPrivate ip)
          then Some ("`" +:+ ips +:+ "` is not loopback or private address")
          else None
      end
  end.

(** [errorf] logs and returns 1. *)
Definition errorf : Z := 1.

(** [stat_ok] says whether [os.Stat] of a path succeeds. *)
Definition validateFlags (stat_ok : string → bool) (f : Flags) : Z :=
  if bool_decide (flagAddr f = "") then errorf
  else if bool_decide (validateAddr f (flagAddr f) ≠ None) then errorf
  else if bool_decide (flagPidFile f = "") then errorf
  else if bool_decide (flagPprofDir f = "") then errorf
  else if flagCleanEvents f &&
          (bool_decide (flagEventTTLDays f < MinTTLDays)%Z || bool_decide (MaxTTLDays < flagEventTTLDays f)%Z)
  then errorf
  else if bool_decide (flagGetEventsLimit f < MinGetEventsLimit)%Z ||
          bool_decide (MaxGetEventsLimit < flagGetEventsLimit f)%Z then errorf
  else if bool_decide (flagKafkaBrokers f = "") then errorf
  else if bool_decide (flagMysqlDsn f = "") then errorf
  else if bool_decide (flagSessionQuota f = 0)%Z then errorf
  else if bool_decide (10 < flagSessionQuota f)%Z then errorf
  else if negb (flagStandalone f) then
    let role :=
      if negb (flagLeader f) then
        if flagFollower f then
          if bool_decide (flagJoin f = "") then errorf
          else if bool_decide (validateAddr f (flagJoin f) ≠ None) then errorf else 0%Z
        else errorf
      else 0%Z in
    if bool_decide (role ≠ 0)%Z then role
    else if flagStandalone f || flagFollower f then
      if flagEnableDemo f then
        if bool_decide (flagDemoStaticDir f = "") then errorf
        else if negb (stat_ok (flagDemoStaticDir f)) then errorf else 0%Z
      else 0%Z
    else 0%Z
  else 0%Z.

(** * The pid file *)

(** What the operating system answers. A failed [ioutil.WriteFile] either did not
    open the file or wrote only a prefix after truncating it. *)
Inductive write_outcome := WriteOk | WriteOpenErr | WriteShort (n : nat).

Record OsEnv := {
  (** [os.Stat] fails with an error other than "does not exist" *)
  stat_err : string → bool;
  read_err : string → bool;
  (** [proc.Signal(syscall.Signal(0))] of the process returns nil *)
  signal_ok : Z → bool;
  write_file : string → write_outcome
}.

Abbreviation files := (gmap string string) (only parsing).

Definition WriteFile (env : OsEnv) (name content : string) (fs : files) : bool * files :=
  match write_file env name with
  | WriteOk => (true, <[name := content]> fs)
  | WriteOpenErr => (false, fs)
  | WriteShort n => (false, <[name := of_bytes (take n (to_bytes content))]> fs)
  end.

Inductive pid_error := PidStat | PidRead | PidParse | PidRunning (pid : Z) | PidWrite.

(** [os.FindProcess] always succeeds on Unix. *)
Definition savePid (env : OsEnv) (name : string) (pid : Z) (fs : files) : result pid_error unit * files :=
  let write :=
    let '(ok, fs') := WriteFile env name (Itoa pid) fs in
    (if ok : bool then Ok tt else Err PidWrite, fs') in
  if stat_err env name then (Err PidStat, fs)
  else match fs !! name with
  | None => write
  | Some content =>
      if read_err env name then (Err PidRead, fs)
      else if bool_decide (content = "") then write
      else match Atoi content with
      | None => (Err PidParse, fs)
      | Some oldPid => if signal_ok env oldPid then (Err (PidRunning oldPid), fs) else write
      end
  end.

(** * run *)

(** [strings.Split(s, ",")] *)
Fixpoint split_comma (cur : list ascii) (s : list ascii) : list string :=
  match s with
  | [] => [of_bytes (reverse cur)]
  | c :: s =>
      if decide (c = ","%char) then of_bytes (reverse cur) :: split_comma [] s
      else split_comma (c :: cur) s
  end.

Definition int32 : Z → Z := wrap32.

Definition hub_conf (f : Flags) : pb_WsConf := {|
  EventTtlDays := int32 (flagEventTTLDays f);
  GetEventsLimit := int32 (flagGetEventsLimit f);
  EnableClientMsg := flagEnableClientMsg f;
  MaxMsgSize := eventPayloadMaxBytes
|}.

Definition cluster_cfg (f : Flags) (pid : Z) : ClusterCfg := {|
  Pid := pid;
  Addr := flagAddr f;
  RunLeader := flagLeader f;
  RunFollower := flagFollower f;
  LeaderAddr := flagJoin f;
  KafkaBrokers := split_comma [] (to_bytes (flagKafkaBrokers f));
  KafkaTopic := kafkaTopic;
  KafkaGroupId := kafkaGroupId;
  Cfg_EnableClientMsg := flagEnableClientMsg f;
  CleanEvents := flagCleanEvents f;
  EventTTLDays := int32 (flagEventTTLDays f);
  EventPayloadMaxBytes := eventPayloadMaxBytes;
  SessionQuota := int32 (flagSessionQuota f)
|}.

(** How [run] gets to its signal loop: it exits with a code, or it runs the
    standalone server or the cluster with its configuration. *)
Inductive run_state :=
| Exited (code : Z)
| Running (standalone : bool) (hub : pb_WsConf) (cc : ClusterCfg).

(** [mkdir_ok] and [open_ok] are the outcomes of [os.MkdirAll] and [sql.Open];
    the deferred [os.Remove] of the pid file runs on every exit after [savePid]
    succeeded. *)
Definition run (env : OsEnv) (stat_ok : string → bool) (mkdir_ok open_ok : bool)
    (f : Flags) (pid : Z) (fs : files) : run_state * files :=
  if bool_decide (0 < validateFlags stat_ok f)%Z then (Exited (validateFlags stat_ok f), fs)
  else match savePid env (flagPidFile f) pid fs with
  | (Err _, fs) => (Exited errorf, fs)
  | (Ok _, fs) =>
      if negb mkdir_ok then (Exited errorf, delete (flagPidFile f) fs)
      else if negb open_ok then (Exited errorf, delete (flagPidFile f) fs)
      else (Running (flagStandalone f) (hub_conf f) (cluster_cfg f pid), fs)
  end.

(** The exit code: [run] returns 0 after its signal loop. *)
Definition main (env : OsEnv) (stat_ok : string → bool) (mkdir_ok open_ok : bool)
    (f : Flags) (pid : Z) (fs : files) : Z :=
  match (run env stat_ok mkdir_ok open_ok f pid fs).1 with
  | Exited code => code
  | Running _ _ _ => 0%Z
  end.

(** * auth.MockClient *)

(** [cookie] is the value of the cookie [x-uid], if the request has it. *)
Definition Auth (cookie : option string) : option Z :=
  let uidStr := default "" cookie in
  if bool_decide (uidStr = "") then None
  else match ParseInt 32 uidStr with
       | None => None
       | Some uid => Some (int32 uid)
       end.

(** * Lemmas *)

Lemma savePid_Ok env name pid fs fs' :
  savePid env name pid fs = (Ok tt, fs') →
  stat_err env name = false ∧ write_file env name = WriteOk ∧ fs' = <[name := Itoa pid]> fs ∧
  ∀ content, fs !! name = Some content →
    read_err env name = false ∧
    (content = "" ∨ ∃ old, Atoi content = Some old ∧ signal_ok env old = false).
Proof.
  unfold savePid, WriteFile. intros H. destruct (stat_err env name); [done|].
  destruct (fs !! name) as [content|] eqn:Ef.
  - destruct (read_err env name); [done|]. case_bool_decide.
    + destruct (write_file env name); simplify_eq. split_and!; [done..|]. naive_solver.
    + destruct (Atoi content) as [old|] eqn:Ea; [|done]. destruct (signal_ok env old) eqn:Es; [done|].
      destruct (write_file env name); simplify_eq. split_and!; [done..|]. naive_solver.
  - destruct (write_file env name); simplify_eq. done.
Qed.

Lemma Itoa_not_empty z : Itoa z ≠ "".
Proof.
  intros H. unfold Itoa in H. destruct z as [|p|p]; [done| |done].
  pose proof (decimal_pretty_pos p) as Hp. change (pretty (Z.pos p)) with (pretty p) in H. by rewrite H in Hp.
Qed.

Lemma validateFlags_code stat_ok f : validateFlags stat_ok f = 0%Z ∨ validateFlags stat_ok f = 1%Z.
Proof. unfold validateFlags, errorf. repeat case_match; auto; case_bool_decide; auto. Qed.

(** The flags that an accepted command line is known to have. *)
Lemma validateFlags_0 stat_ok f :
  validateFlags stat_ok f = 0%Z →
  validateAddr f (flagAddr f) = None ∧
  (flagCleanEvents f = true → (MinTTLDays ≤ flagEventTTLDays f ≤ MaxTTLDays)%Z) ∧
  (MinGetEventsLimit ≤ flagGetEventsLimit f ≤ MaxGetEventsLimit)%Z ∧
  flagSessionQuota f ≠ 0%Z ∧ (flagSessionQuota f ≤ 10)%Z ∧
  (flagStandalone f = false → flagLeader f = true ∨ flagFollower f = true ∧ flagJoin f ≠ "").
Proof.
  unfold validateFlags, errorf. intros H.
  repeat (case_bool_decide; [done|]; simpl in H).
  destruct (flagCleanEvents f && _) eqn:Ec; [done|].
  destruct (bool_decide (flagGetEventsLimit f < _)%Z || _) eqn:El; [done|].
  repeat (case_bool_decide; [done|]; simpl in H).
  apply orb_false_iff in El as [El1 El2]. apply bool_decide_eq_false in El1, El2.
  split_and!; [done| |lia|lia|done|lia|].
  - intros Hc. rewrite Hc in Ec. simpl in Ec. apply orb_false_iff in Ec as [E1 E2].
    apply bool_decide_eq_false in E1, E2. lia.
  - intros Hs. rewrite Hs in H. simpl in H. destruct (flagLeader f); [by left|]. right.
    destruct (flagFollower f); simpl in H; [|done]. split; [done|]. intros Hj.
    rewrite Hj in H. by rewrite bool_decide_eq_true_2 in H.
Qed.

Lemma validateAddr_None f s :
  validateAddr f s = None →
  ∃ host port ip, SplitHostPort (flagAddr f) = Ok (host, port) ∧ ParseIP host = Some ip ∧
    (IsLoopback ip = true ∨ IsPrivate ip = true).
Proof.
  unfold validateAddr. destruct (SplitHostPort (flagAddr f)) as [[host port]|]; [|done].
  destruct (ParseIP host) as [ip|] eqn:E; [|done]. intros H. exists host, port, ip.
  destruct (IsLoopback ip), (IsPrivate ip); try done; by auto.
Qed.

(** * Properties *)

(** C35: a command line that [validateFlags] accepts gives a safe configuration.
    The server binds a loopback or private address; the quota, the limit of
    [GetEvents] and, with the clean-up enabled, the time to live reach the
    components with the value of the flag, without truncation to [int32], and
    within the documented ranges; the time to live then overflows neither the
    cut-off of the clean-up nor the age check of the consumer; a cluster node
    has a role. *)
Theorem validated_config_safe stat_ok f pid :
  validateFlags stat_ok f = 0%Z → (0 ≤ flagSessionQuota f < 2 ^ 64)%Z →
  let cc := cluster_cfg f pid in
  (∃ host port ip, SplitHostPort (Addr cc) = Ok (host, port) ∧ ParseIP host = Some ip ∧
     (IsLoopback ip = true ∨ IsPrivate ip = true)) ∧
  SessionQuota cc = flagSessionQuota f ∧ (1 ≤ SessionQuota cc ≤ 10)%Z ∧
  GetEventsLimit (hub_conf f) = flagGetEventsLimit f ∧ (25 ≤ GetEventsLimit (hub_conf f) ≤ 100)%Z ∧
  (CleanEvents cc = true →
     EventTTLDays cc = flagEventTTLDays f ∧ EventTtlDays (hub_conf f) = EventTTLDays cc ∧
     (7 ≤ EventTTLDays cc ≤ 100)%Z ∧
     ttl_offset (EventTTLDays cc) = ((EventTTLDays cc + 1) * 24 * nanosecond_per_hour)%Z ∧
     ttl_duration (delEventsTtlDays (newStorage true (EventTTLDays cc) (EventPayloadMaxBytes cc)))
       = (EventTTLDays cc * 24 * Hour)%Z) ∧
  (flagStandalone f = false → RunLeader cc = true ∨ RunFollower cc = true ∧ LeaderAddr cc ≠ "").
Proof.
  intros Hv Hq. apply validateFlags_0 in Hv as (Ha & Ht & Hl & Hq0 & Hq10 & Hr).
  unfold MinTTLDays, MaxTTLDays, MinGetEventsLimit, MaxGetEventsLimit in *. simpl. unfold int32.
  rewrite !(wrap32_id (flagSessionQuota f)), !(wrap32_id (flagGetEventsLimit f)) by (unfold in_int32; lia).
  split; [by apply validateAddr_None in Ha|]. split_and!; try done; try lia.
  intros Hc. specialize (Ht Hc). rewrite !(wrap32_id (flagEventTTLDays f)) by (unfold in_int32; lia).
  split_and!; [done..|lia|lia| |].
  - apply ttl_offset_exact. lia.
  - apply ttl_duration_id. lia.
Qed.

(** The pid file keeps two servers apart. After a successful [savePid] the
    file holds this process's pid; as long as the process answers signal 0, a
    second [savePid] on the file fails, naming that pid, and changes nothing.
    Once the process is gone, the next server takes the file over. *)
Theorem savePid_exclusive env env' name pid pid' fs fs' :
  savePid env name pid fs = (Ok tt, fs') → in_int64 pid →
  stat_err env' name = false → read_err env' name = false →
  Atoi <$> fs' !! name = Some (Some pid) ∧
  savePid env' name pid' fs' =
    (if signal_ok env' pid then (Err (PidRunning pid), fs')
     else let '(ok, fs'') := WriteFile env' name (Itoa pid') fs' in
          (if ok then Ok tt else Err PidWrite, fs'')).
Proof.
  intros Hs Hp Hst Hrd. apply savePid_Ok in Hs as (_ & _ & -> & _).
  rewrite lookup_insert_eq. simpl. rewrite Atoi_Itoa by done. split; [done|].
  unfold savePid. rewrite Hst, lookup_insert_eq, Hrd, Atoi_Itoa by done.
  rewrite bool_decide_eq_false_2 by apply Itoa_not_empty. done.
Qed.

(** A start-up that does not reach the signal loop leaves no pid file of its own:
    the files are unchanged, or the pid file is gone, or the write itself failed. *)
Theorem run_failed_start env stat_ok mkdir_ok open_ok f pid fs code fs' :
  run env stat_ok mkdir_ok open_ok f pid fs = (Exited code, fs') →
  write_file env (flagPidFile f) = WriteOk →
  code = 1%Z ∧ (fs' = fs ∨ fs' = delete (flagPidFile f) fs).
Proof.
  unfold run. intros Hr Hw. case_bool_decide as Hv.
  { simplify_eq. split; [|by left]. destruct (validateFlags_code stat_ok f); lia. }
  destruct (savePid env (flagPidFile f) pid fs) as [[[]|e] fs1] eqn:Es.
  - apply savePid_Ok in Es as (_ & _ & -> & _).
    destruct mkdir_ok, open_ok; simplify_eq/=; (split; [done|]); right; apply delete_insert_eq.
  - simplify_eq. split; [done|left]. revert Es. unfold savePid, WriteFile. rewrite Hw.
    repeat case_match; intros; by simplify_eq.
Qed.

(** The uid of an authenticated request is the decimal number of the cookie, as an [int32]. *)
Theorem Auth_correct cookie uid :
  Auth cookie = Some uid ↔
  ∃ s, cookie = Some s ∧ s ≠ "" ∧ ParseInt 32 s = Some uid ∧ in_int32 uid.
Proof.
  unfold Auth, int32. split.
  - destruct cookie as [s|]; simpl; [|done]. case_bool_decide; [done|].
    destruct (ParseInt 32 s) as [u|] eqn:E; [|done].
    pose proof (ParseInt_range 32 s u eq_refl E) as Hr. change (2 ^ (32 - 1))%Z with 2147483648%Z in Hr.
    intros [= Hu]. rewrite wrap32_id in Hu by (unfold in_int32; lia). subst. exists s.
    split_and!; [done..|]. unfold in_int32. lia.
  - intros (s & -> & Hne & Hp & Hr). simpl. rewrite bool_decide_eq_false_2, Hp by done. by rewrite wrap32_id.
Qed.

(** * Examples *)

Definition ex_env (alive : Z → bool) : OsEnv := {|
  stat_err := λ _, false; read_err := λ _, false; signal_ok := alive; write_file := λ _, WriteOk |}.

(** The default flags are accepted; with the clean-up disabled the time to live
    is not checked, and its conversion to [int32] can make it negative; the
    address to join is not checked at all. *)
Definition ex_no_clean : Flags := {|
  flagAddr := "10.0.0.1:8000"; flagPidFile := "p"; flagMysqlDsn := "d"; flagKafkaBrokers := "k1,k2";
  flagSessionQuota := 1; flagEventTTLDays := 2 ^ 31; flagGetEventsLimit := 25;
  flagCleanEvents := false; flagEnableClientMsg := false; flagPprofDir := "q";
  flagDisableMetrics := false; flagStandalone := false; flagLeader := false; flagFollower := true;
  flagJoin := "not an address"; flagEnableDemo := false; flagDemoStaticDir := "" |}.

Example validateFlags_examples :
  validateFlags (λ _, false) default_flags = 0%Z ∧
  validateFlags (λ _, false) ex_no_clean = 0%Z ∧
  EventTtlDays (hub_conf ex_no_clean) = (- 2 ^ 31)%Z ∧
  KafkaBrokers (cluster_cfg ex_no_clean 1) = ["k1"; "k2"].
Proof. vm_compute. split_and!; reflexivity. Qed.

Example Auth_examples :
  Auth None = None ∧ Auth (Some "") = None ∧ Auth (Some "12") = Some 12%Z ∧
  Auth (Some "-3") = Some (-3)%Z ∧ Auth (Some "4294967297") = None ∧ Auth (Some "x") = None.
Proof. vm_compute. split_and!; reflexivity. Qed.

Lemma validated_config_safe_witness :
  validateFlags (λ _, false) default_flags = 0%Z ∧
  (∃ host port ip, SplitHostPort "127.0.0.1:8000" = Ok (host, port) ∧ ParseIP host = Some ip ∧
     (IsLoopback ip = true ∨ IsPrivate ip = true)).
Proof.
  assert (Hv : validateFlags (λ _, false) default_flags = 0%Z) by (vm_compute; reflexivity).
  split; [exact Hv|].
  apply (validated_config_safe (λ _, false) default_flags 42 Hv). simpl. lia.
Defined.

Lemma savePid_exclusive_witness :
  savePid (ex_env (λ p, bool_decide (p = 42%Z))) "p" 43 {["p" := "42"]}
    = (Err (PidRunning 42), {["p" := "42"]}).
Proof.
  refine (proj2 (savePid_exclusive (ex_env (λ _, false)) (ex_env (λ p, bool_decide (p = 42%Z))) "p" 42 43
    {["p" := "7"]} {["p" := "42"]} _ _ _ _)); [vm_compute; reflexivity| |reflexivity..].
  unfold in_int64. lia.
Defined.
