(* ===== verification/Profile.v ===== *)
(** [profile.go] and the signal loop of [main.go]: profiling sessions that a
    signal starts and stops.

    A session consists of the closers of the profiles that could be started.
    [create k] says whether the dump file of profile [k] can be created; the
    contents of the files are the runtime's and not modelled. *)

From Stdlib Require Import ZArith Lia.
From stdpp Require Import base option list numbers gmap sets relations strings.
From S2P Require Import Prelude.

(** * The Go runtime *)

(** The switches that the profiler changes and the open dump files. *)
Record Runtime := {
  BlockProfileRate : Z;
  MemProfileRate : Z;
  MutexProfileFraction : Z;
  cpu_profiling : bool;
  tracing : bool;
  open_files : gset positive
}.

Definition set_block (z : Z) (rt : Runtime) : Runtime := {|
  BlockProfileRate := z; MemProfileRate := MemProfileRate rt;
  MutexProfileFraction := MutexProfileFraction rt; cpu_profiling := cpu_profiling rt;
  tracing := tracing rt; open_files := open_files rt |}.

Definition set_mem (z : Z) (rt : Runtime) : Runtime := {|
  BlockProfileRate := BlockProfileRate rt; MemProfileRate := z;
  MutexProfileFraction := MutexProfileFraction rt; cpu_profiling := cpu_profiling rt;
  tracing := tracing rt; open_files := open_files rt |}.

Definition set_mutex (z : Z) (rt : Runtime) : Runtime := {|
  BlockProfileRate := BlockProfileRate rt; MemProfileRate := MemProfileRate rt;
  MutexProfileFraction := z; cpu_profiling := cpu_profiling rt;
  tracing := tracing rt; open_files := open_files rt |}.

Definition set_cpu (b : bool) (rt : Runtime) : Runtime := {|
  BlockProfileRate := BlockProfileRate rt; MemProfileRate := MemProfileRate rt;
  MutexProfileFraction := MutexProfileFraction rt; cpu_profiling := b;
  tracing := tracing rt; open_files := open_files rt |}.

Definition set_tracing (b : bool) (rt : Runtime) : Runtime := {|
  BlockProfileRate := BlockProfileRate rt; MemProfileRate := MemProfileRate rt;
  MutexProfileFraction := MutexProfileFraction rt; cpu_profiling := cpu_profiling rt;
  tracing := b; open_files := open_files rt |}.

Definition set_open (fs : gset positive) (rt : Runtime) : Runtime := {|
  BlockProfileRate := BlockProfileRate rt; MemProfileRate := MemProfileRate rt;
  MutexProfileFraction := MutexProfileFraction rt; cpu_profiling := cpu_profiling rt;
  tracing := tracing rt; open_files := fs |}.

Definition close_file (f : positive) (rt : Runtime) : Runtime := set_open (open_files rt ∖ {[f]}) rt.

Inductive kind := KCpu | KMem | KMutex | KBlock | KTrace | KThreadCreate | KGoroutines.

(** [os.Create] of a dump file: a new descriptor, unless it fails. *)
Definition Create (create : kind → bool) (k : kind) (rt : Runtime) : option (positive * Runtime) :=
  if create k then
    let f := fresh (open_files rt) in Some (f, set_open ({[f]} ∪ open_files rt) rt)
  else None.

(** * Profiler *)

(** The functions in [closers], with what they capture. *)
Inductive closer :=
| CloseBlock (f : positive)
| CloseCpu (f : positive)
| CloseMem (f : positive) (old : Z)
| CloseMutex (f : positive)
| CloseThreadCreate (f : positive)
| CloseTrace.

Record Profiler := { closers : list closer; stopped : bool }.

Definition DefaultMemProfileRate : Z := 4096.

Definition run_closer (c : closer) (rt : Runtime) : Runtime :=
  match c with
  | CloseBlock f => set_block 0 (close_file f rt)
  | CloseCpu f => close_file f (set_cpu false rt)
  | CloseMem f old => set_mem old (close_file f rt)
  | CloseMutex f => set_mutex 0 (close_file f rt)
  | CloseThreadCreate f => close_file f rt
  | CloseTrace => set_tracing false rt
  end.

Definition add_closer (c : closer) (p : Profiler) : Profiler :=
  {| closers := closers p ++ [c]; stopped := stopped p |}.

Section Start.
Variable create : kind → bool.

Definition startBlockProfile (s : Profiler * Runtime) : Profiler * Runtime :=
  let '(p, rt) := s in
  match Create create KBlock rt with
  | None => s
  | Some (f, rt) => (add_closer (CloseBlock f) p, set_block 1 rt)
  end.

(** The error of [pprof.StartCPUProfile] is ignored; it fails, without effect,
    when the profile is already on. *)
Definition startCpuProfile (s : Profiler * Runtime) : Profiler * Runtime :=
  let '(p, rt) := s in
  match Create create KCpu rt with
  | None => s
  | Some (f, rt) => (add_closer (CloseCpu f) p, set_cpu true rt)
  end.

Definition startMemProfile (s : Profiler * Runtime) : Profiler * Runtime :=
  let '(p, rt) := s in
  match Create create KMem rt with
  | None => s
  | Some (f, rt) => (add_closer (CloseMem f (MemProfileRate rt)) p, set_mem DefaultMemProfileRate rt)
  end.

Definition startMutexProfile (s : Profiler * Runtime) : Profiler * Runtime :=
  let '(p, rt) := s in
  match Create create KMutex rt with
  | None => s
  | Some (f, rt) => (add_closer (CloseMutex f) p, set_mutex 1 rt)
  end.

Definition startThreadCreateProfile (s : Profiler * Runtime) : Profiler * Runtime :=
  let '(p, rt) := s in
  match Create create KThreadCreate rt with
  | None => s
  | Some (f, rt) => (add_closer (CloseThreadCreate f) p, rt)
  end.

(** [trace.Start] fails when a trace is already on. *)
Definition startTraceProfile (s : Profiler * Runtime) : Profiler * Runtime :=
  let '(p, rt) := s in
  match Create create KTrace rt with
  | None => s
  | Some (f, rt) => if tracing rt then (p, rt) else (add_closer CloseTrace p, set_tracing true rt)
  end.

Definition StartProfiler (rt : Runtime) : Profiler * Runtime :=
  startThreadCreateProfile (startTraceProfile (startBlockProfile (startMutexProfile
    (startMemProfile (startCpuProfile ({| closers := []; stopped := false |}, rt)))))).

(** [dumpGoroutines]: the file is closed again by its [defer]. *)
Definition dumpGoroutines (rt : Runtime) : Runtime :=
  match Create create KGoroutines rt with
  | None => rt
  | Some (f, rt) => close_file f rt
  end.
End Start.

Definition Profiler_close (p : Profiler) (rt : Runtime) : Runtime :=
  foldl (λ rt c, run_closer c rt) rt (closers p).

Definition Stop (p : Profiler) (rt : Runtime) : Profiler * Runtime :=
  if stopped p then (p, rt)
  else ({| closers := closers p; stopped := true |}, Profiler_close p rt).

(** * The signal loop of run *)

Inductive signal := SIGUSR1 | SIGUSR2 | SIGTERM | SIGINT.

Record loop := { prof : option Profiler; stopping : bool; rt : Runtime }.

Definition on_signal (create : kind → bool) (sig : signal) (s : loop) : loop :=
  match sig with
  | SIGUSR1 =>
      match prof s with
      | Some _ => {| prof := prof s; stopping := stopping s; rt := dumpGoroutines create (rt s) |}
      | None => s
      end
  | SIGUSR2 =>
      match prof s with
      | None =>
          let '(p, r) := StartProfiler create (rt s) in
          {| prof := Some p; stopping := stopping s; rt := r |}
      | Some p => {| prof := None; stopping := stopping s; rt := (Stop p (rt s)).2 |}
      end
  | SIGTERM | SIGINT => {| prof := prof s; stopping := true; rt := rt s |}
  end.

(** The shutdown goroutine that the first [SIGTERM] starts stops the session of
    the variable [prof], which stays set. *)
Definition shutdown_prof (s : loop) : loop :=
  match prof s with
  | Some p => let '(p, r) := Stop p (rt s) in {| prof := Some p; stopping := stopping s; rt := r |}
  | None => s
  end.

Inductive loop_step : loop → loop → Prop :=
| ls_signal create sig s : loop_step s (on_signal create sig s)
| ls_shutdown s : stopping s = true → loop_step s (shutdown_prof s).

(** * Lemmas *)

(** The switches as the program starts with them. *)
Definition quiet (mem : Z) (rt : Runtime) : Prop :=
  BlockProfileRate rt = 0%Z ∧ MemProfileRate rt = mem ∧ MutexProfileFraction rt = 0%Z ∧
  cpu_profiling rt = false ∧ tracing rt = false.

(** The runtime after the current session, if any, is stopped. *)
Definition after_stop (s : loop) : Runtime :=
  match prof s with Some p => (Stop p (rt s)).2 | None => rt s end.

#[local] Opaque fresh.

Lemma fresh_fd (X : gset positive) : fresh X ∉ X.
Proof. apply is_fresh. Qed.

(** [os.Create] fails or returns a descriptor that was not open. *)
Lemma Create_spec create k r :
  (create k = false ∧ Create create k r = None) ∨
  ∃ f, create k = true ∧ (f ∉ open_files r) ∧
    Create create k r = Some (f, set_open ({[f]} ∪ open_files r) r).
Proof.
  unfold Create. destruct (create k); [right|by left]. eexists. split_and!; [done|apply fresh_fd|done].
Qed.

Lemma Create_opens create k r :
  Create create k r = None ∨ ∃ f o, Create create k r = Some (f, set_open o r).
Proof. destruct (Create_spec create k r) as [[_ ?]|(f & _ & _ & ?)]; eauto. Qed.

(** Whatever can be started, stopping the session switches everything off. *)
Lemma start_stop_quiet create mem r :
  quiet mem r → quiet mem (Stop (StartProfiler create r).1 (StartProfiler create r).2).2.
Proof.
  destruct r as [b m mu c t o]. unfold quiet. simpl. intros (-> & -> & -> & -> & ->).
  unfold StartProfiler, startThreadCreateProfile, startTraceProfile, startBlockProfile,
    startMutexProfile, startMemProfile, startCpuProfile.
  repeat match goal with |- context [Create create ?k ?x] =>
    destruct (Create_opens create k x) as [->|(? & ? & ->)]; simpl
  end; repeat split.
Qed.

(** The descriptors that a list of closers closes. *)
Definition closer_files (c : closer) : gset positive :=
  match c with
  | CloseBlock f | CloseCpu f | CloseMem f _ | CloseMutex f | CloseThreadCreate f => {[f]}
  | CloseTrace => ∅
  end.

Definition files_of (cs : list closer) : gset positive := ⋃ (closer_files <$> cs).

Lemma files_of_snoc cs c : files_of (cs ++ [c]) = files_of cs ∪ closer_files c.
Proof. unfold files_of. rewrite fmap_app, union_list_app_L. simpl. set_solver. Qed.

Lemma Stop_open_files p r :
  stopped p = false → open_files (Stop p r).2 = open_files r ∖ files_of (closers p).
Proof.
  unfold Stop, Profiler_close. intros ->. simpl. revert r. induction (closers p) as [|c cs IH]; intros r; simpl.
  - unfold files_of. set_solver.
  - rewrite IH. unfold files_of. simpl.
    assert (open_files (run_closer c r) = open_files r ∖ closer_files c) as -> by (destruct c; simpl; set_solver).
    set_solver.
Qed.

(** A running session: its open files are its closers' and [leak], all new. *)
Definition session_files (base leak : gset positive) (s : Profiler * Runtime) : Prop :=
  stopped s.1 = false ∧ open_files s.2 = base ∪ files_of (closers s.1) ∪ leak ∧
  base ## files_of (closers s.1) ∧ base ## leak ∧ files_of (closers s.1) ## leak.

Lemma session_files_add base leak p r c f r' :
  session_files base leak (p, r) → f ∉ open_files r → closer_files c = {[f]} →
  open_files r' = {[f]} ∪ open_files r → session_files base leak (add_closer c p, r').
Proof.
  unfold session_files. simpl. intros (Hst & Ho & H1 & H2 & H3) Hf Hc Hr'.
  rewrite files_of_snoc, Hr', Hc. split_and!; [done|set_solver..].
Qed.

Lemma session_files_trace create base s :
  session_files base ∅ s → tracing s.2 = false →
  ∃ leak, session_files base leak (startTraceProfile create s) ∧
    (if create KTrace then ∃ f, leak = {[f]} else leak = ∅).
Proof.
  destruct s as [p r]. unfold startTraceProfile. intros Hs Ht.
  destruct (Create_spec create KTrace r) as [[-> ->]|(f & -> & Hf & ->)]; [by exists ∅|].
  simpl in *. rewrite Ht. exists {[f]}. split; [|by exists f]. revert Hs. unfold session_files. simpl.
  rewrite files_of_snoc. simpl. intros (Hst & Ho & H1 & H2 & H3). split_and!; [done|set_solver..].
Qed.

(** Every other profile opens one file and registers its closer. *)
Ltac start_one create k r Hs :=
  destruct (Create_spec create k r) as [[_ ->]|(? & _ & ? & ->)];
  [exact Hs|eapply session_files_add; [exact Hs|done|done|done]].

Lemma session_files_cpu create base leak s :
  session_files base leak s → session_files base leak (startCpuProfile create s).
Proof. destruct s as [p r]. intros Hs. unfold startCpuProfile. start_one create KCpu r Hs. Qed.

Lemma session_files_mem create base leak s :
  session_files base leak s → session_files base leak (startMemProfile create s).
Proof. destruct s as [p r]. intros Hs. unfold startMemProfile. start_one create KMem r Hs. Qed.

Lemma session_files_mutex create base leak s :
  session_files base leak s → session_files base leak (startMutexProfile create s).
Proof. destruct s as [p r]. intros Hs. unfold startMutexProfile. start_one create KMutex r Hs. Qed.

Lemma session_files_block create base leak s :
  session_files base leak s → session_files base leak (startBlockProfile create s).
Proof. destruct s as [p r]. intros Hs. unfold startBlockProfile. start_one create KBlock r Hs. Qed.

Lemma session_files_threadcreate create base leak s :
  session_files base leak s → session_files base leak (startThreadCreateProfile create s).
Proof. destruct s as [p r]. intros Hs. unfold startThreadCreateProfile. start_one create KThreadCreate r Hs. Qed.

(** The profiles started before the trace do not trace. *)
Lemma tracing_before_trace create r :
  tracing (startBlockProfile create (startMutexProfile create (startMemProfile create
    (startCpuProfile create ({| closers := []; stopped := false |}, r))))).2 = tracing r.
Proof.
  unfold startBlockProfile, startMutexProfile, startMemProfile, startCpuProfile.
  repeat match goal with |- context [Create create ?k ?x] =>
    destruct (Create_opens create k x) as [->|(? & ? & ->)]; simpl
  end; done.
Qed.

Lemma dump_quiet create r :
  (∀ p, (Stop p (dumpGoroutines create r)).2 = (Stop p r).2).
Proof.
  intros p. unfold dumpGoroutines, Create. destruct (create KGoroutines); [|done].
  f_equal. f_equal. unfold close_file, set_open. destruct r as [b m mu c t o]. simpl. f_equal.
  pose proof (fresh_fd o). set_solver.
Qed.

(** * Properties *)

(** The signal loop never loses track of a profiling session: in every reachable
    state, stopping the session that [prof] holds (or doing nothing when there is
    none) leaves every profile of the runtime switched off, at the rates the
    program started with. *)
Theorem signal_loop_quiet mem s0 s :
  prof s0 = None → quiet mem (rt s0) → rtc loop_step s0 s → quiet mem (after_stop s).
Proof.
  intros Hp Hq Hr. assert (H0 : quiet mem (after_stop s0)) by (unfold after_stop; by rewrite Hp).
  clear Hp Hq. induction Hr as [|s1 s2 s3 Hs _ IH]; [done|]. apply IH. clear IH.
  destruct Hs as [create sig s|s _]; unfold after_stop in *.
  - destruct sig; simpl; [| |done|done].
    + destruct (prof s) as [p|] eqn:Ep; simpl; rewrite ?Ep; [|done]. by rewrite dump_quiet.
    + destruct (prof s) as [p|] eqn:Ep; simpl; [done|].
      destruct (StartProfiler create (rt s)) as [p r] eqn:E. simpl.
      pose proof (start_stop_quiet create mem (rt s) H0) as Hs. by rewrite E in Hs.
  - unfold shutdown_prof. destruct (prof s) as [p|] eqn:Ep; [|by rewrite Ep].
    unfold Stop in *. destruct (stopped p) eqn:Est; simpl; by rewrite ?Est.
Qed.

(** A session leaks the descriptor of its trace file and no other: the closer of
    the trace stops tracing and does not close the file. *)
Theorem session_leaks_trace_file create r :
  tracing r = false →
  ∃ leak, open_files (Stop (StartProfiler create r).1 (StartProfiler create r).2).2 = open_files r ∪ leak ∧
    open_files r ## leak ∧ if create KTrace then ∃ f, leak = {[f]} else leak = ∅.
Proof.
  intros Ht. set (s0 := ({| closers := []; stopped := false |}, r)).
  assert (H0 : session_files (open_files r) ∅ s0).
  { unfold session_files, files_of. simpl. split_and!; [done|set_solver..]. }
  apply (session_files_cpu create), (session_files_mem create), (session_files_mutex create),
    (session_files_block create), (session_files_trace create) in H0 as (leak & Hs & Hl).
  2:{ unfold s0. by rewrite tracing_before_trace. }
  apply (session_files_threadcreate create) in Hs. exists leak.
  change (session_files (open_files r) leak (StartProfiler create r)) in Hs. destruct Hs as (Hst & Ho & H1 & H2 & H3).
  rewrite Stop_open_files, Ho by done. split_and!; [set_solver|done|done].
Qed.

(** * Examples *)

Definition ex_rt : Runtime := {|
  BlockProfileRate := 0; MemProfileRate := 524288; MutexProfileFraction := 0;
  cpu_profiling := false; tracing := false; open_files := ∅ |}.

Definition ex_loop : loop := {| prof := None; stopping := false; rt := ex_rt |}.

(** Two signals start and stop a session; one that arrives after the shutdown
    goroutine has looked at [prof] starts a session that the program does not stop. *)
Example signals_example :
  let toggle := on_signal (λ _, true) SIGUSR2 in
  BlockProfileRate (rt (toggle ex_loop)) = 1%Z ∧
  BlockProfileRate (rt (toggle (toggle ex_loop))) = 0%Z ∧
  size (open_files (rt (toggle ex_loop))) = 6 ∧
  size (open_files (rt (toggle (toggle ex_loop)))) = 1 ∧
  BlockProfileRate (rt (toggle (shutdown_prof (on_signal (λ _, true) SIGTERM ex_loop)))) = 1%Z.
Proof. vm_compute. split_and!; reflexivity. Qed.

Lemma signal_loop_quiet_witness :
  quiet 524288 (after_stop (on_signal (λ _, true) SIGUSR2 (on_signal (λ _, true) SIGTERM ex_loop))).
Proof.
  apply (signal_loop_quiet 524288 ex_loop); [done|by split_and!|].
  eapply rtc_l; [apply (ls_signal (λ _, true) SIGTERM)|]. apply rtc_once, ls_signal.
Defined.
