(* ===== verification/Wire.v ===== *)
(** The path of a message through the system, with the concrete JSON codec of
    [Json.v]: from a browser through the hub and the leader to the topic and back
    out of the consumer ([ws/handler.go], [cluster/util.go],
    [cluster/eventstore.go]); and the demo producer [dev/demo/main.go]. *)

From Stdlib Require Import Ascii ZArith Lia.
From stdpp Require Import base option list numbers gmap strings pretty.
From S2P Require Import Prelude Proto ReadStates EventStore EventApi SessionStore Cache Storage Hub GoLib Json JsonFacts Main.

(** * The codec as the components use it *)

Section Codec.
(** [text] is the text of the decoder's error for an input. *)
Variable text : string → string.

Definition go_json : Json := {|
  json_Marshal := λ m, Ok (E2EMsg_to_json m);
  json_Unmarshal := λ s, match E2EMsg_of_json s with Some m => Ok m | None => Err (text s) end
|}.

Definition go_client_json : ClientJson := {|
  ClientMsg_Unmarshal := λ s,
    match ClientMsg_of_json s with
    | (req, Decoded) => (req, None)
    | (req, _) => (req, Some (text s))
    end
|}.

(** A frame that the hub routes: its text decodes to a request with that message. *)
Lemma routed_decoded {S E} `{IEventStore S E} conf uid frame st res st' m :
  recvLoop_body (H := go_client_json) conf uid (Frame true frame) st = Ret (res, st') →
  rr_route res = Some m →
  EnableClientMsg conf = true ∧ ∃ req, ClientMsg_of_json frame = (req, Decoded) ∧ ClientMsg_Im req = Some m.
Proof.
  unfold recvLoop_body. simpl. destruct (ClientMsg_of_json frame) as [req o] eqn:Ereq. intros Hr Hm.
  assert (Hrep : ∀ A (f : A → pb_ServerMsg) r, rr_route (api_reply f r) = None) by (intros A f []; done).
  destruct o; [|simplify_eq/=..].
  destruct (ClientMsg_Stats req); [destruct (EventApi_Stats _ _ _ _); simplify_eq; by rewrite Hrep in Hm|].
  destruct (ClientMsg_GetEvents req); [destruct (EventApi_GetEvents _ _ _ _); simplify_eq; by rewrite Hrep in Hm|].
  destruct (ClientMsg_SetRead req); [destruct (EventApi_SetRead _ _ _); simplify_eq; by rewrite Hrep in Hm|].
  destruct (ClientMsg_GetReadStates req).
  { destruct (EventApi_GetReadStates _ _ _ _); [|done]. simpl in Hr. simplify_eq. by rewrite Hrep in Hm. }
  destruct (ClientMsg_Im req) as [im|] eqn:Ei; [|by simplify_eq/=].
  destruct (EnableClientMsg conf); [|by simplify_eq/=]. simplify_eq/=. eauto.
Qed.

(** Such a message survives encoding. *)
Lemma routed_roundtrip {S E} `{IEventStore S E} conf uid frame st res st' m :
  recvLoop_body (H := go_client_json) conf uid (Frame true frame) st = Ret (res, st') →
  rr_route res = Some m → E2EMsg_of_json (E2EMsg_to_json m) = Some m.
Proof.
  intros Hr Hm. destruct (routed_decoded _ _ _ _ _ _ _ Hr Hm) as (_ & req & Hreq & Him).
  apply E2EMsg_json_roundtrip. by eapply rt_im; [eapply ClientMsg_of_json_typed|].
Qed.
End Codec.

(** * Properties *)

(** C30: a message from a browser arrives. When the hub routes the message of a
    text frame and the leader's [saveE2eMsg] writes it to Kafka, then every
    message of the topic with the written value, not older than the limit, is
    accepted by the consumer with the same size limit and decoded to exactly the
    message that the hub decoded, whatever bytes the frame contained. *)
Theorem client_message_roundtrip text {S E} `{IEventStore S E} {K} `{IKafkaWriter K}
    conf uid frame st res st' m k k' clean days limit :
  recvLoop_body (H := go_client_json text) conf uid (Frame true frame) st = Ret (res, st') →
  rr_route res = Some m → (0 < days ≤ 106751)%Z →
  saveE2eMsg (H := go_json text) (Some k) m limit = Ret (None, k') →
  ∃ value k2, WriteMessages value k = (None, k2) ∧ k' = Some k2 ∧
    ∀ now km, km_Value km = value → (now - km_Time km ≤ max_age clean days)%Z →
      decodeKafkaMsg (H := go_json text) (newStorage clean days limit) now km = Some m.
Proof.
  intros Hr Hm Hd Hs. apply (saveE2eMsg_roundtrip (H := go_json text) k); [|done|done].
  intros value [= <-]. simpl. by rewrite (routed_roundtrip _ _ _ _ _ _ _ _ Hr Hm).
Qed.

(** * dev/demo/main.go *)

(** [for i := 0; i < 2; i++ { uids = append(uids, int32(i+1)) }] *)
Fixpoint demo_uids (n : nat) : list Z :=
  match n with
  | O => []
  | S k => demo_uids k ++ [wrap32 (Z.of_nat k + 1)]
  end.

Definition demo_evt : pb_E2EMsg := {|
  E2EMsg_Type := "a/b/c"; E2EMsg_From := 3; E2EMsg_To := demo_uids 2; E2EMsg_Body := "hello";
  E2EMsg_Props := {["mime" := "text/plain"]} |}.

(** [kafka.Message] with a key. *)
Record demo_message := { dm_Key : string; dm_Value : string }.

Section Demo.
(** [kafka.NewWriter] for the brokers and the topic, and [WriteMessages]: [None]
    when it succeeds. *)
Context {K : Type} (NewWriter : list string → string → K) (write : demo_message → K → option string * K).

(** One turn of the loop over the ticker, with the counter [i]; the JSON text of
    the event always exists. *)
Definition demo_tick (st : Z * K) : go (Z * K) :=
  let '(i, w) := st in
  let msg := {| dm_Key := Itoa i; dm_Value := E2EMsg_to_json demo_evt |} in
  match write msg w with
  | (Some err, _) => Panic err
  | (None, w) => Ret (wrap64 (i + 1), w)
  end.

Fixpoint demo_loop (ticks : nat) (st : Z * K) : go (Z * K) :=
  match ticks with
  | O => Ret st
  | S n => let! st := demo_tick st in demo_loop n st
  end.

(** [main] up to its [n]-th tick; [time.NewTicker] panics unless the duration is
    positive. *)
Definition demo_main (kafkaEndpoints : string) (tickerDuration : Z) (n : nat) : go (Z * K) :=
  if bool_decide (String.length kafkaEndpoints = 0) then Panic "--kafka-endpoints is required."
  else
    let w := NewWriter (split_comma [] (to_bytes kafkaEndpoints)) kafkaTopic in
    if bool_decide (tickerDuration ≤ 0)%Z then Panic "non-positive interval for NewTicker"
    else demo_loop n (0%Z, w).
End Demo.

(** A writer that keeps what it was given. *)
Definition keep (m : demo_message) (w : list demo_message) : option string * list demo_message :=
  (None, w ++ [m]).

Lemma demo_sendable : sendable demo_evt.
Proof.
  constructor.
  - apply ascii_valid. by repeat constructor.
  - split; vm_compute; congruence.
  - repeat constructor; vm_compute; congruence.
  - apply map_Forall_singleton. split; apply ascii_valid; by repeat constructor.
  - apply ascii_valid. by repeat constructor.
Qed.

Lemma demo_loop_writes n i w :
  (0 ≤ i)%Z → (i + Z.of_nat n < 2 ^ 63)%Z →
  demo_loop keep n (i, w) =
  Ret ((i + Z.of_nat n)%Z, w ++ ((λ k, {| dm_Key := Itoa (i + Z.of_nat k); dm_Value := E2EMsg_to_json demo_evt |}) <$> seq 0 n)).
Proof.
  revert i w. induction n as [|n IH]; intros i w Hi Hb; simpl; [by rewrite app_nil_r, Z.add_0_r|].
  rewrite wrap64_id by (unfold in_int64; lia). rewrite IH by lia. f_equal. f_equal; [lia|].
  rewrite <-app_assoc. f_equal. simpl. f_equal; [by rewrite Z.add_0_r|].
  rewrite <-fmap_S_seq, <-list_fmap_compose. apply list_fmap_ext. intros j x _. simpl. do 2 f_equal. lia.
Qed.

(** What the demo writes is what the server accepts: with a writer that does not
    fail, [n] ticks write [n] messages with the keys 0, 1, ..., to the topic that
    the server reads, and the consumer of a server with any valid configuration
    decodes each of them to the event for the users 1 and 2, as long as it is not
    too old. *)
Theorem demo_accepted text endpoints duration n clean days now :
  endpoints ≠ "" → (0 < duration)%Z → (Z.of_nat n < 2 ^ 63)%Z → (0 < days ≤ 106751)%Z →
  ∃ msgs, demo_main (λ _ _, []) keep endpoints duration n = Ret (Z.of_nat n, msgs) ∧
    (dm_Key <$> msgs) = (λ k, Itoa (Z.of_nat k)) <$> seq 0 n ∧
    ∀ m km, m ∈ msgs → km_Value km = dm_Value m → (now - km_Time km ≤ max_age clean days)%Z →
      decodeKafkaMsg (H := go_json text) (newStorage clean days eventPayloadMaxBytes) now km = Some demo_evt.
Proof.
  intros He Hdur Hn Hd. unfold demo_main. rewrite bool_decide_eq_false_2 by (by destruct endpoints).
  rewrite bool_decide_eq_false_2 by lia. eexists. split; [apply (demo_loop_writes n 0 []); lia|]. split.
  - simpl. rewrite <-list_fmap_compose. apply list_fmap_ext. intros k x _. simpl. done.
  - intros m km Hm Hkm Hage. simpl in Hm. apply list_elem_of_fmap in Hm as (k & -> & _). simpl in Hkm.
    apply decodeKafkaMsg_newStorage; [done|]. rewrite Hkm. split_and!; [|simpl; by rewrite E2EMsg_json_roundtrip by apply demo_sendable|done].
    vm_compute. done.
Qed.

(** * Examples *)

Section Examples.
#[local] Existing Instance good_server.
#[local] Existing Instance ex_es.

(** The frame of a browser that sends the event of the demo. *)
Definition ex_frame : string := of_bytes (print (JObj [(to_bytes "im", json_of_E2EMsg demo_evt)])).

Definition chat_conf : pb_WsConf := {|
  EventTtlDays := 30; GetEventsLimit := 25; EnableClientMsg := true; MaxMsgSize := eventPayloadMaxBytes |}.

Definition ex_routed : recv_result := {| rr_append := []; rr_route := Some demo_evt; rr_return := false |}.

Lemma client_message_roundtrip_witness :
  ∃ value k2, WriteMessages (IKafkaWriter := ex_writer) value [] = (None, k2) ∧ Some [E2EMsg_to_json demo_evt] = Some k2 ∧
    ∀ now km, km_Value km = value → (now - km_Time km ≤ max_age true 30)%Z →
      decodeKafkaMsg (H := go_json (λ _, "")) (newStorage true 30 eventPayloadMaxBytes) now km = Some demo_evt.
Proof.
  apply (client_message_roundtrip (λ _, "") (H0 := ex_writer) chat_conf 3 ex_frame conn0 ex_routed conn0 demo_evt []
    (Some [E2EMsg_to_json demo_evt]) true 30 eventPayloadMaxBytes); [vm_compute; reflexivity|reflexivity|lia|vm_compute; reflexivity].
Defined.
End Examples.
