(* ===== verification/Poison.v ===== *)
(** A message that stops the consumer ([cluster/eventstore.go],
    [cluster/util.go], [store/event.go]).

    Nothing between a browser and the topic looks at the recipients of a message.
    The tables take user ids that fit an unsigned column and numbers that fit the
    [int32] of the program; an event with another recipient, or for a user without
    numbers left, is [not savable].  [consumeLoop] tries to save such an event
    again and again and never gets to the next message. *)

From Stdlib Require Import ZArith Lia.
From stdpp Require Import base option list numbers gmap strings relations.
From S2P Require Import Prelude Proto GoLib Json JsonFacts Main ReadStates EventStore EventApi Cache Storage Hub Wire.

(** * Events that can be saved *)

Definition savable (d : db) (e : store_Event) : Prop :=
  Forall (λ uid, in_uint32 uid ∧ head_seq d uid + occurrences uid (To e) ≤ MaxInt32)%Z (To e).

#[export] Instance savable_dec d e : Decision (savable d e).
Proof. unfold savable. apply _. Defined.

Section Savable.
Context `{MySQL}.

Lemma occurrences_pos u to : u ∈ to → (1 ≤ occurrences u to)%Z.
Proof.
  intros Hu. unfold occurrences. assert (Hf : u ∈ filter (λ x, x = u) to) by (by apply list_elem_of_filter).
  destruct (filter _ to); [by apply elem_of_nil in Hf|simpl; lia].
Qed.

(** Well-formed tables with the event are only possible for a savable one. *)
Lemma applied_savable e d : db_ok d → db_ok (apply_event e d) → savable d e.
Proof.
  intros Hok Hok'. apply Forall_forall. intros u Hu.
  destruct (foldl_deliver_numbers e (add_event_row e d) (To e) u) as [Hh _].
  fold (apply_event e d) in Hh. change (head_seq (add_event_row e d) u) with (head_seq d u) in Hh.
  pose proof (occurrences_pos u (To e) Hu). pose proof (head_seq_bounds d u Hok) as Hb.
  unfold head_seq at 1 in Hh. destruct (user_seq (apply_event e d) !! u) as [s|] eqn:Hs; simpl in Hh; [|lia].
  destruct (ok_seq _ Hok' _ _ Hs). split; [done|lia].
Qed.

(** Saving any other new event fails and leaves the tables alone. *)
Lemma Save_not_savable e c r c' :
  db_ok (tables c) → events (tables c) !! Offset e = None → ¬ savable (tables c) e →
  Save e c = (r, c') → tables c' = tables c ∧ ∃ err, r = Err err.
Proof.
  intros Hok Hnew Hbad Hs.
  destruct (Save_cases e c r c' Hok Hs) as [(_ & Ht & Hok' & _)|[(row & Hr & _)|?]]; [|congruence|done].
  exfalso. rewrite Ht in Hok'. by apply Hbad, applied_savable.
Qed.

(** Whether an event is savable only depends on the heads, which only grow. *)
Lemma savable_antitone d d' e :
  (∀ u, head_seq d u ≤ head_seq d' u)%Z → savable d' e → savable d e.
Proof. intros Hle Hs. eapply Forall_impl; [exact Hs|]. intros u [Hu Hb]. specialize (Hle u). split; [done|lia]. Qed.
End Savable.

(** * The consumer *)

Section Blocked.
Context `{GoRange} `{Json} `{MySQL} (midnight : Z → Z) (now : Z) (text : sql_error → string).
Context (canceled : sql_error → bool) (s : storage).
#[local] Instance poison_es : IEventStore conn sql_error := eventStore_IEventStore midnight now text.
Implicit Types (w : world conn).

(** Calls other than [Save] store no event. *)
Lemma es_call_effect c c' :
  db_ok (tables c) → es_call c c' →
  db_ok (tables c') ∧ (∀ u, head_seq (tables c) u ≤ head_seq (tables c') u)%Z ∧
  (∀ k, events (tables c) !! k = None → events (tables c') !! k = None).
Proof.
  intros Hok Hcall. assert (Hstep : store_step c c') by (destruct Hcall; simpl in *; econstructor; eassumption).
  split_and!; [by apply (store_step_db_ok c)| |].
  - intros u. by eapply (store_step_rows c c' u 0 {| ue_create_time := 0; ue_read_state := 0; ue_topic_offset := 0 |}).
  - intros k Hk. destruct Hcall as [uid req c|uid days req c r c' Hr|uid seq c|uid days req c|days c]; simpl in *.
    + by rewrite (GetEvents_tables uid req c _ _ (surjective_pairing _)).
    + by rewrite (GetReadStates_tables _ _ _ _ _ _ _ _ Hr).
    + unfold SetRead. rewrite tx_bind_ret_snd.
      destruct (withTx_single (setReadSQL uid seq) (λ n, bool_decide (n = 1)%Z) c) as [->| ->]; [done|].
      unfold setReadSQL. repeat case_match; done.
    + by rewrite (Stats_tables midnight now uid days req c _ _ (surjective_pairing _)).
    + destruct (withTx_single (cleanEventsSQL (unix (GetDayBefore midnight now days))) wrap32 c) as [Ht|Ht];
        unfold DeleteOutdatedEvents; rewrite Ht; [done|]. simpl. by rewrite map_lookup_filter, Hk.
Qed.

(** The loop is stuck at [e], or the process stops. *)
Record blocked (msg : kafka_Message) (e : store_Event) w : Prop := {
  bl_ok : db_ok (tables (w_store w));
  bl_new : events (tables (w_store w)) !! Offset e = None;
  bl_bad : ¬ savable (tables (w_store w)) e;
  bl_pc : w_pc w = Saving msg e ∨ w_pc w = Exited ∨ ∃ why, w_pc w = Panicked why
}.

Lemma blocked_store msg e c' w :
  blocked msg e w → es_call (w_store w) c' → blocked msg e (with_store c' w).
Proof.
  intros [Hok Hnew Hbad Hpc] Hcall. destruct (es_call_effect _ _ Hok Hcall) as (Hok' & Hle & Hev).
  split; simpl; [done|by apply Hev|intros Hs; by apply Hbad; eapply savable_antitone|done].
Qed.

Lemma blocked_step msg e w w' :
  blocked msg e w → storage_step canceled s w w' → blocked msg e w' ∧ w_trace w' = w_trace w.
Proof.
  intros Hb Hs. destruct Hs as [i w|t w|w _|c' w Hcall].
  - pose proof Hb as [Hok Hnew Hbad Hpc]. unfold consume_step. destruct Hpc as [Hpc|[Hpc|[why Hpc]]]; rewrite Hpc; [|done|done].
    unfold consume_save. simpl. destruct (Save e (w_store w)) as [r c'] eqn:Hsave.
    destruct (Save_not_savable e _ r c' Hok Hnew Hbad Hsave) as (Ht & err & ->).
    assert (Hgen : ∀ w1, w_store w1 = c' → (w_pc w1 = Saving msg e ∨ w_pc w1 = Exited ∨ ∃ why, w_pc w1 = Panicked why) →
      blocked msg e w1) by (intros w1 Hw1 Hp; split; rewrite ?Hw1, ?Ht; done).
    destruct (canceled err); [split; [apply Hgen; simpl; auto|done]|].
    destruct (IsDupKeyError err); [split; [apply Hgen; simpl; eauto|done]|].
    unfold retry. destruct (in_done i); (split; [apply Hgen; simpl; auto|done]).
  - unfold sendLoop_tick. destruct (cache_check t (w_cache w)) as [c o]. split; [by destruct Hb|done].
  - split; [|done]. apply blocked_store; [done|apply esc_Delete].
  - split; [by apply blocked_store|done].
Qed.

Lemma blocked_run msg e w w' :
  rtc (storage_step canceled s) w w' → blocked msg e w → blocked msg e w' ∧ w_trace w' = w_trace w.
Proof.
  induction 1 as [w|w1 w2 w3 Hs _ IH]; intros Hb; [done|].
  destruct (blocked_step msg e w1 w2 Hb Hs) as [Hb2 <-]. by apply IH.
Qed.
End Blocked.

(** * Properties *)

(** C19: one message can stop the delivery for everybody. When a browser sends a
    message with a recipient that the tables do not take (a negative user id, or
    one whose numbers are used up), the hub routes it, the leader writes it to the
    topic, the consumer decodes it; from then on, whatever Kafka, the server and
    the other goroutines do, the consumer saves and commits no message any more:
    it tries this one again until the process ends. The tables still do not have
    the event, so the next process that fetches the message ends up the same. *)
Theorem poison_message_blocks text `{GoRange} `{MySQL} midnight now errtext canceled {K} `{IKafkaWriter K}
    conf uid frame st res st' m k k' clean days limit :
  let es := eventStore_IEventStore midnight now errtext in
  recvLoop_body (H := go_client_json text) (H0 := es) conf uid (Frame true frame) st = Ret (res, st') →
  rr_route res = Some m → (0 < days ≤ 106751)%Z →
  saveE2eMsg (H := go_json text) (Some k) m limit = Ret (None, k') →
  ∃ value k2, WriteMessages value k = (None, k2) ∧ k' = Some k2 ∧
    ∀ km w i w', km_Value km = value → in_fetch i = Ok km → (in_now i - km_Time km ≤ max_age clean days)%Z →
      w_pc w = Fetching → db_ok (tables (w_store w)) → events (tables (w_store w)) !! km_Offset km = None →
      ¬ savable (tables (w_store w)) (event_of_msg km m) →
      let s := newStorage clean days limit in
      rtc (storage_step (H0 := go_json text) (H1 := es) canceled s)
        (consume_step (H0 := go_json text) (H1 := es) canceled s i w) w' →
      w_trace w' = w_trace w ∧
      (w_pc w' = Saving km (event_of_msg km m) ∨ w_pc w' = Exited ∨ ∃ why, w_pc w' = Panicked why) ∧
      db_ok (tables (w_store w')) ∧ events (tables (w_store w')) !! km_Offset km = None ∧
      ¬ savable (tables (w_store w')) (event_of_msg km m).
Proof.
  intros es Hr Hm Hd Hs.
  destruct (saveE2eMsg_roundtrip (H := go_json text) k k' m clean days limit) as (value & k2 & Hw & Hk & Hdec); [|done|done|].
  { intros value [= <-]. simpl. by rewrite (routed_roundtrip _ _ _ _ _ _ _ _ Hr Hm). }
  exists value, k2. split_and!; [done..|]. intros km w i w' Hkm Hfetch Hage Hpc Hok Hnew Hbad s Hrun.
  assert (Hstep : consume_step (H0 := go_json text) (H1 := es) canceled s i w =
    with_pc (Saving km (event_of_msg km m)) (with_sleep 0 w)).
  { unfold consume_step, consume_fetch. by rewrite Hpc, Hfetch, Hdec. }
  rewrite Hstep in Hrun.
  apply (blocked_run _ _ _ _ _ km (event_of_msg km m)) in Hrun as [[Hok' Hnew' Hbad' Hpc'] Ht]; [done|].
  split; simpl; auto.
Qed.

(** * Examples *)

Section Examples.
#[local] Existing Instance canonical_range.
#[local] Existing Instance good_server.

(** A browser sends "hi" to user -1. *)
Definition poison_evt : pb_E2EMsg := {|
  E2EMsg_Type := "a/b/c"; E2EMsg_From := 3; E2EMsg_To := [(-1)%Z]; E2EMsg_Body := "hi"; E2EMsg_Props := ∅ |}.

Definition poison_frame : string := of_bytes (print (JObj [(to_bytes "im", json_of_E2EMsg poison_evt)])).

Definition poison_km : kafka_Message := {| km_Offset := 9; km_Time := 1700000000000000000; km_Value := E2EMsg_to_json poison_evt |}.

Definition poison_input : input := ex_input (Ok poison_km) None.

Definition poison_run (n : nat) : world conn :=
  let es := eventStore_IEventStore (λ t, t) 0 (λ _, "") in
  Nat.iter n (consume_step (H0 := go_json (λ _, "")) (H1 := es) is_canceled
    (newStorage true 30 eventPayloadMaxBytes) poison_input) (world_init conn0).

Lemma poison_run_reach n :
  rtc (storage_step (H0 := go_json (λ _, "")) (H1 := eventStore_IEventStore (λ t, t) 0 (λ _, "")) is_canceled
    (newStorage true 30 eventPayloadMaxBytes)) (poison_run 1) (poison_run (S n)).
Proof.
  induction n as [|n IH]; [done|]. eapply rtc_r; [exact IH|]. apply (ss_consume _ _ poison_input).
Qed.

Lemma poison_message_blocks_witness :
  w_pc (poison_run 20) = Saving poison_km (event_of_msg poison_km poison_evt) ∧ w_trace (poison_run 20) = [].
Proof.
  split; [vm_compute; reflexivity|].
  destruct (poison_message_blocks (λ _, "") (λ t, t) 0 (λ _, "") is_canceled (K := list string) (H1 := ex_writer)
    chat_conf 3 poison_frame conn0 {| rr_append := []; rr_route := Some poison_evt; rr_return := false |} conn0
    poison_evt [] (Some [E2EMsg_to_json poison_evt]) true 30 eventPayloadMaxBytes)
    as (value & k2 & Hw & Hk & Hblock); [vm_compute; reflexivity|reflexivity|lia|vm_compute; reflexivity|].
  injection Hw as <-. injection Hk as Hk.
  apply (Hblock poison_km (world_init conn0) poison_input (poison_run 20));
    [exact Hk|reflexivity|vm_compute; discriminate|reflexivity|apply db_empty_ok|reflexivity| |apply poison_run_reach].
  intros Hs. apply Forall_cons in Hs as [[[Hneg _] _] _]. vm_compute in Hneg. by apply Hneg.
Defined.
End Examples.
