(* ===== verification/Assembly.v ===== *)
(** How a process is put together: the constructors of [cluster/cluster.go],
    [cluster/client.go] and [cluster/standalone.go] applied to the configuration
    that [main.run] computes, and the way from an HTTP request to a session
    ([ws/hub.go]: [getRemoteIP], [ServeHTTP]). *)

From Stdlib Require Import Ascii ZArith Lia.
From stdpp Require Import base option list numbers gmap strings pretty relations.
From S2P Require Import Prelude Proto EventStore EventApi SessionStore Storage PushServer Standalone Hub Cluster GoLib Main.

(** * Requests *)

(** What the server reads of an [http.Request]. *)
Record http_Request := {
  Header_Get : string → string;     (* [r.Header.Get], "" when the header is absent *)
  Cookie_x_uid : option string;
  RemoteAddr : string
}.

(** The loop of [getRemoteIP]: the last entry that is not empty. *)
Definition last_entry (ip : string) (slice : list string) : string :=
  foldl (λ ip x, if bool_decide (x = "") then ip else x) ip slice.

Definition getRemoteIP (r : http_Request) : string :=
  let ip := Header_Get r "X-REAL-IP" in
  let ip :=
    if bool_decide (ip = "") then
      let ips := Header_Get r "X-FORWARDED-FOR" in
      if bool_decide (ips = "") then ip else last_entry ip (split_comma [] (to_bytes ips))
    else ip in
  if bool_decide (ip = "") then
    match SplitHostPort (RemoteAddr r) with Ok (host, _) => host | Err _ => "" end
  else ip.

(** [strings.ReplaceAll(s, "-", "")] *)
Definition strip_dashes (s : string) : string :=
  of_bytes (filter (λ c, c ≠ "-"%char) (to_bytes s)).

(** [Hub.ServeHTTP] on a request, with the mock authentication; [uuid] is the
    result of [uuid.New()]. *)
Definition serve_request (r : http_Request) (upgrade : bool) (uuid : string) (now : Z) (h : Hub)
    : serve_result * Hub :=
  ServeHTTP (Auth (Cookie_x_uid r)) upgrade (strip_dashes uuid) (getRemoteIP r) now h.

(** * Constructors *)

Section Assembly.
(** [kafka.NewWriter] for the brokers and the topic. *)
Context {K : Type} (NewWriter : list string → string → K).

Definition new_writer (conf : ClusterCfg) : option K :=
  if Cfg_EnableClientMsg conf then Some (NewWriter (KafkaBrokers conf) (KafkaTopic conf)) else None.

Record Cluster := {
  hubId : string;
  cl_conf : ClusterCfg;
  cl_kafkaWriter : option K;
  pushGrpcServer : option (pushServer K)
}.

Definition NewCluster (conf : ClusterCfg) : Cluster := {|
  hubId := cluster_hubId conf; cl_conf := conf; cl_kafkaWriter := new_writer conf;
  pushGrpcServer :=
    if RunLeader conf
    then Some (newPushServer (new_writer conf) (SessionQuota conf) (EventPayloadMaxBytes conf))
    else None |}.

(** The storage that [runLeader] and [NewStandalone] create. *)
Definition conf_storage (conf : ClusterCfg) : storage :=
  newStorage (CleanEvents conf) (EventTTLDays conf) (EventPayloadMaxBytes conf).

Definition conf_Standalone (conf : ClusterCfg) (h : heap) : Standalone K :=
  NewStandalone (new_writer conf) (Cfg_EnableClientMsg conf) (SessionQuota conf) (EventPayloadMaxBytes conf) h.

(** [newClient]: dialling fails with a panic, opening the stream with an error;
    the stream carries the hub id in its metadata. *)
Record client := { client_addr : string; client_md : gmap string (list string) }.

Definition newClient (dial : string → bool) (route : string → option string) (leaderAddr hub : string)
    : go (result string client) :=
  if negb (dial leaderAddr) then Panic "abort due to dial leader error"
  else match route leaderAddr with
  | Some err => Ret (Err ("error call client.Route: " +:+ err))
  | None => Ret (Ok {| client_addr := leaderAddr; client_md := {["x-hub-id" := [hub]]} |})
  end.

(** The part of [runClient] before [start]. *)
Definition runClient_connect (dial : string → bool) (route : string → option string) (c : Cluster) : go client :=
  let! r := newClient dial route (client_leader (cl_conf c)) (hubId c) in
  match r with
  | Ok cl => Ret cl
  | Err err => Panic ("failed to create client: " +:+ err)
  end.
End Assembly.
Arguments hubId {K} _.
Arguments cl_conf {K} _.
Arguments cl_kafkaWriter {K} _.
Arguments pushGrpcServer {K} _.

(** ** The head of [Run] *)

(** How [httpServer.Serve] returns. *)
Inductive serve_end := ServerClosed | ServeError (err : string) | ServeNil.

(** [net.Listen]; the panic of any goroutine ends the process. *)
Definition Run_listen (addr : string) (err : option string) : go unit :=
  match err with
  | Some e => Panic ("listen " +:+ addr +:+ " error: " +:+ e)
  | None => Ret tt
  end.

(** The goroutine of the HTTP server in both implementations. *)
Definition Cluster_serve (r : serve_end) : go unit :=
  match r with ServeError e => Panic ("http Serve error: " +:+ e) | _ => Ret tt end.
Definition Standalone_serve (r : serve_end) : go unit :=
  match r with ServeError e => Panic ("error serve http mux server: " +:+ e) | _ => Ret tt end.

Inductive role := LeaderRole | FollowerRole.

#[export] Instance role_eq_dec : EqDecision role.
Proof. solve_decision. Defined.

(** The goroutines that [Cluster.Run] starts for its roles. *)
Definition Cluster_Run_roles (conf : ClusterCfg) : list role :=
  (if RunLeader conf then [LeaderRole] else []) ++ (if RunFollower conf then [FollowerRole] else []).

Definition Cluster_Run_start (listen : string → option string) (conf : ClusterCfg) : go (list role) :=
  let! _ := Run_listen (Addr conf) (listen (Addr conf)) in
  Ret (Cluster_Run_roles conf).

(** A message for Kafka as the stream of a follower carries it. *)
Definition wire_E2EMsg (m : pb_E2EMsg) : pb_FollowerMsg pb_Session := {|
  SessionOnline := None; SessionOffline := ""; SyncSessions := [];
  FollowerMsg_ServerShutdown := false; FollowerMsg_E2EMsg := Some m |}.

(** * Lemmas *)

Lemma last_entry_spec ip slice :
  last_entry ip slice = default ip (last (filter (λ x, x ≠ "") slice)).
Proof.
  revert ip. induction slice as [|x slice IH]; intros ip; [done|]. unfold last_entry in *. simpl. rewrite IH.
  rewrite filter_cons. case_bool_decide; [by rewrite decide_False by tauto|]. rewrite decide_True by done.
  rewrite last_cons. by destruct (last _).
Qed.

Lemma strip_dashes_none s : "-"%char ∉ to_bytes (strip_dashes s).
Proof.
  unfold strip_dashes. rewrite Stdlib.Strings.String.list_ascii_of_string_of_list_ascii.
  by intros [? _]%list_elem_of_filter.
Qed.

(** The address of the client that the session records: the proxy's header, the
    last entry of the forwarding list, or the peer of the connection. *)
Definition client_ip (r : http_Request) : string :=
  if bool_decide (Header_Get r "X-REAL-IP" = "") then
    match last (filter (λ x, x ≠ "") (split_comma [] (to_bytes (Header_Get r "X-FORWARDED-FOR")))) with
    | Some x => x
    | None => match SplitHostPort (RemoteAddr r) with Ok (host, _) => host | Err _ => "" end
    end
  else Header_Get r "X-REAL-IP".

Lemma getRemoteIP_spec r : getRemoteIP r = client_ip r.
Proof.
  unfold getRemoteIP, client_ip. cbv zeta. destruct (decide (Header_Get r "X-REAL-IP" = "")) as [Hr|Hr].
  2:{ rewrite (bool_decide_eq_false_2 _ Hr). by rewrite (bool_decide_eq_false_2 _ Hr). }
  rewrite (bool_decide_eq_true_2 _ Hr), Hr. destruct (decide (Header_Get r "X-FORWARDED-FOR" = "")) as [Hf|Hf].
  { by rewrite Hf. }
  rewrite (bool_decide_eq_false_2 _ Hf), last_entry_spec. destruct (last _) as [x|] eqn:Hl; [|done]. simpl.
  rewrite bool_decide_eq_false_2; [done|]. apply last_Some in Hl as [l' Hl].
  assert (Hx : x ∈ l' ++ [x]) by set_solver. rewrite <-Hl in Hx. by apply list_elem_of_filter in Hx as [? _].
Qed.

(** ** The writer of a process *)

Section Writers.
Context `{GoRange} `{GrpcStreams} `{Json} {K : Type} `{IKafkaWriter K}.

(** [s'] has a writer exactly when [s] has one, and the same limit. *)
Definition same_writer (s s' : pushServer K) : Prop :=
  (is_Some (kafkaWriter s') ↔ is_Some (kafkaWriter s)) ∧ eventMaxSize s' = eventMaxSize s.

Lemma same_writer_refl s : same_writer s s.
Proof. done. Qed.

Lemma same_writer_trans s1 s2 s3 : same_writer s1 s2 → same_writer s2 s3 → same_writer s1 s3.
Proof. intros [H1' ?] [H2' ?]. split; [by rewrite H2'|congruence]. Qed.

Lemma pushToFollower_writer hub stream msg (s : pushServer K) : same_writer s (pushToFollower hub stream msg s).2.
Proof. unfold pushToFollower. destruct (Send _ _ _) as [err|]; [destruct (stream_gone err)|]; done. Qed.

Lemma kickoff_loop_writer now targets sessions streams (s s' : pushServer K) :
  kickoff_loop now targets sessions streams s = Ret s' → same_writer s s'.
Proof.
  revert s. induction streams as [|[hub stream] streams IH]; intros s; simpl; [by intros [= <-]|].
  destruct (targets !! hub) as [sids|]; [|apply IH].
  pose proof (pushToFollower_writer hub stream (LeaderMsg_of_Kickoff sids) s) as Hp.
  destruct (pushToFollower _ _ _ _) as [ok s1]. destruct (stamp_kickoff _ _ _ _) as [h1|]; [|done]. simpl.
  intros Hr%IH. eapply same_writer_trans; [exact Hp|exact Hr].
Qed.

Lemma kickoff_if_any_writer now sessions (s s' : pushServer K) :
  kickoff_if_any now sessions s = Ret s' → same_writer s s'.
Proof. unfold kickoff_if_any. case_bool_decide; [apply kickoff_loop_writer|by intros [= <-]]. Qed.

Lemma saveE2eMsg_writer (w : option K) m limit r w' :
  saveE2eMsg w m limit = Ret (r, w') → is_Some w' ↔ is_Some w.
Proof.
  unfold saveE2eMsg. destruct (json_Marshal m); [|by intros [= _ <-]].
  case_bool_decide; [by intros [= _ <-]|]. destruct w as [k|]; [|done].
  destruct (WriteMessages _ k) as [[err|] k']; by intros [= _ <-].
Qed.

Lemma Route_msg_writer now hub msg b (s s' : pushServer K) :
  Route_msg now hub msg s = Ret (b, s') → same_writer s s'.
Proof.
  unfold Route_msg. destruct (SessionOnline msg) as [v|].
  { destruct (receive_session v _) as [l h].
    destruct (SessionStore_getUserSessionsToKickoff _ _ _ _) as [m|]; [|done]. simpl.
    destruct (kickoff_if_any _ _ _) as [s1|] eqn:Hk; [|done]. intros [= _ <-]. by apply kickoff_if_any_writer in Hk. }
  case_bool_decide; simpl; [|by intros [= _ <-]].
  case_bool_decide; [destruct (receive_sessions _ _); by intros [= _ <-]|].
  destruct (FollowerMsg_E2EMsg msg) as [v|]; [|destruct (FollowerMsg_ServerShutdown msg); [by intros [= _ <-]|done]].
  destruct (saveE2eMsg _ _ _) as [[r w]|] eqn:Hs; [|done]. intros [= _ <-]. split; [|done].
  by apply saveE2eMsg_writer in Hs.
Qed.

Lemma server_step_writer (s s' : pushServer K) : server_step s s' → same_writer s s'.
Proof.
  destruct 1 as [md stream hub s s' Hr|now hub msg b s s' Hr|hub s|msg s|t now s s' Hr|s]; [|by eapply Route_msg_writer|done| | |done].
  - unfold Route_open in Hr. case_bool_decide; [done|]. by injection Hr as _ <-.
  - unfold run_push. generalize (range 25 (copyStreams s)). intros l. revert s.
    induction l as [|[hub stream] l IH]; intros s; simpl; [done|].
    eapply same_writer_trans; [apply (pushToFollower_writer hub stream msg)|apply IH].
  - unfold cleanSession_tick in Hr. destruct (SessionStore_gc _ _ _ _ _) as [r|]; [|done]. simpl in Hr.
    by apply kickoff_if_any_writer in Hr.
Qed.

Lemma server_reach_writer (s s' : pushServer K) : rtc server_step s s' → same_writer s s'.
Proof. induction 1; [done|]. eapply same_writer_trans; [by apply server_step_writer|done]. Qed.

(** [saveE2eMsg] panics exactly without a writer, on a message within the limit. *)
Lemma saveE2eMsg_panics (w : option K) m limit :
  (∃ why, saveE2eMsg w m limit = Panic why) ↔
  w = None ∧ ∃ value, json_Marshal m = Ok value ∧ (Z.of_nat (String.length value) ≤ limit)%Z.
Proof.
  unfold saveE2eMsg. destruct (json_Marshal m) as [value|err]; [|naive_solver].
  case_bool_decide as Hl.
  { split; [naive_solver|]. intros (_ & v & [= <-] & ?). lia. }
  destruct w as [k|].
  - split; [|naive_solver]. intros [why Hw]. by destruct (WriteMessages value k) as [[]].
  - split; [|naive_solver]. intros _. split; [done|]. exists value. split; [done|lia].
Qed.

(** ** The standalone server *)

(** A turn of [Standalone.Run]. *)
Inductive alone_step : Standalone K → Standalone K → Prop :=
| as_msg now msg b s s' : Run_msg now msg s = Ret (b, s') → alone_step s s'
| as_tick t now s s' : Run_tick t now s = Ret s' → alone_step s s'.

Lemma kickoff_any_writer now l (s : Standalone K) :
  st_kafkaWriter (Standalone_kickoff_if_any now l s) = st_kafkaWriter s.
Proof.
  unfold Standalone_kickoff_if_any, Standalone_kickoff. case_bool_decide; [|done].
  by destruct (kickoff_sids _ _ _ _).
Qed.

Lemma alone_step_writer (s s' : Standalone K) :
  alone_step s s' → is_Some (st_kafkaWriter s') ↔ is_Some (st_kafkaWriter s).
Proof.
  destruct 1 as [now msg b s s' Hr|t now s s' Hr].
  - unfold Run_msg in Hr. destruct (SessionOnline msg) as [v|].
    { destruct (Standalone_getUserSessionsToKickoff _ _) as [l|]; [|done]. simpl in Hr. injection Hr as _ <-.
      by rewrite kickoff_any_writer. }
    case_bool_decide; simpl in Hr; [|by injection Hr as _ <-].
    case_bool_decide; [by injection Hr as _ <-|].
    destruct (FollowerMsg_E2EMsg msg) as [v|]; [|destruct (FollowerMsg_ServerShutdown msg); [by injection Hr as _ <-|done]].
    destruct (saveE2eMsg _ _ _) as [[r w]|] eqn:Hs; [|done]. injection Hr as _ <-. by apply saveE2eMsg_writer in Hs.
  - unfold Run_tick, cleanSession in Hr. simpl in Hr. destruct (cleanSession_kickoff _ _ _ _) as [l|]; [|done].
    injection Hr as <-. by rewrite kickoff_any_writer.
Qed.

Lemma alone_reach_writer (s s' : Standalone K) :
  rtc alone_step s s' → is_Some (st_kafkaWriter s') ↔ is_Some (st_kafkaWriter s).
Proof. induction 1 as [|s1 s2 s3 Hs _ IH]; [done|]. rewrite IH. by apply alone_step_writer. Qed.
End Writers.

(** * Properties *)

(** From a request to a session. A hub that is not connected answers 503 and
    a request without a valid user id 403, with nothing changed; a failed upgrade
    changes nothing either. Otherwise the request gets a new handler with an empty
    channel, registered under a new session of the user of its cookie, with the
    dashes of the generated id removed and the address that the proxy headers or
    the connection give, and the leader is told about exactly this session. *)
Theorem request_opens_session r upgrade uuid now h :
  let '(res, h') := serve_request r upgrade uuid now h in
  match res with
  | ServeStatus code => h' = h ∧ code = (if online h then 403 else 503)%Z ∧
      (online h = true → Auth (Cookie_x_uid r) = None)
  | UpgradeFailed => h' = h ∧ online h = true ∧ upgrade = false
  | Serving l => online h = true ∧ upgrade = true ∧
      ∃ uid sl, Auth (Cookie_x_uid r) = Some uid ∧ hobjs h !! l = None ∧ hsess h !! sl = None ∧
        hobjs h' = <[l := new_handler sl]> (hobjs h) ∧
        hsess h' = <[sl := {| HubId := ""; Uid := uid; Sid := strip_dashes uuid; Ip := client_ip r;
                              CreateTime := now; KickoffTime := 0 |}]> (hsess h) ∧
        handlers h' = <[strip_dashes uuid := l]> (handlers h) ∧
        followerC h' = followerC h ++ [FollowerMsg_of_Online sl]
  end.
Proof.
  unfold serve_request. rewrite getRemoteIP_spec. unfold ServeHTTP. destruct (online h) eqn:Ho; simpl; [|done].
  destruct (Auth (Cookie_x_uid r)) as [uid|]; [|done]. destruct upgrade; simpl; [|done].
  split; [done|]. split; [done|]. exists uid, (fresh (dom (hsess h))).
  unfold addHandler, HandlerStore_add, handler_session. simpl. rewrite lookup_insert_eq. simpl.
  rewrite lookup_total_insert_eq. simpl. split_and!; try done; apply not_elem_of_dom, is_fresh.
Qed.

Section Properties.
Context `{GoRange} `{GrpcStreams} `{Json} {K : Type} `{IKafkaWriter K} (NewWriter : list string → string → K).

(** C37: when a client message crashes the server. In every state of the leader of
    a cluster, a message that a hub forwards makes [Route] panic exactly when the
    leader was started without client messages and the message is within the
    size limit; whether the hub accepts client messages is a flag of another
    process. A standalone server, where one flag decides both, never panics on a
    message that its hub has routed. *)
Theorem client_message_crash conf s0 s now hub m :
  (pushGrpcServer (NewCluster NewWriter conf) = Some s0 → rtc server_step s0 s →
   (∃ why, Route_msg now hub (wire_E2EMsg m) s = Panic why) ↔
   Cfg_EnableClientMsg conf = false ∧
   ∃ value, json_Marshal m = Ok value ∧ (Z.of_nat (String.length value) ≤ EventPayloadMaxBytes conf)%Z) ∧
  (∀ `{ClientJson} {S E} `{IEventStore S E} wsconf uid rd st res st' objs a t why,
     EnableClientMsg wsconf = Cfg_EnableClientMsg conf →
     recvLoop_body wsconf uid rd st = Ret (res, st') → rr_route res = Some m →
     rtc alone_step (conf_Standalone NewWriter conf objs) a →
     Run_msg t (FollowerMsg_of_E2EMsg m) a ≠ Panic why).
Proof.
  split.
  - intros Hs0 [Hw Hmax]%server_reach_writer. unfold NewCluster in Hs0. simpl in Hs0.
    destruct (RunLeader conf); [|done]. injection Hs0 as <-. simpl in Hw, Hmax.
    unfold Route_msg. simpl. rewrite <-Hmax.
    transitivity (∃ why, saveE2eMsg (kafkaWriter s) m (eventMaxSize s) = Panic why).
    { destruct (saveE2eMsg _ _ _); simpl; naive_solver. }
    rewrite saveE2eMsg_panics. f_equiv. rewrite eq_None_not_Some, Hw. unfold new_writer.
    destruct (Cfg_EnableClientMsg conf); split; try done. by intros [].
  - intros HC S E HE wsconf uid rd st res st' objs a t why Hflag Hb Hm Hr.
    destruct (rk_route _ _ _ (recvLoop_body_reply_ok _ _ _ _ _ _ Hb)) as [Hen _]; [by rewrite Hm|].
    rewrite Hflag in Hen. apply alone_reach_writer in Hr as Hw.
    unfold Run_msg. simpl. destruct (saveE2eMsg (st_kafkaWriter a) m _) as [r|w] eqn:Hs; [done|]. exfalso.
    destruct (proj1 (saveE2eMsg_panics (st_kafkaWriter a) m (conf_EventPayloadMaxBytes a))) as [Hn _]; [eauto|].
    rewrite Hn in Hw. assert (is_Some (@None K)) as [? ?]; [|done]. apply Hw. unfold conf_Standalone, NewStandalone, new_writer.
    simpl. by rewrite Hen.
Qed.

(** A started process is put together consistently. Whatever flags [run]
    accepts, the hub announces the payload limit that the consumer, the push
    server and the standalone server enforce, the hub and the configuration agree
    on client messages, and a client that gets through to a leader presents its
    own hub id, so that the leader's [Route] accepts the stream. A cluster node
    whose address is free starts at least one role, so that its [Run] has
    something to wait for. *)
Theorem started_process_consistent env stat_ok mkdir_ok open_ok f pid fs alone conf cc fs' :
  run env stat_ok mkdir_ok open_ok f pid fs = (Running alone conf cc, fs') →
  let c := NewCluster NewWriter cc in
  EnableClientMsg conf = Cfg_EnableClientMsg cc ∧
  MaxMsgSize conf = valueMaxBytes (conf_storage cc) ∧
  (∀ s, pushGrpcServer c = Some s → eventMaxSize s = MaxMsgSize conf ∧ sessionQuota s = SessionQuota cc) ∧
  (∀ h, conf_EventPayloadMaxBytes (conf_Standalone NewWriter cc h) = MaxMsgSize conf) ∧
  (∀ dial route cl stream (s : pushServer K), runClient_connect dial route c = Ret cl →
     Route_open (client_md cl !! "x-hub-id") stream s = Ret (hubId c, addStream (hubId c) stream s)) ∧
  (∀ listen, alone = false → listen (Addr cc) = None →
     ∃ roles, Cluster_Run_start listen cc = Ret roles ∧ roles ≠ []).
Proof.
  unfold run. case_bool_decide as Hv; [done|]. destruct (savePid _ _ _ _) as [[[]|e] fs1]; [|done].
  destruct mkdir_ok, open_ok; simpl; try done. intros [= <- <- <- <-].
  split_and!; [done|done| |done| |].
  - intros s. destruct (RunLeader _); [|done]. by intros [= <-].
  - intros dial route cl stream s. unfold runClient_connect, newClient. simpl.
    destruct (dial _); simpl; [|done]. destruct (route _); simpl; [done|]. intros [= <-]. simpl.
    unfold Route_open. rewrite lookup_singleton_eq. rewrite bool_decide_eq_false_2; [done|].
    unfold cluster_hubId. simpl. by destruct (flagAddr f).
  - intros listen Halone Hl. unfold Cluster_Run_start. rewrite Hl. simpl. eexists. split; [done|].
    unfold Cluster_Run_roles. simpl.
    destruct (validateFlags_0 stat_ok f) as (_ & _ & _ & _ & _ & Hrole); [destruct (validateFlags_code stat_ok f); lia|].
    destruct (Hrole Halone) as [->|[-> _]]; [done|by destruct (flagLeader f)].
Qed.
End Properties.

(** * Examples *)

Section Examples.
#[local] Existing Instance canonical_range.
#[local] Existing Instance ex_streams.
#[local] Existing Instance ex_json.
#[local] Existing Instance ex_writer.

Definition no_messages (brokers : list string) (topic : string) : list string := [].

Example getRemoteIP_examples :
  let r real fwd := {| Header_Get := λ k, if bool_decide (k = "X-REAL-IP") then real else fwd;
                       Cookie_x_uid := Some "7"; RemoteAddr := "10.1.1.1:4000" |} in
  getRemoteIP (r "1.2.3.4" "5.6.7.8") = "1.2.3.4" ∧
  getRemoteIP (r "" "5.6.7.8,10.0.0.1,") = "10.0.0.1" ∧
  getRemoteIP (r "" "") = "10.1.1.1".
Proof. vm_compute. split_and!; reflexivity. Qed.

(** A leader without client messages, and a follower that has them. *)
Lemma client_message_crash_witness :
  ∃ why, Route_msg (λ _, 0%Z) "hub" (wire_E2EMsg ex_msg)
    (newPushServer (K := list string) None 5 4096) = Panic why.
Proof.
  destruct (client_message_crash no_messages (ex_conf true false) (newPushServer None 5 4096) (newPushServer None 5 4096)
    (λ _, 0%Z) "hub" ex_msg) as [Hcrash _].
  apply Hcrash; [reflexivity|apply rtc_refl|]. split; [reflexivity|].
  exists "hi". split; [reflexivity|vm_compute; discriminate].
Defined.

Lemma started_process_consistent_witness :
  MaxMsgSize (hub_conf default_flags) = valueMaxBytes (conf_storage (cluster_cfg default_flags 42)).
Proof.
  apply (started_process_consistent no_messages (ex_env (λ _, false)) (λ _, true) true true default_flags 42 ∅ 
    (flagStandalone default_flags) (hub_conf default_flags) (cluster_cfg default_flags 42) {["minipush.pid" := "42"]}).
  vm_compute. reflexivity.
Defined.
End Examples.
